(* ===== verification/_CoqProject ===== *)
-Q . S2P
Prelude.v
Text.v
Ascii.v
Utf8.v
BTree.v
VtFilter.v
Screen.v
Tally.v
Wire.v
Sandbox.v
Seccomp.v
Session.v
Project.v
Harness.v
Plan.v
DaemonState.v
View.v
Jobs.v
Supervisor.v
Sessions.v
Effects.v
Git.v
Projects.v
Json.v
Serde.v
Rpc.v
Logs.v
PluginApi.v
Profiles.v
ProfileStore.v
Plugins.v
Usage.v
SessionTitle.v
SessionLog.v
Workspace.v
Console.v
EngineRpc.v
Wsl.v
Transport.v
Dispatch.v
Engine.v
Store.v
Tools.v
Stage.v
Report.v
Startup.v
Launch.v
Attach.v
Client.v
Output.v
Doctor.v
Cli.v
Pump.v
Config.v
Image.v
Tasks.v
App.v
Terminals.v
Control.v
Daemon.v
Shapes.v
Messages.v
Interop.v
