(* ===== verification/Prelude.v ===== *)
(** * Verification library for Willie

    Willie runs coding agents in a private WSL distribution.  On Windows a
    desktop application (apps/willie-app) drives an engine (willie-engine),
    which starts one daemon (willied) inside the distribution and speaks JSON
    lines with it over its standard streams.  The daemon keeps projects, jobs,
    sessions and plugins; each session is a supervisor process of its own
    (willie-sess), which holds the terminal, the event log and the sandbox of
    one harness, and which the command line (willie-cli) and the daemon reach
    over a Unix socket with the frames of willie-linux.  Shared data is in
    willie-core and willie-proto.  All file names below are under src/.

    ** Parts, files and sources

    Foundations: this file (tactics, hints, lists, options, saturating and
    checked arithmetic); [Text], [Ascii], [Utf8] and [BTree] (what the code
    uses of Rust's [str], [char] and [BTreeMap]); [Json] and [Rpc]
    ([serde_json::Value] and the envelopes of willie-proto/src/rpc.rs);
    [Effects] (a monad whose effects are recorded with their answers, before
    each of which the rest of the machine does as it likes).

    The supervisor (crates/willie-sess).
    - [VtFilter] (vt_filter.rs): every arm of the byte automaton is a handler;
      [filter] feeds a chunk.
    - [Screen] (screen.rs): the replay ring and the alternate-screen tracker.
    - [Tally] (tally.rs): [record] and [flush].
    - [Wire] (willie-linux/src/wire.rs): [encode], [push], [pop].
    - [Supervisor] (server.rs): the shared state, its handlers (log, screen
      and clients, refusals, stop ladder, end), each cut where it lets a lock
      go, what every thread still owes in between, and the writer's queue;
      [Client] composes the steps into a client's thread, with the command
      line's run at the other end of the socket; [Output] composes the pump,
      the ring, the queues and the command line's output loop.
    - [Sandbox] (willie-core/src/sandbox.rs), [Plan] (willie-linux/src/sandbox,
      the preparation of willie-sess/src/sandbox/mod.rs), [Seccomp] (the
      filter's program and the loop that answers it): the boundary as data.
    - [Stage] (sandbox/inner.rs, landlock.rs): the helper's stage, which
      applies that data before it becomes the harness; [Report] (the rest of
      sandbox/mod.rs, pty.rs): its one line, read by the supervisor.
    - [Startup] (main.rs, spec.rs, pty.rs): the start of a session from its
      spec to the one line of readiness, and its end; [Launch] (detach.rs,
      main.rs): the double fork around it and what the daemon hears.

    The daemon (crates/willied).
    - [Session], [Project] (willie-core): records, the event log and its fold,
      slugs, identifiers, drive paths; [Harness] (willie-harness).
    - [DaemonState] (state.rs), [Jobs] (jobs.rs): the maps and their numbered
      event stream, the workers as interleaved atomic actions.
    - [Sessions] (sessions.rs, shell.rs), [Control] (control.rs, the launch and
      the watch of sessions.rs), [SessionLog] (willie-sess/src/events.rs,
      session_store.rs), [SessionTitle] (session_title.rs).
    - [Projects], [Git] (projects.rs, git.rs), [Store] (store.rs), [Tools]
      (tools.rs, identity.rs, manifest.rs), [Workspace] (workspace.rs).
    - [PluginApi], [Plugins] (plugins.rs), [Profiles] and [ProfileStore]
      (willie-plugins/profiles), [Logs] and [Usage] (willie-plugins/usage).
    - [Dispatch] (handlers.rs, server.rs), [Daemon] (main.rs, outbound.rs).

    Windows and the command line.
    - [Console] (text.rs), [Transport] (process.rs), [EngineRpc] (rpc.rs), [Wsl] (wsl.rs,
      distro.rs, error.rs, prereqs.rs), [Engine] (daemon.rs, engine.rs,
      terminal.rs, identity.rs), [Config] (config.rs, discover.rs, paths.rs).
    - [Image] (xtask/src/distro.rs, paths.rs): pinning, fetching and building
      the distribution's image.
    - [App], [Pump], [Terminals] (apps/willie-app/src-tauri/src: lib.rs, state.rs,
      events.rs); [View] (apps/willie-app/src/lib/domain: state.ts,
      daemon-snapshot.ts): the webview's copy of the daemon's state.
    - [Attach] (willie-cli/src/attach.rs, willie-engine/src/embed.rs,
      willie-proto/src/hostterm.rs), [Cli] (main.rs, daemon_client.rs),
      [Doctor] (willie-linux/src/doctor.rs).
    - [Tasks] (xtask/src/main.rs, doctor.rs, refs.rs, linux.rs, test_linux.rs):
      the development tasks.

    Between the processes.
    - [Serde]: what a derived record reads and writes, from the names, defaults
      and omissions of its attributes, with the law that it reads back from any
      object that holds its fields.
    - [Shapes] (willie-core), [Messages] (willie-proto): every record that is
      written to disk or sent, as those attributes have it.
    - [Interop]: the engine's calls against the daemon's handlers, and the
      snapshot and its events against the client that reads them.

    ** How state and operations correspond

    A struct is a record with the same fields, an enum an inductive type with
    the same constructors; a method is a function from the state to the state
    (and its answer).  Results are [Ok] and [Err].  A [BTreeMap] is an ordered
    association list, so that iteration order is the code's; machine integers
    are [Z] or [N] with the code's saturation written out.  Threads of one
    process are interleaved atomic moves where their order matters ([Jobs],
    [EngineRpc], [Pump], [Daemon], the locked steps of the supervisor's
    threads); processes, files and system calls are effects of a computation of
    [Effects], and theorems about them are about the list of effects recorded,
    for every answer of the system and whatever others do in between.

    Code that is not in the repository is a parameter: the text of JSON and
    TOML, the ulid text form, git, wsl.exe, bubblewrap, the kernel, Windows paths, Tauri.
    Hypotheses about it are named where they are used and met by a concrete
    function in the witness.

    ** What the theorems show

    - The terminal: what the filter lets out is the token stream without the
      acting sequences, whatever the chunks; it never grows a chunk without
      bound; frames survive any cut of the stream; what a terminal that attaches
      late shows is a function of what the harness wrote and of when it joined,
      and what is typed in a terminal or in a tab of the window is what is
      written to its harness's terminal, all end to end through the processes,
      pipes and sockets between them.
    - The sandbox: the guard refuses exactly the paths its specification names,
      the plan binds no secret, the helper reads back the vector the plan
      wrote, the filter's program decides the policy on every call, the harness
      runs only after everything was applied and reported, and the report
      arrives with its listener.
    - Sessions: a start is answered once, the event log tells the session (its
      count of clients where no leaving is logged before the arrival), the
      daemon's creation fails closed, a followed session ends when its
      supervisor does, the session directories and the log that two processes
      append to hold the daemon's store, and the scan leaves no phantom.
    - The daemon: at most one job per project and every job ends; a snapshot
      with the events after it, read from JSON by a client of another version,
      is the state; what the engine calls is what the daemon does, with its
      answer or its error; a permission that is not known is refused;
      synchronisation pushes only what
      it checked and removal deletes only what is clean; requests are answered
      in order; one daemon serves a socket, and ends once nothing holds its
      writer.
    - Plugins: profiles back up before they write and converge on the settings
      they can read back; a workspace path stays inside.
    - Windows: a call gets its own reply, a request is sent at most once, no
      daemon the engine came to hold is left behind, one pump forwards the events once and in order,
      each command tells the state it left, and only a base that was verified
      by its digests becomes an image; the search for denylisted terms fails
      closed.

    ** Bounds and fuel

    Fuel stands for a loop the code bounds or that consumes its input: [pop_all]
    and [seek] have the length of the buffer, since a popped frame is never
    empty; the filter's program runs as many steps as it has instructions, its
    jumps being forward; [slug_for] as many as there are slugs taken, and one;
    the engine's polls the code's own counts.  The theorems are for enough fuel
    and show that it is enough ([Project.slug_for_fresh],
    [Seccomp.program_decides_policy]).  A read loop runs over the list of what
    its reads answer.

    ** Not modelled

    The raw mode and the signals of a terminal, the signal handlers of the
    supervisor: system calls with no logic of their own.  The spawning of a
    Windows process.  The registration of the commands with Tauri and the
    TypeScript interface, its copy of the state apart.  The text of JSON: what is sent is related as values.
    Code for tests only. *)

From Stdlib Require Export ZArith Lia ZifyBool.
From stdpp Require Export base tactics option list strings gmap numbers.
From stdpp Require Export fin_maps.

#[global] Set Default Goal Selector "!".

(** ** Results: the code's [Result<T, E>] *)

Inductive result (A E : Type) : Type :=
| Ok (a : A)
| Err (e : E).
Arguments Ok {A E} a.
Arguments Err {A E} e.

Declare Scope willie_scope.
Delimit Scope willie_scope with willie.

(** [let? x := r in k] is the [?] operator: the error of [r] is returned
    as it stands. *)
Notation "'let?' x ':=' r 'in' k" :=
  (match r with Ok x => k | Err e => Err e end)
  (at level 10, x pattern, r at level 100, k at level 200)
  : willie_scope.

Notation "'guard?' b 'else' e 'in' k" :=
  (if b then k else Err e)
  (at level 10, b at level 100, e at level 100, k at level 200)
  : willie_scope.

Definition is_ok {A E} (r : result A E) : bool :=
  match r with Ok _ => true | Err _ => false end.

Definition map_err {A E F} (f : E -> F) (r : result A E) : result A F :=
  match r with Ok a => Ok a | Err e => Err (f e) end.

Definition ok_or {A E} (e : E) (o : option A) : result A E :=
  match o with Some a => Ok a | None => Err e end.

(** ** Machine integers

    A [u8], [u16], [u32] or [u64] is a [Z] with its operations written at
    their width.  Release builds (the workspace's only shipped profile, with
    no [overflow-checks]) wrap plain additions. *)

Definition u16_max : Z := 65535.
Definition u32_max : Z := 4294967295.
Definition u64_max : Z := 18446744073709551615.

Definition wrap32 (z : Z) : Z := z mod 4294967296.
Definition wrap64 (z : Z) : Z := z mod 18446744073709551616.

Definition sat_add32 (x y : Z) : Z := Z.min u32_max (x + y).
Definition sat_mul32 (x y : Z) : Z := Z.min u32_max (x * y).
Definition sat_add64 (x y : Z) : Z := Z.min u64_max (x + y).
Definition sat_sub (x y : Z) : Z := Z.max 0 (x - y).

(** A byte is a [Z]; the code's range patterns are [in_range]. *)
Definition in_range (lo hi b : Z) : bool := (lo <=? b)%Z && (b <=? hi)%Z.

Definition is_byte (b : Z) : Prop := (0 <= b < 256)%Z.

(** ** Automation *)

(** Split every boolean test and match of the goal and the context. *)
Ltac split_bools :=
  repeat match goal with
  | H : (_ && _)%bool = true |- _ => apply andb_prop in H as [? ?]
  | H : (_ || _)%bool = false |- _ => apply orb_false_elim in H as [? ?]
  | H : negb _ = true |- _ => apply negb_true_iff in H
  | H : negb _ = false |- _ => apply negb_false_iff in H
  end.

(** Decide the boolean tests of the goal by arithmetic. *)
Ltac test_bool b v := replace b with v by (symmetry; unfold in_range in *; lia).

Ltac decide_tests :=
  repeat match goal with
  | |- context [if ?b then _ else _] =>
      first [ test_bool b true | test_bool b false ]; cbn beta iota
  end.

(** Linear arithmetic with division and modulo by constants. *)
Ltac lia_div := Z.to_euclidean_division_equations; lia.

(** Arithmetic on the lengths of lists built from one another. *)
Ltac solve_length :=
  rewrite ?length_app, ?length_take, ?length_drop, ?length_app;
  cbn [length]; lia.

(** A closed decidable goal, by evaluation. *)
Ltac by_deciding := refine (bool_decide_unpack _ _); vm_compute; exact I.

(** Find an element of an explicit list. *)
Ltac in_list := repeat first [apply list_elem_of_here | apply list_elem_of_further].

Create HintDb willie discriminated.

(** ** Lists *)

(** The code's [iter().take_while(p)] and [iter().position(p)]. *)
Fixpoint take_while {A} (p : A -> bool) (l : list A) : list A :=
  match l with
  | [] => []
  | x :: l => if p x then x :: take_while p l else []
  end.

Fixpoint position {A} (p : A -> bool) (l : list A) : option nat :=
  match l with
  | [] => None
  | x :: l => if p x then Some O else S <$> position p l
  end.

(** The last [n] elements: what is left of a buffer drained from the front. *)
Definition lastn {A} (n : nat) (l : list A) : list A := drop (length l - n) l.

Lemma take_while_all {A} (p : A -> bool) l :
  Forall (fun x => p x = true) l -> take_while p l = l.
Proof. induction 1 as [|x l Hx _ IH]; simpl; [done|]. by rewrite Hx, IH. Qed.

Lemma take_while_forallb {A} (p : A -> bool) l : forallb p (take_while p l) = true.
Proof.
  induction l as [|x l IH]; simpl; [done|].
  destruct (p x) eqn:E; simpl; [by rewrite E|done].
Qed.

Lemma lastn_length {A} n (l : list A) : length (lastn n l) = Nat.min n (length l).
Proof. unfold lastn. rewrite length_drop. lia. Qed.

Lemma lastn_all {A} n (l : list A) : length l <= n -> lastn n l = l.
Proof. intros. unfold lastn. replace (length l - n) with 0 by lia. done. Qed.

(** Dropping to the last [n] elements early loses nothing. *)
Lemma lastn_app_lastn {A} n (l1 l2 : list A) :
  lastn n (lastn n l1 ++ l2) = lastn n (l1 ++ l2).
Proof.
  unfold lastn. rewrite !length_app, length_drop.
  destruct (decide (length l1 <= n)).
  - replace (length l1 - n) with 0 by lia. rewrite drop_0. f_equal. lia.
  - rewrite !drop_app, !length_drop, drop_drop. f_equal; f_equal; lia.
Qed.

#[export] Hint Resolve take_while_forallb : willie.
