(* ===== verification/Text.v ===== *)
(** * Text

    Rust's [str] as the code uses it: a [string] is the bytes of UTF-8 text,
    an [ascii] is one byte.  Splitting, prefixes and replacement are on bytes,
    as in Rust for an ASCII separator; trimming and [chars] decode UTF-8. *)

From Stdlib Require Export Ascii String.
From stdpp Require Export strings pretty.
From S2P Require Import Prelude.

Local Open Scope string_scope.
Local Open Scope list_scope.

(** ** Bytes *)

Definition byte (a : ascii) : Z := Z.of_N (N_of_ascii a).

Definition is_ascii_digit (a : ascii) : bool := in_range 48 57 (byte a).
Definition is_ascii_lowercase (a : ascii) : bool := in_range 97 122 (byte a).
Definition is_ascii_uppercase (a : ascii) : bool := in_range 65 90 (byte a).
Definition is_ascii_alphabetic (a : ascii) : bool := is_ascii_lowercase a || is_ascii_uppercase a.

Definition to_ascii_lowercase (a : ascii) : ascii :=
  if is_ascii_uppercase a then ascii_of_N (N_of_ascii a + 32) else a.

Definition is_empty (s : string) : bool := match s with EmptyString => true | _ => false end.

Fixpoint str_forallb (p : ascii -> bool) (s : string) : bool :=
  match s with EmptyString => true | String a s => p a && str_forallb p s end.

Fixpoint str_map (f : ascii -> ascii) (s : string) : string :=
  match s with EmptyString => EmptyString | String a s => String (f a) (str_map f s) end.

(** ** Splitting and prefixes *)

(** [str::split(c)]: always at least one piece. *)
Fixpoint split (c : ascii) (s : string) : list string :=
  match s with
  | EmptyString => [EmptyString]
  | String a s =>
      if decide (a = c) then EmptyString :: split c s
      else match split c s with
           | p :: ps => String a p :: ps
           | [] => [String a EmptyString]
           end
  end.

Fixpoint join (sep : string) (l : list string) : string :=
  match l with
  | [] => EmptyString
  | [x] => x
  | x :: l => x +:+ sep +:+ join sep l
  end.

Fixpoint strip_prefix (p s : string) : option string :=
  match p with
  | EmptyString => Some s
  | String a p =>
      match s with
      | String b s => if decide (a = b) then strip_prefix p s else None
      | EmptyString => None
      end
  end.

Definition starts_with (p s : string) : bool :=
  match strip_prefix p s with Some _ => true | None => false end.

(** [str::trim_end_matches(c)]. *)
Fixpoint trim_end_matches (c : ascii) (s : string) : string :=
  match s with
  | EmptyString => EmptyString
  | String a s =>
      match trim_end_matches c s with
      | EmptyString => if decide (a = c) then EmptyString else String a EmptyString
      | t => String a t
      end
  end.

Fixpoint trim_start_matches (c : ascii) (s : string) : string :=
  match s with
  | EmptyString => EmptyString
  | String a s' => if decide (a = c) then trim_start_matches c s' else s
  end.

Definition trim_matches (c : ascii) (s : string) : string := trim_end_matches c (trim_start_matches c s).

(** [str::replace] of one byte by another. *)
Definition replace_char (a b : ascii) (s : string) : string :=
  str_map (fun x => if decide (x = a) then b else x) s.

Fixpoint contains_char (c : ascii) (s : string) : bool :=
  match s with EmptyString => false | String a s => if decide (a = c) then true else contains_char c s end.

(** The piece after the last separator, [rsplit(c).next()]. *)
Definition rsplit_first (c : ascii) (s : string) : string := default EmptyString (last (split c s)).

(** *** Searching *)

Fixpoint str_take (n : nat) (s : string) : string :=
  match n, s with S n, String a s => String a (str_take n s) | _, _ => EmptyString end.

Fixpoint str_drop (n : nat) (s : string) : string :=
  match n, s with S n, String _ s => str_drop n s | _, s => s end.

(** [str::find] of a text: the offset of its first occurrence. *)
Fixpoint find (p s : string) : option nat :=
  if starts_with p s then Some 0 else match s with EmptyString => None | String _ s => S <$> find p s end.

(** [str::contains] of a text. *)
Definition contains (p s : string) : bool := match find p s with Some _ => true | None => false end.

(** [str::ends_with] of one byte. *)
Definition ends_with_char (c : ascii) (s : string) : bool := bool_decide (last (list_ascii_of_string s) = Some c).

(** ** Paths *)

Definition is_absolute (p : string) : bool := starts_with "/" p.

(** [Path::join]: an absolute path replaces the one it is joined to. *)
Definition path_join (p x : string) : string :=
  if is_absolute x then x
  else match last (list_ascii_of_string p) with
       | Some a => if bool_decide (a = "/"%char) then p +:+ x else p +:+ "/" +:+ x
       | None => x
       end.

(** [Path::components] of a path's names: a separator and a current directory
    count once, but for the latter at the start of a relative path. *)
Definition components (p : string) : bool * list string :=
  (is_absolute p,
   match split "/" p with
   | first :: rest =>
       (if is_empty first then [] else [first]) ++
       List.filter (fun c => negb (is_empty c) && negb (bool_decide (c = "."))) rest
   | [] => []
   end).

Fixpoint list_prefix (l1 l2 : list string) : bool :=
  match l1, l2 with
  | [], _ => true
  | x :: l1, y :: l2 => bool_decide (x = y) && list_prefix l1 l2
  | _, _ => false
  end.

(** [Path::starts_with]. *)
Definition path_starts_with (p base : string) : bool :=
  Bool.eqb (fst (components p)) (fst (components base)) && list_prefix (snd (components base)) (snd (components p)).

(** [Path::parent], on the characters from the end. *)
Fixpoint drop_trailing (l : list ascii) : list ascii :=
  match l with
  | "/"%char :: l => drop_trailing l
  | "."%char :: ("/"%char :: l) => drop_trailing l
  | l => l
  end.

Fixpoint drop_name (l : list ascii) : list ascii :=
  match l with
  | [] => []
  | a :: l' => if bool_decide (a = "/"%char) then l else drop_name l'
  end.

Definition parent (p : string) : option string :=
  match drop_trailing (rev (list_ascii_of_string p)) with
  | [] => None
  | l =>
      match drop_name l with
      | [] => Some EmptyString
      | l => Some (match drop_trailing l with [] => "/" | l => string_of_list_ascii (rev l) end)
      end
  end.

(** ** Characters *)

(** A byte that continues a character. *)
Definition continuation (a : ascii) : bool := in_range 128 191 (byte a).

(** [char_indices] on valid UTF-8: each character with its bytes.  The fuel
    is the length in bytes. *)
Fixpoint decode (fuel : nat) (s : string) : list (Z * string) :=
  match fuel, s with
  | S fuel, String a s1 =>
      let b := byte a in
      let low x := (byte x mod 64)%Z in
      if (b <? 128)%Z then (b, String a EmptyString) :: decode fuel s1
      else match s1 with
      | String c s2 =>
          if (b <? 224)%Z then ((b mod 32) * 64 + low c, String a (String c EmptyString))%Z :: decode fuel s2
          else match s2 with
          | String d s3 =>
              if (b <? 240)%Z then
                (((b mod 16) * 64 + low c) * 64 + low d, String a (String c (String d EmptyString)))%Z
                :: decode fuel s3
              else match s3 with
              | String e s4 =>
                  ((((b mod 8) * 64 + low c) * 64 + low d) * 64 + low e,
                   String a (String c (String d (String e EmptyString))))%Z :: decode fuel s4
              | EmptyString => []
              end
          | EmptyString => []
          end
      | EmptyString => []
      end
  | _, _ => []
  end.

Definition char_list (s : string) : list (Z * string) := decode (String.length s) s.

Definition chars (s : string) : list Z := map fst (char_list s).

Fixpoint concat_str (l : list string) : string :=
  match l with [] => EmptyString | x :: l => x +:+ concat_str l end.

(** [char::is_whitespace]. *)
Definition is_whitespace (c : Z) : bool :=
  in_range 9 13 c || (c =? 32)%Z || (c =? 133)%Z || (c =? 160)%Z || (c =? 5760)%Z
  || in_range 8192 8202 c || (c =? 8232)%Z || (c =? 8233)%Z || (c =? 8239)%Z
  || (c =? 8287)%Z || (c =? 12288)%Z.

Fixpoint drop_while {A} (p : A -> bool) (l : list A) : list A :=
  match l with [] => [] | x :: l' => if p x then drop_while p l' else l end.

(** [str::trim]. *)
Definition trim (s : string) : string :=
  let l := drop_while (fun c => is_whitespace (fst c)) (char_list s) in
  let l := rev (drop_while (fun c => is_whitespace (fst c)) (rev l)) in
  concat_str (map snd l).

(** [str::split_whitespace]: the pieces between whitespace that are not
    empty. *)
Fixpoint tokens (acc : string) (l : list (Z * string)) : list string :=
  match l with
  | [] => if is_empty acc then [] else [acc]
  | (c, bytes) :: l =>
      if is_whitespace c then if is_empty acc then tokens EmptyString l else acc :: tokens EmptyString l
      else tokens (acc +:+ bytes) l
  end.

Definition split_whitespace (s : string) : list string := tokens EmptyString (char_list s).

(** *** Lines *)

Definition newline : ascii := ascii_of_nat 10.
Definition return_ : ascii := ascii_of_nat 13.
Definition zero : ascii := ascii_of_nat 0.

Fixpoint drop_return (s : string) : string :=
  match s with
  | EmptyString => EmptyString
  | String a EmptyString => if bool_decide (a = return_) then EmptyString else s
  | String a s => String a (drop_return s)
  end.

(** [str::lines]: a terminator loses its carriage return, and the rest after
    the last one counts when it is not empty. *)
Fixpoint end_lines (pieces : list string) : list string :=
  match pieces with
  | [] => []
  | [last] => if is_empty last then [] else [last]
  | l :: pieces => drop_return l :: end_lines pieces
  end.

Definition lines (s : string) : list string := end_lines (split newline s).

(** *** Numbers *)

(** [from_str] of an unsigned integer: an optional plus and at least one
    digit, in range. *)
Fixpoint parse_digits (max acc : Z) (s : string) : option Z :=
  match s with
  | EmptyString => Some acc
  | String a s =>
      if is_ascii_digit a then
        let acc := (acc * 10 + (byte a - 48))%Z in if (acc <=? max)%Z then parse_digits max acc s else None
      else None
  end.

Definition parse_unsigned (max : Z) (s : string) : option Z :=
  let s := match strip_prefix "+" s with Some r => r | None => s end in
  if is_empty s then None else parse_digits max 0 s.

(** ** Lemmas *)

Lemma str_app_cons a s t : String a s +:+ t = String a (s +:+ t).
Proof. done. Qed.

Lemma str_app_nil_l s : EmptyString +:+ s = s.
Proof. done. Qed.

Lemma str_app_nil s : s +:+ EmptyString = s.
Proof. induction s as [|a s IH]; [done|]. by rewrite str_app_cons, IH. Qed.

Lemma str_app_assoc a b c : a +:+ (b +:+ c) = (a +:+ b) +:+ c.
Proof. induction a as [|x a IH]; [done|]. by rewrite !str_app_cons, IH. Qed.

Lemma strip_prefix_app p s : strip_prefix p (p +:+ s) = Some s.
Proof. induction p as [|a p IH]; [done|]. rewrite str_app_cons. cbn. by rewrite decide_True. Qed.

Lemma strip_prefix_some p s r : strip_prefix p s = Some r <-> s = p +:+ r.
Proof.
  split; [|intros ->; apply strip_prefix_app].
  revert s. induction p as [|a p IH]; intros s; cbn; [by intros [= ->]|].
  destruct s as [|b s]; [done|]. case_decide as E; [|done]. intros H. subst. rewrite str_app_cons. by rewrite (IH _ H).
Qed.

Lemma starts_with_spec p s : starts_with p s = true <-> exists r, s = p +:+ r.
Proof.
  unfold starts_with. destruct (strip_prefix p s) as [r|] eqn:E.
  - apply strip_prefix_some in E as ->. split; [eauto|done].
  - split; [done|]. intros [r ->]. by rewrite strip_prefix_app in E.
Qed.

Lemma contains_char_false_cons c a s :
  contains_char c (String a s) = false <-> a <> c /\ contains_char c s = false.
Proof. cbn. destruct (decide (a = c)); naive_solver. Qed.

Lemma split_none c s : contains_char c s = false -> split c s = [s].
Proof.
  induction s as [|a s IH]; [done|]. rewrite contains_char_false_cons. intros [Ha Hs].
  cbn. rewrite decide_False by done. by rewrite IH.
Qed.

Lemma split_cons c p s : contains_char c p = false -> split c (p +:+ String c s) = p :: split c s.
Proof.
  induction p as [|a p IH]; [rewrite str_app_nil_l; cbn; by rewrite decide_True|].
  rewrite contains_char_false_cons. intros [Ha Hp]. rewrite str_app_cons. cbn.
  rewrite decide_False by done. by rewrite IH.
Qed.

Lemma split_pieces c s : Forall (fun p => contains_char c p = false) (split c s).
Proof.
  induction s as [|a s IH]; cbn; [by repeat constructor|].
  case_decide as E; [by constructor|].
  destruct (split c s) as [|p ps]; [constructor; [cbn; by rewrite decide_False|done]|].
  apply Forall_cons in IH as [Hp Hps]. constructor; [|done]. cbn. by rewrite decide_False.
Qed.

Lemma split_join c l : l <> [] -> Forall (fun p => contains_char c p = false) l ->
  split c (join (String c EmptyString) l) = l.
Proof.
  intros Hn H. induction H as [|x l Hx Hl IH]; [done|]. destruct l as [|y l].
  - cbn. by apply split_none.
  - change (join (String c EmptyString) (x :: y :: l)) with (x +:+ String c (join (String c EmptyString) (y :: l))).
    rewrite split_cons by done. by rewrite IH.
Qed.

Lemma join_split c s : join (String c EmptyString) (split c s) = s.
Proof.
  induction s as [|a s IH]; [done|]. cbn. case_decide as E.
  - subst. destruct (split c s) as [|p ps] eqn:Es; [|].
    + exfalso. destruct s as [|b s']; cbn in Es; [done|]. case_decide; [done|]. by destruct (split c s').
    + cbn. cbn in IH. by rewrite IH.
  - destruct (split c s) as [|p ps] eqn:Es.
    + exfalso. destruct s as [|b s']; cbn in Es; [done|]. case_decide; [done|]. by destruct (split c s').
    + rewrite <- IH. by destruct ps.
Qed.

Lemma split_app c a b : split c (a +:+ String c b) = split c a ++ split c b.
Proof.
  induction a as [|x a IH]; [rewrite str_app_nil_l; cbn; by rewrite decide_True|].
  rewrite str_app_cons. cbn [split]. rewrite IH. case_decide; [done|].
  destruct (split c a) as [|p ps] eqn:E; [|done].
  exfalso. destruct a as [|y a]; cbn in E; [done|]. case_decide; [done|]. by destruct (split c a).
Qed.

Lemma str_app_inj a x y : a +:+ x = a +:+ y -> x = y.
Proof. induction a as [|c a IH]; [done|]. rewrite !str_app_cons. intros [= H]. auto. Qed.

(** *** Searching *)

Lemma str_length_app a b : String.length (a +:+ b) = String.length a + String.length b.
Proof. induction a as [|x a IH]; [done|]. rewrite str_app_cons. cbn. by rewrite IH. Qed.

Lemma str_take_app a b : str_take (String.length a) (a +:+ b) = a.
Proof. induction a as [|x a IH]; [by destruct b|]. rewrite str_app_cons. cbn. by rewrite IH. Qed.

Lemma str_drop_app a b : str_drop (String.length a) (a +:+ b) = b.
Proof. induction a as [|x a IH]; [by destruct b|]. rewrite str_app_cons. cbn. by rewrite IH. Qed.

Lemma str_take_drop n s : str_take n s +:+ str_drop n s = s.
Proof. revert n. induction s as [|a s IH]; intros [|n]; [done..|]. cbn. by rewrite str_app_cons, IH. Qed.

Lemma str_take_length n s : String.length (str_take n s) = Nat.min n (String.length s).
Proof. revert n. induction s as [|a s IH]; intros [|n]; cbn; [done..|]. by rewrite IH. Qed.

Lemma str_drop_length n s : String.length (str_drop n s) = String.length s - n.
Proof. revert n. induction s as [|a s IH]; intros [|n]; cbn; [done..|]. by rewrite IH. Qed.

Lemma str_take_all n s : String.length s <= n -> str_take n s = s.
Proof. revert n. induction s as [|a s IH]; intros [|n]; cbn; intros H; [done|done|lia|]. rewrite IH by lia. done. Qed.

Lemma str_take_app_ge n a b : String.length a <= n -> str_take n (a +:+ b) = a +:+ str_take (n - String.length a) b.
Proof.
  revert n. induction a as [|x a IH]; intros n H; [by rewrite Nat.sub_0_r|]. destruct n as [|n]; cbn [String.length] in *; [lia|].
  rewrite !str_app_cons. cbn [str_take Nat.sub]. by rewrite IH by lia.
Qed.

Lemma str_take_take n m s : str_take n (str_take m s) = str_take (Nat.min n m) s.
Proof. revert n m. induction s as [|a s IH]; intros [|n] [|m]; cbn; [done..|]. by rewrite IH. Qed.

(** Reading on from where a read stopped. *)
Lemma str_take_more n m s : str_take n s +:+ str_take m (str_drop n s) = str_take (n + m) s.
Proof. revert n. induction s as [|a s IH]; intros [|n]; cbn; [by destruct m|by destruct m|done|]. by rewrite str_app_cons, IH. Qed.

Lemma str_drop_all n s : String.length s <= n -> str_drop n s = EmptyString.
Proof. revert n. induction s as [|a s IH]; intros [|n]; cbn; intros H; [done|done|lia|]. apply IH. lia. Qed.

Lemma starts_with_cons x p a s : starts_with (String x p) (String a s) = bool_decide (x = a) && starts_with p s.
Proof. unfold starts_with. cbn. case_decide; [by rewrite bool_decide_true|by rewrite bool_decide_false]. Qed.

(** A prefix no longer than [u] is seen in [u]. *)
Lemma starts_with_long p : forall u v, String.length p <= String.length u -> starts_with p (u +:+ v) = starts_with p u.
Proof.
  induction p as [|x p IH]; intros u v Hl; [done|]. destruct u as [|a u]; cbn in Hl; [lia|].
  rewrite str_app_cons, !starts_with_cons, IH by lia. done.
Qed.

(** A byte the prefix lacks ends it. *)
Lemma starts_with_stop p c : contains_char c p = false ->
  forall u v, starts_with p (u +:+ String c v) = starts_with p u.
Proof.
  induction p as [|x p IH]; intros Hc u v; [done|]. apply contains_char_false_cons in Hc as [Hx Hc].
  destruct u as [|a u]; [rewrite str_app_nil_l, starts_with_cons; by rewrite bool_decide_false|].
  rewrite str_app_cons, !starts_with_cons, IH by done. done.
Qed.

Lemma find_here p s : find p (p +:+ s) = Some 0.
Proof.
  assert (H : starts_with p (p +:+ s) = true) by (apply starts_with_spec; eauto).
  destruct (p +:+ s); cbn [find]; by rewrite H.
Qed.

Lemma find_some p s : forall n, find p s = Some n -> exists a b, s = a +:+ (p +:+ b) /\ String.length a = n.
Proof.
  induction s as [|x s IH]; intros n; cbn [find]; destruct (starts_with p _) eqn:E; try done.
  - intros [= <-]. apply starts_with_spec in E as [r ->]. by exists EmptyString, r.
  - intros [= <-]. apply starts_with_spec in E as [r ->]. by exists EmptyString, r.
  - destruct (find p s) as [m|] eqn:Em; [|done]. intros [= <-]. destruct (IH m eq_refl) as (a & b & -> & <-).
    by exists (String x a), b.
Qed.

Lemma find_cons p x s : find p (String x s) = if starts_with p (String x s) then Some 0 else S <$> find p s.
Proof. done. Qed.

(** What follows the first occurrence does not move it. *)
Lemma find_stable p a b b' : find p (a +:+ (p +:+ b)) = Some (String.length a) ->
  find p (a +:+ (p +:+ b')) = Some (String.length a).
Proof.
  induction a as [|x a IH]; [intros _; rewrite str_app_nil_l; apply find_here|]. rewrite !str_app_cons, !find_cons.
  assert (H : forall y, starts_with p (String x (a +:+ (p +:+ y))) = starts_with p (String x (a +:+ p))).
  { intros y. rewrite (str_app_assoc a p y), <- str_app_cons. apply starts_with_long. cbn. rewrite str_length_app. lia. }
  rewrite !H. destruct (starts_with p _); [done|]. destruct (find p (a +:+ (p +:+ b))) as [n|]; [|done].
  cbn. intros [= ->]. by rewrite IH.
Qed.

(** The first occurrence after a text without one and a byte of none. *)
Lemma find_after p c x b : p <> EmptyString -> contains_char c p = false -> contains p x = false ->
  find p (x +:+ String c (p +:+ b)) = Some (S (String.length x)).
Proof.
  intros Hp Hc. unfold contains. induction x as [|y x IH]; intros Hx.
  - rewrite str_app_nil_l, find_cons. pose proof (starts_with_stop p c Hc EmptyString (p +:+ b)) as H.
    rewrite str_app_nil_l in H. rewrite H. destruct p; [done|]. cbn [starts_with strip_prefix]. by rewrite find_here.
  - rewrite str_app_cons, find_cons. rewrite find_cons in Hx.
    pose proof (starts_with_stop p c Hc (String y x) (p +:+ b)) as H. rewrite str_app_cons in H. rewrite H.
    destruct (starts_with p (String y x)); [done|]. destruct (find p x) eqn:Ex; [done|]. by rewrite IH.
Qed.

(** An occurrence at most where one is. *)
Lemma find_bound p a b : exists n, find p (a +:+ (p +:+ b)) = Some n /\ n <= String.length a.
Proof.
  induction a as [|x a (n & Hn & Hl)]; [exists 0; by rewrite str_app_nil_l, find_here|].
  rewrite str_app_cons, find_cons, Hn. destruct (starts_with p _); [by exists 0; split; [|cbn; lia]|].
  exists (S n). cbn. split; [done|lia].
Qed.

Lemma contains_split p a b : contains p (a +:+ (p +:+ b)) = true.
Proof. unfold contains. by destruct (find_bound p a b) as (n & -> & _). Qed.

(** A byte of none adds no occurrence. *)
Lemma contains_snoc p c s : p <> EmptyString -> contains_char c p = false ->
  contains p (s +:+ String c EmptyString) = contains p s.
Proof.
  intros Hp Hc. unfold contains. induction s as [|x s IH].
  - rewrite str_app_nil_l, find_cons. pose proof (starts_with_stop p c Hc EmptyString EmptyString) as H.
    rewrite str_app_nil_l in H. rewrite H. destruct p; done.
  - rewrite str_app_cons, !find_cons.
    pose proof (starts_with_stop p c Hc (String x s) EmptyString) as H. rewrite str_app_cons in H. rewrite H.
    destruct (starts_with p (String x s)); [done|]. destruct (find p s), (find p (s +:+ _)); done.
Qed.

(** *** Trimming one byte *)

Lemma trim_start_matches_split c s : exists a, s = a +:+ trim_start_matches c s.
Proof.
  induction s as [|x s [a Ha]]; [by exists EmptyString|]. cbn. case_decide; [|by exists EmptyString].
  exists (String x a). by rewrite str_app_cons, <- Ha.
Qed.

Lemma trim_end_matches_split c s : exists b, s = trim_end_matches c s +:+ b.
Proof.
  induction s as [|x s [b Hb]]; [by exists EmptyString|]. cbn.
  destruct (trim_end_matches c s) as [|y t] eqn:E.
  - case_decide; [by exists (String x s)|]. exists s. by rewrite str_app_cons, str_app_nil_l.
  - exists b. rewrite str_app_cons. congruence.
Qed.

Lemma trim_matches_split c s : exists a b, s = a +:+ (trim_matches c s +:+ b).
Proof.
  destruct (trim_start_matches_split c s) as [a Ha]. unfold trim_matches.
  destruct (trim_end_matches_split c (trim_start_matches c s)) as [b Hb]. exists a, b. by rewrite <- Hb.
Qed.

(** A part of a text has no occurrence the text lacks. *)
Lemma contains_part p a s b : contains p (a +:+ (s +:+ b)) = false -> contains p s = false.
Proof.
  intros H. destruct (contains p s) eqn:E; [|done]. unfold contains in E. destruct (find p s) as [n|] eqn:En; [|done].
  apply find_some in En as (x & y & -> & _). rewrite <- !str_app_assoc, (str_app_assoc a x), contains_split in H. done.
Qed.

Example parents : map parent ["/w/app/CLAUDE.md"; "a//b/."; "/"; "a"; "./a"; "/x"; "/."] =
  [Some "/w/app"; Some "a"; None; Some EmptyString; Some "."; Some "/"; None].
Proof. reflexivity. Qed.

(** *** Paths *)

Lemma split_nonempty c s : split c s <> [].
Proof. destruct s as [|a s]; cbn; [done|]. case_decide; [done|]. by destruct (split c s). Qed.

Lemma last_char p a : last (list_ascii_of_string p) = Some a -> exists p', p = p' +:+ String a EmptyString.
Proof.
  induction p as [|x p IH]; [done|]. cbn [list_ascii_of_string]. destruct p as [|y p].
  - intros [= ->]. by exists EmptyString.
  - intros H. destruct (IH H) as [p' Hp]. exists (String x p'). by rewrite str_app_cons, <- Hp.
Qed.

Lemma is_absolute_app p q : p <> EmptyString -> is_absolute (p +:+ q) = is_absolute p.
Proof. intros Hp. destruct p as [|a p]; [done|]. rewrite str_app_cons. unfold is_absolute. by rewrite !starts_with_cons. Qed.

(** A name is one component: not empty, not the current directory, no
    separator. *)
Definition is_name (x : string) : bool := negb (is_empty x) && negb (bool_decide (x = ".")) && negb (contains_char "/" x).

Lemma is_name_spec x : is_name x = true <-> x <> EmptyString /\ x <> "." /\ contains_char "/" x = false.
Proof.
  unfold is_name. rewrite !andb_true_iff, !negb_true_iff, bool_decide_eq_false.
  destruct x; cbn [is_empty]; naive_solver.
Qed.

Lemma is_name_relative x : contains_char "/" x = false -> is_absolute x = false.
Proof.
  intros Hc. unfold is_absolute. destruct (starts_with "/" x) eqn:E; [|done]. apply starts_with_spec in E as [r ->]. done.
Qed.

(** Joining a name adds one component. *)
Lemma components_join p x : is_name x = true ->
  components (path_join p x) = (fst (components p), snd (components p) ++ [x]).
Proof.
  intros (He & Hd & Hc)%is_name_spec. unfold path_join. rewrite (is_name_relative x Hc).
  assert (Hadd : forall q, components (q +:+ String "/" x) =
    (is_absolute (q +:+ String "/" x), snd (components q) ++ [x])).
  { intros q. unfold components. cbn [snd]. f_equal. rewrite split_app, (split_none _ x Hc).
    destruct (split "/" q) as [|f r] eqn:Eq; [by destruct (split_nonempty "/" q)|]. cbn [app].
    rewrite List.filter_app, app_assoc. f_equal. cbn [List.filter]. rewrite bool_decide_false by done.
    by destruct x. }
  destruct (last (list_ascii_of_string p)) as [a|] eqn:El.
  - destruct (last_char _ _ El) as [q Hq]. case_bool_decide as Ea.
    + subst a. subst p. rewrite <- str_app_assoc, str_app_cons, str_app_nil_l, Hadd. f_equal; [|f_equal].
      * unfold components. cbn [fst]. destruct q; [done|]. by rewrite !is_absolute_app.
      * unfold components. cbn [snd]. rewrite split_app. destruct (split "/" q) as [|f r] eqn:Eq; [by destruct (split_nonempty "/" q)|].
        cbn [app]. rewrite List.filter_app. cbn. by rewrite app_nil_r.
    + rewrite str_app_cons, str_app_nil_l, Hadd. f_equal. subst p. destruct q; apply is_absolute_app; done.
  - destruct p as [|y p]; [|by apply last_None in El]. unfold components. rewrite (is_name_relative x Hc), (split_none _ x Hc).
    by destruct x.
Qed.

Lemma list_prefix_app l1 l2 : list_prefix l1 (l1 ++ l2) = true.
Proof. induction l1 as [|x l1 IH]; [done|]. cbn. by rewrite bool_decide_true. Qed.

Lemma list_prefix_spec l1 : forall l2, list_prefix l1 l2 = true -> exists l, l2 = l1 ++ l.
Proof.
  induction l1 as [|x l1 IH]; intros l2; [by exists l2|]. destruct l2 as [|y l2]; [done|]. cbn.
  intros [->%bool_decide_eq_true [l ->]%IH]%andb_prop. by exists l.
Qed.

(** A path with some more components. *)
Definition below (base : string) (names : list string) (p : string) : Prop :=
  components p = (fst (components base), snd (components base) ++ names).

Lemma below_refl base : below base [] base.
Proof. unfold below. rewrite app_nil_r. by destruct (components base). Qed.

Lemma below_join base names p x : below base names p -> is_name x = true -> below base (names ++ [x]) (path_join p x).
Proof. intros Hb Hx. unfold below. rewrite components_join, Hb by done. cbn. by rewrite app_assoc. Qed.

Lemma below_starts_with base names p : below base names p -> path_starts_with p base = true.
Proof. intros Hb. unfold path_starts_with. rewrite Hb. cbn. by rewrite Bool.eqb_reflx, list_prefix_app. Qed.

(** Joining a relative path one name at a time. *)
Lemma path_join_cons p x y : p <> EmptyString -> is_name x = true -> is_absolute y = false ->
  path_join p (x +:+ String "/" y) = path_join (path_join p x) y.
Proof.
  intros Hp Hx Hy. apply is_name_spec in Hx as (Hx1 & _ & Hx2).
  unfold path_join at 1. rewrite is_absolute_app by done. rewrite (is_name_relative x) by done.
  assert (Hlast : forall q, last (list_ascii_of_string (q +:+ x)) = last (list_ascii_of_string x)).
  { intros q. induction q as [|c q IH]; [done|]. rewrite str_app_cons. cbn [list_ascii_of_string]. rewrite last_cons, IH.
    destruct (last (list_ascii_of_string x)) eqn:E; [done|]. apply last_None in E. by destruct x. }
  assert (Hl : last (list_ascii_of_string x) <> Some "/"%char).
  { intros H. destruct (last_char _ _ H) as [q ->]. clear -Hx2. induction q as [|c q IH]; [done|].
    rewrite str_app_cons in Hx2. apply contains_char_false_cons in Hx2 as [_ H]. auto. }
  assert (Hjoin : forall q, path_join (q +:+ x) y = q +:+ x +:+ String "/" y).
  { intros q. unfold path_join. rewrite Hy, Hlast.
    destruct (last (list_ascii_of_string x)) as [a|] eqn:E; [|apply last_None in E; by destruct x].
    rewrite bool_decide_false by congruence. by rewrite <- str_app_assoc, str_app_cons, str_app_nil_l. }
  assert (Hpx : path_join p x = match last (list_ascii_of_string p) with
    | Some a => if bool_decide (a = "/"%char) then p +:+ x else p +:+ "/" +:+ x | None => x end).
  { unfold path_join. by rewrite (is_name_relative x). }
  rewrite Hpx. destruct (last (list_ascii_of_string p)) as [a|] eqn:E; [|apply last_None in E; by destruct p].
  case_bool_decide; [by rewrite Hjoin|]. rewrite (str_app_assoc p "/" x), Hjoin. by rewrite <- str_app_assoc.
Qed.

(** *** A text for every countable value

    An instance for the printers and parsers that stay parameters of the model:
    the digits of the value's number in base two. *)

Fixpoint bits (p : positive) : string :=
  match p with
  | xH => EmptyString
  | xI p => String "1" (bits p)
  | xO p => String "0" (bits p)
  end.

Fixpoint unbits (s : string) : positive :=
  match s with
  | String "0" s => xO (unbits s)
  | String "1" s => xI (unbits s)
  | _ => xH
  end.

Definition print_countable {A} `{Countable A} (a : A) : string := bits (countable.encode a).

Definition parse_countable {A} `{Countable A} (s : string) : option A := countable.decode (unbits s).

Lemma parse_print_countable {A} `{Countable A} (a : A) rest : unbits rest = xH ->
  parse_countable (print_countable a +:+ rest) = Some a.
Proof.
  intros Hr. unfold parse_countable, print_countable.
  assert (Hb : forall p, unbits (bits p +:+ rest) = p) by (intros p; induction p as [p IH|p IH|]; [cbn [bits]; rewrite str_app_cons; cbn [unbits]; by rewrite IH..|exact Hr]).
  by rewrite Hb, countable.decode_encode.
Qed.

(** ** Characters of a text *)

(** A character's bytes decode to it whatever follows. *)
Definition is_char (p : Z * string) : Prop := snd p <> EmptyString /\ forall rest, char_list (snd p +:+ rest) = p :: char_list rest.

Lemma decode_fuel n : forall m s, String.length s <= n -> String.length s <= m -> decode n s = decode m s.
Proof.
  induction n as [|n IH]; intros [|m] s Hn Hm; try (destruct s; cbn in *; [done|lia]).
  destruct s as [|a s1]; [done|]. cbn [decode String.length] in *. destruct (byte a <? 128)%Z; [f_equal; apply IH; lia|].
  destruct s1 as [|c s2]; [done|]. cbn [String.length] in *. destruct (byte a <? 224)%Z; [f_equal; apply IH; lia|].
  destruct s2 as [|d s3]; [done|]. cbn [String.length] in *. destruct (byte a <? 240)%Z; [f_equal; apply IH; lia|].
  destruct s3 as [|e s4]; [done|]. cbn [String.length] in *. f_equal; apply IH; lia.
Qed.

Lemma decode_char_list n s : String.length s <= n -> decode n s = char_list s.
Proof. intros H. by apply decode_fuel. Qed.

Lemma char_list_chars s : Forall is_char (char_list s).
Proof.
  unfold char_list. generalize (String.length s) as n. intros n. revert s.
  assert (Hc : forall p a l, (forall k rest, decode (S k) (String a (l +:+ rest)) = (p, String a l) :: decode k rest) ->
    is_char (p, String a l)).
  { intros p a l H. split; [done|]. intros rest. cbn [snd]. rewrite str_app_cons. unfold char_list at 1. cbn [String.length].
    rewrite H. f_equal. apply decode_char_list. rewrite str_length_app. lia. }
  induction n as [|n IH]; intros [|a s]; try constructor. cbn [decode].
  destruct (byte a <? 128)%Z eqn:E1; [|destruct s as [|c s]; [constructor|]; destruct (byte a <? 224)%Z eqn:E2;
    [|destruct s as [|d s]; [constructor|]; destruct (byte a <? 240)%Z eqn:E3; [|destruct s as [|e s]; [constructor|]]]].
  all: constructor; [apply Hc; intros k rest; rewrite ?str_app_cons, str_app_nil_l; cbn [decode]; by rewrite E1, ?E2, ?E3|apply IH].
Qed.

(** The characters are read from the front. *)
Lemma char_list_prefix s : exists t, s = concat_str (map snd (char_list s)) +:+ t.
Proof.
  unfold char_list. generalize (String.length s) as n. intros n. revert s.
  assert (Hc : forall p k s, (exists t, s = concat_str (map snd (decode k s)) +:+ t) ->
    exists t, p +:+ s = (p +:+ concat_str (map snd (decode k s))) +:+ t).
  { intros p k s [t Ht]. exists t. by rewrite <- str_app_assoc, <- Ht. }
  induction n as [|n IH]; intros s; [by exists s|]. destruct s as [|a s]; [by exists EmptyString|]. cbn [decode].
  destruct (byte a <? 128)%Z; [by apply (Hc (String a EmptyString))|].
  destruct s as [|c s]; [by eexists|]. destruct (byte a <? 224)%Z; [by apply (Hc (String a (String c EmptyString)))|].
  destruct s as [|d s]; [by eexists|].
  destruct (byte a <? 240)%Z; [by apply (Hc (String a (String c (String d EmptyString))))|].
  destruct s as [|e s]; [by eexists|]. by apply (Hc (String a (String c (String d (String e EmptyString))))).
Qed.

Lemma contains_char_parts c a b : contains_char c (a +:+ b) = contains_char c a || contains_char c b.
Proof. induction a as [|x a IH]; [done|]. rewrite str_app_cons. cbn. by destruct (decide (x = c)). Qed.

Lemma contains_char_prefix c a b : contains_char c (a +:+ b) = false -> contains_char c a = false.
Proof. rewrite contains_char_parts. by intros [H _]%orb_false_elim. Qed.

Lemma concat_str_app l1 l2 : concat_str (l1 ++ l2) = concat_str l1 +:+ concat_str l2.
Proof. induction l1 as [|x l1 IH]; [done|]. cbn. by rewrite IH, str_app_assoc. Qed.

(** Characters put together are the characters of the text. *)
Lemma char_list_concat l : Forall is_char l -> char_list (concat_str (map snd l)) = l.
Proof. induction 1 as [|p l [_ Hp] _ IH]; [done|]. cbn [map concat_str]. by rewrite Hp, IH. Qed.

Lemma char_list_concat_app l rest : Forall is_char l -> char_list (concat_str (map snd l) +:+ rest) = l ++ char_list rest.
Proof.
  induction 1 as [|p l [_ Hp] _ IH]; [done|]. cbn [map concat_str app]. by rewrite <- str_app_assoc, Hp, IH.
Qed.

Lemma concat_str_empty l : Forall is_char l -> is_empty (concat_str (map snd l)) = bool_decide (l = []).
Proof. intros H. destruct l as [|[c s] l]; [done|]. inversion H as [|? ? [Hs _] _]; subst. cbn. by destruct s. Qed.

Lemma drop_while_suffix {A} (p : A -> bool) l : exists l1, l = l1 ++ drop_while p l.
Proof. induction l as [|x l [l1 IH]]; [by exists []|]. cbn. destruct (p x); [exists (x :: l1); cbn; congruence|by exists []]. Qed.

(** [trim] keeps a run of the characters. *)
Lemma char_list_trim s : exists l1 l2, char_list s = l1 ++ char_list (trim s) ++ l2.
Proof.
  pose proof (char_list_chars s) as H. unfold trim.
  destruct (drop_while_suffix (fun c : Z * string => is_whitespace (fst c)) (char_list s)) as [l1 E1].
  set (l := drop_while _ (char_list s)) in *. destruct (drop_while_suffix (fun c : Z * string => is_whitespace (fst c)) (rev l)) as [l2 E2].
  set (m := drop_while _ (rev l)) in *. assert (El : l = rev m ++ rev l2) by (rewrite <- rev_app_distr, <- E2; by rewrite rev_involutive).
  exists l1, (rev l2). rewrite char_list_concat; [by rewrite <- El|].
  rewrite E1, El in H. apply Forall_app in H as [_ H]. by apply Forall_app in H as [H _].
Qed.

Lemma trim_chars s : concat_str (map snd (char_list (trim s))) = trim s.
Proof.
  destruct (char_list_trim s) as (l1 & l2 & E). unfold trim. rewrite char_list_concat; [done|].
  pose proof (char_list_chars s) as H.
  destruct (drop_while_suffix (fun c : Z * string => is_whitespace (fst c)) (char_list s)) as [k1 E1].
  rewrite E1 in H. apply Forall_app in H as [_ H]. apply Forall_rev in H.
  match goal with |- Forall _ (rev (drop_while _ ?l)) => destruct (drop_while_suffix (fun c : Z * string => is_whitespace (fst c)) l) as [k2 E2] end.
  rewrite E2 in H. apply Forall_app in H as [_ H]. by apply Forall_rev in H.
Qed.

Definition word (l : list (Z * string)) : Prop := l <> [] /\ Forall (fun c => is_whitespace (fst c) = false) l.

(** The words of a text are runs of its characters. *)
Lemma tokens_words l : forall acc, Forall is_char l -> Forall is_char acc -> Forall (fun c => is_whitespace (fst c) = false) acc ->
  exists ws, tokens (concat_str (map snd acc)) l = map (fun w => concat_str (map snd w)) ws /\ Forall word ws /\ Forall (Forall is_char) ws.
Proof.
  induction l as [|[c b] l IH]; intros acc Hl Ha Hw; cbn [tokens].
  - rewrite concat_str_empty by done. destruct (bool_decide_reflect (acc = [])) as [_|Hne]; [by exists []|].
    exists [acc]. repeat constructor; done.
  - inversion Hl as [|? ? Hc Hl']; subst. destruct (is_whitespace c) eqn:Ec.
    + rewrite concat_str_empty by done. destruct (IH [] Hl' (Forall_nil_2 _) (Forall_nil_2 _)) as (ws & Hws & H1 & H2).
      cbn [map concat_str] in Hws. destruct (bool_decide_reflect (acc = [])) as [_|Hne]; [by exists ws|].
      exists (acc :: ws). cbn [map]. rewrite Hws. repeat constructor; done.
    + destruct (IH (acc ++ [(c, b)])) as (ws & Hws & H1 & H2); [done|by apply Forall_app_2; [|constructor]|by apply Forall_app_2; [|constructor]|].
      exists ws. split; [|done]. rewrite <- Hws. f_equal. rewrite map_app. cbn. clear. induction (map snd acc) as [|x r IH]; cbn.
      * by rewrite str_app_nil.
      * by rewrite <- str_app_assoc, IH.
Qed.

Lemma split_whitespace_words s :
  exists ws, split_whitespace s = map (fun w => concat_str (map snd w)) ws /\ Forall word ws /\ Forall (Forall is_char) ws.
Proof. apply (tokens_words _ []); [apply char_list_chars|constructor|constructor]. Qed.

Lemma drop_while_nil {A} (p : A -> bool) l : drop_while p l = [] -> Forall (fun x => p x = true) l.
Proof. induction l as [|x l IH]; [constructor|]. cbn. destruct (p x) eqn:E; [|done]. intros H. constructor; [done|by apply IH]. Qed.

Lemma drop_while_head {A} (p : A -> bool) l x r : drop_while p l = x :: r -> p x = false.
Proof. induction l as [|y l IH]; [done|]. cbn. destruct (p y) eqn:E; [apply IH|]. by intros [= -> ->]. Qed.

Lemma trim_empty s : is_empty (trim s) = true -> Forall (fun c => is_whitespace (fst c) = true) (char_list s).
Proof.
  pose proof (char_list_chars s) as H. unfold trim.
  destruct (drop_while_suffix (fun c : Z * string => is_whitespace (fst c)) (char_list s)) as [l1 E1].
  destruct (drop_while _ (char_list s)) as [|x r] eqn:El; [intros _; by apply drop_while_nil|].
  apply drop_while_head in El. rewrite E1 in H. apply Forall_app in H as [_ H].
  rewrite concat_str_empty.
  - intros Hm%bool_decide_eq_true. exfalso. apply (f_equal (@rev _)) in Hm. rewrite rev_involutive in Hm. rename Hm into Em.
    apply drop_while_nil in Em. rewrite Forall_forall in Em. specialize (Em x). rewrite Em in El; [done|].
    apply list_elem_of_In, in_rev. rewrite rev_involutive. by left.
  - destruct (drop_while_suffix (fun c : Z * string => is_whitespace (fst c)) (rev (x :: r))) as [l2 E2].
    apply Forall_forall. intros c Hc. rewrite Forall_forall in H. apply H. apply list_elem_of_In. apply list_elem_of_In, in_rev in Hc.
    apply in_rev. rewrite E2. apply in_or_app. by right.
Qed.
