(* ===== verification/Ascii.v ===== *)
(** * ASCII text and decimal numbers

    What text of single-byte characters makes of decoding and trimming, and
    numbers read back from their digits. *)

From S2P Require Import Prelude Text.

(** ** Text *)

Definition ascii_text (s : string) : Prop := str_forallb (fun a => (byte a <? 128)%Z) s = true.

Lemma decode_ascii s : forall n, ascii_text s -> (String.length s <= n)%nat ->
  map snd (decode n s) = map (fun a => String a EmptyString) (list_ascii_of_string s) /\
  map fst (decode n s) = map byte (list_ascii_of_string s).
Proof.
  unfold ascii_text. induction s as [|a s IH]; intros n Ha Hn; [by destruct n|].
  cbn in Ha. apply andb_true_iff in Ha as [Hb Ha]. destruct n as [|n]; [cbn in Hn; lia|]. cbn [decode]. rewrite Hb.
  cbn [map list_ascii_of_string fst snd]. destruct (IH n Ha) as [-> ->]; [cbn in Hn; lia|]. done.
Qed.

Lemma concat_str_chars s : concat_str (map (fun a => String a EmptyString) (list_ascii_of_string s)) = s.
Proof. induction s as [|a s IH]; [done|]. cbn. rewrite str_app_cons, str_app_nil_l. by rewrite IH. Qed.

(** A line that starts and ends with something is not trimmed. *)
Definition starts_solid (s : string) : bool := match s with String a _ => negb (is_whitespace (byte a)) | _ => false end.

Fixpoint ends_solid (s : string) : bool :=
  match s with
  | EmptyString => false
  | String a EmptyString => negb (is_whitespace (byte a))
  | String _ s => ends_solid s
  end.

Lemma ends_solid_app p s : is_empty s = false -> ends_solid (p +:+ s) = ends_solid s.
Proof.
  intros Hs. induction p as [|a p IH]; [done|]. rewrite str_app_cons. cbn. rewrite IH.
  by destruct p; [destruct s|].
Qed.

Lemma ends_solid_last s : ends_solid s = true ->
  exists l a, list_ascii_of_string s = l ++ [a] /\ is_whitespace (byte a) = false.
Proof.
  induction s as [|a s IH]; [done|]. destruct s as [|b s].
  - cbn. intros H%negb_true_iff. by exists [], a.
  - intros H. destruct (IH H) as (l & c & E & Hc). exists (a :: l), c. cbn in *. by rewrite E.
Qed.

Lemma drop_return_solid s : ends_solid s = true -> drop_return s = s.
Proof.
  induction s as [|a s IH]; [done|]. destruct s as [|b s].
  - cbn. intros H. rewrite bool_decide_eq_false_2; [done|]. intros ->. done.
  - intros H. change (String a (drop_return (String b s)) = String a (String b s)). f_equal. by apply IH.
Qed.

Lemma drop_while_solid (l : list (Z * string)) :
  (forall x r, l = x :: r -> is_whitespace (fst x) = false) -> drop_while (fun c => is_whitespace (fst c)) l = l.
Proof. intros H. destruct l as [|x r]; [done|]. cbn. by rewrite (H x r). Qed.

Lemma trim_solid s : ascii_text s -> starts_solid s = true -> ends_solid s = true -> trim s = s.
Proof.
  intros Ha Hh Hl. unfold trim, char_list. destruct (decode_ascii s (String.length s) Ha ltac:(lia)) as [Hs Hf].
  set (l := decode _ s) in *. rewrite (drop_while_solid l).
  - rewrite (drop_while_solid (rev l)); [by rewrite rev_involutive, Hs, concat_str_chars|].
    intros x r E. apply (f_equal (@rev _)) in E. rewrite rev_involutive in E. cbn in E.
    destruct (ends_solid_last s Hl) as (l' & a & Ea & Hw). rewrite E, Ea, !map_app in Hf. cbn in Hf.
    apply app_inj_tail in Hf as [_ ->]. done.
  - intros x r E. rewrite E in Hf. destruct s as [|a s]; [done|]. injection Hf as -> _. cbn in Hh. by apply negb_true_iff.
Qed.

(** *** Numbers *)

Lemma pretty_digits n : forall acc,
  str_forallb is_ascii_digit acc = true -> str_forallb is_ascii_digit (pretty_N_go n acc) = true.
Proof.
  induction (N.lt_wf_0 n) as [n _ IH]. intros acc Ha. destruct (decide (0 < n)%N) as [Hp|Hz].
  - rewrite pretty_N_go_step by done. apply IH; [apply N.div_lt; lia|]. cbn. rewrite Ha.
    pose proof (N.mod_lt n 10 ltac:(lia)) as Hm. revert Hm. generalize (n mod 10)%N. intros d Hd.
    assert (d = 0 \/ d = 1 \/ d = 2 \/ d = 3 \/ d = 4 \/ d = 5 \/ d = 6 \/ d = 7 \/ d = 8 \/ d = 9)%N as Hc by lia.
    by repeat destruct Hc as [->|Hc]; subst.
  - assert (n = 0%N) as -> by lia. by rewrite pretty_N_go_0.
Qed.

Lemma digit_value d : (d < 10)%N -> is_ascii_digit (pretty_N_char d) = true /\ (byte (pretty_N_char d) - 48 = Z.of_N d)%Z.
Proof.
  intros Hd.
  assert (d = 0 \/ d = 1 \/ d = 2 \/ d = 3 \/ d = 4 \/ d = 5 \/ d = 6 \/ d = 7 \/ d = 8 \/ d = 9)%N as Hc by lia.
  by repeat destruct Hc as [->|Hc]; subst.
Qed.

Lemma parse_pretty_go max n : forall acc, (Z.of_N n <= max)%Z ->
  parse_digits max 0 (pretty_N_go n acc) = parse_digits max (Z.of_N n) acc.
Proof.
  induction (N.lt_wf_0 n) as [n _ IH]. intros acc Hm. destruct (decide (0 < n)%N) as [Hp|Hz].
  - pose proof (N.div_lt n 10 Hp ltac:(lia)) as Hlt. rewrite pretty_N_go_step by done. rewrite IH by lia.
    destruct (digit_value (n mod 10)) as [Hd Hv]; [by apply N.mod_lt|]. cbn [parse_digits]. rewrite Hd, Hv.
    pose proof (N.div_mod n 10 ltac:(lia)). replace (Z.of_N (n / 10) * 10 + Z.of_N (n mod 10))%Z with (Z.of_N n) by lia.
    by rewrite (proj2 (Z.leb_le _ _) Hm).
  - assert (n = 0%N) as -> by lia. by rewrite pretty_N_go_0.
Qed.

(** A number is read back from its digits. *)
Lemma pretty_number max (n : Z) : (0 <= n <= max)%Z ->
  str_forallb is_ascii_digit (pretty n) = true /\ is_empty (pretty n) = false /\
  parse_digits max 0 (pretty n) = Some n.
Proof.
  intros Hn. destruct n as [|p|p]; [|split; [by apply pretty_digits|]|lia].
  - split; [done|]. split; [done|]. change (pretty 0%Z) with (String "0" EmptyString). cbn [parse_digits].
    change (is_ascii_digit "0") with true. cbv iota. change (0 * 10 + (byte "0" - 48))%Z with 0%Z. by rewrite (proj2 (Z.leb_le 0 max)) by lia.
  - change (pretty (Zpos p)) with (pretty_N_go (Npos p) EmptyString).
    pose proof (parse_pretty_go max (Npos p) EmptyString ltac:(cbn; lia)) as Hp. cbn [parse_digits] in Hp. split; [|exact Hp].
    destruct (pretty_N_go (Npos p) EmptyString) eqn:E; [|done].
    exfalso.
    rewrite pretty_N_go_step in E by done. revert E. generalize (pretty_N_char (N.pos p `mod` 10)) as c. intros c.
    assert (H : forall n acc, acc <> EmptyString -> pretty_N_go n acc <> EmptyString); [|by apply H].
    clear. intros n. induction (N.lt_wf_0 n) as [n _ IH]. intros acc Ha. destruct (decide (0 < n)%N) as [Hp|Hz].
    + rewrite pretty_N_go_step by done. apply IH; [apply N.div_lt; lia|done].
    + assert (n = 0%N) as -> by lia. by rewrite pretty_N_go_0.
Qed.

Lemma digit_solid a : is_ascii_digit a = true ->
  is_whitespace (byte a) = false /\ (byte a <? 128)%Z = true /\ a <> newline /\ a <> "+"%char.
Proof.
  intros Hd. assert (Hr : (48 <= byte a <= 57)%Z) by (unfold is_ascii_digit, in_range in Hd; lia). split.
  - unfold is_whitespace, in_range. lia.
  - split; [apply Z.ltb_lt; lia|]. by split; intros ->.
Qed.

(** A run of digits ends solid, is ASCII, and holds no newline. *)
Lemma digits_line s : str_forallb is_ascii_digit s = true ->
  ascii_text s /\ contains_char newline s = false /\
  (is_empty s = false -> starts_solid s = true /\ ends_solid s = true /\ strip_prefix "+" s = None).
Proof.
  unfold ascii_text. induction s as [|a s IH]; [done|]. cbn [str_forallb]. intros [Hd Hs]%andb_true_iff.
  destruct (digit_solid a Hd) as (Hw & H128 & Hn & Hp). destruct (IH Hs) as (Ha & Hc & He).
  rewrite H128, Ha. split; [done|]. split; [by apply contains_char_false_cons|]. intros _. cbn. rewrite Hw.
  split; [done|]. split; [|by rewrite decide_False]. destruct s; [done|]. by apply He.
Qed.

Lemma ascii_text_app a b : ascii_text a -> ascii_text b -> ascii_text (a +:+ b).
Proof.
  unfold ascii_text. intros Ha Hb. induction a as [|x a IH]; [done|]. rewrite str_app_cons.
  cbn [str_forallb] in *. apply andb_true_iff in Ha as [-> Ha]. by apply IH.
Qed.

Lemma contains_char_app c a b : contains_char c a = false -> contains_char c b = false -> contains_char c (a +:+ b) = false.
Proof.
  intros Ha Hb. induction a as [|x a IH]; [done|]. apply contains_char_false_cons in Ha as [Hx Ha].
  rewrite str_app_cons. apply contains_char_false_cons. split; [done|]. by apply IH.
Qed.

(** ** Words *)

Lemma tokens_app c b l1 l2 : is_whitespace c = true -> forall acc, tokens acc (l1 ++ (c, b) :: l2) = tokens acc l1 ++ tokens EmptyString l2.
Proof.
  intros Hc. induction l1 as [|[d x] l1 IH]; intros acc; cbn [app tokens].
  - rewrite Hc. by destruct (is_empty acc).
  - destruct (is_whitespace d); [destruct (is_empty acc); by rewrite IH|apply IH].
Qed.

Lemma tokens_solid l : Forall (fun c : Z * string => is_whitespace (fst c) = false) l -> forall acc,
  tokens acc l = if is_empty (acc +:+ concat_str (map snd l)) then [] else [acc +:+ concat_str (map snd l)].
Proof.
  induction 1 as [|[c b] l Hc _ IH]; intros acc; cbn [tokens map concat_str]; [by rewrite str_app_nil|].
  cbn in Hc. rewrite Hc, IH, str_app_assoc. done.
Qed.

(** ASCII text without blanks is one word. *)
Lemma char_list_ascii s : ascii_text s -> char_list s = map (fun a => (byte a, String a EmptyString)) (list_ascii_of_string s).
Proof.
  unfold ascii_text, char_list. intros H. assert (Hg : forall n, String.length s <= n -> decode n s = map (fun a => (byte a, String a EmptyString)) (list_ascii_of_string s)); [|by apply Hg].
  induction s as [|a s IH]; intros n Hn; [by destruct n|]. cbn [str_forallb] in H. apply andb_true_iff in H as [Hb Ha].
  destruct n as [|n]; [cbn in Hn; lia|]. cbn [decode list_ascii_of_string map]. rewrite Hb. f_equal. apply IH; [done|]. cbn in Hn. lia.
Qed.
