(* ===== verification/Utf8.v ===== *)
(** * UTF-8

    [from_utf8] and [from_utf8_lossy] of Rust's standard library, which the
    daemon and its plugins use on files other processes write.  A decoder takes
    one chunk at a time: a character, or the longest start of one that no byte
    completes, which the lossy decoding replaces by U+FFFD. *)

From S2P Require Import Prelude Text.

Local Open Scope string_scope.
Local Open Scope list_scope.

(** ** Chunks *)

(** The bytes a leading byte allows after it and how many more continue it. *)
Definition second_byte (b : Z) : option ((Z * Z) * nat) :=
  if in_range 194 223 b then Some ((128, 191)%Z, 0)
  else if (b =? 224)%Z then Some ((160, 191)%Z, 1)
  else if (b =? 237)%Z then Some ((128, 159)%Z, 1)
  else if in_range 225 239 b then Some ((128, 191)%Z, 1)
  else if (b =? 240)%Z then Some ((144, 191)%Z, 2)
  else if in_range 241 243 b then Some ((128, 191)%Z, 2)
  else if (b =? 244)%Z then Some ((128, 143)%Z, 2)
  else None.

(** How many bytes continue, and whether all that are due do. *)
Fixpoint continue_ (due : nat) (s : string) : nat * bool :=
  match due with
  | O => (0, true)
  | S due =>
      match s with
      | String a s => if continuation a then let '(n, whole) := continue_ due s in (S n, whole) else (0, false)
      | EmptyString => (0, false)
      end
  end.

(** The length of the first chunk and whether it is a character. *)
Definition chunk (a : ascii) (s : string) : nat * bool :=
  if (byte a <? 128)%Z then (1, true)
  else match second_byte (byte a) with
       | None => (1, false)
       | Some ((lo, hi), due) =>
           match s with
           | String c s =>
               if in_range lo hi (byte c) then let '(n, whole) := continue_ due s in (2 + n, whole) else (1, false)
           | EmptyString => (1, false)
           end
       end.

(** The chunks with their verdicts; the fuel is the length. *)
Fixpoint chunks_of (fuel : nat) (s : string) : list (string * bool) :=
  match fuel, s with
  | S fuel, String a s1 =>
      let '(n, whole) := chunk a s1 in
      (str_take n s, whole) :: chunks_of fuel (str_drop n s)
  | _, _ => []
  end.

Definition utf8_chunks (s : string) : list (string * bool) := chunks_of (String.length s) s.

(** U+FFFD. *)
Definition replacement : string :=
  String (ascii_of_nat 239) (String (ascii_of_nat 191) (String (ascii_of_nat 189) EmptyString)).

(** [from_utf8(..).is_ok()], which [to_str] of a file name asks. *)
Definition is_utf8 (s : string) : bool := forallb snd (utf8_chunks s).

Definition to_str (s : string) : option string := if is_utf8 s then Some s else None.

Definition from_utf8_lossy (s : string) : string :=
  concat_str (map (fun c : string * bool => if snd c then fst c else replacement) (utf8_chunks s)).

(** ** Lemmas *)

Lemma chunk_pos a s : 1 <= fst (chunk a s).
Proof.
  unfold chunk. destruct (byte a <? 128)%Z; [done|]. destruct (second_byte _) as [[[lo hi] due]|]; [|done].
  destruct s as [|c s]; [done|]. destruct (in_range _ _ _); [|done]. destruct (continue_ due s). cbn. lia.
Qed.

Lemma continue_bound due : forall s, fst (continue_ due s) <= String.length s.
Proof.
  induction due as [|due IH]; intros [|a s]; cbn; try lia. destruct (continuation a); [|cbn; lia].
  specialize (IH s). destruct (continue_ due s). cbn in *. lia.
Qed.

Lemma chunk_bound a s : fst (chunk a s) <= S (String.length s).
Proof.
  unfold chunk. destruct (byte a <? 128)%Z; [cbn; lia|]. destruct (second_byte _) as [[[lo hi] due]|]; [|cbn; lia].
  destruct s as [|c s]; [cbn; lia|]. destruct (in_range _ _ _); [|cbn; lia].
  pose proof (continue_bound due s). destruct (continue_ due s). cbn in *. lia.
Qed.

(** More fuel than bytes changes nothing. *)
Lemma chunks_fuel n : forall m s, String.length s <= n -> String.length s <= m -> chunks_of n s = chunks_of m s.
Proof.
  induction n as [|n IH]; intros [|m] [|a s] Hn Hm; cbn [String.length] in *; try done; try lia.
  cbn [chunks_of]. pose proof (chunk_pos a s). destruct (chunk a s) as [k whole]. cbn [fst] in *. f_equal.
  apply IH; rewrite str_drop_length; cbn [String.length]; lia.
Qed.

Lemma utf8_chunks_cons a s : utf8_chunks (String a s) =
  (str_take (fst (chunk a s)) (String a s), snd (chunk a s)) :: utf8_chunks (str_drop (fst (chunk a s)) (String a s)).
Proof.
  unfold utf8_chunks. cbn [String.length chunks_of]. pose proof (chunk_pos a s). destruct (chunk a s) as [k whole].
  cbn [fst snd] in *. f_equal. apply chunks_fuel; rewrite ?str_drop_length; cbn [String.length]; lia.
Qed.

(** *** A byte below 128 ends a chunk *)

Lemma continue_stop c t : (byte c < 128)%Z -> forall s due, continue_ due (s +:+ String c t) = continue_ due s.
Proof.
  intros Hc. induction s as [|a s IH]; intros [|due]; try done.
  - rewrite str_app_nil_l. cbn [continue_]. unfold continuation. by test_bool (in_range 128 191 (byte c)) false.
  - rewrite str_app_cons. cbn [continue_]. destruct (continuation a); [|done]. by rewrite IH.
Qed.

Lemma second_byte_high b lo hi due : second_byte b = Some ((lo, hi), due) -> (128 <= lo)%Z.
Proof. unfold second_byte. intros H. repeat case_match; simplify_eq; lia. Qed.

Lemma chunk_stop c a s t : (byte c < 128)%Z -> chunk a (s +:+ String c t) = chunk a s.
Proof.
  intros Hc. unfold chunk. destruct (byte a <? 128)%Z; [done|]. destruct (second_byte _) as [[[lo hi] due]|] eqn:E; [|done].
  apply second_byte_high in E. destruct s as [|d s]; [rewrite str_app_nil_l|rewrite str_app_cons].
  - by test_bool (in_range lo hi (byte c)) false.
  - destruct (in_range _ _ _); [|done]. by rewrite (continue_stop c t Hc).
Qed.

Lemma chunk_ascii a s : (byte a < 128)%Z -> chunk a s = (1, true).
Proof. intros Ha. unfold chunk. by test_bool (byte a <? 128)%Z true. Qed.

Lemma str_take_app_le n a b : n <= String.length a -> str_take n (a +:+ b) = str_take n a.
Proof.
  revert a. induction n as [|n IH]; intros [|x a] H; cbn [String.length] in H; try lia; try done.
  rewrite str_app_cons. cbn [str_take]. by rewrite IH by lia.
Qed.

Lemma str_drop_app_le n a b : n <= String.length a -> str_drop n (a +:+ b) = str_drop n a +:+ b.
Proof.
  revert a. induction n as [|n IH]; intros [|x a] H; cbn [String.length] in H; try lia; try done.
  rewrite str_app_cons. apply IH. lia.
Qed.

Lemma chunks_line c b : (byte c < 128)%Z -> forall n a, String.length a <= n ->
  utf8_chunks (a +:+ String c b) = utf8_chunks a ++ (String c EmptyString, true) :: utf8_chunks b.
Proof.
  intros Hc. induction n as [|n IH]; intros [|x a] Hn; cbn [String.length] in *; try lia.
  1, 2: rewrite str_app_nil_l, utf8_chunks_cons, chunk_ascii by done; reflexivity.
  rewrite str_app_cons, !utf8_chunks_cons, (chunk_stop c x a b Hc).
  pose proof (chunk_pos x a). pose proof (chunk_bound x a). destruct (chunk x a) as [k whole]. cbn [fst snd] in *.
  rewrite <- (str_app_cons x a). rewrite str_take_app_le, str_drop_app_le by (cbn [String.length]; lia).
  rewrite IH by (rewrite str_drop_length; cbn [String.length]; lia). reflexivity.
Qed.

(** The lossy decoding of a file is that of its lines. *)
Lemma lossy_line c a b : (byte c < 128)%Z -> from_utf8_lossy (a +:+ String c b) = from_utf8_lossy a +:+ String c (from_utf8_lossy b).
Proof. intros Hc. unfold from_utf8_lossy. rewrite (chunks_line c b Hc _ a (le_n _)), map_app, concat_str_app. reflexivity. Qed.

(** *** Characters *)

(** One whole character. *)
Definition character (s : string) : Prop :=
  match s with String a s => chunk a s = (S (String.length s), true) | EmptyString => False end.

Lemma continue_whole due : forall s rest, continue_ due s = (String.length s, true) -> continue_ due (s +:+ rest) = (String.length s, true).
Proof.
  induction due as [|due IH]; intros [|a s] rest; try done. rewrite str_app_cons. cbn [continue_ String.length].
  destruct (continuation a); [|done]. destruct (continue_ due s) as [n whole] eqn:E. intros [= -> ->].
  by rewrite (IH s rest E).
Qed.

Lemma character_app x rest : character x -> utf8_chunks (x +:+ rest) = (x, true) :: utf8_chunks rest.
Proof.
  destruct x as [|a s]; [done|]. cbn [character]. intros H.
  assert (Hc : chunk a (s +:+ rest) = (S (String.length s), true)).
  { unfold chunk in *. destruct (byte a <? 128)%Z; [done|]. destruct (second_byte _) as [[[lo hi] due]|]; [|done].
    destruct s as [|c s]; [done|]. rewrite str_app_cons. destruct (in_range _ _ _); [|done].
    destruct (continue_ due s) as [n whole] eqn:E. cbn [String.length] in H. injection H as Hn ->.
    rewrite (continue_whole due s rest); cbn [String.length]; [done|]. rewrite E. f_equal. lia. }
  rewrite str_app_cons, utf8_chunks_cons, Hc. cbn [fst snd]. rewrite <- (str_app_cons a s).
  change (S (String.length s)) with (String.length (String a s)). by rewrite str_take_app, str_drop_app.
Qed.

Lemma utf8_concat l : Forall character l -> utf8_chunks (concat_str l) = map (fun x => (x, true)) l.
Proof. induction 1 as [|x l Hx _ IH]; [done|]. cbn [concat_str map]. by rewrite (character_app x _ Hx), IH. Qed.

Lemma continue_take due : forall s n, continue_ due s = (n, true) -> continue_ due (str_take n s) = (n, true).
Proof.
  induction due as [|due IH]; intros [|a s] n; cbn [continue_]; try (intros [= <-]; done).
  destruct (continuation a) eqn:Ea; [|done]. destruct (continue_ due s) as [m whole] eqn:E. intros [= <- ->].
  cbn. rewrite Ea. by rewrite (IH s m E).
Qed.

Lemma chunk_character a s n : chunk a s = (n, true) -> character (str_take n (String a s)).
Proof.
  intros H. pose proof (chunk_bound a s) as Hb. pose proof (chunk_pos a s) as Hp. rewrite H in Hb, Hp. cbn [fst] in *.
  destruct n as [|n]; [lia|]. cbn [str_take character]. rewrite str_take_length, Nat.min_l by lia.
  unfold chunk in *. destruct (byte a <? 128)%Z; [by injection H as <-|]. destruct (second_byte _) as [[[lo hi] due]|]; [|done].
  destruct s as [|c s]; [done|]. destruct (in_range lo hi (byte c)) eqn:Er; [|done].
  destruct (continue_ due s) as [k whole] eqn:E. injection H as H ->. destruct n as [|n]; [lia|]. cbn [str_take].
  rewrite Er. assert (n = k) as -> by lia. by rewrite (continue_take _ _ _ E).
Qed.

Lemma whole_chunks s : Forall (fun c : string * bool => snd c = true -> character (fst c)) (utf8_chunks s).
Proof.
  remember (String.length s) as n eqn:En. assert (Hn : String.length s <= n) by lia. clear En. revert s Hn.
  induction n as [|n IH]; intros [|a s] Hn; cbn [String.length] in *; try lia; try constructor; rewrite utf8_chunks_cons.
  pose proof (chunk_pos a s). constructor.
  - cbn [fst snd]. intros H0. apply chunk_character. destruct (chunk a s). cbn in *. by subst.
  - apply IH. rewrite str_drop_length. cbn [String.length]. lia.
Qed.

Lemma newline_ascii : (byte newline < 128)%Z.
Proof. reflexivity. Qed.

(** The lossy decoding is UTF-8. *)
Lemma lossy_utf8 s : is_utf8 (from_utf8_lossy s) = true.
Proof.
  unfold is_utf8, from_utf8_lossy. rewrite utf8_concat.
  - apply forallb_forall. intros x Hx. apply in_map_iff in Hx as (y & <- & _). done.
  - pose proof (whole_chunks s) as H. induction H as [|[x b] l Hx _ IH]; [constructor|]. cbn [map fst snd] in *.
    constructor; [|exact IH]. destruct b; [by apply Hx|vm_compute; done].
Qed.

Lemma chunks_concat s : concat_str (map fst (utf8_chunks s)) = s.
Proof.
  remember (String.length s) as n eqn:En. assert (Hn : String.length s <= n) by lia. clear En. revert s Hn.
  induction n as [|n IH]; intros [|a s] Hn; cbn [String.length] in *; try lia; try done; rewrite utf8_chunks_cons.
  pose proof (chunk_pos a s). cbn [map fst concat_str]. rewrite IH; [apply str_take_drop|].
  rewrite str_drop_length. cbn [String.length]. lia.
Qed.

(** Text that is UTF-8 is its own decoding. *)
Lemma lossy_same s : is_utf8 s = true -> from_utf8_lossy s = s.
Proof.
  intros H. rewrite <- (chunks_concat s) at 2. unfold from_utf8_lossy. f_equal. apply map_ext_in. intros c Hc.
  unfold is_utf8 in H. rewrite forallb_forall in H. by rewrite (H c Hc).
Qed.
