(* ===== verification/BTree.v ===== *)
(** * Ordered maps

    The standard library's [BTreeMap], as the code uses it (the supervisor's
    tally, the daemon's state): an association list in key order, so that what
    the code observes by iterating ([values], [iter]) is the model's order.
    The operations agree with stdpp's finite maps ([to_gmap_insert],
    [to_gmap_remove]), and a map in order is determined by its lookups. *)

From S2P Require Import Prelude.

(** A total order by its strict comparison. *)
Class Ord (K : Type) `{EqDecision K} : Type := {
  ltb : K -> K -> bool;
  ltb_irrefl : forall a, ltb a a = false;
  ltb_trans : forall a b c, ltb a b = true -> ltb b c = true -> ltb a c = true;
  ltb_total : forall a b, ltb a b = false -> ltb b a = false -> a = b
}.

Definition btree (K V : Type) : Type := list (K * V).

Section BTree.
Context {K V : Type} `{Ord K}.
Implicit Type m : btree K V.

Fixpoint get (k : K) (m : btree K V) : option V :=
  match m with
  | [] => None
  | (k', v) :: m => if decide (k = k') then Some v else get k m
  end.

Fixpoint put (k : K) (v : V) (m : btree K V) : btree K V :=
  match m with
  | [] => [(k, v)]
  | (k', v') :: m =>
      if decide (k = k') then (k, v) :: m
      else if ltb k k' then (k, v) :: (k', v') :: m
      else (k', v') :: put k v m
  end.

Fixpoint remove (k : K) (m : btree K V) : btree K V :=
  match m with
  | [] => []
  | (k', v') :: m => if decide (k = k') then remove k m else (k', v') :: remove k m
  end.

Definition values (m : btree K V) : list V := map snd m.

Definition has (k : K) (m : btree K V) : bool :=
  match get k m with Some _ => true | None => false end.

(** [get_mut] followed by an update in place. *)
Definition adjust (f : V -> V) (k : K) (m : btree K V) : btree K V :=
  match get k m with Some v => put k (f v) m | None => m end.

(** Keys in strictly increasing order. *)
Fixpoint ordered (m : btree K V) : Prop :=
  match m with
  | [] => True
  | (k, _) :: m => Forall (fun e => ltb k (fst e) = true) m /\ ordered m
  end.

Lemma get_put k v m : get k (put k v m) = Some v.
Proof.
  induction m as [|[k' v'] m IH]; cbn [put get]; [by rewrite decide_True|].
  destruct (decide (k = k')) as [->|Hne]; [cbn; by rewrite decide_True|].
  destruct (ltb k k'); cbn [get]; [by rewrite decide_True|by rewrite decide_False].
Qed.

Lemma get_put_ne k k1 v m : k1 <> k -> get k1 (put k v m) = get k1 m.
Proof.
  intros Hne. induction m as [|[k' v'] m IH]; cbn [put get]; [by rewrite decide_False|].
  destruct (decide (k = k')) as [->|]; cbn [get]; [by rewrite !(decide_False (P := k1 = _))|].
  destruct (ltb k k'); cbn [get]; [by rewrite (decide_False (P := k1 = k))|by rewrite IH].
Qed.

Lemma get_remove k m : get k (remove k m) = None.
Proof.
  induction m as [|[k' v'] m IH]; cbn [remove get]; [done|].
  destruct (decide (k = k')); [done|]. cbn [get]. by rewrite decide_False.
Qed.

Lemma get_remove_ne k k1 m : k1 <> k -> get k1 (remove k m) = get k1 m.
Proof.
  intros Hne. induction m as [|[k' v'] m IH]; cbn [remove get]; [done|].
  destruct (decide (k = k')) as [->|]; [by rewrite (decide_False (P := k1 = k'))|].
  cbn [get]. by rewrite IH.
Qed.

Lemma get_elem k v m : get k m = Some v -> (k, v) ∈ m.
Proof.
  induction m as [|[k' v'] m IH]; cbn [get]; [done|].
  destruct (decide (k = k')) as [->|]; [intros [= ->]; left|right; auto].
Qed.

Lemma get_none k m : Forall (fun e => ltb k (fst e) = true) m -> get k m = None.
Proof.
  induction 1 as [|[k' v'] m Hk _ IH]; [done|]. cbn in *.
  rewrite decide_False; [done|]. intros ->. by rewrite ltb_irrefl in Hk.
Qed.

Lemma get_below k k' m : ltb k k' = true -> Forall (fun e => ltb k' (fst e) = true) m -> get k m = None.
Proof.
  intros Hk Hf. apply get_none. eapply Forall_impl; [exact Hf|]. intros. by eapply ltb_trans.
Qed.

Lemma elem_get k v m : ordered m -> (k, v) ∈ m -> get k m = Some v.
Proof.
  induction m as [|[k' v'] m IH]; [by rewrite elem_of_nil|]. cbn [ordered get]. intros [Hf Ho].
  rewrite elem_of_cons. intros [[= <- <-]|Hin]; [by rewrite decide_True|].
  rewrite decide_False; [by apply IH|]. intros ->. rewrite Forall_forall in Hf.
  specialize (Hf _ Hin). cbn in Hf. by rewrite ltb_irrefl in Hf.
Qed.

Lemma ordered_nodup m : ordered m -> NoDup (map fst m).
Proof.
  induction m as [|[k v] m IH]; [constructor|]. cbn [ordered map fst]. intros [Hf Ho]. constructor; [|by apply IH].
  intros Hin. apply list_elem_of_In, in_map_iff in Hin as ([k' v'] & <- & Hin). apply list_elem_of_In in Hin.
  rewrite Forall_forall in Hf. specialize (Hf _ Hin). cbn in Hf. by rewrite ltb_irrefl in Hf.
Qed.

Lemma put_forall (P : K * V -> Prop) k v m : P (k, v) -> Forall P m -> Forall P (put k v m).
Proof.
  intros Hp. induction 1 as [|[k' v'] m Hk Hm IH]; cbn [put]; [by constructor|].
  destruct (decide (k = k')); [by constructor|]. destruct (ltb k k'); by repeat constructor.
Qed.

Lemma remove_forall (P : K * V -> Prop) k m : Forall P m -> Forall P (remove k m).
Proof.
  induction 1 as [|[k' v'] m Hk Hm IH]; cbn [remove]; [done|].
  destruct (decide (k = k')); [done|by constructor].
Qed.

Lemma put_ordered k v m : ordered m -> ordered (put k v m).
Proof.
  induction m as [|[k' v'] m IH]; cbn [put ordered]; [done|]. intros [Hf Ho].
  destruct (decide (k = k')) as [->|Hne]; [done|]. destruct (ltb k k') eqn:E; cbn [ordered].
  - split; [|done]. constructor; [done|]. eapply Forall_impl; [exact Hf|]. intros e He. by eapply ltb_trans.
  - split; [|by apply IH]. apply put_forall; [|done]. cbn.
    destruct (ltb k' k) eqn:E'; [done|]. by pose proof (ltb_total _ _ E E').
Qed.

Lemma remove_ordered k m : ordered m -> ordered (remove k m).
Proof.
  induction m as [|[k' v'] m IH]; cbn [remove ordered]; [done|]. intros [Hf Ho].
  destruct (decide (k = k')); [auto|]. cbn. split; [by apply remove_forall|auto].
Qed.

Lemma adjust_ordered f k m : ordered m -> ordered (adjust f k m).
Proof. unfold adjust. destruct (get k m); [apply put_ordered|done]. Qed.

Lemma get_adjust f k m : get k (adjust f k m) = f <$> get k m.
Proof. unfold adjust. destruct (get k m) eqn:E; [by rewrite get_put|done]. Qed.

Lemma get_adjust_ne f k k1 m : k1 <> k -> get k1 (adjust f k m) = get k1 m.
Proof. intros. unfold adjust. destruct (get k m); [by apply get_put_ne|done]. Qed.

(** Two maps in order with the same lookups are the same list. *)
Lemma ordered_ext m1 : forall m2, ordered m1 -> ordered m2 -> (forall k, get k m1 = get k m2) -> m1 = m2.
Proof.
  induction m1 as [|[k1 v1] m1 IH]; intros [|[k2 v2] m2]; cbn [ordered]; intros H1 H2 Hg; [done| | |].
  - specialize (Hg k2). cbn in Hg. by rewrite decide_True in Hg.
  - specialize (Hg k1). cbn in Hg. by rewrite decide_True in Hg.
  - destruct H1 as [F1 O1], H2 as [F2 O2].
    assert (k1 = k2) as ->.
    { destruct (ltb k1 k2) eqn:E1; [|destruct (ltb k2 k1) eqn:E2; [|by apply ltb_total]]; exfalso.
      - specialize (Hg k1). cbn in Hg. rewrite decide_True in Hg by done.
        rewrite (get_below _ _ _ E1 F2) in Hg. case_decide as Hd; [|done]. subst. by rewrite ltb_irrefl in E1.
      - specialize (Hg k2). cbn in Hg. rewrite (decide_True (P := k2 = k2)) in Hg by done.
        rewrite (get_below _ _ _ E2 F1) in Hg. case_decide as Hd; [|done]. subst. by rewrite ltb_irrefl in E2. }
    pose proof (Hg k2) as Hk. cbn in Hk. rewrite !decide_True in Hk by done. injection Hk as ->.
    f_equal. apply IH; [done|done|]. intros k. specialize (Hg k). cbn in Hg.
    destruct (decide (k = k2)) as [->|]; [|done]. by rewrite !get_none.
Qed.

(** Updating a key that is there keeps the keys. *)
Lemma put_keys k v v0 m : ordered m -> get k m = Some v0 -> map fst (put k v m) = map fst m.
Proof.
  induction m as [|[k' v'] m IH]; cbn [get put ordered]; [done|]. intros [Hf Ho].
  destruct (decide (k = k')) as [->|]; [done|]. intros Hg.
  destruct (ltb k k') eqn:E.
  - by rewrite (get_below _ _ _ E Hf) in Hg.
  - cbn. by rewrite IH.
Qed.

(** Refinement of the finite map. *)
Section Gmap.
Context `{!Countable K}.

Definition to_gmap (m : btree K V) : gmap K V := list_to_map m.

Lemma to_gmap_lookup k m : to_gmap m !! k = get k m.
Proof.
  induction m as [|[k' v'] m IH]; cbn [get]; [done|]. unfold to_gmap in *. cbn.
  destruct (decide (k = k')) as [->|]; [by rewrite lookup_insert_eq|by rewrite lookup_insert_ne].
Qed.

Lemma to_gmap_insert k v m : to_gmap (put k v m) = <[k := v]> (to_gmap m).
Proof.
  apply map_eq. intros k1. rewrite to_gmap_lookup. destruct (decide (k1 = k)) as [->|].
  - by rewrite get_put, lookup_insert_eq.
  - by rewrite get_put_ne, lookup_insert_ne, to_gmap_lookup.
Qed.

Lemma to_gmap_remove k m : to_gmap (remove k m) = delete k (to_gmap m).
Proof.
  apply map_eq. intros k1. rewrite to_gmap_lookup. destruct (decide (k1 = k)) as [->|].
  - by rewrite get_remove, lookup_delete_eq.
  - by rewrite get_remove_ne, lookup_delete_ne, to_gmap_lookup.
Qed.
End Gmap.
End BTree.

Arguments to_gmap : simpl never.

(** ** Orders of the keys *)

#[export] Program Instance N_Ord : Ord N := {| ltb := N.ltb |}.
Next Obligation. intros a. apply N.ltb_irrefl. Qed.
Next Obligation. intros a b c. rewrite !N.ltb_lt. lia. Qed.
Next Obligation. intros a b. rewrite !N.ltb_ge. lia. Qed.

(** Rust compares strings by their bytes. *)
Definition str_ltb (a b : string) : bool :=
  match String.compare a b with Lt => true | _ => false end.

Lemma ascii_N_inj a b : Ascii.N_of_ascii a = Ascii.N_of_ascii b -> a = b.
Proof. intros Heq. by rewrite <- (Ascii.ascii_N_embedding a), Heq, Ascii.ascii_N_embedding. Qed.

Lemma string_compare_cons a s b t :
  String.compare (String a s) (String b t) =
  match (Ascii.N_of_ascii a ?= Ascii.N_of_ascii b)%N with Eq => String.compare s t | c => c end.
Proof. reflexivity. Qed.

Lemma string_compare_eq a : forall b, String.compare a b = Eq -> a = b.
Proof.
  induction a as [|x a IH]; intros [|y b]; try done. rewrite string_compare_cons.
  destruct (N.compare_spec (Ascii.N_of_ascii x) (Ascii.N_of_ascii y)); try done.
  intros. f_equal; [by apply ascii_N_inj|auto].
Qed.

Lemma str_ltb_trans a : forall b c, str_ltb a b = true -> str_ltb b c = true -> str_ltb a c = true.
Proof.
  unfold str_ltb. induction a as [|x a IH]; intros [|y b] [|z c]; try done.
  rewrite !string_compare_cons.
  destruct (N.compare_spec (Ascii.N_of_ascii x) (Ascii.N_of_ascii y)),
    (N.compare_spec (Ascii.N_of_ascii y) (Ascii.N_of_ascii z)),
    (N.compare_spec (Ascii.N_of_ascii x) (Ascii.N_of_ascii z)); try lia; try done. apply IH.
Qed.

#[export] Program Instance string_Ord : Ord string := {| ltb := str_ltb |}.
Next Obligation.
  intros a. unfold str_ltb. induction a as [|x a IH]; [done|]. by rewrite string_compare_cons, N.compare_refl.
Qed.
Next Obligation. exact str_ltb_trans. Qed.
Next Obligation.
  intros a b. unfold str_ltb. rewrite (String.compare_antisym a b).
  destruct (String.compare b a) eqn:E; cbn; try done. intros _ _. symmetry. by apply string_compare_eq.
Qed.

#[export] Program Instance prod_Ord {A B} `{Ord A, Ord B} : Ord (A * B) :=
  {| ltb x y := ltb (fst x) (fst y) || (bool_decide (fst x = fst y) && ltb (snd x) (snd y)) |}.
Next Obligation. intros A B ? ? ? ? [a b]. cbn. by rewrite !ltb_irrefl, andb_false_r. Qed.
Next Obligation.
  intros A B ? ? ? ? [a1 b1] [a2 b2] [a3 b3]. cbn. rewrite !orb_true_iff, !andb_true_iff, !bool_decide_eq_true.
  intros [L1|[-> L1]] [L2|[-> L2]]; eauto using ltb_trans.
Qed.
Next Obligation.
  intros A B ? ? ? ? [a1 b1] [a2 b2]. cbn. rewrite !orb_false_iff. intros [L1 M1] [L2 M2].
  pose proof (ltb_total _ _ L1 L2) as ->. rewrite bool_decide_true in * by done. cbn in *.
  by rewrite (ltb_total _ _ M1 M2).
Qed.

#[export] Hint Resolve put_ordered remove_ordered adjust_ordered : willie.
