(* ===== verification/VtFilter.v ===== *)
(** * The terminal-output filter

    Models crates/willie-sess/src/vt_filter.rs: the byte automaton between
    the PTY and the attach fan-out.  A byte is a [Z]; the two output
    parameters [out] and [dropped] of the code are the list of bytes and the
    list of names each handler appends.  Each arm of the code's [step] is a
    handler of its own; where an arm changes the state and hands its byte
    back to [step], the handler calls the handler of that state directly. *)

From S2P Require Import Prelude.

Local Open Scope Z_scope.

(** ** Data *)

Definition OSC_ID_CAP : nat := 16.
Definition CSI_CAP : nat := 256.

Arguments OSC_ID_CAP : simpl never.
Arguments CSI_CAP : simpl never.

Inductive State : Type :=
| Ground | Utf8C2 | Esc | Csi | OscId | DcsId | Str | StrEsc | StrC2.

#[export] Instance State_eq_dec : EqDecision State.
Proof. solve_decision. Defined.

Record VtFilter : Type := mk_filter {
  state : State;
  buf : list Z;
  csi_over : bool;
  osc_num : Z;
  osc_seen : bool;
  osc_over : bool;
  dcs_over : bool;
  str_drop : bool;
  str_bel : bool
}.

Definition new : VtFilter := mk_filter Ground [] false 0 false false false false false.

Definition set_state (s : State) (f : VtFilter) : VtFilter :=
  mk_filter s (buf f) (csi_over f) (osc_num f) (osc_seen f) (osc_over f)
    (dcs_over f) (str_drop f) (str_bel f).

Definition set_buf (l : list Z) (f : VtFilter) : VtFilter :=
  mk_filter (state f) l (csi_over f) (osc_num f) (osc_seen f) (osc_over f)
    (dcs_over f) (str_drop f) (str_bel f).

Definition set_csi_over (o : bool) (f : VtFilter) : VtFilter :=
  mk_filter (state f) (buf f) o (osc_num f) (osc_seen f) (osc_over f)
    (dcs_over f) (str_drop f) (str_bel f).

Definition set_osc (n : Z) (seen over : bool) (f : VtFilter) : VtFilter :=
  mk_filter (state f) (buf f) (csi_over f) n seen over
    (dcs_over f) (str_drop f) (str_bel f).

Definition set_dcs_over (o : bool) (f : VtFilter) : VtFilter :=
  mk_filter (state f) (buf f) (csi_over f) (osc_num f) (osc_seen f) (osc_over f)
    o (str_drop f) (str_bel f).

(** What one call appends to [out] and to [dropped], with the filter after it. *)
Definition effect : Type := VtFilter * list Z * list string.

(** Prefix an effect with bytes and names already appended. *)
Definition after (bytes : list Z) (names : list string) (e : effect) : effect :=
  let '(f, o, d) := e in (f, bytes ++ o, names ++ d).

Definition is_digit (b : Z) : bool := in_range 48 57 b.

(** The C0 controls an emulator executes or ignores inside a sequence:
    every control but CAN, SUB and ESC. *)
Definition c0_inside (b : Z) : bool :=
  in_range 0 23 b || (b =? 25) || in_range 28 31 b.

(** [enter_str]: the streaming string state. *)
Definition enter_str (drop bel : bool) (f : VtFilter) : VtFilter :=
  mk_filter Str [] (csi_over f) (osc_num f) (osc_seen f) (osc_over f)
    (dcs_over f) drop bel.

(** [open]: begin accumulating a sequence. *)
Definition open (introducer : list Z) (s : State) (f : VtFilter) : VtFilter :=
  mk_filter s introducer false 0 false false false (str_drop f) (str_bel f).

(** [s.parse::<u32>()] on a run of ASCII digits: [None] when empty or out of
    range. *)
Fixpoint parse_u32_from (acc : Z) (ds : list Z) : option Z :=
  match ds with
  | [] => Some acc
  | d :: ds =>
      let acc := acc * 10 + (d - 48) in
      if u32_max <? acc then None else parse_u32_from acc ds
  end.

Definition parse_u32 (ds : list Z) : option Z :=
  match ds with [] => None | _ => parse_u32_from 0 ds end.

(** [csi_decision]: the name a CSI is dropped under, if it acts on the host. *)
Definition csi_decision (prefix : list Z) (final_byte : Z) : option string :=
  if negb (final_byte =? 116) then None
  else
    let content := drop 2 prefix in
    match content with
    | 62 :: _ => Some "title"%string
    | _ =>
        let start := default (length content)
          (position (fun c => negb (c =? 63) && negb (c =? 60) && negb (c =? 61)) content) in
        let digits := take_while is_digit (drop start content) in
        match parse_u32 digits with
        | Some n =>
            if (n =? 11) || (n =? 13) || (n =? 14) || (n =? 16) || (n =? 18) || (n =? 19)
            then None else Some "window"%string
        | None => Some "window"%string
        end
    end.

(** [osc_decision]: the name an OSC is dropped under. *)
Definition osc_decision (seen : bool) (num : Z) : option string :=
  let num := if seen then num else 0 in
  if num =? 52 then Some "clipboard"%string
  else if in_range 0 2 num then Some "title"%string
  else None.

(** ** The handlers: the arms of [step] *)

Definition step_ground (f : VtFilter) (b : Z) : effect :=
  if b =? 27 then (set_state Esc f, [], [])
  else if b =? 194 then (set_state Utf8C2 f, [], [])
  else (f, [b], []).

Definition step_utf8c2 (f : VtFilter) (b : Z) : effect :=
  if b =? 155 then (open [194; 155] Csi f, [], [])
  else if b =? 157 then (open [194; 157] OscId f, [], [])
  else if b =? 144 then (open [194; 144] DcsId f, [], [])
  else if in_range 128 191 b then (set_state Ground f, [194; b], [])
  else after [194] [] (step_ground (set_state Ground f) b).

Definition step_esc (f : VtFilter) (b : Z) : effect :=
  if b =? 91 then (open [27; 91] Csi f, [], [])
  else if b =? 93 then (open [27; 93] OscId f, [], [])
  else if b =? 80 then (open [27; 80] DcsId f, [], [])
  else after [27] [] (step_ground (set_state Ground f) b).

(** Leaving a CSI: [buf] cleared, the freeze lifted, back to ground. *)
Definition close_csi (f : VtFilter) : VtFilter :=
  set_state Ground (set_csi_over false (set_buf [] f)).

(** Push a byte unless the sequence is frozen at its cap. *)
Definition push_csi (f : VtFilter) (b : Z) : VtFilter :=
  if csi_over f then f
  else
    let l := buf f ++ [b] in
    let f := set_buf l f in
    if (CSI_CAP <=? length l)%nat then set_csi_over true f else f.

Definition step_csi (f : VtFilter) (b : Z) : effect :=
  if in_range 64 126 b then
    match csi_decision (buf f) b with
    | Some name => (close_csi f, [], [name])
    | None =>
        if csi_over f then (close_csi f, [], [])
        else (close_csi f, buf f ++ [b], [])
    end
  else if in_range 32 63 b then (push_csi f b, [], [])
  else if c0_inside b then (f, [b], [])
  else if b =? 127 then (f, [], [])
  else
    after (if csi_over f then [] else buf f) [] (step_ground (close_csi f) b).

Definition step_str (f : VtFilter) (b : Z) : effect :=
  if (b =? 7) && str_bel f then
    (set_state Ground f, if str_drop f then [] else [7], [])
  else if b =? 27 then (set_state StrEsc f, [], [])
  else if b =? 194 then (set_state StrC2 f, [], [])
  else (f, if str_drop f then [] else [b], []).

Definition push_osc (f : VtFilter) (b : Z) : VtFilter :=
  let num := sat_add32 (sat_mul32 (osc_num f) 10) (b - 48) in
  if osc_over f then set_osc num true true f
  else
    let l := buf f ++ [b] in
    set_osc num true (OSC_ID_CAP <=? length l)%nat (set_buf l f).

Definition step_osc_id (f : VtFilter) (b : Z) : effect :=
  if is_digit b then (push_osc f b, [], [])
  else if in_range 0 6 b || in_range 8 23 b || (b =? 25) || in_range 28 31 b || (b =? 127)
  then (f, [], [])
  else
    let terminator := (b =? 7) || (b =? 27) || (b =? 194) in
    match osc_decision (osc_seen f) (osc_num f) with
    | Some name =>
        let f := enter_str true true f in
        if terminator then after [] [name] (step_str f b) else (f, [], [name])
    | None =>
        if osc_over f then
          let f := enter_str true true f in
          if terminator then step_str f b else (f, [], [])
        else after (buf f) [] (step_str (enter_str false true f) b)
    end.

Definition push_dcs (f : VtFilter) (b : Z) : VtFilter :=
  if dcs_over f then f
  else
    let l := buf f ++ [b] in
    let f := set_buf l f in
    if (OSC_ID_CAP <=? length l)%nat then set_dcs_over true f else f.

Definition step_dcs_id (f : VtFilter) (b : Z) : effect :=
  if in_range 32 63 b then (push_dcs f b, [], [])
  else if in_range 64 126 b then
    let query := match last (buf f) with Some i => (i =? 36) || (i =? 43) | None => false end in
    if dcs_over f || ((b =? 113) && query) then
      (enter_str true false f, [], ["query_echo"%string])
    else (enter_str false false f, buf f ++ [b], [])
  else if c0_inside b || (b =? 127) then (f, [], [])
  else if dcs_over f then
    after [] ["query_echo"%string] (step_str (enter_str true false f) b)
  else after (buf f) [] (step_str (enter_str false false f) b).

Definition step_str_esc (f : VtFilter) (b : Z) : effect :=
  if b =? 92 then (set_state Ground f, if str_drop f then [] else [27; 92], [])
  else step_esc (set_state Esc f) b.

Definition step_str_c2 (f : VtFilter) (b : Z) : effect :=
  if b =? 156 then (set_state Ground f, if str_drop f then [] else [194; 156], [])
  else if in_range 128 191 b then
    (set_state Str f, if str_drop f then [] else [194; b], [])
  else after (if str_drop f then [] else [194]) [] (step_str (set_state Str f) b).

(** One byte through the automaton. *)
Definition step (f : VtFilter) (b : Z) : effect :=
  match state f with
  | Ground => step_ground f b
  | Utf8C2 => step_utf8c2 f b
  | Esc => step_esc f b
  | Csi => step_csi f b
  | OscId => step_osc_id f b
  | DcsId => step_dcs_id f b
  | Str => step_str f b
  | StrEsc => step_str_esc f b
  | StrC2 => step_str_c2 f b
  end.

(** [feed]: one input chunk. *)
Fixpoint feed (f : VtFilter) (input : list Z) : effect :=
  match input with
  | [] => (f, [], [])
  | b :: input => let '(f, o, d) := step f b in after o d (feed f input)
  end.

(** Several chunks, as the PTY pump reads them. *)
Fixpoint feed_all (f : VtFilter) (chunks : list (list Z)) : effect :=
  match chunks with
  | [] => (f, [], [])
  | c :: chunks => let '(f, o, d) := feed f c in after o d (feed_all f chunks)
  end.

(** ** The abstract specification: whole sequences

    What the emulator sees as one unit, how it is spelled on the wire, and
    what the filter promises about it. *)

Inductive terminator : Type := BEL | ST | C1_ST.

(** One unit of a string's payload: a byte, or a character led by [C2].  The
    filter's view: an emulator aborts a string at a CAN or SUB byte, which the
    filter takes as payload (see [aborted_string_passes_clipboard]). *)
Inductive atom : Type := Plain (b : Z) | Led (b : Z).

Inductive token : Type :=
| TText (b : Z)
| TLatin (b : Z)
| TEscape (b : Z)
| TCsi (c1 : bool) (params : list Z) (final : Z)
| TOsc (c1 : bool) (digits : list Z) (payload : list atom) (t : terminator)
| TDcs (c1 : bool) (params : list Z) (final : Z) (payload : list atom) (t : terminator).

Definition render_term (t : terminator) : list Z :=
  match t with BEL => [7] | ST => [27; 92] | C1_ST => [194; 156] end.

Definition render_atom (a : atom) : list Z :=
  match a with Plain b => [b] | Led b => [194; b] end.

Definition intro (c1 : bool) (esc c2 : Z) : list Z := if c1 then [194; c2] else [27; esc].

Definition render (t : token) : list Z :=
  match t with
  | TText b => [b]
  | TLatin b => [194; b]
  | TEscape b => [27; b]
  | TCsi c1 ps fin => intro c1 91 155 ++ ps ++ [fin]
  | TOsc c1 ds pl t => intro c1 93 157 ++ ds ++ concat (map render_atom pl) ++ render_term t
  | TDcs c1 ps fin pl t =>
      intro c1 80 144 ++ ps ++ [fin] ++ concat (map render_atom pl) ++ render_term t
  end.

Definition renders (ts : list token) : list Z := concat (map render ts).

(** The number a run of digits denotes, of any length. *)
Definition number (ds : list Z) : Z := foldl (fun n d => n * 10 + (d - 48)) 0 ds.

(** An OSC sets the title when its number is 0, 1 or 2 or is not spelled, and
    writes or reads the clipboard when it is 52. *)
Definition osc_name (ds : list Z) : option string :=
  if bool_decide (ds = [] \/ number ds ∈ [0; 1; 2]) then Some "title"%string
  else if bool_decide (number ds = 52) then Some "clipboard"%string
  else None.

(** The selector of a [CSI ... t]: the number after the private markers. *)
Definition csi_selector (ps : list Z) : list Z :=
  take_while is_digit
    (drop (default (length ps)
       (position (fun c => negb (c =? 63) && negb (c =? 60) && negb (c =? 61)) ps)) ps).

Definition csi_name (ps : list Z) (fin : Z) : option string :=
  if negb (fin =? 116) then None
  else match ps with
       | 62 :: _ => Some "title"%string
       | _ =>
           if bool_decide (csi_selector ps <> []) &&
              bool_decide (number (csi_selector ps) ∈ [11; 13; 14; 16; 18; 19])
           then None else Some "window"%string
       end.

Definition dcs_query (ps : list Z) (fin : Z) : bool :=
  (fin =? 113) && match last ps with Some i => (i =? 36) || (i =? 43) | None => false end.

(** Whether a unit reaches the terminals, and the name it is dropped under: a
    control sequence of 254 parameter bytes, an OSC number of 14 digits and a DCS
    of 14 parameter bytes are too long to pass, whatever they say. *)
Definition kept (t : token) : bool :=
  match t with
  | TCsi _ ps fin => bool_decide (csi_name ps fin = None) && (length ps <? 254)%nat
  | TOsc _ ds _ _ => bool_decide (osc_name ds = None) && (length ds <? 14)%nat
  | TDcs _ ps fin _ _ => negb (dcs_query ps fin) && (length ps <? 14)%nat
  | _ => true
  end.

Definition drop_name (t : token) : list string :=
  match t with
  | TCsi _ ps fin => option_list (csi_name (take 254 ps) fin)
  | TOsc _ ds _ _ => option_list (osc_name ds)
  | TDcs _ _ _ _ _ => if kept t then [] else ["query_echo"%string]
  | _ => []
  end.

Definition atom_ok (bel : bool) (a : atom) : bool :=
  match a with
  | Plain b => negb (b =? 27) && negb (b =? 194) && negb (bel && (b =? 7))
  | Led b => in_range 128 191 b && negb (b =? 156)
  end.

(** A payload starts with a byte that ends the number and is none of the
    controls skipped inside it. *)
Definition payload_ok (pl : list atom) : bool :=
  match pl with
  | Plain b :: _ =>
      negb (is_digit b) && negb (in_range 0 6 b || in_range 8 23 b || (b =? 25) ||
                                 in_range 28 31 b || (b =? 127))
  | _ => true
  end.

Definition wf_token (t : token) : bool :=
  match t with
  | TText b => negb (b =? 27) && negb (b =? 194)
  | TLatin b => in_range 128 191 b && negb (b =? 155) && negb (b =? 157) && negb (b =? 144)
  | TEscape b =>
      negb (b =? 27) && negb (b =? 194) && negb (b =? 91) && negb (b =? 93) && negb (b =? 80)
  | TCsi _ ps fin => forallb (in_range 32 63) ps && in_range 64 126 fin
  | TOsc _ ds pl _ => forallb is_digit ds && payload_ok pl && forallb (atom_ok true) pl
  | TDcs _ ps fin pl t =>
      forallb (in_range 32 63) ps && in_range 64 126 fin && forallb (atom_ok false) pl &&
      match t with BEL => false | _ => true end
  end.

(** What a filter between sequences looks like. *)
Definition idle (f : VtFilter) : Prop := state f = Ground /\ buf f = [].

(** What the filter holds back: bytes it has consumed and may still forward. *)
Definition held (f : VtFilter) : list Z :=
  match state f with
  | Utf8C2 | StrC2 => [194]
  | Esc | StrEsc => [27]
  | _ => buf f
  end.

(** The invariant of the identify buffer. *)
Definition vt_inv (f : VtFilter) : Prop :=
  match state f with
  | Csi => (2 <= length (buf f) <= CSI_CAP)%nat /\ csi_over f = (CSI_CAP <=? length (buf f))%nat
  | OscId =>
      (2 <= length (buf f) <= OSC_ID_CAP)%nat /\ osc_over f = (OSC_ID_CAP <=? length (buf f))%nat
      /\ 0 <= osc_num f <= u32_max /\ csi_over f = false
  | DcsId =>
      (2 <= length (buf f) <= OSC_ID_CAP)%nat /\ dcs_over f = (OSC_ID_CAP <=? length (buf f))%nat
      /\ csi_over f = false
  | _ => buf f = [] /\ csi_over f = false
  end.

(** ** Auxiliary notions of the proofs *)

(** The three windows freeze in the same way: at the cap the buffer holds
    the first bytes and the flag is up. *)
Definition window (cap : nat) (l : list Z) (over : bool) (b : Z) : list Z * bool :=
  if over then (l, true)
  else let l := l ++ [b] in (l, (cap <=? length l)%nat).

Definition windows (cap : nat) (l : list Z) (over : bool) (bs : list Z) : list Z * bool :=
  foldl (fun w b => window cap w.1 w.2 b) (l, over) bs.

(** What a string forwards of its own bytes. *)
Definition shown (drop : bool) (bs : list Z) : list Z := if drop then [] else bs.

(** The byte that ends an OSC number is handed to the string state, whether
    the string is dropped or passes. *)
Definition osc_dropped (f : VtFilter) : bool :=
  bool_decide (osc_decision (osc_seen f) (osc_num f) <> None) || osc_over f.

(** One step is sound when it keeps the invariant and forwards or holds only
    bytes it was given. *)
Definition sound_effect (given : list Z) (e : effect) : Prop :=
  let '(f, o, _) := e in vt_inv f /\ o ++ held f ⊆+ given.

(** ** Feeding in pieces *)

Lemma after_nil e : after [] [] e = e.
Proof. by destruct e as [[f o] d]. Qed.

Lemma after_after o1 d1 o2 d2 e : after o1 d1 (after o2 d2 e) = after (o1 ++ o2) (d1 ++ d2) e.
Proof. destruct e as [[f o] d]. simpl. by rewrite !app_assoc. Qed.

Lemma feed_app f a b :
  feed f (a ++ b) = let '(f1, o1, d1) := feed f a in after o1 d1 (feed f1 b).
Proof.
  revert f. induction a as [|x a IH]; intros f; simpl; [by rewrite after_nil|].
  destruct (step f x) as [[f' o] d]. rewrite IH.
  destruct (feed f' a) as [[f1 o1] d1]. simpl. by rewrite after_after.
Qed.

Lemma feed_all_concat f cs : feed_all f cs = feed f (concat cs).
Proof.
  revert f. induction cs as [|c cs IH]; intros f; [done|].
  cbn [feed_all concat]. rewrite feed_app.
  destruct (feed f c) as [[f' o] d]. by rewrite IH.
Qed.

Lemma feed_cons f b bs : feed f (b :: bs) = let '(f1, o1, d1) := step f b in after o1 d1 (feed f1 bs).
Proof. done. Qed.

(** Chaining after a known effect. *)
Lemma feed_chain f a b f1 o1 d1 :
  feed f a = (f1, o1, d1) -> feed f (a ++ b) = after o1 d1 (feed f1 b).
Proof. intros H1. by rewrite feed_app, H1. Qed.

(** ** Accumulating a window *)

Lemma windows_spec cap bs : forall l,
  (length l <= cap)%nat ->
  windows cap l (cap <=? length l)%nat bs =
    (take cap (l ++ bs), (cap <=? length (l ++ bs))%nat).
Proof.
  unfold windows. induction bs as [|b bs IH]; intros l Hl; cbn [foldl].
  { by rewrite app_nil_r, take_ge. }
  unfold window at 2. cbn [fst snd]. destruct (cap <=? length l)%nat eqn:E.
  - replace true with (cap <=? length l)%nat by lia. rewrite IH by done.
    rewrite !take_app_le by lia. f_equal. solve_length.
  - rewrite IH by solve_length. by rewrite <- (assoc app).
Qed.

Lemma push_csi_windows ps : forall f,
  let w := windows CSI_CAP (buf f) (csi_over f) ps in
  foldl push_csi f ps = set_csi_over w.2 (set_buf w.1 f).
Proof.
  unfold windows. induction ps as [|p ps IH]; intros f; cbn [foldl].
  { by destruct f. }
  cbn zeta. rewrite IH. unfold push_csi, window. destruct f as [s l o n se oo d sd sb]; cbn.
  destruct o; [done|]. by destruct (CSI_CAP <=? _)%nat.
Qed.

Lemma push_osc_windows ds : forall f,
  let w := windows OSC_ID_CAP (buf f) (osc_over f) ds in
  foldl push_osc f ds =
    set_osc (foldl (fun n d => sat_add32 (sat_mul32 n 10) (d - 48)) (osc_num f) ds)
      (osc_seen f || bool_decide (ds <> [])) w.2 (set_buf w.1 f).
Proof.
  unfold windows. induction ds as [|p ps IH]; intros f; cbn [foldl].
  { rewrite bool_decide_false by tauto. destruct f; cbn. by rewrite orb_false_r. }
  cbn zeta. rewrite IH. rewrite (bool_decide_true (p :: ps <> [])) by done.
  unfold push_osc, window. destruct f as [s l o n se oo d sd sb]; cbn.
  by destruct oo; cbn; rewrite orb_true_r.
Qed.

Lemma push_dcs_windows ps : forall f,
  let w := windows OSC_ID_CAP (buf f) (dcs_over f) ps in
  foldl push_dcs f ps = set_dcs_over w.2 (set_buf w.1 f).
Proof.
  unfold windows. induction ps as [|p ps IH]; intros f; cbn [foldl].
  { by destruct f. }
  cbn zeta. rewrite IH. unfold push_dcs, window. destruct f as [s l o n se oo d sd sb]; cbn.
  destruct d; [done|]. by destruct (OSC_ID_CAP <=? _)%nat.
Qed.

(** A run of bytes each of which a state only accumulates. *)
Lemma feed_pushes (push : VtFilter -> Z -> VtFilter) (s : State) (ok : Z -> bool) bs : forall f,
  (forall f b, state f = s -> ok b = true -> step f b = (push f b, [], [])) ->
  (forall f b, state (push f b) = state f) ->
  state f = s -> forallb ok bs = true ->
  feed f bs = (foldl push f bs, [], []) /\ state (foldl push f bs) = s.
Proof.
  induction bs as [|b bs IH]; intros f Hstep Hst Hs Hok; [done|].
  cbn in Hok. split_bools. cbn [feed foldl]. rewrite Hstep by done.
  destruct (IH (push f b)) as [-> ?]; [done|done|by rewrite Hst|done|]. done.
Qed.

Lemma step_csi_param f b :
  state f = Csi -> in_range 32 63 b = true -> step f b = (push_csi f b, [], []).
Proof. intros Hs Hb. unfold step. rewrite Hs. unfold step_csi. decide_tests. done. Qed.

Lemma step_osc_digit f b :
  state f = OscId -> is_digit b = true -> step f b = (push_osc f b, [], []).
Proof. intros Hs Hb. unfold step. rewrite Hs. unfold step_osc_id. by rewrite Hb. Qed.

Lemma step_dcs_param f b :
  state f = DcsId -> in_range 32 63 b = true -> step f b = (push_dcs f b, [], []).
Proof. intros Hs Hb. unfold step. rewrite Hs. unfold step_dcs_id. by rewrite Hb. Qed.

Lemma push_csi_state f b : state (push_csi f b) = state f.
Proof. unfold push_csi. by repeat case_match. Qed.

Lemma push_osc_state f b : state (push_osc f b) = state f.
Proof. unfold push_osc. by repeat case_match. Qed.

Lemma push_dcs_state f b : state (push_dcs f b) = state f.
Proof. unfold push_dcs. by repeat case_match. Qed.

(** ** Numbers read as the emulator reads them *)

Lemma number_snoc ds d : number (ds ++ [d]) = number ds * 10 + (d - 48).
Proof. unfold number. by rewrite foldl_app. Qed.

Lemma is_digit_bounds d : is_digit d = true -> 48 <= d <= 57.
Proof. unfold is_digit, in_range. lia. Qed.

Lemma digits_snoc ds d :
  forallb is_digit (ds ++ [d]) = true -> forallb is_digit ds = true /\ 48 <= d <= 57.
Proof.
  rewrite forallb_app. intros [H Hd]%andb_prop. cbn in Hd. split_bools.
  auto using is_digit_bounds.
Qed.

Lemma number_nonneg ds : forallb is_digit ds = true -> 0 <= number ds.
Proof.
  induction ds as [|d ds IH] using rev_ind; intros H; [done|].
  apply digits_snoc in H as [H ?]. rewrite number_snoc. specialize (IH H). lia.
Qed.

(** Saturating accumulation is the number, capped. *)
Lemma saturating_number ds :
  forallb is_digit ds = true ->
  foldl (fun n d => sat_add32 (sat_mul32 n 10) (d - 48)) 0 ds = Z.min u32_max (number ds).
Proof.
  induction ds as [|d ds IH] using rev_ind; intros H; [done|].
  apply digits_snoc in H as [H ?].
  rewrite foldl_app, number_snoc. cbn [foldl]. rewrite IH by done.
  pose proof (number_nonneg ds H).
  unfold sat_add32, sat_mul32, u32_max. lia.
Qed.

Lemma parse_u32_from_spec ds : forall acc,
  0 <= acc <= u32_max -> forallb is_digit ds = true ->
  let n := foldl (fun n d => n * 10 + (d - 48)) acc ds in
  parse_u32_from acc ds = (if u32_max <? n then None else Some n) /\ acc <= n.
Proof.
  induction ds as [|d ds IH]; intros acc Hacc H; cbn [foldl parse_u32_from].
  { decide_tests. split; [done|lia]. }
  cbn in H. apply andb_prop in H as [Hd%is_digit_bounds H].
  cbn zeta. destruct (u32_max <? acc * 10 + (d - 48)) eqn:E.
  - assert (Hm : forall ds n m, n <= m -> 0 <= n -> forallb is_digit ds = true ->
      n <= foldl (fun n d => n * 10 + (d - 48)) m ds).
    { clear. induction ds as [|d ds IH]; intros n m Hnm Hn H; cbn [foldl]; [lia|].
      cbn in H. apply andb_prop in H as [Hd%is_digit_bounds H].
      apply IH; [lia|lia|done]. }
    pose proof (Hm ds (u32_max + 1) (acc * 10 + (d - 48))) as Hm'.
    unfold u32_max in *. decide_tests. split; [|].
    + test_bool (4294967295 <? foldl (fun n d => n * 10 + (d - 48)) (acc * 10 + (d - 48)) ds) true.
      done.
    + specialize (Hm' ltac:(lia) ltac:(lia) H). lia.
  - destruct (IH (acc * 10 + (d - 48))) as [-> ?]; [unfold u32_max in *; lia|done|].
    split; [done|lia].
Qed.

Lemma parse_u32_spec ds :
  forallb is_digit ds = true ->
  parse_u32 ds = if bool_decide (ds <> []) && (number ds <=? u32_max) then Some (number ds) else None.
Proof.
  intros H. destruct ds as [|d ds]; [done|].
  rewrite bool_decide_true by done. unfold parse_u32.
  destruct (parse_u32_from_spec (d :: ds) 0) as [-> _]; [unfold u32_max; lia|done|].
  fold (number (d :: ds)). cbn [andb].
  destruct (u32_max <? number (d :: ds)) eqn:E; decide_tests; done.
Qed.

(** ** Strings *)

Lemma shown_app d a b : shown d (a ++ b) = shown d a ++ shown d b.
Proof. by destruct d. Qed.

Lemma feed_atom f a :
  state f = Str -> atom_ok (str_bel f) a = true ->
  feed f (render_atom a) = (f, shown (str_drop f) (render_atom a), []).
Proof.
  intros Hs Ha. destruct f as [s l o n se oo d sd sb]; cbn in Hs, Ha; subst s.
  destruct a as [b|b]; cbn [render_atom feed atom_ok] in *.
  - unfold step; cbn [state]. unfold step_str; cbn [str_bel str_drop].
    test_bool ((b =? 7) && sb) false. decide_tests. by destruct sd.
  - unfold step at 1; cbn [state]. unfold step_str; cbn [str_bel str_drop].
    cbn. unfold step_str_c2. decide_tests. by destruct sd.
Qed.

Lemma feed_payload f pl :
  state f = Str -> forallb (atom_ok (str_bel f)) pl = true ->
  feed f (concat (map render_atom pl)) = (f, shown (str_drop f) (concat (map render_atom pl)), []).
Proof.
  intros Hs. induction pl as [|a pl IH]; intros H; cbn in *; [by destruct (str_drop f)|].
  split_bools. erewrite feed_chain by eauto using feed_atom. rewrite IH by done. cbn [after]. by rewrite shown_app.
Qed.

Lemma feed_term f t :
  state f = Str -> (t = BEL -> str_bel f = true) ->
  feed f (render_term t) = (set_state Ground f, shown (str_drop f) (render_term t), []).
Proof.
  intros Hs Ht. destruct f as [s l o n se oo d sd sb]; cbn in *; subst s.
  destruct t; cbn [render_term feed]; unfold step; cbn; try (rewrite Ht by done); cbn; by destruct sd.
Qed.

(** A whole string past its identification, up to its terminator. *)
Lemma feed_string f pl t :
  state f = Str -> forallb (atom_ok (str_bel f)) pl = true -> (t = BEL -> str_bel f = true) ->
  let bs := concat (map render_atom pl) ++ render_term t in
  feed f bs = (set_state Ground f, shown (str_drop f) bs, []).
Proof.
  intros Hs Ha Ht. cbn zeta. erewrite feed_chain, feed_term by eauto using feed_payload.
  cbn [after]. by rewrite shown_app.
Qed.

Lemma step_osc_end f b :
  state f = OscId -> is_digit b = false ->
  (in_range 0 6 b || in_range 8 23 b || (b =? 25) || in_range 28 31 b || (b =? 127)) = false ->
  step f b =
    after (shown (osc_dropped f) (buf f)) (option_list (osc_decision (osc_seen f) (osc_num f)))
      (step_str (enter_str (osc_dropped f) true f) b).
Proof.
  intros Hs Hd Hc. unfold step. rewrite Hs. unfold step_osc_id, osc_dropped. rewrite Hd, Hc.
  assert (Hp : forall g, str_drop g = true -> str_bel g = true ->
    (if (b =? 7) || (b =? 27) || (b =? 194) then step_str g b else (g, [], [])) = step_str g b).
  { intros g H1 H2. unfold step_str. rewrite H1, H2, andb_true_r.
    destruct (b =? 7), (b =? 27), (b =? 194); done. }
  destruct (osc_decision (osc_seen f) (osc_num f)) as [name|].
  - rewrite bool_decide_true by done. cbn [orb shown option_list].
    rewrite <- (Hp (enter_str true true f)) by done.
    by destruct ((b =? 7) || (b =? 27) || (b =? 194)).
  - rewrite bool_decide_false by tauto. cbn [orb option_list].
    destruct (osc_over f) eqn:Eo; cbn [shown]; [|done].
    rewrite <- (Hp (enter_str true true f)) by done.
    destruct ((b =? 7) || (b =? 27) || (b =? 194)); by rewrite ?after_nil.
Qed.

(** Entering a string on the byte after the identification. *)
Lemma feed_osc_string f pl t :
  state f = OscId -> payload_ok pl = true -> forallb (atom_ok true) pl = true ->
  let bs := concat (map render_atom pl) ++ render_term t in
  feed f bs =
    (set_state Ground (enter_str (osc_dropped f) true f),
     shown (osc_dropped f) (buf f ++ bs), option_list (osc_decision (osc_seen f) (osc_num f))).
Proof.
  intros Hs Hp Ha bs.
  pose proof (feed_string (enter_str (osc_dropped f) true f) pl t eq_refl Ha ltac:(done)) as Hf.
  cbn zeta in Hf. fold bs in Hf. cbn [str_drop enter_str] in Hf.
  assert (exists b bs', bs = b :: bs' /\ is_digit b = false /\
    (in_range 0 6 b || in_range 8 23 b || (b =? 25) || in_range 28 31 b || (b =? 127)) = false)
    as (b & bs' & E & H1 & H2).
  { subst bs. destruct pl as [|[b|b] pl]; cbn in Hp |- *; [destruct t; eauto| |eauto].
    split_bools. eexists _, _. split; [done|]. split; [done|].
    repeat (apply orb_false_intro || assumption). }
  rewrite E in Hf |- *. rewrite feed_cons in Hf |- *. rewrite step_osc_end by done.
  replace (step (enter_str (osc_dropped f) true f) b)
    with (step_str (enter_str (osc_dropped f) true f) b) in Hf by done.
  destruct (step_str (enter_str (osc_dropped f) true f) b) as [[g o] d]. cbn [after].
  destruct (feed g bs') as [[g' o'] d']. cbn in Hf |- *. injection Hf as -> H3 H4.
  rewrite shown_app, <- H3, <- (assoc app), <- (assoc app). rewrite H4. by rewrite app_nil_r.
Qed.

(** ** One unit at a time *)

Lemma feed_intro f c1 esc c2 s :
  state f = Ground ->
  (esc, c2, s) ∈ [(91, 155, Csi); (93, 157, OscId); (80, 144, DcsId)] ->
  feed f (intro c1 esc c2) = (open (intro c1 esc c2) s f, [], []).
Proof.
  intros Hs Hin. destruct f as [st l o n se oo d sd sb]; cbn in Hs; subst st.
  repeat (apply elem_of_cons in Hin as [[= -> -> ->]|Hin]; [by destruct c1|]).
  by apply elem_of_nil in Hin.
Qed.

Lemma intro_length c1 esc c2 : length (intro c1 esc c2) = 2%nat.
Proof. by destruct c1. Qed.

(** A CSI selector read through [u32] or as a number: the same reports pass. *)
Lemma csi_reports_u32 ds :
  forallb is_digit ds = true ->
  match parse_u32 ds with
  | Some n =>
      if (n =? 11) || (n =? 13) || (n =? 14) || (n =? 16) || (n =? 18) || (n =? 19)
      then None else Some "window"%string
  | None => Some "window"%string
  end =
  if bool_decide (ds <> []) && bool_decide (number ds ∈ [11; 13; 14; 16; 18; 19])
  then None else Some "window"%string.
Proof.
  intros Hds. rewrite parse_u32_spec by done. case_bool_decide; [|done]. cbn [andb].
  set (n := number _). destruct (n <=? u32_max) eqn:E; unfold u32_max in E.
  - destruct ((n =? 11) || (n =? 13) || (n =? 14) || (n =? 16) || (n =? 18) || (n =? 19)) eqn:E2;
      [rewrite bool_decide_true|rewrite bool_decide_false]; try done;
      rewrite !elem_of_cons, elem_of_nil; lia.
  - rewrite bool_decide_false; [done|]. rewrite !elem_of_cons, elem_of_nil. lia.
Qed.

(** The decision on a CSI, read off its parameters. *)
Lemma csi_decision_name p ps fin :
  length p = 2%nat -> csi_decision (p ++ ps) fin = csi_name ps fin.
Proof.
  intros Hp. unfold csi_decision, csi_name. rewrite drop_app_length' by done.
  destruct (fin =? 116); [|done]. cbn [negb].
  pose proof (csi_reports_u32 (csi_selector ps) (take_while_forallb _ _)) as Hsel.
  unfold csi_selector in Hsel.
  destruct ps as [|b ps]; [exact Hsel|].
  destruct (Z.eq_dec b 62) as [->|Hne]; [done|].
  assert (Hm : forall A (x y : A), match b with 62 => x | _ => y end = y).
  { intros. destruct b as [|b|b]; try done. by do 6 (destruct b as [b|b|]; try done). }
  etransitivity; [apply Hm|]. etransitivity; [exact Hsel|]. symmetry. apply Hm.
Qed.

Lemma step_csi_final f b :
  state f = Csi -> in_range 64 126 b = true ->
  step f b =
    (close_csi f,
     if bool_decide (csi_decision (buf f) b = None) && negb (csi_over f) then buf f ++ [b] else [],
     option_list (csi_decision (buf f) b)).
Proof.
  intros Hs Hb. unfold step. rewrite Hs. unfold step_csi. rewrite Hb.
  destruct (csi_decision (buf f) b); [by rewrite bool_decide_false|].
  rewrite bool_decide_true by done. by destruct (csi_over f).
Qed.

Lemma idle_close_csi f : idle (close_csi f).
Proof. done. Qed.

Lemma idle_string d bel f : idle (set_state Ground (enter_str d bel f)).
Proof. done. Qed.

Lemma feed_csi f c1 ps fin :
  idle f -> wf_token (TCsi c1 ps fin) = true ->
  exists f', idle f' /\
    feed f (render (TCsi c1 ps fin)) =
      (f', if kept (TCsi c1 ps fin) then render (TCsi c1 ps fin) else [], drop_name (TCsi c1 ps fin)).
Proof.
  intros [Hs Hb] Hwf. cbn [wf_token] in Hwf. split_bools. cbn [render].
  set (g := open (intro c1 91 155) Csi f).
  destruct (feed_pushes push_csi Csi (in_range 32 63) ps g step_csi_param push_csi_state eq_refl)
    as [Hps Hst]; [done|].
  rewrite push_csi_windows in Hps, Hst. cbn [g buf csi_over open] in Hps, Hst.
  change (open (intro c1 91 155) Csi f) with g in Hps, Hst.
  replace (windows CSI_CAP (intro c1 91 155) false ps)
    with (windows CSI_CAP (intro c1 91 155) (CSI_CAP <=? length (intro c1 91 155))%nat ps)
    in Hps, Hst by by destruct c1.
  rewrite windows_spec in Hps, Hst by (rewrite intro_length; unfold CSI_CAP; lia).
  cbn [fst snd] in Hps, Hst.
  erewrite feed_chain by (apply (feed_intro _ _ _ _ Csi); [done|set_solver]). rewrite after_nil.
  fold g. erewrite feed_chain by exact Hps. rewrite after_nil.
  cbn [feed]. rewrite step_csi_final by done. cbn [buf set_buf set_csi_over csi_over after].
  rewrite !app_nil_r. eexists. split; [apply idle_close_csi|].
  rewrite take_app. rewrite (take_ge (intro _ _ _)) by (rewrite intro_length; unfold CSI_CAP; lia).
  rewrite intro_length, csi_decision_name by apply intro_length. rewrite length_app, intro_length.
  cbn [kept drop_name]. change 254%nat with (CSI_CAP - 2)%nat. f_equal. f_equal.
  destruct (length ps <? CSI_CAP - 2)%nat eqn:E.
  - rewrite take_ge by lia. test_bool (CSI_CAP <=? 2 + length ps)%nat false.
    rewrite !andb_true_r. case_bool_decide; [by rewrite <- (assoc app)|done].
  - test_bool (CSI_CAP <=? 2 + length ps)%nat true. by rewrite !andb_false_r.
Qed.

(** The decision of the code, on its saturated number, is the specification's. *)
Lemma osc_decision_name ds : forallb is_digit ds = true ->
  osc_decision (bool_decide (ds <> [])) (Z.min u32_max (number ds)) = osc_name ds.
Proof.
  intros Hd. unfold osc_name, osc_decision, u32_max, in_range. pose proof (number_nonneg ds Hd).
  destruct ds as [|d ds]; [done|]. generalize dependent (number (d :: ds)). intros n Hn.
  rewrite (bool_decide_true (d :: ds <> [])) by done.
  assert (Hin : (d :: ds = [] \/ n ∈ [0; 1; 2]) <-> n <= 2).
  { rewrite !elem_of_cons, elem_of_nil. split; [intros [H0|H0]; [done|lia]|intros H0; right; lia]. }
  rewrite (bool_decide_ext _ _ Hin).
  destruct (Z.eqb_spec (Z.min 4294967295 n) 52), (Z.leb_spec 0 (Z.min 4294967295 n)),
    (Z.leb_spec (Z.min 4294967295 n) 2); cbn [negb andb]; repeat case_bool_decide; done || lia.
Qed.

Lemma feed_osc f c1 ds pl t :
  idle f -> wf_token (TOsc c1 ds pl t) = true ->
  exists f', idle f' /\
    feed f (render (TOsc c1 ds pl t)) =
      (f', if kept (TOsc c1 ds pl t) then render (TOsc c1 ds pl t) else [], drop_name (TOsc c1 ds pl t)).
Proof.
  intros [Hs Hb] Hwf. cbn [wf_token] in Hwf. split_bools. cbn [render].
  set (g := open (intro c1 93 157) OscId f).
  destruct (feed_pushes push_osc OscId is_digit ds g step_osc_digit push_osc_state eq_refl)
    as [Hds Hst]; [done|].
  rewrite push_osc_windows in Hds, Hst. cbn [g buf osc_over osc_num osc_seen open] in Hds, Hst.
  change (open (intro c1 93 157) OscId f) with g in Hds, Hst.
  replace (windows OSC_ID_CAP (intro c1 93 157) false ds)
    with (windows OSC_ID_CAP (intro c1 93 157) (OSC_ID_CAP <=? length (intro c1 93 157))%nat ds)
    in Hds, Hst by by destruct c1.
  rewrite windows_spec in Hds, Hst by (rewrite intro_length; unfold OSC_ID_CAP; lia).
  rewrite saturating_number in Hds, Hst by done.
  cbn [fst snd] in Hds, Hst.
  erewrite feed_chain by (apply (feed_intro _ _ _ _ OscId); [done|set_solver]). rewrite after_nil. fold g.
  erewrite feed_chain by exact Hds. rewrite after_nil.
  rewrite feed_osc_string by done. eexists. split; [apply idle_string|].
  cbn [osc_seen osc_num buf set_osc set_buf].
  unfold osc_dropped. cbn [osc_seen osc_num osc_over set_osc set_buf orb]. rewrite osc_decision_name by done.
  cbn [kept drop_name]. change 14%nat with (OSC_ID_CAP - 2)%nat. f_equal. f_equal. rewrite length_app, intro_length.
  destruct (length ds <? OSC_ID_CAP - 2)%nat eqn:E.
  - rewrite take_ge by (rewrite length_app, intro_length; lia). test_bool (OSC_ID_CAP <=? 2 + length ds)%nat false.
    rewrite orb_false_r, andb_true_r.
    destruct (osc_name ds); [by rewrite bool_decide_true, bool_decide_false|].
    rewrite (bool_decide_false (None <> None)) by tauto. rewrite bool_decide_true by done.
    cbn [shown]. by rewrite <- (assoc app).
  - test_bool (OSC_ID_CAP <=? 2 + length ds)%nat true. by rewrite orb_true_r, andb_false_r.
Qed.

Lemma step_dcs_final f b :
  state f = DcsId -> in_range 64 126 b = true ->
  let q := dcs_over f ||
    ((b =? 113) && match last (buf f) with Some i => (i =? 36) || (i =? 43) | None => false end) in
  step f b =
    (enter_str q false f, shown q (buf f ++ [b]), if q then ["query_echo"%string] else []).
Proof.
  intros Hs Hb. unfold step. rewrite Hs. unfold step_dcs_id. rewrite Hb.
  test_bool (in_range 32 63 b) false. cbn zeta. by destruct (dcs_over f || _).
Qed.

Lemma last_app_two {A} (p ps : list A) :
  last (p ++ ps) = match ps with [] => last p | _ => last ps end.
Proof.
  destruct ps as [|x ps] using rev_ind; [by rewrite app_nil_r|].
  rewrite (assoc app), !last_snoc. by destruct ps.
Qed.

Lemma feed_dcs f c1 ps fin pl t :
  idle f -> wf_token (TDcs c1 ps fin pl t) = true ->
  exists f', idle f' /\
    feed f (render (TDcs c1 ps fin pl t)) =
      (f', if kept (TDcs c1 ps fin pl t) then render (TDcs c1 ps fin pl t) else [],
       drop_name (TDcs c1 ps fin pl t)).
Proof.
  intros [Hs Hb] Hwf. cbn [wf_token] in Hwf. split_bools. cbn [render].
  set (g := open (intro c1 80 144) DcsId f).
  destruct (feed_pushes push_dcs DcsId (in_range 32 63) ps g step_dcs_param push_dcs_state eq_refl)
    as [Hps Hst]; [done|].
  rewrite push_dcs_windows in Hps, Hst. cbn [g buf dcs_over open] in Hps, Hst.
  change (open (intro c1 80 144) DcsId f) with g in Hps, Hst.
  replace (windows OSC_ID_CAP (intro c1 80 144) false ps)
    with (windows OSC_ID_CAP (intro c1 80 144) (OSC_ID_CAP <=? length (intro c1 80 144))%nat ps)
    in Hps, Hst by by destruct c1.
  rewrite windows_spec in Hps, Hst by (rewrite intro_length; unfold OSC_ID_CAP; lia).
  cbn [fst snd] in Hps, Hst.
  erewrite feed_chain by (apply (feed_intro _ _ _ _ DcsId); [done|set_solver]). rewrite after_nil.
  fold g. erewrite feed_chain by exact Hps. rewrite after_nil.
  cbn [app]. rewrite feed_cons, step_dcs_final by done.
  cbn [buf set_buf set_dcs_over dcs_over]. rewrite length_app, intro_length.
  set (q := _ || _). rewrite feed_string; [|done..|by destruct t].
  cbn [str_drop enter_str after]. eexists. split; [apply idle_string|].
  assert (Hq : q = negb (kept (TDcs c1 ps fin pl t))).
  { subst q. cbn [kept]. change 14%nat with (OSC_ID_CAP - 2)%nat. unfold dcs_query. rewrite negb_andb, negb_involutive, orb_comm.
    destruct (length ps <? OSC_ID_CAP - 2)%nat eqn:E.
    - rewrite take_ge by (rewrite length_app, intro_length; lia).
      test_bool (OSC_ID_CAP <=? 2 + length ps)%nat false. f_equal. f_equal.
      rewrite last_app_two. destruct ps; [by destruct c1|done].
    - test_bool (OSC_ID_CAP <=? 2 + length ps)%nat true. by rewrite !orb_true_r. }
  unfold drop_name. f_equal; [f_equal|]; rewrite Hq.
  - destruct (kept (TDcs c1 ps fin pl t)) eqn:E; cbn [negb shown]; [|done].
    cbn [kept] in E. split_bools. rewrite take_ge by (rewrite length_app, intro_length; unfold OSC_ID_CAP; lia).
    by rewrite <- !(assoc app).
  - by destruct (kept (TDcs c1 ps fin pl t)).
Qed.

Lemma feed_token f t :
  idle f -> wf_token t = true ->
  exists f', idle f' /\ feed f (render t) = (f', if kept t then render t else [], drop_name t).
Proof.
  intros Hi Hwf. destruct t.
  - exists f. split; [done|]. destruct Hi as [Hs _]. cbn in *. unfold step. rewrite Hs.
    unfold step_ground. by decide_tests.
  - destruct Hi as [Hs Hb]. eexists (set_state Ground (set_state Utf8C2 f)). split; [by split|].
    cbn in *. unfold step at 1. rewrite Hs. cbn. unfold step_utf8c2. by decide_tests.
  - destruct Hi as [Hs Hb]. eexists (set_state Ground (set_state Esc f)). split; [by split|].
    cbn in *. unfold step at 1. rewrite Hs. cbn. unfold step_esc, step_ground. by decide_tests.
  - by apply feed_csi.
  - by apply feed_osc.
  - by apply feed_dcs.
Qed.

Lemma feed_tokens ts : forall f,
  idle f -> forallb wf_token ts = true ->
  exists f', idle f' /\
    feed f (renders ts) = (f', renders (List.filter kept ts), concat (map drop_name ts)).
Proof.
  induction ts as [|t ts IH]; intros f Hi H; [by exists f|].
  cbn in H. apply andb_prop in H as [Hw H].
  destruct (feed_token f t Hi Hw) as (f1 & Hi1 & H1).
  destruct (IH f1 Hi1 H) as (f2 & Hi2 & H2).
  exists f2. split; [done|]. unfold renders in *. cbn [map concat List.filter].
  erewrite feed_chain by exact H1. rewrite H2. cbn [after]. by destruct (kept t).
Qed.

(** ** The invariant of the buffer, and conservation of bytes *)

Lemma sound_after o d given e :
  sound_effect given e -> sound_effect (o ++ given) (after o d e).
Proof.
  destruct e as [[f o'] d']. cbn. intros [H1 H2]. split; [done|].
  rewrite <- (assoc app). by apply submseteq_app.
Qed.

Lemma sound_weaken given given' e :
  sound_effect given e -> given ⊆+ given' -> sound_effect given' e.
Proof. destruct e as [[f o] d]. cbn. intros [H1 H2] H3. split; [done|]. by etrans. Qed.

Lemma shown_submseteq d l : shown d l ⊆+ l.
Proof. destruct d; [apply submseteq_nil_l|done]. Qed.

Lemma step_ground_sound f b :
  state f = Ground -> buf f = [] -> csi_over f = false -> sound_effect [b] (step_ground f b).
Proof.
  intros Hs Hb Ho. unfold step_ground.
  destruct (b =? 27) eqn:E1; [|destruct (b =? 194) eqn:E2]; cbn; unfold vt_inv, held; cbn.
  - replace b with 27 by lia. done.
  - replace b with 194 by lia. done.
  - rewrite Hs, Hb. done.
Qed.

Lemma step_str_sound f b :
  state f = Str -> buf f = [] -> csi_over f = false -> sound_effect [b] (step_str f b).
Proof.
  intros Hs Hb Ho. unfold step_str.
  destruct ((b =? 7) && str_bel f) eqn:E0; [|destruct (b =? 27) eqn:E1; [|destruct (b =? 194) eqn:E2]];
    cbn; unfold vt_inv, held; cbn; rewrite ?Hs, ?Hb, ?app_nil_r.
  - replace b with 7 by lia. split; [done|]. apply shown_submseteq.
  - by replace b with 27 by lia.
  - by replace b with 194 by lia.
  - split; [done|]. apply shown_submseteq.
Qed.

Lemma open_sound p s f given :
  length p = 2%nat -> s ∈ [Csi; OscId; DcsId] -> p ⊆+ given -> sound_effect given (open p s f, [], []).
Proof.
  intros Hp Hs Hg. cbn.
  repeat (apply elem_of_cons in Hs as [->|Hs]; [unfold vt_inv, held, CSI_CAP, OSC_ID_CAP, u32_max; cbn;
    rewrite Hp; cbn; split; [lia|done]|]).
  by apply elem_of_nil in Hs.
Qed.

Lemma push_submseteq (l l' : list Z) b over cap :
  l' = (window cap l over b).1 -> l' ⊆+ l ++ [b].
Proof.
  intros ->. unfold window. destruct over; cbn; [|done]. by apply submseteq_inserts_r.
Qed.

(** The two-byte introducers, from [ESC] and from [C2]. *)
Lemma step_opener_sound (lead b esc1 esc2 esc3 : Z) f k :
  sound_effect ([lead] ++ [b]) k ->
  sound_effect ([lead] ++ [b])
    (if b =? esc1 then (open [lead; esc1] Csi f, [], [])
     else if b =? esc2 then (open [lead; esc2] OscId f, [], [])
     else if b =? esc3 then (open [lead; esc3] DcsId f, [], [])
     else k).
Proof.
  intros Hk. destruct (b =? esc1) eqn:E1; [|destruct (b =? esc2) eqn:E2; [|destruct (b =? esc3) eqn:E3]].
  - replace esc1 with b by lia. apply open_sound; [done|set_solver|done].
  - replace esc2 with b by lia. apply open_sound; [done|set_solver|done].
  - replace esc3 with b by lia. apply open_sound; [done|set_solver|done].
  - done.
Qed.

Lemma step_esc_sound f b :
  buf f = [] -> csi_over f = false -> sound_effect ([27] ++ [b]) (step_esc f b).
Proof. intros. by apply step_opener_sound, sound_after, step_ground_sound. Qed.

Lemma step_utf8c2_sound f b :
  buf f = [] -> csi_over f = false -> sound_effect ([194] ++ [b]) (step_utf8c2 f b).
Proof.
  intros Hb Ho. apply step_opener_sound. destruct (in_range 128 191 b).
  - cbn. unfold vt_inv, held. cbn. by rewrite Hb.
  - by apply sound_after, step_ground_sound.
Qed.

Lemma step_csi_sound f b :
  state f = Csi -> vt_inv f -> sound_effect (buf f ++ [b]) (step_csi f b).
Proof.
  intros Hs Hi. pose proof Hi as Hinv. unfold vt_inv in Hi. rewrite Hs in Hi. destruct Hi as [Hl Ho].
  unfold step_csi. destruct (in_range 64 126 b).
  { destruct (csi_decision (buf f) b); [|destruct (csi_over f)]; cbn; rewrite ?app_nil_r;
      (split; [done|]); try apply submseteq_nil_l; done. }
  destruct (in_range 32 63 b).
  { cbn. assert (Hst : state (push_csi f b) = Csi) by by rewrite push_csi_state.
    pose proof (push_csi_windows [b] f) as Hw. cbn in Hw.
    unfold vt_inv, held. rewrite Hst, Hw. cbn. unfold window. rewrite Ho.
    destruct (CSI_CAP <=? length (buf f))%nat eqn:E; cbn.
    - split; [split; lia|]. by apply submseteq_inserts_r.
    - rewrite length_app. cbn [length]. split; [split; lia|done]. }
  destruct (c0_inside b).
  { cbn. split; [done|]. unfold held. rewrite Hs. by rewrite (comm app). }
  destruct (b =? 127).
  { cbn. split; [done|]. unfold held. rewrite Hs. by apply submseteq_inserts_r. }
  eapply sound_weaken; [by apply sound_after, step_ground_sound|].
  destruct (csi_over f); [by apply submseteq_inserts_l|done].
Qed.

Lemma step_osc_sound f b :
  state f = OscId -> vt_inv f -> sound_effect (buf f ++ [b]) (step_osc_id f b).
Proof.
  intros Hs Hi. pose proof Hi as Hinv. unfold vt_inv in Hi. rewrite Hs in Hi.
  destruct Hi as (Hl & Ho & Hn & Hc). destruct (is_digit b) eqn:Ed.
  { unfold step_osc_id. rewrite Ed. cbn.
    assert (Hst : state (push_osc f b) = OscId) by by rewrite push_osc_state.
    pose proof (push_osc_windows [b] f) as Hw. cbn in Hw.
    unfold vt_inv, held. rewrite Hst, Hw. cbn. unfold window. rewrite Ho.
    apply is_digit_bounds in Ed. unfold sat_add32, sat_mul32, u32_max in *.
    destruct (OSC_ID_CAP <=? length (buf f))%nat eqn:E; cbn.
    - repeat split; try lia. by apply submseteq_inserts_r.
    - rewrite length_app. cbn [length]. repeat split; try lia. done. }
  destruct (in_range 0 6 b || in_range 8 23 b || (b =? 25) || in_range 28 31 b || (b =? 127)) eqn:Ec.
  { unfold step_osc_id. rewrite Ed, Ec. cbn. split; [done|]. unfold held. rewrite Hs.
    by apply submseteq_inserts_r. }
  pose proof (step_osc_end f b Hs Ed Ec) as He. unfold step in He. rewrite Hs in He. rewrite He.
  eapply sound_weaken; [by apply sound_after, step_str_sound|].
  apply submseteq_app; [apply shown_submseteq|done].
Qed.

Lemma step_dcs_sound f b :
  state f = DcsId -> vt_inv f -> sound_effect (buf f ++ [b]) (step_dcs_id f b).
Proof.
  intros Hs Hi. pose proof Hi as Hinv. unfold vt_inv in Hi. rewrite Hs in Hi.
  destruct Hi as (Hl & Ho & Hc).
  unfold step_dcs_id. destruct (in_range 32 63 b).
  { cbn. assert (Hst : state (push_dcs f b) = DcsId) by by rewrite push_dcs_state.
    pose proof (push_dcs_windows [b] f) as Hw. cbn in Hw.
    unfold vt_inv, held. rewrite Hst, Hw. cbn. unfold window. rewrite Ho.
    destruct (OSC_ID_CAP <=? length (buf f))%nat eqn:E; cbn.
    - repeat split; try lia; try done. by apply submseteq_inserts_r.
    - rewrite length_app. cbn [length]. repeat split; try lia; done. }
  destruct (in_range 64 126 b).
  { destruct (dcs_over f || _); cbn; rewrite ?app_nil_r; unfold vt_inv, held; cbn.
    - split; [done|]. apply submseteq_nil_l.
    - done. }
  destruct (c0_inside b || (b =? 127)).
  { cbn. split; [done|]. unfold held. rewrite Hs. by apply submseteq_inserts_r. }
  destruct (dcs_over f).
  - eapply sound_weaken; [by apply sound_after, step_str_sound|]. by apply submseteq_inserts_l.
  - by apply sound_after, step_str_sound.
Qed.

Lemma step_sound f b : vt_inv f -> sound_effect (held f ++ [b]) (step f b).
Proof.
  intros Hi. pose proof Hi as Hinv. unfold step, held. unfold vt_inv in Hi.
  destruct (state f) eqn:Hs.
  - destruct Hi as [Hb Hc]. rewrite Hb. by apply step_ground_sound.
  - destruct Hi. by apply step_utf8c2_sound.
  - destruct Hi. by apply step_esc_sound.
  - by apply step_csi_sound.
  - by apply step_osc_sound.
  - by apply step_dcs_sound.
  - destruct Hi as [Hb Hc]. rewrite Hb. by apply step_str_sound.
  - destruct Hi as [Hb Hc]. unfold step_str_esc. destruct (b =? 92) eqn:E.
    + cbn. unfold vt_inv, held. cbn. rewrite Hb, app_nil_r. replace b with 92 by lia.
      split; [done|]. apply shown_submseteq.
    + by apply step_esc_sound.
  - destruct Hi as [Hb Hc]. unfold step_str_c2. destruct (b =? 156) eqn:E.
    { cbn. unfold vt_inv, held. cbn. rewrite Hb, app_nil_r. replace b with 156 by lia.
      split; [done|]. apply shown_submseteq. }
    destruct (in_range 128 191 b).
    { cbn. unfold vt_inv, held. cbn. rewrite Hb, app_nil_r. split; [done|]. apply shown_submseteq. }
    eapply sound_weaken; [by apply sound_after, step_str_sound|].
    apply submseteq_app; [apply shown_submseteq|done].
Qed.

Lemma feed_sound bs : forall f, vt_inv f -> sound_effect (held f ++ bs) (feed f bs).
Proof.
  induction bs as [|b bs IH]; intros f Hi; cbn [feed].
  { cbn. by rewrite app_nil_r. }
  pose proof (step_sound f b Hi) as Hs. destruct (step f b) as [[f' o] d].
  destruct Hs as [Hi' Hs]. eapply sound_weaken; [by apply sound_after, IH|].
  change (b :: bs) with ([b] ++ bs). rewrite !(assoc app). by apply submseteq_app.
Qed.

Lemma new_inv : vt_inv new.
Proof. done. Qed.

Lemma new_idle : idle new.
Proof. done. Qed.

Lemma kept_no_name t : kept t = true -> drop_name t = [].
Proof.
  destruct t; cbn [kept drop_name]; intros H; try done.
  - split_bools. rewrite take_ge by lia. case_bool_decide as E; [by rewrite E|done].
  - split_bools. case_bool_decide as E; [by rewrite E|done].
  - by rewrite H.
Qed.

Lemma kept_names ts : concat (map drop_name (List.filter kept ts)) = [].
Proof.
  induction ts as [|t ts IH]; [done|]. cbn. destruct (kept t) eqn:E; [|done].
  cbn. by rewrite (kept_no_name t E).
Qed.

Lemma filter_kept_kept ts : List.filter kept (List.filter kept ts) = List.filter kept ts.
Proof.
  induction ts as [|t ts IH]; [done|]. cbn. destruct (kept t) eqn:E; [|done].
  cbn. by rewrite E, IH.
Qed.

Lemma wf_filter ts : forallb wf_token ts = true -> forallb wf_token (List.filter kept ts) = true.
Proof.
  induction ts as [|t ts IH]; [done|]. cbn. intros [Hw H]%andb_prop.
  destruct (kept t); [cbn; rewrite Hw|]; auto.
Qed.

Lemma feed_text f bs :
  state f = Ground -> Forall (fun b => b <> 27 /\ b <> 194) bs -> feed f bs = (f, bs, []).
Proof.
  intros Hs. induction 1 as [|b bs [H1 H2] _ IH]; [done|].
  cbn [feed]. unfold step. rewrite Hs. unfold step_ground. decide_tests. by rewrite IH.
Qed.

Lemma plain_ok bs :
  Forall (fun b => b <> 7 /\ b <> 27 /\ b <> 194) bs -> forallb (atom_ok true) (map Plain bs) = true.
Proof.
  induction 1 as [|b l (H1 & H2 & H3) _ IH]; [done|]. cbn [map forallb atom_ok].
  rewrite IH. lia.
Qed.

(** ** Properties *)


(** C31. On any input at all, hostile or truncated, in any chunks: the
    identify buffer stays within its caps, and the filter never invents a byte:
    what it forwards together with what it still holds is part of what it
    was given. *)
Theorem filter_bounded_and_conservative (chunks : list (list Z)) :
  let '(f, out, _) := feed_all new chunks in
  (length (buf f) <= CSI_CAP)%nat /\ (state f <> Csi -> (length (buf f) <= OSC_ID_CAP)%nat) /\
  out ++ held f ⊆+ concat chunks.
Proof.
  rewrite feed_all_concat. pose proof (feed_sound (concat chunks) new new_inv) as H.
  destruct (feed new (concat chunks)) as [[f out] d]. destruct H as [Hi Hc]. split; [|split; [|done]].
  - unfold vt_inv in Hi. destruct (state f);
      try (destruct Hi as [-> _]; cbn; lia); unfold OSC_ID_CAP, CSI_CAP in *; lia.
  - intros Hne. unfold vt_inv in Hi. destruct (state f); try done;
      try (destruct Hi as [-> _]; cbn; lia); lia.
Qed.

(** The clipboard and the title are out of reach of one sequence: an OSC
    whose number is 0, 1, 2 or 52, or has no digit, spelled with any amount of
    zero padding and either introducer, forwards nothing and is reported once;
    so does a title-mode CSI, a [CSI ... t] other than the six size and position
    reports, and a DCS that asks for a query echo. *)
Theorem acting_sequence_dropped (f : VtFilter) (t : token) :
  idle f -> wf_token t = true ->
  match t with
  | TOsc _ ds _ _ => ds = [] \/ number ds ∈ [0; 1; 2; 52]
  | TCsi _ ps fin =>
      fin = 116 /\ (length ps < 254)%nat /\
      (head ps = Some 62 \/ number (csi_selector ps) ∉ [11; 13; 14; 16; 18; 19])
  | TDcs _ ps fin _ _ => fin = 113 /\ last ps ∈ [Some 36; Some 43]
  | _ => False
  end ->
  exists f' name, feed f (render t) = (f', [], [name]) /\ idle f'.
Proof.
  intros Hi Hw Ht. destruct (feed_token f t Hi Hw) as (f' & Hi' & Hf).
  exists f'. destruct t as [| | |c1 ps fin|c1 ds pl tm|c1 ps fin pl tm]; try done.
  - destruct Ht as (-> & Hl & Ht). assert (exists n, csi_name ps 116 = Some n) as [n Hn].
    { unfold csi_name. cbn [negb Z.eqb Pos.eqb].
      destruct Ht as [Ht|Ht]; [destruct ps; [done|]; injection Ht as ->; eauto|].
      destruct ps as [|p ps]; [cbn; eauto|].
      rewrite (bool_decide_false (_ ∈ [11; 13; 14; 16; 18; 19])), andb_false_r by done.
      repeat case_match; eauto. }
    exists n. rewrite Hf. cbn [kept drop_name]. rewrite take_ge, Hn by lia.
    rewrite bool_decide_false by done. done.
  - assert (exists n, osc_name ds = Some n) as [n Hn].
    { unfold osc_name. case_bool_decide as H1; [eauto|]. case_bool_decide as H2; [eauto|].
      apply Decidable.not_or in H1 as [Hne Hnt]. destruct Ht as [|Ht]; [done|].
      assert (H3 : number ds ∈ [0; 1; 2; 52]) by exact Ht. apply (elem_of_app [0; 1; 2] [52]) in H3 as [|H3%list_elem_of_singleton]; done. }
    exists n. rewrite Hf. cbn [kept drop_name]. rewrite Hn, bool_decide_false by done. done.
  - destruct Ht as [-> Hl]. exists "query_echo"%string. rewrite Hf. unfold drop_name.
    assert (kept (TDcs c1 ps 113 pl tm) = false) as -> by
      (cbn [kept]; unfold dcs_query; rewrite !elem_of_cons, elem_of_nil in Hl;
       by destruct Hl as [->|[->|[]]]).
    done.
Qed.

(** On a stream of well-formed units the filter is idempotent: what it
    forwarded, read back, is forwarded whole and nothing of it is dropped. *)
Theorem filter_idempotent (ts : list token) :
  forallb wf_token ts = true ->
  let '(_, out, _) := feed new (renders ts) in
  exists f', idle f' /\ feed new out = (f', out, []).
Proof.
  intros Hwf. destruct (feed_tokens ts new new_idle Hwf) as (f & _ & ->).
  destruct (feed_tokens (List.filter kept ts) new new_idle (wf_filter ts Hwf)) as (f' & Hi & Hf).
  exists f'. split; [done|]. by rewrite Hf, filter_kept_kept, kept_names.
Qed.

(** That is not so for every stream: an [ESC] straight before a dropped
    sequence is forwarded alone, and the text after the sequence completes it.
    For any clipboard content, the stream below leaves the filter as a whole
    [OSC 52], which the filter itself drops when it sees it. *)
Theorem dropped_sequence_splices (content : list Z) :
  Forall (fun b => b <> 7 /\ b <> 27 /\ b <> 194) content ->
  let write := TOsc false [53; 50] (map Plain (59 :: content)) BEL in
  exists f f',
    feed new ([27] ++ render (TOsc false [48] [] BEL) ++ drop 1 (render write))
      = (f, render write, ["title"%string]) /\
    feed new (render write) = (f', [], ["clipboard"%string]).
Proof.
  intros Hc write.
  assert (Hr : concat (map render_atom (map Plain (59 :: content))) = 59 :: content).
  { clear. induction (59 :: content) as [|b l IH]; [done|]. cbn. by rewrite IH. }
  assert (Hw : wf_token write = true).
  { subst write. change (forallb (atom_ok true) (map Plain content) = true). by apply plain_ok. }
  destruct (feed_token new write new_idle Hw) as (f' & _ & Hf').
  eexists _, f'. split; [|by rewrite Hf'].
  erewrite feed_chain by reflexivity. erewrite feed_chain by reflexivity.
  subst write. unfold render. rewrite Hr. rewrite feed_text; [done|done|].
  cbn. repeat (apply Forall_cons; split; [lia|]). apply Forall_app. split.
  - eapply Forall_impl; [exact Hc|]. cbn. lia.
  - repeat constructor; lia.
Qed.

(** The filter does not end a string where an emulator aborts it: after
    [OSC 8 CAN] it stays in a passing string and forwards the two-byte C1
    introducer as payload, so a clipboard OSC that it drops on its own is
    forwarded byte for byte, with nothing reported. *)
Theorem aborted_string_passes_clipboard (content : list Z) :
  Forall (fun b => b <> 7 /\ b <> 27 /\ b <> 194) content ->
  let write := TOsc true [53; 50] (map Plain (59 :: content)) BEL in
  let stream := [27; 93; 56; 24] ++ render write in
  exists f f',
    feed new stream = (f, stream, []) /\ feed new (render write) = (f', [], ["clipboard"%string]).
Proof.
  intros Hc write stream.
  assert (Hw : wf_token write = true).
  { change (forallb (atom_ok true) (map Plain content) = true). by apply plain_ok. }
  destruct (feed_token new write new_idle Hw) as (f' & _ & Hf').
  pose (whole := TOsc false [56] (Plain 24 :: Led 157 :: map Plain (53 :: 50 :: 59 :: content)) BEL).
  destruct (feed_token new whole new_idle) as (f & _ & Hf).
  { change (forallb (atom_ok true) (map Plain content) = true). by apply plain_ok. }
  exists f, f'. split; [exact Hf|exact Hf'].
Qed.

(** ** The properties at concrete inputs *)


Lemma acting_sequence_dropped_witness :
  exists f' name,
    feed new (render (TOsc true [48; 48; 53; 50] [Plain 59; Plain 99] ST)) = (f', [], [name]) /\ idle f'.
Proof.
  apply (acting_sequence_dropped new (TOsc true [48; 48; 53; 50] [Plain 59; Plain 99] ST));
    [done|reflexivity|].
  right. vm_compute. apply elem_of_list_here || set_solver.
Defined.

Lemma filter_idempotent_witness :
  exists f', idle f' /\ feed new [72; 27; 91; 49; 109] = (f', [72; 27; 91; 49; 109], []).
Proof.
  exact (filter_idempotent [TText 72; TCsi false [50; 49] 116; TCsi false [49] 109] eq_refl).
Defined.

Lemma dropped_sequence_splices_witness :
  exists f f',
    feed new [27; 27; 93; 48; 7; 93; 53; 50; 59; 99; 7] = (f, [27; 93; 53; 50; 59; 99; 7], ["title"%string]) /\
    feed new [27; 93; 53; 50; 59; 99; 7] = (f', [], ["clipboard"%string]).
Proof. apply (dropped_sequence_splices [99]). repeat constructor; lia. Defined.


Lemma aborted_string_passes_clipboard_witness :
  exists f f',
    feed new [27; 93; 56; 24; 194; 157; 53; 50; 59; 99; 7]
      = (f, [27; 93; 56; 24; 194; 157; 53; 50; 59; 99; 7], []) /\
    feed new [194; 157; 53; 50; 59; 99; 7] = (f', [], ["clipboard"%string]).
Proof. apply (aborted_string_passes_clipboard [99]). repeat constructor; lia. Defined.
