(* ===== verification/Screen.v ===== *)
(** * What a late client needs to see

    Models crates/willie-sess/src/screen.rs: the ring that keeps the tail of
    the session's output, and the tracker of the alternate screen, which sees
    the output in chunks and keeps the last bytes of the previous one. *)

From S2P Require Import Prelude.

Local Open Scope Z_scope.

(** ** The replay ring *)

Record Ring : Type := mk_ring { rbuf : list Z; cap : nat }.

Definition ring_new (cap : nat) : Ring := mk_ring [] cap.

(** [push]: extend, then drain the excess from the front. *)
Definition ring_push (r : Ring) (bytes : list Z) : Ring :=
  let b := rbuf r ++ bytes in
  let excess := (length b - cap r)%nat in
  mk_ring (if (0 <? excess)%nat then drop excess b else b) (cap r).

Definition snapshot (r : Ring) : list Z := rbuf r.

(** ** The alternate screen *)

Record AltScreen : Type := mk_alt { active : bool; tail : list Z }.

Definition alt_new : AltScreen := mk_alt false [].

Definition MAX_SEQ : nat := 8.

Definition codes : list (list Z) := [[49; 48; 52; 57]; [49; 48; 52; 55]; [52; 55]].

(** One iteration of [switch_at]'s loop. *)
Definition switch_code (bytes code : list Z) : option (nat * bool) :=
  let len := (3 + length code + 1)%nat in
  if (len <=? length bytes)%nat && (nth 0 bytes 0 =? 27) && (nth 1 bytes 0 =? 91)
     && (nth 2 bytes 0 =? 63) && bool_decide (take (length code) (drop 3 bytes) = code)
  then
    if nth (len - 1) bytes 0 =? 104 then Some (len, true)
    else if nth (len - 1) bytes 0 =? 108 then Some (len, false)
    else None
  else None.

Fixpoint first_switch (codes : list (list Z)) (bytes : list Z) : option (nat * bool) :=
  match codes with
  | [] => None
  | code :: codes =>
      match switch_code bytes code with
      | Some r => Some r
      | None => first_switch codes bytes
      end
  end.

Definition switch_at (bytes : list Z) : option (nat * bool) := first_switch codes bytes.

(** [feed]'s loop over [i], on the bytes from [i] on; each turn advances, so
    their number is fuel enough. *)
Fixpoint scan (fuel : nat) (act : bool) (bytes : list Z) : bool :=
  match fuel with
  | O => act
  | S fuel =>
      match bytes with
      | [] => act
      | _ :: rest =>
          match switch_at bytes with
          | Some (len, on) => scan fuel on (drop len bytes)
          | None => scan fuel act rest
          end
      end
  end.

Definition alt_feed (s : AltScreen) (bytes : list Z) : AltScreen :=
  let b := tail s ++ bytes in
  let keep := Nat.min (length b) (MAX_SEQ - 1) in
  mk_alt (scan (length b) (active s) b) (drop (length b - keep) b).

(** ** Specification: the last switch of the whole stream *)

Fixpoint last_switch (bytes : list Z) : option bool :=
  match bytes with
  | [] => None
  | _ :: rest =>
      match last_switch rest with
      | Some on => Some on
      | None => snd <$> switch_at bytes
      end
  end.

(** ** Lemmas *)

Lemma ring_push_lastn r bytes : ring_push r bytes = mk_ring (lastn (cap r) (rbuf r ++ bytes)) (cap r).
Proof.
  unfold ring_push, lastn. destruct (Nat.ltb_spec 0 (length (rbuf r ++ bytes) - cap r)); [done|].
  f_equal. by replace (length (rbuf r ++ bytes) - cap r)%nat with 0%nat by lia.
Qed.

Lemma switch_code_app c l m : (3 + length c + 1 <= length l)%nat -> switch_code (l ++ m) c = switch_code l c.
Proof.
  intros Hl. unfold switch_code. rewrite !app_nth1 by lia. rewrite length_app.
  rewrite drop_app_le, take_app_le by (rewrite ?length_drop; lia).
  replace (3 + length c + 1 <=? length l + length m)%nat with true by lia.
  by replace (3 + length c + 1 <=? length l)%nat with true by lia.
Qed.

Lemma switch_code_some c l r : switch_code l c = Some r -> (3 + length c + 1 <= length l)%nat.
Proof. unfold switch_code. case_match; [|done]. split_bools. lia. Qed.

Lemma switch_at_app l m : (8 <= length l)%nat -> switch_at (l ++ m) = switch_at l.
Proof. intros. unfold switch_at, codes, first_switch. by rewrite !switch_code_app by (cbn [length]; lia). Qed.

Lemma switch_code_head c l r : switch_code l c = Some r ->
  exists k, l = 27 :: 91 :: 63 :: c ++ k :: drop (3 + length c + 1) l /\
    r = ((3 + length c + 1)%nat, k =? 104) /\ k <> 27.
Proof.
  intros H. pose proof (switch_code_some _ _ _ H) as Hl. unfold switch_code in H.
  case_match eqn:E; [|done]. split_bools.
  destruct l as [|a [|b [|d l]]]; cbn [length] in Hl; try lia.
  cbn [nth drop] in *. rewrite bool_decide_eq_true in *.
  assert (Hd : drop (length c) l <> []) by (intros Hd; apply (f_equal length) in Hd; rewrite length_drop in Hd; cbn in Hd; lia).
  destruct (drop (length c) l) as [|k rest] eqn:Ed; [done|].
  assert (l = c ++ k :: rest) as -> by (rewrite <- Ed; rewrite <- (take_drop (length c) l) at 1; by f_equal).
  replace (3 + length c + 1 - 1)%nat with (S (S (S (length c)))) in H by lia. cbn [nth] in H.
  rewrite app_nth2, Nat.sub_diag in H by lia. cbn [nth] in H.
  exists k. replace a with 27 by lia. replace b with 91 by lia. replace d with 63 by lia.
  replace (3 + length c + 1)%nat with (S (S (S (length (c ++ [k]))))) by (rewrite length_app; cbn; lia).
  cbn [drop]. split.
  - replace (c ++ k :: rest) with ((c ++ [k]) ++ rest) at 2 by (by rewrite <- (assoc app)).
    by rewrite drop_app_length.
  - rewrite length_app in *. cbn [length]. replace (3 + length c + 1)%nat with (S (S (S (length c + 1)))) in H by lia.
    destruct (Z.eqb_spec k 104); [|destruct (Z.eqb_spec k 108); [|done]]; simplify_eq; split; done || lia.
Qed.

Lemma switch_at_head l len on : switch_at l = Some (len, on) ->
  exists body, Forall (fun b => b <> 27) body /\ l = 27 :: body ++ drop len l /\ (1 <= len)%nat.
Proof.
  unfold switch_at, codes, first_switch. intros H.
  repeat (case_match; [simplify_eq; match goal with E : switch_code _ _ = _ |- _ =>
    apply switch_code_head in E as (k & Hl & Hr & Hk) end; injection Hr as -> _;
    match type of Hl with _ = 27 :: 91 :: 63 :: ?c ++ _ => exists (91 :: 63 :: c ++ [k]) end;
    split; [repeat (constructor; [lia|]); by constructor|]; split; [exact Hl|cbn; lia]|]).
  done.
Qed.

Lemma switch_at_not_esc b l : b <> 27 -> switch_at (b :: l) = None.
Proof.
  intros Hb. destruct (switch_at (b :: l)) as [[len on]|] eqn:E; [|done].
  apply switch_at_head in E as (body & _ & [= -> _] & _). done.
Qed.

Lemma switch_at_mono l m r : switch_at l = Some r -> exists r', switch_at (l ++ m) = Some r'.
Proof.
  unfold switch_at, codes, first_switch. intros H.
  repeat (case_match eqn:E; [clear H; apply switch_code_some in E as Hs; eapply switch_code_app in Hs;
    rewrite E in Hs; rewrite Hs; repeat case_match; eauto|]; clear E).
  done.
Qed.

Lemma last_switch_body body l : Forall (fun b => b <> 27) body -> last_switch (body ++ l) = last_switch l.
Proof.
  induction 1 as [|b body Hb _ IH]; [done|]. cbn [app last_switch]. rewrite IH.
  rewrite switch_at_not_esc by done. by destruct (last_switch l).
Qed.

Lemma scan_last fuel : forall act l, (length l <= fuel)%nat -> scan fuel act l = default act (last_switch l).
Proof.
  induction fuel as [|fuel IH]; intros act l Hl.
  - destruct l; [done|cbn in Hl; lia].
  - destruct l as [|b l]; [done|]. cbn [scan]. destruct (switch_at (b :: l)) as [[len on]|] eqn:E.
    + pose proof E as E'. apply switch_at_head in E' as (body & Hb & Hd & Hlen).
      rewrite IH by (rewrite length_drop; cbn in *; lia).
      cbn [last_switch]. rewrite E. injection Hd as -> Hd. rewrite Hd at 2.
      rewrite last_switch_body by done. cbn. by destruct (last_switch _).
    + rewrite IH by (cbn in Hl; lia). cbn [last_switch]. rewrite E. by destruct (last_switch l).
Qed.

Lemma last_switch_mono l m on : last_switch l = Some on -> exists on', last_switch (l ++ m) = Some on'.
Proof.
  revert on. induction l as [|b l IH]; intros on; [done|]. cbn [last_switch app].
  destruct (last_switch l) eqn:E.
  - intros _. destruct (IH _ eq_refl) as [on' ->]. eauto.
  - destruct (switch_at (b :: l)) eqn:E'; [|done]. intros _.
    apply (switch_at_mono _ m) in E' as [r' Hr]. cbn [app] in Hr. rewrite Hr. case_match; cbn; eauto.
Qed.

(** A prefix sees nothing past seven more bytes. *)
Lemma last_switch_prefix p t m : (7 <= length t)%nat ->
  exists o, last_switch (p ++ t) = match last_switch t with Some on => Some on | None => o end /\
    last_switch (p ++ t ++ m) = match last_switch (t ++ m) with Some on => Some on | None => o end.
Proof.
  intros Ht. induction p as [|b p IH].
  - exists None. cbn [app]. split; by case_match.
  - destruct IH as (o & H1 & H2). cbn [app last_switch].
    exists (match o with Some on => Some on | None => snd <$> switch_at (b :: p ++ t) end).
    rewrite H1, H2. replace (b :: p ++ t ++ m) with ((b :: p ++ t) ++ m) by (cbn [app]; by rewrite <- (assoc app)).
    rewrite switch_at_app by (cbn [length app]; rewrite length_app; lia).
    split; repeat case_match; by simplify_eq.
Qed.

Lemma alt_feed_spec seen bytes s :
  active s = default false (last_switch seen) -> tail s = lastn 7 seen ->
  active (alt_feed s bytes) = default false (last_switch (seen ++ bytes)) /\
  tail (alt_feed s bytes) = lastn 7 (seen ++ bytes).
Proof.
  intros Ha Ht. unfold alt_feed. cbn [active tail]. split.
  - rewrite scan_last by done. rewrite Ha, Ht. clear.
    destruct (decide (length seen <= 7)%nat) as [Hs|Hs].
    + rewrite lastn_all by done. destruct (last_switch seen) eqn:E; [|done].
      apply (last_switch_mono _ bytes) in E as [on ->]. done.
    + assert (Hl : length (lastn 7 seen) = 7%nat) by (rewrite lastn_length; lia).
      assert (Hsp : seen = take (length seen - 7) seen ++ lastn 7 seen) by (unfold lastn; by rewrite take_drop).
      remember (lastn 7 seen) as t. rewrite Hsp.
      destruct (last_switch_prefix (take (length seen - 7) seen) t bytes) as (o & H1 & H2); [lia|].
      rewrite <- (assoc app), H1, H2. destruct (last_switch t) eqn:E; [|by destruct (last_switch (t ++ bytes))].
      by apply (last_switch_mono _ bytes) in E as [on ->].
  - rewrite Ht. rewrite <- (lastn_app_lastn 7 seen). unfold lastn, MAX_SEQ. f_equal. lia.
Qed.

Lemma foldl_ring chunks : forall r, (length (rbuf r) <= cap r)%nat ->
  foldl ring_push r chunks = mk_ring (lastn (cap r) (rbuf r ++ concat chunks)) (cap r).
Proof.
  induction chunks as [|c chunks IH]; intros r Hr; cbn [foldl concat].
  - rewrite app_nil_r, lastn_all by lia. by destruct r.
  - rewrite ring_push_lastn, IH; cbn [rbuf cap]; [|rewrite lastn_length; lia].
    by rewrite lastn_app_lastn, (assoc app).
Qed.

(** ** Properties *)

(** The replay is the last [cap] bytes of the whole output, however it
    was read. *)
Theorem ring_keeps_last (n : nat) (chunks : list (list Z)) :
  snapshot (foldl ring_push (ring_new n) chunks) = lastn n (concat chunks).
Proof. unfold snapshot. by rewrite foldl_ring by (cbn; lia). Qed.

(** The tracker is on the alternate screen exactly when the last switch
    of the whole stream turned it on, wherever the reads cut that stream, and
    it never keeps more than seven bytes. *)
Theorem alt_screen_tracks_last_switch (chunks : list (list Z)) :
  let s := foldl alt_feed alt_new chunks in
  active s = default false (last_switch (concat chunks)) /\ (length (tail s) <= 7)%nat.
Proof.
  cbn zeta.
  assert (H : forall seen s, active s = default false (last_switch seen) -> tail s = lastn 7 seen ->
    active (foldl alt_feed s chunks) = default false (last_switch (seen ++ concat chunks)) /\
    tail (foldl alt_feed s chunks) = lastn 7 (seen ++ concat chunks)).
  { induction chunks as [|c chunks IH]; intros seen s Ha Ht; cbn [foldl concat].
    - by rewrite app_nil_r.
    - rewrite (assoc app). destruct (alt_feed_spec seen c s Ha Ht). by apply IH. }
  destruct (H [] alt_new eq_refl eq_refl) as [-> ->]. split; [done|]. rewrite lastn_length. lia.
Qed.

(** The switches the code names, as the specification reads them. *)
Example last_switch_example :
  last_switch ([27; 91; 63; 49; 48; 52; 57; 104] ++ [65] ++ [27; 91; 63; 52; 55; 108] ++ [27; 91; 63; 52; 56; 104])
  = Some false.
Proof. reflexivity. Qed.
