(* ===== verification/Tally.v ===== *)
(** * Coalescing refusals

    Models crates/willie-sess/src/tally.rs: one row per (class, name), with
    the refusals folded since the row last reported.  The injected clock is a
    [now] argument, in nanoseconds; the count is a [u64]. *)

From Stdlib Require Import Sorted.
From S2P Require Import Prelude BTree.

Local Open Scope Z_scope.

(** ** Data *)

Record Row : Type := mk_row { pending : Z; reported_at : Z }.

Record Tally : Type := mk_tally { window : Z; rows : btree (string * string) Row }.

Definition report : Type := string * string * Z.

Definition new (window : Z) : Tally := mk_tally window [].

(** [Instant::duration_since] saturates at zero. *)
Definition duration_since (now at_ : Z) : Z := Z.max 0 (now - at_).

(** ** Operations *)

Definition record (t : Tally) (now : Z) (class name : string) : Tally * option report :=
  match get (class, name) (rows t) with
  | None => (mk_tally (window t) (put (class, name) (mk_row 0 now) (rows t)), Some (class, name, 1))
  | Some row =>
      let pend := wrap64 (pending row + 1) in
      if duration_since now (reported_at row) <? window t then
        (mk_tally (window t) (put (class, name) (mk_row pend (reported_at row)) (rows t)), None)
      else
        (mk_tally (window t) (put (class, name) (mk_row 0 now) (rows t)), Some (class, name, pend))
  end.

(** [flush]: one pass over the rows in order. *)
Fixpoint flush_rows (now : Z) (rs : btree (string * string) Row) : btree (string * string) Row * list report :=
  match rs with
  | [] => ([], [])
  | (k, row) :: rs =>
      let '(rs, out) := flush_rows now rs in
      if 0 <? pending row then ((k, mk_row 0 now) :: rs, (k, pending row) :: out)
      else ((k, row) :: rs, out)
  end.

Definition flush (t : Tally) (now : Z) : Tally * list report :=
  let '(rs, out) := flush_rows now (rows t) in (mk_tally (window t) rs, out).

(** ** Runs: what the supervisor does with a tally *)

Inductive op : Type := Record (now : Z) (class name : string) | Flush (now : Z).

Definition apply (t : Tally) (o : op) : Tally * list report :=
  match o with
  | Record now class name => let '(t, r) := record t now class name in (t, option_list r)
  | Flush now => flush t now
  end.

Fixpoint run (t : Tally) (ops : list op) : Tally * list report :=
  match ops with
  | [] => (t, [])
  | o :: ops => let '(t, out) := apply t o in let '(t, out') := run t ops in (t, out ++ out')
  end.

(** What the reports say of one row, and how often it was recorded. *)
Definition reported (k : string * string) (out : list report) : Z :=
  foldr (fun r s => (if decide (fst r = k) then snd r else 0) + s) 0 out.

Definition recorded (k : string * string) (ops : list op) : Z :=
  foldr (fun o s => (match o with Record _ c n => if decide ((c, n) = k) then 1 else 0 | Flush _ => 0 end) + s)
    0 ops.

Definition folded (k : string * string) (t : Tally) : Z :=
  match get k (rows t) with Some row => pending row | None => 0 end.

(** ** Lemmas *)

Lemma reported_app k a b : reported k (a ++ b) = reported k a + reported k b.
Proof. unfold reported in *. induction a as [|r a IH]; cbn; [done|]. rewrite IH. lia. Qed.

Lemma recorded_cons k o ops : recorded k (o :: ops) = recorded k [o] + recorded k ops.
Proof. unfold recorded. cbn. lia. Qed.

Lemma flush_rows_get now k rs :
  get k (fst (flush_rows now rs)) =
  (fun row => if 0 <? pending row then mk_row 0 now else row) <$> get k rs.
Proof.
  induction rs as [|[k' row] rs IH]; [done|]. cbn [flush_rows].
  destruct (flush_rows now rs) as [rs' out]. cbn [fst] in IH.
  destruct (0 <? pending row) eqn:E; cbn [fst get]; rewrite IH; case_decide; cbn; by rewrite ?E.
Qed.

Lemma flush_rows_keys now rs : map fst (fst (flush_rows now rs)) = map fst rs.
Proof.
  induction rs as [|[k' row] rs IH]; [done|]. cbn [flush_rows].
  destruct (flush_rows now rs) as [rs' out]. cbn [fst] in IH.
  destruct (0 <? pending row); cbn; by rewrite IH.
Qed.

Lemma ordered_keys (a : btree (string * string) Row) : forall b : btree (string * string) Row,
  map fst a = map fst b -> ordered a -> ordered b.
Proof.
  induction a as [|[k r] a IH]; intros [|[k' r'] b]; try done. cbn. intros [= -> Hk] [Hf Ho].
  split; [|by eapply IH]. assert (Forall (fun x => ltb k' x = true) (map fst b)) as Hb
    by (rewrite <- Hk; by apply Forall_map). by apply Forall_map in Hb.
Qed.

Lemma flush_rows_reports now rs out k :
  ordered rs -> out = snd (flush_rows now rs) ->
  reported k out = match get k rs with Some row => Z.max 0 (pending row) | None => 0 end.
Proof.
  intros Ho ->. induction rs as [|[k' row] rs IH]; [done|]. cbn [flush_rows ordered] in *.
  destruct Ho as [Hf Ho]. specialize (IH Ho). destruct (flush_rows now rs) as [rs' out]. cbn [snd] in IH.
  cbn [get]. destruct (decide (k = k')) as [->|Hne].
  - rewrite (get_none _ _ Hf) in IH. unfold reported in *.
    destruct (0 <? pending row) eqn:E; cbn [snd fst foldr]; rewrite IH, ?decide_True by done; lia.
  - unfold reported in *.
    destruct (0 <? pending row) eqn:E; cbn [snd fst foldr]; rewrite IH, ?decide_False by congruence; by case_match.
Qed.

Lemma flush_rows_among now rs : forall rs' out k c,
  flush_rows now rs = (rs', out) -> head out = Some (k, c) -> k ∈ map fst rs.
Proof.
  induction rs as [|[k1 r1] rs IH]; intros rs' out k c; cbn [flush_rows]; [by intros [= _ <-]|].
  destruct (flush_rows now rs) as [rs2 out2]. destruct (0 <? pending r1).
  - intros [= _ <-] [= -> _]. left.
  - intros [= _ ->] Hh. right. by eapply IH.
Qed.

Lemma flush_rows_sorted now rs : forall rs' out,
  ordered rs -> flush_rows now rs = (rs', out) -> Sorted (fun a b => ltb (fst a) (fst b) = true) out.
Proof.
  induction rs as [|[k row] rs IH]; intros rs' out Ho; cbn [flush_rows]; [by intros [= _ <-]|].
  destruct Ho as [Hf Ho]. destruct (flush_rows now rs) as [rs2 out2] eqn:E. specialize (IH _ _ Ho eq_refl).
  destruct (0 <? pending row); [|by intros [= _ <-]]. intros [= _ <-]. constructor; [done|].
  destruct out2 as [|[k' c] out2]; constructor. cbn. eapply flush_rows_among in E as Hin; [|done].
  apply list_elem_of_fmap in Hin as ([k1 r1] & -> & Hin). rewrite Forall_forall in Hf. apply (Hf _ Hin).
Qed.

Definition tally_inv (bound : Z) (t : Tally) : Prop :=
  ordered (rows t) /\ forall k row, get k (rows t) = Some row -> 0 <= pending row <= bound.

Lemma record_step t now c n bound :
  tally_inv bound t -> 0 <= bound < u64_max ->
  let '(t', r) := record t now c n in
  tally_inv (bound + 1) t' /\
  forall k, reported k (option_list r) + folded k t' = folded k t + (if decide ((c, n) = k) then 1 else 0).
Proof.
  intros [Ho Hp] Hb. unfold record. pose proof (Hp (c, n)) as Hc.
  assert (Hinv : forall row, 0 <= pending row <= bound + 1 ->
    tally_inv (bound + 1) (mk_tally (window t) (put (c, n) row (rows t)))).
  { intros row Hr. split; [cbn; by apply put_ordered|]. cbn. intros k row'.
    destruct (decide (k = (c, n))) as [->|]; [rewrite get_put; by intros [= <-]|].
    rewrite get_put_ne by done. intros Hg. apply Hp in Hg. lia. }
  assert (Hfold : forall row k, folded k (mk_tally (window t) (put (c, n) row (rows t))) =
    if decide ((c, n) = k) then pending row else folded k t).
  { intros row k. unfold folded. cbn. case_decide as E; [subst; by rewrite get_put|by rewrite get_put_ne]. }
  destruct (get (c, n) (rows t)) as [row|] eqn:E.
  - specialize (Hc _ eq_refl). assert (Hw : wrap64 (pending row + 1) = pending row + 1).
    { unfold wrap64, u64_max in *. by rewrite Z.mod_small by lia. }
    rewrite Hw. destruct (duration_since _ _ <? _); (split; [apply Hinv; cbn; lia|]); intros k; rewrite Hfold; cbn;
      case_decide as Ek; subst; unfold folded; rewrite ?E; lia.
  - split; [apply Hinv; cbn; lia|]. intros k. rewrite Hfold. cbn.
    case_decide as Ek; subst; unfold folded; rewrite ?E; lia.
Qed.

Lemma apply_step t o bound :
  tally_inv bound t -> 0 <= bound < u64_max ->
  let '(t', out) := apply t o in
  tally_inv (bound + 1) t' /\ forall k, reported k out + folded k t' = folded k t + recorded k [o].
Proof.
  intros Hi Hb. destruct o as [now c n|now]; cbn [apply recorded foldr].
  - pose proof (record_step t now c n bound Hi Hb) as H. destruct (record t now c n) as [t' r].
    destruct H as [H1 H2]. split; [done|]. intros k. rewrite H2. lia.
  - destruct Hi as [Ho Hp]. unfold flush. pose proof (flush_rows_get now) as Hg.
    pose proof (flush_rows_keys now (rows t)) as Hk.
    pose proof (fun k out => flush_rows_reports now (rows t) out k Ho) as Hr.
    destruct (flush_rows now (rows t)) as [rs out] eqn:E. cbn in Hk.
    assert (Hg' : forall k, get k rs = (fun row => if 0 <? pending row then mk_row 0 now else row) <$> get k (rows t)).
    { intros k. specialize (Hg k (rows t)). by rewrite E in Hg. }
    split.
    + split; [by eapply ordered_keys|]. cbn. intros k row. rewrite Hg'.
      destruct (get k (rows t)) as [row0|] eqn:E0; [|done]. specialize (Hp _ _ E0). cbn.
      intros [= <-]. case_match; cbn; lia.
    + intros k. rewrite (Hr k out eq_refl). unfold folded. cbn. rewrite Hg'.
      destruct (get k (rows t)) as [row0|] eqn:E0; [|done]. specialize (Hp _ _ E0). cbn.
      destruct (0 <? pending row0) eqn:E1; cbn; lia.
Qed.

Lemma run_conserves ops : forall t bound,
  tally_inv bound t -> 0 <= bound -> bound + Z.of_nat (length ops) <= u64_max ->
  let '(t', out) := run t ops in
  tally_inv (bound + Z.of_nat (length ops)) t' /\
  forall k, reported k out + folded k t' = folded k t + recorded k ops.
Proof.
  induction ops as [|o ops IH]; intros t bound Hi Hb Hl; cbn [run length] in *.
  - split; [by rewrite Z.add_0_r|]. intros k. cbn. lia.
  - pose proof (apply_step t o bound Hi ltac:(lia)) as Hs. destruct (apply t o) as [t1 out].
    destruct Hs as [Hi1 Hs]. specialize (IH t1 (bound + 1) Hi1 ltac:(lia) ltac:(lia)).
    destruct (run t1 ops) as [t2 out']. destruct IH as [Hi2 IH]. split.
    + by replace (bound + Z.of_nat (S (length ops))) with (bound + 1 + Z.of_nat (length ops)) by lia.
    + intros k. rewrite reported_app. specialize (Hs k). specialize (IH k).
      rewrite recorded_cons. lia.
Qed.

(** ** Properties *)

(** No refusal is lost or counted twice: over any run of records and
    flushes, what was reported of a row plus what it still folds is how often
    the row was recorded. *)
Theorem tally_conserves (w : Z) (ops : list op) (k : string * string) :
  Z.of_nat (length ops) <= u64_max ->
  let '(t, out) := run (new w) ops in reported k out + folded k t = recorded k ops.
Proof.
  intros Hl. pose proof (run_conserves ops (new w) 0) as H.
  destruct (run (new w) ops) as [t out]. apply H; [|lia|lia]. split; [done|]. by intros ? ?.
Qed.

(** The flush before the exit leaves nothing folded: after it the
    reports of a run account for every refusal, in (class, name) order. *)
Theorem flush_reports_everything (w : Z) (ops : list op) (now : Z) :
  Z.of_nat (length ops) < u64_max ->
  let '(t, out) := run (new w) ops in
  let '(t', last) := flush t now in
  (forall k, folded k t' = 0 /\ reported k (out ++ last) = recorded k ops) /\
  Sorted (fun a b => ltb (fst a) (fst b) = true) last.
Proof.
  intros Hl. pose proof (run_conserves ops (new w) 0) as H.
  destruct (run (new w) ops) as [t out]. destruct H as [Hi H]; [by split|lia|lia|].
  pose proof (apply_step t (Flush now) _ Hi ltac:(lia)) as Hs. cbn [apply] in Hs.
  unfold flush in *. destruct (flush_rows now (rows t)) as [rs last] eqn:E.
  destruct Hs as [Hi' Hs]. split.
  - intros k. rewrite reported_app.
    assert (Hz : folded k (mk_tally (window t) rs) = 0).
    { unfold folded. cbn. pose proof (flush_rows_get now k (rows t)) as Hg. rewrite E in Hg. cbn in Hg.
      rewrite Hg. destruct (get k (rows t)) as [row|] eqn:Er; [|done]. cbn.
      destruct Hi as [_ Hp]. specialize (Hp _ _ Er). destruct (0 <? pending row) eqn:E1; cbn; lia. }
    split; [done|]. specialize (H k). specialize (Hs k). cbn in *. lia.
  - destruct Hi as [Ho _]. by eapply flush_rows_sorted.
Qed.

(** ** The properties at concrete inputs *)

Lemma tally_conserves_witness :
  let '(t, out) := run (new 100) [Record 0 "net" "socket"; Record 10 "net" "socket"; Flush 20; Record 30 "net" "socket"] in
  reported ("net", "socket")%string out + folded ("net", "socket")%string t = 3.
Proof.
  apply (tally_conserves 100
    [Record 0 "net" "socket"; Record 10 "net" "socket"; Flush 20; Record 30 "net" "socket"] ("net", "socket")%string).
  unfold u64_max. cbn. lia.
Defined.

Lemma flush_reports_everything_witness :
  let '(t, out) := run (new 100) [Record 0 "net" "socket"; Record 10 "net" "socket"] in
  let '(t', last) := flush t 20 in
  (forall k, folded k t' = 0 /\ reported k (out ++ last) = recorded k [Record 0 "net" "socket"; Record 10 "net" "socket"]) /\
  Sorted (fun a b => ltb (fst a) (fst b) = true) last.
Proof.
  apply (flush_reports_everything 100 [Record 0 "net" "socket"; Record 10 "net" "socket"] 20).
  unfold u64_max. cbn. lia.
Defined.
