(* ===== verification/Wire.v ===== *)
(** * The supervisor's wire framing

    Models crates/willie-linux/src/wire.rs: the frames a session supervisor
    and its clients exchange ([type:u8 len:u16] big-endian, then the payload),
    and the decoder that reassembles them from a stream cut anywhere.  A byte
    is a [Z]; the decoder's [buf] is threaded through [push] and [pop].  The
    JSON functions are parameters: they belong to serde_json. *)

From S2P Require Import Prelude.

Local Open Scope Z_scope.

(** ** Data *)

Definition INPUT : Z := 0.
Definition RESIZE : Z := 1.
Definition DETACH : Z := 2.
Definition HELLO : Z := 3.
Definition STOP : Z := 4.
Definition STATUS_REQ : Z := 5.
Definition OUTPUT : Z := 16.
Definition STATUS : Z := 17.
Definition EVENT : Z := 18.
Definition CLOSED : Z := 19.

Definition HEADER : nat := 3.
Definition MAX_PAYLOAD : nat := Z.to_nat u16_max.
Arguments MAX_PAYLOAD : simpl never.

Record Frame : Type := mk_frame { kind : Z; payload : list Z }.

#[export] Instance Frame_eq_dec : EqDecision Frame.
Proof. solve_decision. Defined.

(** [u16::to_be_bytes] and [u16::from_be_bytes]. *)
Definition to_be_bytes (n : Z) : list Z := [n / 256; n mod 256].
Definition from_be_bytes (hi lo : Z) : Z := hi * 256 + lo.

(** [u16::try_from(len).unwrap_or(u16::MAX)]. *)
Definition u16_len (l : list Z) : Z :=
  let n := Z.of_nat (length l) in if n <=? u16_max then n else u16_max.

Definition encode (kind : Z) (payload : list Z) : list Z :=
  let payload := take MAX_PAYLOAD payload in
  [kind] ++ to_be_bytes (u16_len payload) ++ payload.

Definition encode_resize (rows cols : Z) : list Z :=
  encode RESIZE (to_be_bytes rows ++ to_be_bytes cols).

Definition decode_resize (payload : list Z) : option (Z * Z) :=
  match payload with
  | [a; b; c; d] => Some (from_be_bytes a b, from_be_bytes c d)
  | _ => None
  end.

(** [slice::chunks]: runs of [n] elements, the last one shorter; the fuel is
    the length of the slice. *)
Fixpoint slice_chunks (fuel n : nat) (l : list Z) : list (list Z) :=
  match fuel, l with
  | S fuel, _ :: _ => take n l :: slice_chunks fuel n (drop n l)
  | _, _ => []
  end.

Definition chunks (kind : Z) (bytes : list Z) : list (list Z) :=
  match bytes with
  | [] => [encode kind []]
  | _ => map (encode kind) (slice_chunks (length bytes) MAX_PAYLOAD bytes)
  end.

(** ** The decoder *)

Definition push (buf bytes : list Z) : list Z := buf ++ bytes.

Definition pop (buf : list Z) : option Frame * list Z :=
  match buf with
  | k :: hi :: lo :: rest =>
      let len := Z.to_nat (from_be_bytes hi lo) in
      if (length buf <? HEADER + len)%nat then (None, buf)
      else (Some (mk_frame k (take len rest)), drop len rest)
  | _ => (None, buf)
  end.

Definition pending (buf : list Z) : nat := length buf.

(** The readers' loop [while let Some(frame) = decoder.pop()]: every pop that
    returns a frame shortens the buffer, so its length is fuel enough. *)
Fixpoint drain (fuel : nat) (buf : list Z) : list Frame * list Z :=
  match fuel with
  | O => ([], buf)
  | S fuel =>
      match pop buf with
      | (Some f, buf) => let '(fs, buf) := drain fuel buf in (f :: fs, buf)
      | (None, buf) => ([], buf)
      end
  end.

Definition pop_all (buf : list Z) : list Frame * list Z := drain (length buf) buf.

(** A reader: each read is pushed, then the complete frames are popped. *)
Fixpoint receive (buf : list Z) (reads : list (list Z)) : list Frame * list Z :=
  match reads with
  | [] => ([], buf)
  | r :: reads =>
      let '(fs, buf) := pop_all (push buf r) in
      let '(gs, buf) := receive buf reads in (fs ++ gs, buf)
  end.

(** ** JSON payloads, over any serializer *)

Section Json.
Context {T JErr : Type} (to_vec : T -> result (list Z) JErr)
  (from_slice : list Z -> result T JErr).

Local Open Scope willie_scope.

Definition encode_json (kind : Z) (value : T) : result (list Z) JErr :=
  let? body := to_vec value in Ok (encode kind body).

Definition decode_json (payload : list Z) : result T JErr := from_slice payload.
End Json.

(** ** Specification: well-formed frames *)

Definition wf_frame (f : Frame) : Prop :=
  is_byte (kind f) /\ (length (payload f) <= MAX_PAYLOAD)%nat.

Definition encode_frame (f : Frame) : list Z := encode (kind f) (payload f).

(** ** Lemmas *)

Lemma u16_len_fits l : (length l <= MAX_PAYLOAD)%nat -> u16_len l = Z.of_nat (length l).
Proof. intros H. unfold u16_len, MAX_PAYLOAD, u16_max in *. destruct (Z.leb_spec (Z.of_nat (length l)) 65535); lia. Qed.

Lemma be_bytes_roundtrip n : from_be_bytes (n / 256) (n mod 256) = n.
Proof. unfold from_be_bytes. lia_div. Qed.

Lemma be_bytes_of hi lo : is_byte hi -> is_byte lo -> to_be_bytes (from_be_bytes hi lo) = [hi; lo].
Proof. unfold is_byte, to_be_bytes, from_be_bytes. intros. f_equal; [lia_div|f_equal; lia_div]. Qed.

Lemma encode_fits k p :
  (length p <= MAX_PAYLOAD)%nat ->
  encode k p = k :: Z.of_nat (length p) / 256 :: Z.of_nat (length p) mod 256 :: p.
Proof. intros H. unfold encode. rewrite take_ge by done. cbn zeta. by rewrite u16_len_fits. Qed.

Lemma pop_encode f rest : wf_frame f -> pop (encode_frame f ++ rest) = (Some f, rest).
Proof.
  intros [_ Hl]. destruct f as [k p]. unfold encode_frame. cbn [kind payload] in *.
  rewrite encode_fits by done. cbn [app pop]. rewrite be_bytes_roundtrip, Nat2Z.id.
  unfold HEADER. cbn [length]. rewrite length_app.
  destruct (Nat.ltb_spec (S (S (S (length p + length rest)))) (3 + length p)); [lia|].
  by rewrite take_app_length, drop_app_length.
Qed.

(** A popped frame spelled again is what was consumed. *)
Lemma pop_some buf f buf' :
  Forall is_byte buf -> pop buf = (Some f, buf') ->
  buf = encode_frame f ++ buf' /\ wf_frame f.
Proof.
  intros Hb H. destruct buf as [|k [|hi [|lo rest]]]; try done. cbn [pop] in H.
  destruct (Nat.ltb_spec (length (k :: hi :: lo :: rest)) (HEADER + Z.to_nat (from_be_bytes hi lo))) as [|Hl];
    [done|]. simplify_eq.
  repeat match goal with H : Forall _ (_ :: _) |- _ => apply Forall_cons in H as [? H] end.
  unfold HEADER in Hl. cbn [length] in Hl.
  assert (Hlen : length (take (Z.to_nat (from_be_bytes hi lo)) rest) = Z.to_nat (from_be_bytes hi lo)).
  { rewrite length_take. lia. }
  assert (Hmax : (length (take (Z.to_nat (from_be_bytes hi lo)) rest) <= MAX_PAYLOAD)%nat).
  { rewrite Hlen. unfold MAX_PAYLOAD, u16_max, from_be_bytes, is_byte in *. lia. }
  split; [|done]. unfold encode_frame. cbn [kind payload].
  rewrite encode_fits, Hlen, Z2Nat.id by (done || (unfold from_be_bytes, is_byte in *; lia)).
  pose proof (be_bytes_of hi lo ltac:(done) ltac:(done)) as Hbe. injection Hbe as -> ->.
  cbn [app]. by rewrite take_drop.
Qed.

Lemma pop_none buf buf' : pop buf = (None, buf') -> buf' = buf.
Proof. destruct buf as [|? [|? [|? ?]]]; cbn [pop]; try case_match; by intros [=]. Qed.

Lemma pop_app buf f buf' more : pop buf = (Some f, buf') -> pop (buf ++ more) = (Some f, buf' ++ more).
Proof.
  destruct buf as [|k [|hi [|lo rest]]]; cbn [pop app length]; try done. unfold HEADER.
  set (n := Z.to_nat (from_be_bytes hi lo)).
  destruct (Nat.ltb_spec (S (S (S (length rest)))) (3 + n)); [done|]. intros [= <- <-].
  rewrite length_app. destruct (Nat.ltb_spec (S (S (S (length rest + length more)))) (3 + n)); [lia|].
  by rewrite take_app_le, drop_app_le by lia.
Qed.

Lemma pop_shorter buf f buf' : pop buf = (Some f, buf') -> (length buf' < length buf)%nat.
Proof.
  destruct buf as [|k [|hi [|lo rest]]]; cbn [pop length]; try done.
  case_match; [done|]. intros [= <- <-]. rewrite length_drop. lia.
Qed.

(** Enough fuel is enough: the drained frames do not depend on it. *)
Lemma drain_fuel n1 : forall n2 buf,
  (length buf <= n1)%nat -> (length buf <= n2)%nat -> drain n1 buf = drain n2 buf.
Proof.
  induction n1 as [|n1 IH]; intros n2 buf H1 H2.
  - destruct buf; [|cbn in H1; lia]. by destruct n2.
  - destruct n2 as [|n2]; [destruct buf; [done|cbn in H2; lia]|]. cbn [drain].
    destruct (pop buf) as [[f|] buf'] eqn:E; [|done]. apply pop_shorter in E.
    rewrite (IH n2) by lia. done.
Qed.

Lemma pop_all_unfold buf :
  pop_all buf =
  match pop buf with
  | (Some f, buf') => let '(fs, r) := pop_all buf' in (f :: fs, r)
  | (None, _) => ([], buf)
  end.
Proof.
  unfold pop_all. destruct buf as [|b buf]; [done|]. cbn [length drain].
  destruct (pop (b :: buf)) as [[f|] buf'] eqn:E.
  - apply pop_shorter in E. cbn in E. by rewrite (drain_fuel (length buf) (length buf')) by lia.
  - by apply pop_none in E as ->.
Qed.

Lemma pop_all_spec n : forall buf, (length buf <= n)%nat -> Forall is_byte buf ->
  let '(fs, rest) := pop_all buf in
  buf = concat (map encode_frame fs) ++ rest /\ Forall wf_frame fs /\ pop rest = (None, rest).
Proof.
  induction n as [|n IH]; intros buf Hn Hb; rewrite pop_all_unfold;
    destruct (pop buf) as [[f|] buf'] eqn:E.
  - apply pop_shorter in E. lia.
  - pose proof (pop_none _ _ E). by subst.
  - pose proof (pop_shorter _ _ _ E). apply pop_some in E as [-> Hf]; [|done].
    apply Forall_app in Hb as [_ Hb]. specialize (IH buf' ltac:(lia) Hb).
    destruct (pop_all buf') as [fs rest]. destruct IH as (-> & Hfs & Hr).
    cbn [map concat]. by rewrite <- (assoc app), Forall_cons.
  - pose proof (pop_none _ _ E). by subst.
Qed.

Lemma short_frame k p : in_range 0 255 k = true -> (length p <=? 255)%nat = true -> wf_frame (mk_frame k p).
Proof. intros Hk Hp. unfold in_range, wf_frame, is_byte, MAX_PAYLOAD, u16_max in *. cbn [kind payload]. lia. Qed.

Lemma pop_all_frames fs rest :
  Forall wf_frame fs -> pop rest = (None, rest) ->
  pop_all (concat (map encode_frame fs) ++ rest) = (fs, rest).
Proof.
  intros Hf Hr. induction Hf as [|f fs Hf _ IH]; cbn [map concat app]; rewrite pop_all_unfold.
  - by rewrite Hr.
  - rewrite <- (assoc app), pop_encode by done. by rewrite IH.
Qed.

(** Popping before the next read changes nothing. *)
Lemma pop_all_app n : forall buf more, (length buf <= n)%nat ->
  pop_all (buf ++ more) =
  let '(fs, rest) := pop_all buf in let '(gs, r) := pop_all (rest ++ more) in (fs ++ gs, r).
Proof.
  induction n as [|n IH]; intros buf more Hn.
  - destruct buf; [|cbn in Hn; lia]. cbn [app]. change (pop_all []) with (@nil Frame, @nil Z).
    cbn [app]. by destruct (pop_all more).
  - rewrite (pop_all_unfold buf). destruct (pop buf) as [[f|] buf'] eqn:E.
    + pose proof (pop_shorter _ _ _ E). rewrite pop_all_unfold. rewrite (pop_app _ _ _ _ E).
      rewrite (IH buf' more) by lia. destruct (pop_all buf') as [fs rest].
      by destruct (pop_all (rest ++ more)).
    + by destruct (pop_all (buf ++ more)).
Qed.

(** What is left after popping holds no frame. *)
Lemma pop_all_rest n : forall buf fs rest, (length buf <= n)%nat -> pop_all buf = (fs, rest) -> pop rest = (None, rest).
Proof.
  induction n as [|n IH]; intros buf fs rest Hn; rewrite pop_all_unfold; destruct (pop buf) as [[f|] b'] eqn:E;
    try (apply pop_shorter in E; lia); try (intros [= <- <-]; pose proof (pop_none _ _ E); by subst).
  apply pop_shorter in E. destruct (pop_all b') as [gs r'] eqn:E'. intros [= <- <-]. by eapply IH; [|exact E']; lia.
Qed.

Lemma receive_concat reads : forall buf,
  pop buf = (None, buf) -> receive buf reads = pop_all (buf ++ concat reads).
Proof.
  induction reads as [|r reads IH]; intros buf Hb; cbn [receive concat].
  - rewrite app_nil_r, pop_all_unfold. by rewrite Hb.
  - unfold push. rewrite (assoc app), (pop_all_app _ (buf ++ r) _ (le_n _)).
    destruct (pop_all (buf ++ r)) as [fs rest] eqn:E. rewrite IH; [done|]. by eapply pop_all_rest.
Qed.

Lemma slice_chunks_spec n (Hn : (0 < n)%nat) fuel : forall l, (length l <= fuel)%nat ->
  concat (slice_chunks fuel n l) = l /\
  Forall (fun c => (0 < length c <= n)%nat) (slice_chunks fuel n l).
Proof.
  induction fuel as [|fuel IH]; intros l Hl.
  - destruct l; [done|cbn in Hl; lia].
  - destruct l as [|x l]; [done|]. cbn [slice_chunks concat].
    destruct (IH (drop n (x :: l))) as [-> Hc]; [rewrite length_drop; cbn in *; lia|].
    rewrite take_drop. split; [done|]. constructor; [|done]. rewrite length_take. cbn. lia.
Qed.

Lemma chunks_frames k bytes :
  exists fs, concat (chunks k bytes) = concat (map encode_frame fs) /\
    Forall (fun f => kind f = k /\ (length (payload f) <= MAX_PAYLOAD)%nat) fs /\
    concat (map payload fs) = bytes.
Proof.
  destruct bytes as [|b l].
  { exists [mk_frame k []]. split; [done|]. split; [|done]. apply Forall_singleton. split; [done|]. cbn [payload length]. lia. }
  unfold chunks. set (l' := b :: l).
  destruct (slice_chunks_spec MAX_PAYLOAD ltac:(unfold MAX_PAYLOAD, u16_max; lia) (length l') l' (le_n _))
    as [Hc Hl].
  exists (map (mk_frame k) (slice_chunks (length l') MAX_PAYLOAD l')). rewrite !map_map.
  split; [done|]. split.
  - apply Forall_map. eapply Forall_impl; [exact Hl|]. cbn. lia.
  - cbn. by rewrite map_id.
Qed.

Lemma none_nil : pop [] = (None, []).
Proof. done. Qed.

#[export] Hint Resolve none_nil : willie.

(** ** Properties *)

(** C7. Round trip under any fragmentation: a stream of well-formed frames,
    cut into reads anywhere and followed by an incomplete frame, is decoded
    into exactly those frames, in order, with the incomplete part pending. *)
Theorem decoder_roundtrip (fs : list Frame) (rest : list Z) (reads : list (list Z)) :
  Forall wf_frame fs -> fst (pop rest) = None ->
  concat reads = concat (map encode_frame fs) ++ rest ->
  receive [] reads = (fs, rest) /\ pending (snd (receive [] reads)) = length rest.
Proof.
  intros Hf Hr Hc.
  assert (Hr' : pop rest = (None, rest)).
  { destruct (pop rest) as [o r] eqn:E. cbn in Hr. subst o. by rewrite (pop_none _ _ E). }
  assert (H : receive [] reads = (fs, rest)).
  { rewrite receive_concat by done. cbn [app]. rewrite Hc. by apply pop_all_frames. }
  by rewrite H.
Qed.

(** Nothing is lost or invented, whatever a peer sends: any byte stream
    in any reads is the encodings of the decoded frames followed by the pending
    bytes, the frames are within the 16-bit length, and no complete frame is
    left pending. *)
Theorem decoder_conservative (reads : list (list Z)) :
  Forall is_byte (concat reads) ->
  let '(fs, buf) := receive [] reads in
  concat reads = concat (map encode_frame fs) ++ buf /\ Forall wf_frame fs /\ fst (pop buf) = None.
Proof.
  intros Hb. rewrite receive_concat by done. cbn [app].
  pose proof (pop_all_spec _ (concat reads) (le_n _) Hb) as H.
  destruct (pop_all (concat reads)) as [fs buf]. destruct H as (H1 & H2 & H3).
  by rewrite H3.
Qed.

(** [chunks] loses nothing of an output of any length: the decoder on the
    other side reads frames of the same kind whose payloads make it up. *)
Theorem chunks_roundtrip (k : Z) (bytes : list Z) (reads : list (list Z)) :
  is_byte k -> concat reads = concat (chunks k bytes) ->
  exists fs, receive [] reads = (fs, []) /\ Forall (fun f => kind f = k) fs /\
    concat (map payload fs) = bytes.
Proof.
  intros Hk Hr. destruct (chunks_frames k bytes) as (fs & Hc & Hf & Hp). exists fs.
  rewrite receive_concat by done. cbn [app]. rewrite Hr, Hc, <- (app_nil_r (concat _)).
  rewrite pop_all_frames; [|eapply Forall_impl; [exact Hf|]; intros f [<- ?]; done|done].
  split; [done|]. split; [|done]. eapply Forall_impl; [exact Hf|]. by intros f [? _].
Qed.

(** A window size survives the wire, and only a four-byte payload is read
    as one. *)
Theorem resize_roundtrip (rows cols : Z) (p : list Z) :
  0 <= rows <= u16_max -> 0 <= cols <= u16_max ->
  (exists f, pop (encode_resize rows cols) = (Some f, []) /\ kind f = RESIZE /\
     decode_resize (payload f) = Some (rows, cols)) /\
  (decode_resize p <> None <-> length p = 4%nat).
Proof.
  intros _ _. split.
  - exists (mk_frame RESIZE (to_be_bytes rows ++ to_be_bytes cols)). split; [|split; [done|]].
    + pose proof (pop_encode (mk_frame RESIZE (to_be_bytes rows ++ to_be_bytes cols)) []) as H.
      rewrite app_nil_r in H. apply H. split; [done|]. cbn. unfold MAX_PAYLOAD, u16_max. lia.
    + cbn. by rewrite !be_bytes_roundtrip.
  - destruct p as [|? [|? [|? [|? [|? ?]]]]]; cbn; split; congruence || lia || done.
Qed.

(** ** The properties at concrete inputs *)

Lemma decoder_roundtrip_witness :
  receive [] [[2]; [0]; [0; 4; 0]; [2; 9; 8; 17; 0; 5; 1]]
    = ([mk_frame DETACH []; mk_frame STOP [9; 8]], [17; 0; 5; 1]) /\
  pending (snd (receive [] [[2]; [0]; [0; 4; 0]; [2; 9; 8; 17; 0; 5; 1]])) = 4%nat.
Proof.
  apply (decoder_roundtrip [mk_frame DETACH []; mk_frame STOP [9; 8]] [17; 0; 5; 1]);
    [|reflexivity|reflexivity].
  repeat apply Forall_cons_2; [split|split|]; try done; try (unfold is_byte, DETACH, STOP; cbn; lia);
    unfold MAX_PAYLOAD, u16_max; cbn [payload length]; lia.
Defined.

Lemma decoder_conservative_witness :
  let '(fs, buf) := receive [] [[255; 0]; [1; 7; 3]] in
  [255; 0; 1; 7; 3] = concat (map encode_frame fs) ++ buf /\ Forall wf_frame fs /\ fst (pop buf) = None.
Proof. apply (decoder_conservative [[255; 0]; [1; 7; 3]]). repeat constructor; lia. Defined.

Lemma chunks_roundtrip_witness :
  exists fs, receive [] [[16; 0]; [2; 104; 105]] = (fs, []) /\ Forall (fun f => kind f = OUTPUT) fs /\
    concat (map payload fs) = [104; 105].
Proof. apply (chunks_roundtrip OUTPUT [104; 105]); [unfold is_byte, OUTPUT; lia|vm_compute; reflexivity]. Defined.

Lemma resize_roundtrip_witness :
  (exists f, pop (encode_resize 24 300) = (Some f, []) /\ kind f = RESIZE /\
     decode_resize (payload f) = Some (24, 300)) /\
  (decode_resize [1; 2] <> None <-> length [1; 2] = 4%nat).
Proof. apply (resize_roundtrip 24 300 [1; 2]); unfold u16_max; lia. Defined.
