(* ===== verification/Sandbox.v ===== *)
(** * The sandbox policy

    Models crates/willie-core/src/sandbox.rs: the capabilities, the guard on
    the extra paths of a project's profile, and the merge of the harness's
    defaults with that profile.  The guard compares texts; its specification is
    on lists of path components. *)

From S2P Require Import Prelude Text.

Local Open Scope string_scope.
Local Open Scope list_scope.

(** ** Capabilities *)

Inductive Capability : Type :=
| ProjectRw | AgentState | ToolsRo | CachesRw | GitIdentity | ExtraPaths
| HomePersistent | Ssh | MntAll | WindowsInterop.

#[export] Instance Capability_eq_dec : EqDecision Capability.
Proof. solve_decision. Defined.

Definition ALL : list Capability :=
  [ProjectRw; AgentState; ToolsRo; CachesRw; GitIdentity; ExtraPaths; HomePersistent; Ssh; MntAll;
   WindowsInterop].

Definition display_name (c : Capability) : string :=
  match c with
  | ProjectRw => "project.rw"
  | AgentState => "agent.state"
  | ToolsRo => "tools.ro"
  | CachesRw => "caches.rw"
  | GitIdentity => "git.identity"
  | ExtraPaths => "extra.paths"
  | HomePersistent => "home.persistent"
  | Ssh => "ssh"
  | MntAll => "mnt.all"
  | WindowsInterop => "windows.interop"
  end.

Definition is_implemented (c : Capability) : bool :=
  match c with
  | ProjectRw | AgentState | ToolsRo | CachesRw | GitIdentity | ExtraPaths => true
  | _ => false
  end.

Inductive PathMode : Type := Ro | Rw.

#[export] Instance PathMode_eq_dec : EqDecision PathMode.
Proof. solve_decision. Defined.

Record ExtraPath : Type := mk_extra { path : string; mode : PathMode }.

#[export] Instance ExtraPath_eq_dec : EqDecision ExtraPath.
Proof. solve_decision. Defined.

Record CapabilitySet : Type := mk_caps {
  project_rw : bool;
  agent_state : bool;
  tools_ro : bool;
  caches_rw : bool;
  git_identity : bool;
  extra_paths : list ExtraPath
}.

#[export] Instance CapabilitySet_eq_dec : EqDecision CapabilitySet.
Proof. solve_decision. Defined.

Definition is_nil {A} (l : list A) : bool := match l with [] => true | _ => false end.

Definition enabled (s : CapabilitySet) (c : Capability) : bool :=
  match c with
  | ProjectRw => project_rw s
  | AgentState => agent_state s
  | ToolsRo => tools_ro s
  | CachesRw => caches_rw s
  | GitIdentity => git_identity s
  | ExtraPaths => negb (is_nil (extra_paths s))
  | HomePersistent | Ssh | MntAll | WindowsInterop => false
  end.

Definition default_set : CapabilitySet := mk_caps true false false false false [].

Record SandboxProfile : Type := mk_profile {
  p_project_rw : option bool;
  p_agent_state : option bool;
  p_tools_ro : option bool;
  p_caches_rw : option bool;
  p_git_identity : option bool;
  p_extra_paths : list ExtraPath;
  p_home_persistent : option bool;
  p_ssh : option bool;
  p_mnt_all : option bool;
  p_windows_interop : option bool
}.

#[export] Instance SandboxProfile_eq_dec : EqDecision SandboxProfile.
Proof. solve_decision. Defined.

Definition default_profile : SandboxProfile :=
  mk_profile None None None None None [] None None None None.

Inductive CapabilityError : Type :=
| Unsupported (c : Capability)
| ExtraPathNotAbsolute (path : string)
| ExtraPathGuarded (path reason : string).

Definition code (e : CapabilityError) : string :=
  match e with
  | Unsupported _ => "sandbox_capability_unsupported"
  | ExtraPathNotAbsolute _ => "sandbox_profile_invalid"
  | ExtraPathGuarded _ _ => "sandbox_profile_invalid"
  end.

Definition message (e : CapabilityError) : string :=
  match e with
  | Unsupported c => "`" +:+ display_name c +:+ "` is not implemented in this version"
  | ExtraPathNotAbsolute path => "`" +:+ path +:+ "` is not an absolute path"
  | ExtraPathGuarded path reason => "`" +:+ path +:+ "` cannot be an extra path: " +:+ reason
  end.

Definition remediation (e : CapabilityError) : string :=
  match e with
  | Unsupported c =>
      "remove `" +:+ display_name c +:+
      "` from the project's sandbox settings; this version cannot apply it"
  | ExtraPathNotAbsolute _ =>
      "give an absolute path as it appears inside the distribution, starting with `/`"
  | ExtraPathGuarded _ _ => "name a narrower path outside it, or remove the entry"
  end.

(** ** The guard on extra paths *)

Definition has_dotdot_component (path : string) : bool :=
  existsb (fun c => bool_decide (c = "..")) (split "/" path).

(** The components that count: neither empty nor [.]. *)
Definition proper (p : string) : bool := negb (is_empty p) && negb (bool_decide (p = ".")).

Definition normalize_lexical (path : string) : string :=
  foldl (fun out part => (if (1 <? String.length out)%nat then out +:+ "/" else out) +:+ part)
    "/" (List.filter proper (split "/" path)).

Definition is_prefix_path (prefix path : string) : bool :=
  bool_decide (path = prefix)
  || match strip_prefix prefix path with
     | Some rest => starts_with "/" rest
     | None => false
     end.

Inductive Flavor : Type := Subtree | Exact.

Definition interop : string :=
  "the interop interpreter and its sockets are `windows.interop`, which this version does not apply".
Definition kernel : string := "kernel interfaces are not paths to grant".
Definition system : string := "the system stays as the base mounts it".
Definition willie_state : string := "Willie's own state stays as the base mounts it".
Definition tools : string :=
  "managed tools are `tools.ro`, read-only; an extra path must not reopen them read-write".
Definition caches : string :=
  "package caches are `caches.rw`, one per project; an extra path must not share them across projects".

Definition guarded_locations (home : string) : list (string * Flavor * string) := [
  ("/init", Subtree, interop);
  ("/run", Subtree, interop);
  ("/proc", Subtree, kernel);
  ("/sys", Subtree, kernel);
  ("/dev", Subtree, kernel);
  ("/etc", Subtree, system);
  ("/usr", Subtree, system);
  ("/bin", Subtree, system);
  ("/sbin", Subtree, system);
  ("/lib", Subtree, system);
  ("/lib64", Subtree, system);
  ("/opt/willie", Subtree, willie_state);
  ("/var/lib/willie", Subtree, willie_state);
  ("/tmp", Exact, "the temporary directory is private to the session; grant paths inside it one by one");
  (home, Exact, "the home is private; grant paths inside it one by one");
  (home +:+ "/projects", Exact,
   "every project lives under it; grant the one you mean, not all of them at once");
  (home +:+ "/.willie", Subtree,
   "Willie's per-user state holds the login and every project's caches");
  (home +:+ "/.ssh", Subtree, "keys are `ssh`, which this version does not apply");
  (home +:+ "/.claude", Subtree, "the login is `agent.state`");
  (home +:+ "/.local", Subtree, tools);
  (home +:+ "/.dotnet", Subtree, tools);
  (home +:+ "/.npm", Subtree, caches);
  (home +:+ "/.nuget", Subtree, caches);
  (home +:+ "/.cache", Subtree, caches);
  (home +:+ "/.claude.json", Exact, "the login is `agent.state`");
  (home +:+ "/.gitconfig", Exact, "the identity is `git.identity`")
].

(** [drive.len() == 1] and its character an ASCII letter. *)
Definition is_drive_letter (drive : string) : bool :=
  match drive with String a EmptyString => is_ascii_alphabetic a | _ => false end.

Definition guard_mnt (path : string) : option string :=
  match strip_prefix "/mnt" path with
  | None => None
  | Some rest =>
      if is_empty rest then
        Some "every Windows drive is `mnt.all`, which this version does not apply"
      else
        match strip_prefix "/" rest with
        | None => None
        | Some rest =>
            let components := split "/" rest in
            let drive := default EmptyString (head components) in
            if negb (is_drive_letter drive) then
              Some "this reaches the Windows side; interop is `windows.interop`, which this version does not apply"
            else if is_nil (List.tl components) then
              Some "a whole Windows drive is `mnt.all`, which this version does not apply"
            else None
        end
  end.

Definition location_matches (path : string) (e : string * Flavor * string) : bool :=
  let '(location, flavor, _) := e in
  match flavor with
  | Subtree => is_prefix_path location path || is_prefix_path path location
  | Exact => is_prefix_path path location
  end.

Definition guard_extra_path (path home : string) : option string :=
  if has_dotdot_component path then
    Some "a `..` component is refused outright and never resolved; name the path directly"
  else
    let path := normalize_lexical path in
    let home := normalize_lexical home in
    if bool_decide (path = "/") then Some "the whole filesystem"
    else
      match guard_mnt path with
      | Some reason => Some reason
      | None => snd <$> List.find (location_matches path) (guarded_locations home)
      end.

(** ** The merge *)

Fixpoint first_unsupported (l : list (option bool * Capability)) : option Capability :=
  match l with
  | [] => None
  | (asked, c) :: l => if bool_decide (asked = Some true) then Some c else first_unsupported l
  end.

Fixpoint check_extras (home : string) (l : list ExtraPath) : result unit CapabilityError :=
  match l with
  | [] => Ok tt
  | e :: l =>
      if negb (starts_with "/" (path e)) then Err (ExtraPathNotAbsolute (path e))
      else match guard_extra_path (path e) home with
           | Some reason => Err (ExtraPathGuarded (path e) reason)
           | None => check_extras home l
           end
  end.

Local Open Scope willie_scope.

Definition resolve (defaults : CapabilitySet) (profile : SandboxProfile) (home : string)
    : result CapabilitySet CapabilityError :=
  match first_unsupported
    [(p_home_persistent profile, HomePersistent); (p_ssh profile, Ssh); (p_mnt_all profile, MntAll);
     (p_windows_interop profile, WindowsInterop)] with
  | Some c => Err (Unsupported c)
  | None =>
      let? _ := check_extras home (p_extra_paths profile) in
      Ok (mk_caps true
            (default (agent_state defaults) (p_agent_state profile))
            (default (tools_ro defaults) (p_tools_ro profile))
            (default (caches_rw defaults) (p_caches_rw profile))
            (default (git_identity defaults) (p_git_identity profile))
            (p_extra_paths profile))
  end.

Inductive Source : Type := Default | Profile | Unavailable.

#[export] Instance Source_eq_dec : EqDecision Source.
Proof. solve_decision. Defined.

Record Explained : Type := mk_explained { capability : Capability; e_enabled : bool; source : Source }.

Definition is_some {A} (o : option A) : bool := match o with Some _ => true | None => false end.

Definition spoken (profile : SandboxProfile) (c : Capability) : bool :=
  match c with
  | ProjectRw => false
  | AgentState => is_some (p_agent_state profile)
  | ToolsRo => is_some (p_tools_ro profile)
  | CachesRw => is_some (p_caches_rw profile)
  | GitIdentity => is_some (p_git_identity profile)
  | ExtraPaths => negb (is_nil (p_extra_paths profile))
  | HomePersistent | Ssh | MntAll | WindowsInterop => false
  end.

Definition explain_row (profile : SandboxProfile) (resolved : CapabilitySet) (c : Capability) : Explained :=
  mk_explained c (enabled resolved c)
    (if is_implemented c then if spoken profile c then Profile else Default else Unavailable).

Definition explain (defaults : CapabilitySet) (profile : SandboxProfile) (home : string)
    : result (list Explained) CapabilityError :=
  let? resolved := resolve defaults profile home in
  Ok (map (explain_row profile resolved) ALL).

(** ** Specification: paths as lists of components *)

Definition comps (path : string) : list string := List.filter proper (split "/" path).

(** A component list spelled as text. *)
Definition cat (l : list string) : string := concat_str (map (fun c => "/" +:+ c) l).
Definition absolute (l : list string) : string := match l with [] => "/" | _ => cat l end.

Definition wf_comps (l : list string) : Prop :=
  Forall (fun c => contains_char "/" c = false /\ proper c = true) l.

(** What the base closes, for a home of components [h]. *)
Definition protected (h : list string) : list (list string * Flavor) := [
  (["init"], Subtree); (["run"], Subtree); (["proc"], Subtree); (["sys"], Subtree); (["dev"], Subtree);
  (["etc"], Subtree); (["usr"], Subtree); (["bin"], Subtree); (["sbin"], Subtree); (["lib"], Subtree);
  (["lib64"], Subtree); (["opt"; "willie"], Subtree); (["var"; "lib"; "willie"], Subtree);
  (["tmp"], Exact); (h, Exact); (h ++ ["projects"], Exact); (h ++ [".willie"], Subtree);
  (h ++ [".ssh"], Subtree); (h ++ [".claude"], Subtree); (h ++ [".local"], Subtree);
  (h ++ [".dotnet"], Subtree); (h ++ [".npm"], Subtree); (h ++ [".nuget"], Subtree);
  (h ++ [".cache"], Subtree); (h ++ [".claude.json"], Exact); (h ++ [".gitconfig"], Exact)
].

(** A location is reached from above, or, as a subtree, from below. *)
Definition reaches (p : list string) (e : list string * Flavor) : Prop :=
  p `prefix_of` fst e \/ (snd e = Subtree /\ fst e `prefix_of` p).

(** [/mnt], a whole drive, or anything under [/mnt] that is no drive. *)
Definition mnt_refused (p : list string) : Prop :=
  exists rest, p = "mnt" :: rest /\
    match rest with [] | [_] => True | d :: _ => is_drive_letter d = false end.

Definition refused (path home : string) : Prop :=
  ".." ∈ split "/" path \/ comps path = [] \/ mnt_refused (comps path) \/
  exists e, e ∈ protected (comps home) /\ reaches (comps path) e.

(** ** Lemmas on component lists *)

Lemma proper_comps path : wf_comps (comps path).
Proof.
  unfold comps, wf_comps. pose proof (split_pieces "/" path) as H.
  induction H as [|p ps Hp _ IH]; [constructor|]. cbn. destruct (proper p) eqn:E; [|done].
  by constructor.
Qed.

Lemma comps_under a b : comps (a +:+ "/" +:+ b) = comps a ++ comps b.
Proof. unfold comps. change ("/" +:+ b) with (String "/" b). by rewrite split_app, List.filter_app. Qed.

Lemma cat_cons c l : cat (c :: l) = String "/" (c +:+ cat l).
Proof. done. Qed.

Lemma cat_app a b : cat (a ++ b) = cat a +:+ cat b.
Proof.
  induction a as [|x a IH]; [done|]. cbn [app]. rewrite !cat_cons, IH, str_app_cons. by rewrite str_app_assoc.
Qed.

(** The text after a component list is empty or starts a component. *)
Definition boundary (t : string) : Prop := t = EmptyString \/ exists r, t = String "/" r.

Lemma boundary_cat l : boundary (cat l).
Proof. destruct l; [by left|right; rewrite cat_cons; eauto]. Qed.

Lemma split_boundary c t : contains_char "/" c = false -> boundary t ->
  split "/" (c +:+ t) = c :: tl (split "/" t).
Proof.
  intros Hc [->|[r ->]].
  - rewrite str_app_nil, split_none by done. done.
  - rewrite split_cons by done. done.
Qed.

Lemma boundary_app l t : boundary t -> boundary (cat l +:+ t).
Proof.
  intros Ht. destruct l as [|c l]; [done|]. right. rewrite cat_cons, str_app_cons. eauto.
Qed.

Lemma split_cat l t : wf_comps l -> boundary t -> tl (split "/" (cat l +:+ t)) = l ++ tl (split "/" t).
Proof.
  intros Hl Ht. induction Hl as [|c l [Hc _] Hl IH]; [done|].
  rewrite cat_cons, str_app_cons, <- str_app_assoc.
  change (tl (split "/" (String "/" (c +:+ (cat l +:+ t))))) with (split "/" (c +:+ (cat l +:+ t))).
  rewrite split_boundary by (done || by apply boundary_app). by rewrite IH.
Qed.

Lemma cat_split l : wf_comps l -> tl (split "/" (cat l)) = l.
Proof.
  intros Hl. pose proof (split_cat l EmptyString Hl (or_introl eq_refl)) as H.
  by rewrite str_app_nil, app_nil_r in H.
Qed.

Lemma cat_inj a b : wf_comps a -> wf_comps b -> cat a = cat b -> a = b.
Proof. intros Ha Hb H. by rewrite <- (cat_split a), <- (cat_split b), H. Qed.

Lemma cat_not_slash b : wf_comps b -> cat b <> "/".
Proof.
  intros Hb H. pose proof (cat_split b Hb) as Hs. rewrite H in Hs. cbn in Hs. subst b.
  apply Forall_cons in Hb as [[_ Hp] _]. done.
Qed.

(** The text comparison of [is_prefix_path] is the prefix order. *)
Lemma is_prefix_path_cat a b : wf_comps a -> wf_comps b ->
  is_prefix_path (cat a) (cat b) = true <-> a `prefix_of` b.
Proof.
  intros Ha Hb. unfold is_prefix_path. rewrite orb_true_iff, bool_decide_eq_true. split.
  - intros [H|H]; [by rewrite (cat_inj b a)|].
    destruct (strip_prefix (cat a) (cat b)) as [rest|] eqn:E; [|done].
    apply strip_prefix_some in E. apply starts_with_spec in H as [r ->]. rewrite str_app_cons, str_app_nil_l in E.
    pose proof (cat_split b Hb) as Hs. rewrite E, split_cat in Hs by (done || by (right; eauto)).
    exists (split "/" r). by rewrite <- Hs.
  - intros [c ->]. rewrite cat_app. destruct c as [|x c].
    + left. apply str_app_nil.
    + right. rewrite strip_prefix_app, cat_cons. by apply starts_with_spec; eexists.
Qed.

Lemma normalize_absolute path : normalize_lexical path = absolute (comps path).
Proof.
  unfold normalize_lexical. fold (comps path). pose proof (proper_comps path) as Hw.
  set (f := fun out part => _).
  assert (H : forall l acc, wf_comps l -> wf_comps acc -> foldl f (absolute acc) l = absolute (acc ++ l)).
  { induction l as [|c l IH]; intros acc Hl Ha; [by rewrite app_nil_r|].
    apply Forall_cons in Hl as [Hc Hl]. cbn [foldl].
    replace (f (absolute acc) c) with (absolute (acc ++ [c])).
    - rewrite IH; [by rewrite <- app_assoc|done|]. apply Forall_app. split; [done|by constructor].
    - subst f. cbn beta. destruct acc as [|a acc].
      + cbn [absolute app]. by rewrite cat_cons, str_app_nil.
      + assert (Hlen : (1 <? String.length (absolute (a :: acc)))%nat = true).
        { apply Forall_cons in Ha as [[_ Hp] _]. destruct a as [|x a]; [done|].
          cbn [absolute]. by rewrite cat_cons, str_app_cons. }
        rewrite Hlen. change (absolute ((a :: acc) ++ [c])) with (cat ((a :: acc) ++ [c])).
        rewrite cat_app, cat_cons. cbn [absolute]. rewrite (cat_cons c), str_app_nil.
        by rewrite <- str_app_assoc. }
  by apply (H (comps path) []); [|constructor].
Qed.

Lemma absolute_cat l : l <> [] -> absolute l = cat l.
Proof. by destruct l. Qed.

Lemma mnt_prefix p rest : wf_comps p -> strip_prefix "/mnt" (cat p) = Some rest ->
  strip_prefix "/" rest = None /\ rest <> EmptyString \/ exists l, p = "mnt" :: l /\ rest = cat l.
Proof.
  intros Hp H. apply strip_prefix_some in H.
  destruct rest as [|a r]; [|destruct (decide (a = "/"%char)) as [->|Hne]].
  - right. exists []. split; [|done]. apply cat_inj; [done| |by rewrite H].
    by repeat constructor.
  - right. pose proof (cat_split p Hp) as Hs. change "/mnt" with (cat ["mnt"]) in H.
    rewrite H, split_cat in Hs by (by (right; eauto) || by repeat constructor).
    exists (split "/" r). split; [by rewrite <- Hs|].
    assert (Hc : cat p = cat ("mnt" :: split "/" r)) by (f_equal; by rewrite <- Hs).
    rewrite H in Hc. rewrite (cat_cons "mnt") in Hc.
    change (cat ["mnt"]) with ("/mnt") in Hc.
    change (String "/" ("mnt" +:+ cat (split "/" r))) with ("/mnt" +:+ cat (split "/" r)) in Hc.
    by apply str_app_inj in Hc.
  - left. split; [|done]. cbn. by rewrite decide_False.
Qed.

Lemma strip_mnt l : strip_prefix "/mnt" (cat ("mnt" :: l)) = Some (cat l).
Proof.
  rewrite cat_cons. change (String "/" ("mnt" +:+ cat l)) with ("/mnt" +:+ cat l). apply strip_prefix_app.
Qed.

Lemma guard_mnt_spec p : wf_comps p -> (exists r, guard_mnt (cat p) = Some r) <-> mnt_refused p.
Proof.
  intros Hp. unfold guard_mnt. split.
  - destruct (strip_prefix "/mnt" (cat p)) as [rest|] eqn:E; [|by intros [? ?]].
    pose proof (mnt_prefix p rest Hp E) as [[Hn He]|(l & -> & ->)].
    { destruct rest; [done|]. cbn [is_empty]. rewrite Hn. by intros [? ?]. }
    intros [r H]. exists l. split; [done|]. destruct l as [|d [|x l]]; [done..|].
    rewrite cat_cons in H. cbn [is_empty] in H.
    change (String "/" (d +:+ cat (x :: l))) with ("/" +:+ (d +:+ cat (x :: l))) in H.
    rewrite strip_prefix_app in H. apply Forall_cons in Hp as [_ Hp]. apply Forall_cons in Hp as [[Hd _] Hl].
    rewrite split_boundary, cat_split in H by (done || apply boundary_cat).
    cbn in H. by destruct (is_drive_letter d).
  - intros (l & -> & Hm). rewrite strip_mnt. destruct l as [|d l]; [cbn; eauto|].
    apply Forall_cons in Hp as [_ Hp]. apply Forall_cons in Hp as [[Hd _] Hl].
    rewrite cat_cons. cbn [is_empty].
    change (String "/" (d +:+ cat l)) with ("/" +:+ (d +:+ cat l)). rewrite strip_prefix_app.
    rewrite split_boundary, cat_split by (done || apply boundary_cat). cbn.
    destruct (is_drive_letter d) eqn:Ed; cbn; [|eauto]. destruct l; cbn; [eauto|congruence].
Qed.

(** The guarded texts are the protected component lists. *)
Lemma guarded_protected h :
  h <> [] -> map fst (guarded_locations (absolute h)) = map (fun e => (cat (fst e), snd e)) (protected h).
Proof.
  intros Hh. rewrite absolute_cat by done. unfold guarded_locations, protected. cbn [map fst snd].
  rewrite !cat_app. reflexivity.
Qed.

Lemma protected_wf h e : wf_comps h -> e ∈ protected h -> wf_comps (fst e).
Proof.
  intros Hh He. assert (Forall (fun e => wf_comps (fst e)) (protected h)) as Hf.
  { unfold protected, wf_comps. repeat (constructor; cbn [fst]); try apply Forall_app_2; try done;
      repeat constructor. }
  rewrite Forall_forall in Hf. by apply Hf.
Qed.

Lemma location_matches_reaches p l fl reason : wf_comps p -> wf_comps l ->
  location_matches (cat p) (cat l, fl, reason) = true <-> reaches p (l, fl).
Proof.
  intros Hp Hl. unfold location_matches, reaches. cbn [fst snd].
  destruct fl; rewrite ?orb_true_iff, !is_prefix_path_cat by done; intuition congruence.
Qed.

Lemma guarded_find p h : wf_comps p -> wf_comps h -> h <> [] ->
  is_some (List.find (location_matches (cat p)) (guarded_locations (absolute h))) = true <->
  exists e, e ∈ protected h /\ reaches p e.
Proof.
  intros Hp Hh Hn. pose proof (guarded_protected h Hn) as Hg.
  destruct (List.find _ _) as [[[t fl] r]|] eqn:E; cbn [is_some].
  - apply List.find_some in E as [Hin Hm]. split; [intros _|done].
    assert (Hin' : (t, fl) ∈ map fst (guarded_locations (absolute h))).
    { apply list_elem_of_fmap. exists (t, fl, r). split; [done|by apply list_elem_of_In]. }
    rewrite Hg in Hin'. apply list_elem_of_fmap in Hin' as ([l fl'] & [= -> ->] & Hl).
    exists (l, fl'). split; [done|]. apply (location_matches_reaches p l fl' r); [done| |done].
    by apply (protected_wf h (l, fl')).
  - split; [done|]. intros ([l fl] & Hl & Hr). exfalso.
    assert (Hin : (cat l, fl) ∈ map fst (guarded_locations (absolute h))).
    { rewrite Hg. apply list_elem_of_fmap. by exists (l, fl). }
    apply list_elem_of_fmap in Hin as ([[t fl'] r] & [= <- <-] & Hin). apply list_elem_of_In in Hin.
    pose proof (find_none _ _ E _ Hin) as Hf.
    apply (location_matches_reaches p l fl r) in Hr; [congruence|done|]. by apply (protected_wf h (l, fl)).
Qed.

Lemma guard_spec path home :
  comps home <> [] -> is_some (guard_extra_path path home) = true <-> refused path home.
Proof.
  intros Hh. unfold guard_extra_path, refused.
  assert (Hd : has_dotdot_component path = true <-> ".." ∈ split "/" path).
  { unfold has_dotdot_component. rewrite existsb_exists, list_elem_of_In. setoid_rewrite bool_decide_eq_true.
    split; [by intros (x & Hx & ->)|eauto]. }
  destruct (has_dotdot_component path); [tauto|].
  assert (Hd' : ".." ∉ split "/" path) by (intros H; by apply Hd in H).
  rewrite !normalize_absolute. pose proof (proper_comps path) as Hp. pose proof (proper_comps home) as Hw.
  destruct (comps path) as [|c l] eqn:Ec; [cbn; tauto|]. rewrite <- Ec in *.
  assert (Hne : comps path <> []) by (rewrite Ec; done). rewrite (absolute_cat (comps path)) by done.
  rewrite bool_decide_false by (by apply cat_not_slash).
  pose proof (guard_mnt_spec (comps path) Hp) as Hm.
  pose proof (guarded_find (comps path) (comps home) Hp Hw Hh) as Hf.
  destruct (guard_mnt (cat (comps path))) as [r|].
  - cbn. split; [|done]. intros _. right; right; left. apply Hm. eauto.
  - destruct (List.find _ _) as [e|]; cbn in *; split; try done.
    + intros _. right; right; right. by apply Hf.
    + intros [?|[?|[H|H]]]; [done..| |by apply Hf]. apply Hm in H as [? [=]].
Qed.

Lemma check_extras_ok home l :
  check_extras home l = Ok tt <->
  Forall (fun e => starts_with "/" (path e) = true /\ guard_extra_path (path e) home = None) l.
Proof.
  induction l as [|e l IH]; cbn; [done|]. rewrite Forall_cons.
  destruct (starts_with "/" (path e)); cbn; [|naive_solver].
  destruct (guard_extra_path (path e) home); naive_solver.
Qed.

Lemma check_extras_bad home l :
  Exists (fun e => starts_with "/" (path e) = false \/ guard_extra_path (path e) home <> None) l ->
  exists e, check_extras home l = Err e /\ code e = "sandbox_profile_invalid".
Proof.
  induction 1 as [e l H|e l _ IH]; cbn; destruct (starts_with "/" (path e)); cbn; try (by eexists);
    destruct (guard_extra_path (path e) home); try (by eexists); [|exact IH].
  by destruct H.
Qed.

Definition asks_unsupported (p : SandboxProfile) : Prop :=
  Some true ∈ [p_home_persistent p; p_ssh p; p_mnt_all p; p_windows_interop p].

Lemma first_unsupported_none l :
  first_unsupported l = None <-> Forall (fun e => fst e <> Some true) l.
Proof.
  induction l as [|[a c] l IH]; cbn; [done|]. rewrite Forall_cons. case_bool_decide; naive_solver.
Qed.

(** ** Properties *)

(** C4. The textual guard decides the policy on components: a path is
    refused exactly when it climbs with [..], is the root, reaches the Windows
    side of [/mnt], or is above, at or (for a subtree) below a protected
    location, whatever separators and dots the path and the home are written
    with.  [/mntx] or [~/.sshd] are not caught by sharing characters. *)
Theorem guard_refuses_exactly (path home : string) :
  comps home <> [] -> guard_extra_path path home <> None <-> refused path home.
Proof.
  intros Hh. rewrite <- guard_spec by done. destruct (guard_extra_path path home); naive_solver.
Qed.

(** A policy that resolves is safe and keeps the session: the project
    stays writable, no deferred capability was asked for, and every extra path
    it carries is the profile's, absolute, and reaches no protected location. *)
Theorem resolve_safe (defaults s : CapabilitySet) (p : SandboxProfile) (home : string) :
  comps home <> [] -> resolve defaults p home = Ok s ->
  project_rw s = true /\ ~ asks_unsupported p /\ extra_paths s = p_extra_paths p /\
  Forall (fun e => starts_with "/" (path e) = true /\ ~ refused (path e) home) (extra_paths s).
Proof.
  intros Hh. unfold resolve. destruct (first_unsupported _) eqn:E; [done|].
  destruct (check_extras home (p_extra_paths p)) as [[]|] eqn:Ec; [|done]. intros [= <-].
  split; [done|]. apply first_unsupported_none in E. rewrite !Forall_cons in E. cbn in E.
  split; [unfold asks_unsupported; rewrite !elem_of_cons, elem_of_nil; naive_solver|].
  split; [done|]. apply check_extras_ok in Ec. eapply Forall_impl; [exact Ec|]. intros e [H1 H2].
  split; [done|]. rewrite <- guard_spec by done. by rewrite H2.
Qed.

(** Every other profile is refused: resolution fails exactly when a
    deferred capability is asked for, with its code, or an extra path is
    relative or refused, with the other; an unapplicable profile never yields a
    weaker policy. *)
Theorem resolve_refuses (defaults : CapabilitySet) (p : SandboxProfile) (home : string) :
  comps home <> [] ->
  (asks_unsupported p ->
     exists e, resolve defaults p home = Err e /\ code e = "sandbox_capability_unsupported") /\
  (~ asks_unsupported p -> Exists (fun e => starts_with "/" (path e) = false \/ refused (path e) home)
     (p_extra_paths p) ->
     exists e, resolve defaults p home = Err e /\ code e = "sandbox_profile_invalid") /\
  (~ asks_unsupported p -> Forall (fun e => starts_with "/" (path e) = true /\ ~ refused (path e) home)
     (p_extra_paths p) ->
     exists s, resolve defaults p home = Ok s).
Proof.
  intros Hh. unfold resolve.
  assert (Hu : asks_unsupported p <-> first_unsupported
    [(p_home_persistent p, HomePersistent); (p_ssh p, Ssh); (p_mnt_all p, MntAll);
     (p_windows_interop p, WindowsInterop)] <> None).
  { rewrite first_unsupported_none, !Forall_cons, Forall_nil. unfold asks_unsupported.
    rewrite !elem_of_cons, elem_of_nil. cbn [fst].
    destruct (decide (p_home_persistent p = Some true)), (decide (p_ssh p = Some true)),
      (decide (p_mnt_all p = Some true)), (decide (p_windows_interop p = Some true)); naive_solver. }
  destruct (first_unsupported _) as [c|] eqn:Ef.
  - split; [intros _; by eexists|]. by split; intros H; exfalso; apply H, Hu.
  - split; [intros H; by apply Hu in H|]. split; intros _ Hx.
    + destruct (check_extras_bad home (p_extra_paths p)) as (e & -> & He); [|by exists e].
      eapply Exists_impl; [exact Hx|]. intros e [H|H]; [by left|right]. apply (guard_spec (path e) home Hh) in H.
      by destruct (guard_extra_path (path e) home).
    + assert (check_extras home (p_extra_paths p) = Ok tt) as ->; [|by eexists].
      apply check_extras_ok. eapply Forall_impl; [exact Hx|]. intros e [H1 H2]. split; [done|].
      rewrite <- guard_spec in H2 by done. by destruct (guard_extra_path (path e) home).
Qed.

(** [explain] tells the truth about the session that would run: it fails
    as [resolve] does; otherwise its rows are every capability in order, each
    as the resolved set grants it, a deferred one never granted, and a row from
    the profile or the default is the value written there. *)
Theorem explain_agrees (defaults : CapabilitySet) (p : SandboxProfile) (home : string) :
  match resolve defaults p home with
  | Err e => explain defaults p home = Err e
  | Ok s => exists rows, explain defaults p home = Ok rows /\ map capability rows = ALL /\
      Forall (fun r => e_enabled r = enabled s (capability r) /\
        match source r with
        | Unavailable => e_enabled r = false /\ is_implemented (capability r) = false
        | Default => capability r = ProjectRw \/ capability r = ExtraPaths \/
            e_enabled r = enabled defaults (capability r)
        | Profile =>
            match capability r with
            | AgentState => p_agent_state p = Some (e_enabled r)
            | ToolsRo => p_tools_ro p = Some (e_enabled r)
            | CachesRw => p_caches_rw p = Some (e_enabled r)
            | GitIdentity => p_git_identity p = Some (e_enabled r)
            | ExtraPaths => e_enabled r = true
            | _ => False
            end
        end) rows
  end.
Proof.
  unfold explain. destruct (resolve defaults p home) as [s|e] eqn:E; [|done].
  eexists. split; [done|]. split; [done|]. unfold resolve in E.
  destruct (first_unsupported _); [done|]. destruct (check_extras _ _); [|done]. injection E as <-.
  unfold ALL. cbn [map]. repeat (apply Forall_cons; split); [..|by apply Forall_nil];
    (split; [done|]); cbn; auto.
  - destruct (p_agent_state p); cbn; auto.
  - destruct (p_tools_ro p); cbn; auto.
  - destruct (p_caches_rw p); cbn; auto.
  - destruct (p_git_identity p); cbn; auto.
  - destruct (is_nil (p_extra_paths p)); cbn; auto.
Qed.

(** ** The properties at concrete inputs *)

Lemma guard_refuses_exactly_witness :
  guard_extra_path "//home/./willie/.ssh/keys" "/home/willie/" <> None <->
  refused "//home/./willie/.ssh/keys" "/home/willie/".
Proof. apply (guard_refuses_exactly "//home/./willie/.ssh/keys" "/home/willie/"). done. Defined.

Lemma resolve_safe_witness :
  let e := mk_extra "/home/willie/notes" Rw in
  project_rw (mk_caps true true false false false [e]) = true /\
  ~ asks_unsupported (mk_profile None (Some true) None None None [e] None None None None) /\
  [e] = [e] /\
  Forall (fun e => starts_with "/" (path e) = true /\ ~ refused (path e) "/home/willie") [e].
Proof.
  apply (resolve_safe default_set (mk_caps true true false false false [mk_extra "/home/willie/notes" Rw])
    (mk_profile None (Some true) None None None [mk_extra "/home/willie/notes" Rw] None None None None)
    "/home/willie"); [done|vm_compute; reflexivity].
Defined.

Lemma resolve_refuses_witness :
  exists e, resolve default_set (mk_profile None None None None None [mk_extra "/run/x" Ro] None None None None)
    "/home/willie" = Err e /\ code e = "sandbox_profile_invalid".
Proof.
  destruct (resolve_refuses default_set (mk_profile None None None None None [mk_extra "/run/x" Ro] None None None None)
    "/home/willie" ltac:(discriminate)) as (_ & H & _).
  apply H.
  - unfold asks_unsupported. by_deciding.
  - left. right. apply guard_spec; [discriminate|reflexivity].
Defined.
