(* ===== verification/Seccomp.v ===== *)
(** * The syscall filter

    Models crates/willie-linux/src/sandbox/seccomp.rs (the program, built by a
    small assembler that resolves labels) and the answering loop of
    crates/willie-sess/src/sandbox/seccomp.rs.  A [u32] is a [Z]; [run] is
    classic BPF for the five instructions used, as the source's own interpreter
    steps them.  The kernel's side of the notification is a list of events. *)

From S2P Require Import Prelude.

Local Open Scope Z_scope.

(** ** Instructions and constants *)

Record Insn : Type := mk_insn { code : Z; jt : Z; jf : Z; k : Z }.

Definition AUDIT_ARCH_X86_64 : Z := 3221225534.
Definition X32_SYSCALL_BIT : Z := 1073741824.
Definition DATA_NR : Z := 0.
Definition DATA_ARCH : Z := 4.
Definition DATA_ARG0 : Z := 16.
Definition DATA_ARG1 : Z := 24.
Definition DATA_ARG2 : Z := 32.
Definition LD_W_ABS : Z := 32.
Definition JEQ_K : Z := 21.
Definition JGE_K : Z := 53.
Definition AND_K : Z := 84.
Definition RET_K : Z := 6.
Definition SECCOMP_RET_KILL_PROCESS : Z := 2147483648.
Definition SECCOMP_RET_USER_NOTIF : Z := 2143289344.
Definition SECCOMP_RET_ALLOW : Z := 2147418112.
Definition TIOCSTI : Z := 21522.
Definition PR_SET_SECCOMP : Z := 22.
Definition AF_NETLINK : Z := 16.
Definition AF_PACKET : Z := 17.
Definition SOCK_RAW : Z := 3.
Definition SOCK_PACKET : Z := 10.
Definition SOCK_TYPE_MASK : Z := 255.
Definition NETLINK_ROUTE : Z := 0.
Definition SYS_ioctl : Z := 16.
Definition SYS_socket : Z := 41.
Definition SYS_prctl : Z := 157.
Definition SYS_ptrace : Z := 101.
Definition SYS_process_vm_readv : Z := 310.
Definition SYS_process_vm_writev : Z := 311.
Definition SYS_pidfd_getfd : Z := 438.
Definition SYS_bpf : Z := 321.
Definition SYS_io_uring_setup : Z := 425.
Definition SYS_io_uring_enter : Z := 426.
Definition SYS_io_uring_register : Z := 427.
Definition SYS_perf_event_open : Z := 298.
Definition SYS_userfaultfd : Z := 323.
Definition SYS_seccomp : Z := 317.
Definition SYS_mount : Z := 165.
Definition SYS_umount2 : Z := 166.
Definition SYS_pivot_root : Z := 155.
Definition SYS_mount_setattr : Z := 442.
Definition SYS_open_tree : Z := 428.
Definition SYS_move_mount : Z := 429.
Definition SYS_fsopen : Z := 430.
Definition SYS_fsconfig : Z := 431.
Definition SYS_fsmount : Z := 432.
Definition SYS_fspick : Z := 433.
Definition SYS_unshare : Z := 272.
Definition SYS_setns : Z := 308.
Definition SYS_init_module : Z := 175.
Definition SYS_finit_module : Z := 313.
Definition SYS_delete_module : Z := 176.
Definition SYS_kexec_load : Z := 246.
Definition SYS_kexec_file_load : Z := 320.
Definition SYS_add_key : Z := 248.
Definition SYS_request_key : Z := 249.
Definition SYS_keyctl : Z := 250.

Definition DENIED : list (Z * string) := [
  (SYS_ptrace, "ptrace"%string);
  (SYS_process_vm_readv, "process_vm_readv"%string);
  (SYS_process_vm_writev, "process_vm_writev"%string);
  (SYS_pidfd_getfd, "pidfd_getfd"%string);
  (SYS_bpf, "bpf"%string);
  (SYS_io_uring_setup, "io_uring_setup"%string);
  (SYS_io_uring_enter, "io_uring_enter"%string);
  (SYS_io_uring_register, "io_uring_register"%string);
  (SYS_perf_event_open, "perf_event_open"%string);
  (SYS_userfaultfd, "userfaultfd"%string);
  (SYS_seccomp, "seccomp"%string);
  (SYS_mount, "mount"%string);
  (SYS_umount2, "umount2"%string);
  (SYS_pivot_root, "pivot_root"%string);
  (SYS_mount_setattr, "mount_setattr"%string);
  (SYS_open_tree, "open_tree"%string);
  (SYS_move_mount, "move_mount"%string);
  (SYS_fsopen, "fsopen"%string);
  (SYS_fsconfig, "fsconfig"%string);
  (SYS_fsmount, "fsmount"%string);
  (SYS_fspick, "fspick"%string);
  (SYS_unshare, "unshare"%string);
  (SYS_setns, "setns"%string);
  (SYS_init_module, "init_module"%string);
  (SYS_finit_module, "finit_module"%string);
  (SYS_delete_module, "delete_module"%string);
  (SYS_kexec_load, "kexec_load"%string);
  (SYS_kexec_file_load, "kexec_file_load"%string);
  (SYS_add_key, "add_key"%string);
  (SYS_request_key, "request_key"%string);
  (SYS_keyctl, "keyctl"%string)
].

Definition name (nr : Z) : option string :=
  if nr =? SYS_ioctl then Some "ioctl"%string
  else if nr =? SYS_socket then Some "socket"%string
  else if nr =? SYS_prctl then Some "prctl"%string
  else snd <$> List.find (fun e => fst e =? nr) DENIED.

Definition stmt (code k : Z) : Insn := mk_insn code 0 0 k.
Definition jump (code jt jf k : Z) : Insn := mk_insn code jt jf k.

(** ** The assembler *)

Inductive To : Type := Next | Allow | Notify | Kill | Ioctl | Socket | SocketType | Prctl.

#[export] Instance To_eq_dec : EqDecision To.
Proof. solve_decision. Defined.

Inductive Item : Type :=
| Stmt (i : Insn)
| Jump (code k : Z) (jt jf : To).

Record Asm : Type := mk_asm { items : list Item; labels : list (To * nat) }.

Definition asm_new : Asm := mk_asm [] [].

Definition asm_stmt (code k : Z) (a : Asm) : Asm :=
  mk_asm (items a ++ [Stmt (stmt code k)]) (labels a).

Definition asm_jump (code k : Z) (jt jf : To) (a : Asm) : Asm :=
  mk_asm (items a ++ [Jump code k jt jf]) (labels a).

Definition asm_mark (label : To) (a : Asm) : Asm :=
  mk_asm (items a) (labels a ++ [(label, length (items a))]).

(** [usize::checked_sub], then [u8::try_from]; 255 when there is none. *)
Definition offset (a : Asm) (at_ : nat) (label : To) : Z :=
  if decide (label = Next) then 0
  else
    match List.find (fun e => bool_decide (fst e = label)) (labels a) with
    | Some (_, target) =>
        if (at_ + 1 <=? target)%nat then
          let distance := Z.of_nat (target - (at_ + 1)) in
          if distance <=? 255 then distance else 255
        else 255
    | None => 255
    end.

Definition finish (a : Asm) : list Insn :=
  imap (fun at_ item =>
    match item with
    | Stmt insn => insn
    | Jump code k jt jf => jump code (offset a at_ jt) (offset a at_ jf) k
    end) (items a).

(** One comparison per denied call; a miss falls through to the next. *)
Definition asm_denied (a : Asm) : Asm :=
  foldl (fun a e => asm_jump JEQ_K (fst e) Notify Next a) a DENIED.

Definition assembled : Asm :=
  let asm := asm_new in
  let asm := asm_stmt LD_W_ABS DATA_ARCH asm in
  let asm := asm_jump JEQ_K AUDIT_ARCH_X86_64 Next Kill asm in
  let asm := asm_stmt LD_W_ABS DATA_NR asm in
  let asm := asm_jump JGE_K X32_SYSCALL_BIT Kill Next asm in
  let asm := asm_denied asm in
  let asm := asm_jump JEQ_K SYS_ioctl Ioctl Next asm in
  let asm := asm_jump JEQ_K SYS_socket Socket Next asm in
  let asm := asm_jump JEQ_K SYS_prctl Prctl Next asm in
  let asm := asm_stmt RET_K SECCOMP_RET_ALLOW asm in
  let asm := asm_mark Ioctl asm in
  let asm := asm_stmt LD_W_ABS DATA_ARG1 asm in
  let asm := asm_jump JEQ_K TIOCSTI Notify Allow asm in
  let asm := asm_mark Socket asm in
  let asm := asm_stmt LD_W_ABS DATA_ARG0 asm in
  let asm := asm_jump JEQ_K AF_PACKET Notify Next asm in
  let asm := asm_jump JEQ_K AF_NETLINK Next SocketType asm in
  let asm := asm_stmt LD_W_ABS DATA_ARG2 asm in
  let asm := asm_jump JEQ_K NETLINK_ROUTE Allow Notify asm in
  let asm := asm_mark SocketType asm in
  let asm := asm_stmt LD_W_ABS DATA_ARG1 asm in
  let asm := asm_stmt AND_K SOCK_TYPE_MASK asm in
  let asm := asm_jump JEQ_K SOCK_RAW Notify Next asm in
  let asm := asm_jump JEQ_K SOCK_PACKET Notify Allow asm in
  let asm := asm_mark Prctl asm in
  let asm := asm_stmt LD_W_ABS DATA_ARG0 asm in
  let asm := asm_jump JEQ_K PR_SET_SECCOMP Notify Allow asm in
  let asm := asm_mark Allow asm in
  let asm := asm_stmt RET_K SECCOMP_RET_ALLOW asm in
  let asm := asm_mark Notify asm in
  let asm := asm_stmt RET_K SECCOMP_RET_USER_NOTIF asm in
  let asm := asm_mark Kill asm in
  asm_stmt RET_K SECCOMP_RET_KILL_PROCESS asm.

Definition program : list Insn := finish assembled.

(** ** Classic BPF *)

(** [seccomp_data]: [nr], [arch], the instruction pointer, six [u64]
    arguments. *)
Record seccomp_data : Type := mk_data { nr : Z; arch : Z; ip : Z; args : list Z }.

Definition arg (d : seccomp_data) (i : nat) : Z := nth i (args d) 0.

(** The little-endian word at a byte offset; [None] outside the data or off
    its words. *)
Definition load (d : seccomp_data) (at_ : Z) : option Z :=
  if at_ =? 0 then Some (nr d)
  else if at_ =? 4 then Some (arch d)
  else if at_ =? 8 then Some (ip d mod 4294967296)
  else if at_ =? 12 then Some (ip d / 4294967296)
  else if (16 <=? at_) && (at_ <? 64) && (at_ mod 4 =? 0) then
    let w := arg d (Z.to_nat ((at_ - 16) / 8)) in
    Some (if at_ mod 8 =? 0 then w mod 4294967296 else w / 4294967296)
  else None.

(** The interpreter: [None] when the source's panics.  Jumps only go forward,
    so the program's length is fuel enough. *)
Fixpoint run (fuel : nat) (prog : list Insn) (d : seccomp_data) (acc : Z) (pc : nat) : option Z :=
  match fuel with
  | O => None
  | S fuel =>
      match nth_error prog pc with
      | None => None
      | Some i =>
          let skip off := (pc + 1 + Z.to_nat off)%nat in
          if code i =? LD_W_ABS then
            match load d (k i) with
            | Some acc => run fuel prog d acc (pc + 1)
            | None => None
            end
          else if code i =? JEQ_K then
            if acc =? k i then run fuel prog d acc (skip (jt i)) else run fuel prog d acc (skip (jf i))
          else if code i =? JGE_K then
            if k i <=? acc then run fuel prog d acc (skip (jt i)) else run fuel prog d acc (skip (jf i))
          else if code i =? AND_K then run fuel prog d (Z.land acc (k i)) (pc + 1)
          else if code i =? RET_K then Some (k i)
          else None
      end
  end.

Definition verdict (d : seccomp_data) : option Z := run (length program) program d 0 0.

(** ** Answering the intercepted calls *)

Definition POLLIN : Z := 1.
Definition POLLERR : Z := 8.
Definition POLLHUP : Z := 16.
Definition POLLNVAL : Z := 32.
Definition EPERM : Z := 1.
Definition ENOENT : Z := 2.
Definition EINTR : Z := 4.

(** One wait: the poll's outcome and, when a call is pending, what receiving
    and answering it return (an errno on the left of [Err]). *)
Inductive wait : Type :=
| PollFailed (errno : Z)
| Polled (revents : Z) (recv : result (Z * Z) Z) (sent : result unit Z).

Record answer : Type := mk_answer { a_id : Z; a_error : Z }.

(** [answer_one]: the answer it sends and the call it returns. *)
Definition answer_one (recv : result (Z * Z) Z) (sent : result unit Z) : list answer * result Z Z :=
  match recv with
  | Err e => ([], Err e)
  | Ok (id, nr) => ([mk_answer id (- EPERM)], Ok nr)
  end.

Inductive ending : Type := Orderly | Broken (errno : Z) | BadEvents (revents : Z) | Waiting.

Definition has (revents bits : Z) : bool := negb (Z.land revents bits =? 0).

Fixpoint serve_notifications (waits : list wait) : list answer * list Z * ending :=
  match waits with
  | [] => ([], [], Waiting)
  | PollFailed e :: waits =>
      if e =? EINTR then serve_notifications waits else ([], [], Broken e)
  | Polled revents recv sent :: waits =>
      if has revents POLLIN then
        match answer_one recv sent with
        | (ans, Ok nr) =>
            let '(a, d, e) := serve_notifications waits in (ans ++ a, nr :: d, e)
        | (ans, Err e) =>
            if (e =? EINTR) || (e =? ENOENT) then
              let '(a, d, e) := serve_notifications waits in (ans ++ a, d, e)
            else (ans, [], Broken e)
        end
      else if has revents POLLHUP then ([], [], Orderly)
      else if has revents (Z.lor POLLERR POLLNVAL) then ([], [], BadEvents revents)
      else serve_notifications waits
  end.

(** ** Specification: the policy in plain terms *)

Definition low (d : seccomp_data) (i : nat) : Z := arg d i mod 4294967296.

Definition socket_refused (domain type protocol : Z) : bool :=
  let type := Z.land type 255 in
  (domain =? AF_PACKET)
  || ((domain =? AF_NETLINK) && negb (protocol =? NETLINK_ROUTE))
  || (negb (domain =? AF_NETLINK) && ((type =? SOCK_RAW) || (type =? SOCK_PACKET))).

Definition refused (d : seccomp_data) : bool :=
  bool_decide (nr d ∈ map fst DENIED)
  || ((nr d =? SYS_ioctl) && (low d 1 =? TIOCSTI))
  || ((nr d =? SYS_socket) && socket_refused (low d 0) (low d 1) (low d 2))
  || ((nr d =? SYS_prctl) && (low d 0 =? PR_SET_SECCOMP)).

Definition policy (d : seccomp_data) : Z :=
  if negb (arch d =? AUDIT_ARCH_X86_64) || (X32_SYSCALL_BIT <=? nr d) then SECCOMP_RET_KILL_PROCESS
  else if refused d then SECCOMP_RET_USER_NOTIF
  else SECCOMP_RET_ALLOW.

(** The calls the kernel handed over. *)
Definition received (w : wait) : list (Z * Z) :=
  match w with
  | Polled revents (Ok c) _ => if has revents POLLIN then [c] else []
  | _ => []
  end.

(** ** Lemmas *)

(** The label resolver is right: a resolved offset leads to the label. *)
Lemma offset_spec a at_ label :
  label <> Next -> offset a at_ label < 255 ->
  exists target, (label, target) ∈ labels a /\ (at_ + 1 + Z.to_nat (offset a at_ label) = target)%nat.
Proof.
  intros Hn. unfold offset. rewrite decide_False by done.
  destruct (List.find _ _) as [[l t]|] eqn:E; [|lia]. intros Ho.
  apply List.find_some in E as [Hin Hl]. cbn in Hl. apply bool_decide_eq_true in Hl as ->.
  exists t. split; [by apply list_elem_of_In|].
  repeat case_match; try lia.
Qed.

(** A ladder of comparisons is membership. *)
Lemma elem_ladder (n : Z) l : bool_decide (n ∈ l) = existsb (Z.eqb n) l.
Proof.
  destruct (existsb (Z.eqb n) l) eqn:E.
  - apply bool_decide_eq_true. apply existsb_exists in E as (x & Hx & E).
    apply list_elem_of_In. by replace n with x by lia.
  - apply bool_decide_eq_false. intros Hin. apply list_elem_of_In in Hin.
    assert (existsb (Z.eqb n) l = true); [|congruence]. apply existsb_exists. exists n. split; [done|lia].
Qed.

Section Steps.
Context (prog : list Insn) (d : seccomp_data).

Lemma run_ld fuel acc pc at_ v :
  nth_error prog pc = Some (mk_insn LD_W_ABS 0 0 at_) -> load d at_ = Some v ->
  run (S fuel) prog d acc pc = run fuel prog d v (S pc).
Proof. intros H1 H2. cbn [run]. rewrite H1. cbn [code k Z.eqb Pos.eqb LD_W_ABS]. by rewrite H2, Nat.add_1_r. Qed.

Lemma run_jeq fuel acc pc jt jf k pt pf :
  nth_error prog pc = Some (mk_insn JEQ_K jt jf k) ->
  pt = (pc + 1 + Z.to_nat jt)%nat -> pf = (pc + 1 + Z.to_nat jf)%nat ->
  run (S fuel) prog d acc pc = if acc =? k then run fuel prog d acc pt else run fuel prog d acc pf.
Proof. intros H -> ->. cbn [run]. by rewrite H. Qed.

Lemma run_jge fuel acc pc jt jf k pt pf :
  nth_error prog pc = Some (mk_insn JGE_K jt jf k) ->
  pt = (pc + 1 + Z.to_nat jt)%nat -> pf = (pc + 1 + Z.to_nat jf)%nat ->
  run (S fuel) prog d acc pc = if k <=? acc then run fuel prog d acc pt else run fuel prog d acc pf.
Proof. intros H -> ->. cbn [run]. by rewrite H. Qed.

Lemma run_and fuel acc pc k :
  nth_error prog pc = Some (mk_insn AND_K 0 0 k) ->
  run (S fuel) prog d acc pc = run fuel prog d (Z.land acc k) (S pc).
Proof. intros H. cbn [run]. rewrite H. cbn [code Z.eqb Pos.eqb]. by rewrite Nat.add_1_r. Qed.

Lemma run_ret fuel acc pc k :
  nth_error prog pc = Some (mk_insn RET_K 0 0 k) -> run (S fuel) prog d acc pc = Some k.
Proof. intros H. cbn [run]. by rewrite H. Qed.
End Steps.

(** One instruction at a known counter, then its test. *)
Ltac bpf_step := first
  [ erewrite run_ret by reflexivity
  | erewrite run_ld; [|reflexivity|eassumption]
  | erewrite run_and by reflexivity
  | erewrite run_jge by reflexivity
  | erewrite run_jeq by reflexivity ].

Ltac bpf_test :=
  match goal with
  | |- (if ?x =? ?v then _ else _) = _ =>
      destruct (Z.eqb_spec x v) as [->|?]; cbn [orb andb negb Z.eqb Pos.eqb]
  | |- (if ?b then _ else _) = _ => destruct b; cbn [orb andb negb]
  end.

Ltac bpf_walk := do 60 (try (bpf_step; try bpf_test)); try reflexivity.

Definition laid_out : list Insn := Eval vm_compute in program.

Lemma program_laid_out : program = laid_out.
Proof. vm_compute. reflexivity. Qed.

Lemma program_policy d : verdict d = Some (policy d).
Proof.
  destruct d as [n a i ar]. unfold verdict, policy, refused. rewrite elem_ladder, program_laid_out.
  let l := eval vm_compute in (map fst DENIED) in change (map fst DENIED) with l.
  cbn [nr arch existsb]. change (length laid_out) with 55%nat.
  unfold socket_refused, AUDIT_ARCH_X86_64, X32_SYSCALL_BIT, SYS_ioctl, SYS_socket, SYS_prctl,
    TIOCSTI, PR_SET_SECCOMP, AF_PACKET, AF_NETLINK, NETLINK_ROUTE, SOCK_RAW, SOCK_PACKET.
  set (d := mk_data n a i ar).
  assert (load d 16 = Some (low d 0)) by reflexivity.
  assert (load d 24 = Some (low d 1)) by reflexivity.
  assert (load d 32 = Some (low d 2)) by reflexivity.
  assert (load d 0 = Some n) by reflexivity.
  assert (load d 4 = Some a) by reflexivity.
  clearbody d. bpf_walk.
Qed.

Lemma refused_named d : refused d = true -> exists s, name (nr d) = Some s.
Proof.
  unfold refused, name. intros H. destruct (nr d =? SYS_ioctl); [eauto|].
  destruct (nr d =? SYS_socket); [eauto|]. destruct (nr d =? SYS_prctl); [eauto|].
  rewrite !andb_false_l, !orb_false_r, bool_decide_eq_true in H.
  apply list_elem_of_fmap in H as ([c s] & Hc & Hin). cbn in Hc. subst c.
  destruct (List.find (fun e => fst e =? nr d) DENIED) as [[c s']|] eqn:E; [eauto|].
  apply list_elem_of_In, (find_none _ _ E) in Hin. cbn in Hin. lia.
Qed.

Definition answers (calls : list (Z * Z)) : list answer := map (fun c => mk_answer (fst c) (- EPERM)) calls.

(** ** Properties *)

(** C5. The program the kernel runs is the policy: for every architecture,
    call number and arguments, the laid-out instructions (jump offsets resolved
    by the assembler) reach a verdict, and it kills a foreign or x32 call, hands
    over exactly the refused calls and allows all others. *)
Theorem program_decides_policy (d : seccomp_data) : verdict d = Some (policy d).
Proof. apply program_policy. Qed.

(** Every jump of the program is resolved to its own label: the offset
    is encodable and lands on the instruction marked with the label. *)
Theorem jumps_reach_their_labels (at_ : nat) (c k : Z) (t f label : To) :
  nth_error (items assembled) at_ = Some (Jump c k t f) -> label = t \/ label = f -> label <> Next ->
  (label, (at_ + 1 + Z.to_nat (offset assembled at_ label))%nat) ∈ labels assembled.
Proof.
  intros Hat Hl Hn.
  assert (Hall : forallb (fun i => match nth_error (items assembled) i with
      | Some (Jump _ _ t f) => (offset assembled i t <? 255) && (offset assembled i f <? 255)
      | _ => true end) (seq 0 (length (items assembled))) = true) by (vm_compute; reflexivity).
  rewrite forallb_forall in Hall.
  assert (Hlt : (at_ < length (items assembled))%nat) by (apply nth_error_Some; by rewrite Hat).
  specialize (Hall at_ ltac:(apply in_seq; lia)). rewrite Hat in Hall.
  destruct (offset_spec assembled at_ label Hn) as (target & Hin & <-); [|done].
  destruct Hl as [->| ->]; split_bools; lia.
Qed.

(** Whatever the filter hands over has a name for the log, so the
    [syscall_<nr>] fallback is never written. *)
Theorem notified_calls_are_named (d : seccomp_data) :
  verdict d = Some SECCOMP_RET_USER_NOTIF -> exists s, name (nr d) = Some s.
Proof.
  rewrite program_policy. unfold policy. destruct (_ || _); [by intros [=]|].
  destruct (refused d) eqn:E; [|by intros [=]]. intros _. by apply refused_named.
Qed.

(** The answering loop refuses every call it receives and records each
    once, in order, up to the event that ends it: with [EPERM] for each, with an
    orderly end only when the listener hangs up with nothing pending, and no end
    at all while the kernel keeps reporting calls or interruptions. *)
Theorem every_received_call_is_refused (waits : list wait) :
  let '(ans, denied, e) := serve_notifications waits in
  exists n, let calls := concat (map received (take n waits)) in
    ans = answers calls /\ denied = map snd calls /\
    match e with
    | Waiting => n = length waits
    | Orderly => exists r recv sent, nth_error waits n = Some (Polled r recv sent) /\
        has r POLLIN = false /\ has r POLLHUP = true
    | Broken errno => errno <> EINTR
    | BadEvents r => has r POLLIN = false /\ has r POLLHUP = false
    end.
Proof.
  induction waits as [|w waits IH]; [by exists 0%nat|]. cbn [serve_notifications].
  destruct w as [e|r recv sent].
  - destruct (Z.eqb_spec e EINTR); [|by exists 0%nat].
    destruct (serve_notifications waits) as [[a d] en]. destruct IH as (n & -> & -> & He).
    exists (S n). destruct en; cbn; auto.
  - destruct (has r POLLIN) eqn:Ein.
    + destruct recv as [[id c]|e]; cbn [answer_one].
      * destruct (serve_notifications waits) as [[a d] en]. destruct IH as (n & -> & -> & He).
        exists (S n). cbn. rewrite Ein. cbn. destruct en; auto.
      * destruct ((e =? EINTR) || (e =? ENOENT)) eqn:Ee; [|exists 0%nat; cbn; split_bools; split; [done|split; [done|lia]]].
        destruct (serve_notifications waits) as [[a d] en]. destruct IH as (n & -> & -> & He).
        exists (S n). destruct en; cbn; auto.
    + destruct (has r POLLHUP) eqn:Eh; [exists 0%nat; cbn; eauto 10|].
      destruct (has r (Z.lor POLLERR POLLNVAL)); [by exists 0%nat|].
      destruct (serve_notifications waits) as [[a d] en]. destruct IH as (n & -> & -> & He).
      exists (S n). cbn. destruct recv; rewrite ?Ein; cbn; destruct en; auto.
Qed.

(** ** The properties at concrete inputs *)

Lemma jumps_reach_their_labels_witness :
  (Kill, (1 + 1 + Z.to_nat (offset assembled 1 Kill))%nat) ∈ labels assembled.
Proof. by apply (jumps_reach_their_labels 1 JEQ_K AUDIT_ARCH_X86_64 Next Kill Kill); [reflexivity|right|]. Defined.

Lemma notified_calls_are_named_witness : exists s, name 16 = Some s.
Proof.
  apply (notified_calls_are_named (mk_data 16 AUDIT_ARCH_X86_64 0 [0; 21522; 0; 0; 0; 0])).
  vm_compute. reflexivity.
Defined.
