(* ===== verification/Session.v ===== *)
(** * Sessions

    Models crates/willie-core/src/session.rs: the session record, the launch
    spec, the event log and the fold that makes one out of the other.  An id
    is the [N] of its ULID; times are the strings the log carries; the JSON
    forms are in [Shapes]. *)

From S2P Require Import Prelude Text BTree Sandbox.

Local Open Scope string_scope.
Local Open Scope list_scope.

(** ** Data *)

Inductive SessionState : Type :=
| Creating | Running | Stopping
| Exited (code signal : option Z)
| Failed (code message remediation : string).

#[export] Instance SessionState_eq_dec : EqDecision SessionState.
Proof. solve_decision. Defined.

Definition is_live (s : SessionState) : bool := match s with Running | Stopping => true | _ => false end.

Definition is_terminal (s : SessionState) : bool :=
  match s with Exited _ _ | Failed _ _ _ => true | _ => false end.

Inductive SessionKind : Type := Agent | Shell.

#[export] Instance SessionKind_eq_dec : EqDecision SessionKind.
Proof. solve_decision. Defined.

Definition SHELL_HARNESS : string := "zsh".

Record Denied : Type := mk_denied {
  d_class : string; d_name : string; d_count : Z; first_at : string; last_at : string
}.

Record SandboxState : Type := mk_sandbox {
  applied : list string; unavailable : list string; denied : list Denied; degraded : list string
}.

Definition sandbox_default : SandboxState := mk_sandbox [] [] [] [].

Record Session : Type := mk_session {
  id : N;
  project_id : N;
  harness : string;
  workspace : string;
  kind : SessionKind;
  state : SessionState;
  created_at : string;
  started_at : option string;
  finished_at : option string;
  pid : option Z;
  clients : Z;
  resumed_from : option N;
  label : option string;
  title : option string;
  sandbox : SandboxState
}.

Record SessionSpec : Type := mk_spec {
  s_id : N;
  s_project_id : N;
  s_harness : string;
  s_workspace : string;
  socket : string;
  argv : list string;
  env : btree string string;
  s_created_at : string;
  willie_version : string;
  s_resumed_from : option N;
  s_kind : SessionKind;
  capabilities : CapabilitySet
}.

Inductive SessionEventKind : Type :=
| Created
| Started (pid : Z)
| SandboxApplied (mechanisms unavailable : list string)
| SandboxDenied (class name : string) (count : Z)
| SandboxDegraded (mechanism message : string)
| Renamed (label : option string)
| Attached (client : Z)
| Detached (client : Z)
| Resized (rows cols : Z)
| StopRequested (by_ : string)
| EvExited (code signal : option Z)
| EvFailed (code message : string).

Record SessionEvent : Type := mk_event { at_ : string; ekind : SessionEventKind }.

(** ** Updates in place *)

Definition set_state (st : SessionState) (s : Session) : Session :=
  mk_session (id s) (project_id s) (harness s) (workspace s) (kind s) st (created_at s) (started_at s)
    (finished_at s) (pid s) (clients s) (resumed_from s) (label s) (title s) (sandbox s).

Definition set_sandbox (b : SandboxState) (s : Session) : Session :=
  mk_session (id s) (project_id s) (harness s) (workspace s) (kind s) (state s) (created_at s) (started_at s)
    (finished_at s) (pid s) (clients s) (resumed_from s) (label s) (title s) b.

Definition set_clients (n : Z) (s : Session) : Session :=
  mk_session (id s) (project_id s) (harness s) (workspace s) (kind s) (state s) (created_at s) (started_at s)
    (finished_at s) (pid s) n (resumed_from s) (label s) (title s) (sandbox s).

Definition set_label (l : option string) (s : Session) : Session :=
  mk_session (id s) (project_id s) (harness s) (workspace s) (kind s) (state s) (created_at s) (started_at s)
    (finished_at s) (pid s) (clients s) (resumed_from s) l (title s) (sandbox s).

Definition set_title (t : option string) (s : Session) : Session :=
  mk_session (id s) (project_id s) (harness s) (workspace s) (kind s) (state s) (created_at s) (started_at s)
    (finished_at s) (pid s) (clients s) (resumed_from s) (label s) t (sandbox s).

Definition set_started (p : Z) (now : string) (s : Session) : Session :=
  mk_session (id s) (project_id s) (harness s) (workspace s) (kind s) Running (created_at s) (Some now)
    (finished_at s) (Some p) (clients s) (resumed_from s) (label s) (title s) (sandbox s).

Definition set_ended (st : SessionState) (now : string) (s : Session) : Session :=
  mk_session (id s) (project_id s) (harness s) (workspace s) (kind s) st (created_at s) (started_at s)
    (Some now) None 0 (resumed_from s) (label s) (title s) (sandbox s).

(** [iter_mut().find(..)] on the row of a class and name, a push otherwise. *)
Fixpoint deny (class name : string) (count : Z) (now : string) (l : list Denied) : list Denied :=
  match l with
  | [] => [mk_denied class name count now now]
  | d :: l =>
      if bool_decide (d_class d = class) && bool_decide (d_name d = name) then
        mk_denied (d_class d) (d_name d) (wrap64 (d_count d + count)) (first_at d) now :: l
      else d :: deny class name count now l
  end.

Definition remediation_for (code : string) : string :=
  if bool_decide (code = "project_not_ready") then
    "wait for the project to be ready, or fix its failure first"
  else if bool_decide (code = "harness_cannot_resume") then
    "open a fresh session instead; this harness cannot continue a conversation"
  else if bool_decide (code = "harness_not_installed") then "click Install on the Dashboard"
  else if bool_decide (code = "git_identity_missing") then
    "set `git config --global user.name` and `user.email` on Windows, then open the session again"
  else if bool_decide (code = "supervisor_spawn_failed") then
    "run `willie doctor`; reinstall the distribution if the supervisor binary is missing"
  else if bool_decide (code = "supervisor_timeout") then
    "open the session again; run `willie doctor` if it repeats"
  else if bool_decide (code = "harness_exec_failed") then
    "reinstall Claude Code, or remove the project and add it again"
  else if bool_decide (code = "sandbox_backend_missing") then
    "the image lacks the namespace helper: rebuild and reinstall the distribution (`just distro-build`, `just distro-install`)"
  else if bool_decide (code = "shell_unavailable") then
    "rebuild and reinstall the distribution (just distro-build, just distro-install)"
  else if bool_decide (code = "sandbox_apply_failed") then
    "the message names the path; the helper writes its own complaint to the session's terminal, so attach to see it, then run `willie doctor`"
  else if bool_decide (code = "sandbox_profile_invalid") then
    "the message names the path and where it leads; correct it in the project's Sandbox settings"
  else if bool_decide (code = "sandbox_capability_unsupported") then
    "the message names the capability; remove it from the project's Sandbox settings, this version cannot apply it"
  else if bool_decide (code = "session_not_found") then "refresh the Sessions screen"
  else if bool_decide (code = "session_not_running") then "nothing to stop; open a new session"
  else if bool_decide (code = "sessions_running") then "stop the project's sessions first"
  else if bool_decide (code = "supervisor_lost") then "open a new session"
  else if bool_decide (code = "harness_already_installed") then "nothing to install"
  else if bool_decide (code = "tool_not_installed") then "install it first, then update"
  else if bool_decide (code = "tool_busy") then "wait for the running install to finish"
  else if bool_decide (code = "install_failed") then
    "read the installer output, check the network, then try again"
  else "open the session again; run `willie doctor` if it repeats".

Definition blank (l : string) : bool := is_empty (trim l).

(** ** The fold *)

Definition apply_event (s : Session) (e : SessionEvent) : Session :=
  if is_terminal (state s) then s
  else
    let b := sandbox s in
    match ekind e with
    | Created | Resized _ _ => s
    | SandboxApplied ms un => set_sandbox (mk_sandbox ms un (denied b) (degraded b)) s
    | SandboxDenied class name count =>
        set_sandbox (mk_sandbox (applied b) (unavailable b) (deny class name count (at_ e) (denied b))
          (degraded b)) s
    | SandboxDegraded m _ =>
        if existsb (fun x => bool_decide (x = m)) (degraded b) then s
        else set_sandbox (mk_sandbox (applied b) (unavailable b) (denied b) (degraded b ++ [m])) s
    | Started p => set_started p (at_ e) s
    | Renamed l => set_label (match l with Some l => if blank l then None else Some l | None => None end) s
    | Attached _ => set_clients (wrap32 (clients s + 1)) s
    | Detached _ => set_clients (sat_sub (clients s) 1) s
    | StopRequested _ => if is_live (state s) then set_state Stopping s else s
    | EvExited code signal => set_ended (Exited code signal) (at_ e) s
    | EvFailed code message => set_ended (Failed code message (remediation_for code)) (at_ e) s
    end.

Definition initial (spec : SessionSpec) : Session :=
  mk_session (s_id spec) (s_project_id spec) (s_harness spec) (s_workspace spec) (s_kind spec) Creating
    (s_created_at spec) None None None 0 (s_resumed_from spec) None None sandbox_default.

Definition from_log (spec : SessionSpec) (events : list SessionEvent) : Session :=
  foldl apply_event (initial spec) events.

(** ** Specification *)

Definition ends (e : SessionEvent) : bool :=
  match ekind e with EvExited _ _ | EvFailed _ _ => true | _ => false end.

(** The part of a log that counts: up to and with its first end. *)
Fixpoint effective (events : list SessionEvent) : list SessionEvent :=
  match events with
  | [] => []
  | e :: events => if ends e then [e] else e :: effective events
  end.

Definition key (d : Denied) : string * string := (d_class d, d_name d).

Definition denials (k : string * string) (events : list SessionEvent) : Z :=
  foldr (fun e n => (match ekind e with
    | SandboxDenied c m count => if decide ((c, m) = k) then count else 0
    | _ => 0 end + n)%Z) 0%Z events.

Definition refused_count (k : string * string) (s : Session) : Z :=
  foldr (fun d n => ((if decide (key d = k) then d_count d else 0) + n)%Z) 0%Z (denied (sandbox s)).

Definition wf_session (s : Session) : Prop :=
  NoDup (map key (denied (sandbox s))) /\ NoDup (degraded (sandbox s)) /\
  (forall l, label s = Some l -> blank l = false) /\
  (0 <= clients s <= u32_max)%Z /\
  match state s with
  | Creating => pid s = None /\ started_at s = None /\ finished_at s = None
  | Running | Stopping => pid s <> None /\ started_at s <> None /\ finished_at s = None
  | Exited _ _ | Failed _ _ _ => pid s = None /\ clients s = 0%Z /\ finished_at s <> None
  end.

(** ** Lemmas *)

Lemma terminal_fixed s events : is_terminal (state s) = true -> foldl apply_event s events = s.
Proof.
  intros Ht. induction events as [|e events IH]; [done|]. cbn. unfold apply_event at 2. by rewrite Ht.
Qed.

Lemma deny_keys c n k now l : map key (deny c n k now l) =
  if decide ((c, n) ∈ map key l) then map key l else map key l ++ [(c, n)].
Proof.
  induction l as [|d l IH]; cbn [deny map app]; [by rewrite decide_False by apply not_elem_of_nil|].
  destruct (bool_decide (d_class d = c)) eqn:E1, (bool_decide (d_name d = n)) eqn:E2; cbn [andb map];
    rewrite ?bool_decide_eq_true, ?bool_decide_eq_false in *.
  { rewrite decide_True; [done|]. unfold key at 1. cbn. rewrite elem_of_cons. left. unfold key. by subst. }
  all: rewrite IH; destruct (decide ((c, n) ∈ map key l)) as [Hin|Hin];
    [rewrite decide_True by (by right); done|];
    rewrite decide_False; [done|]; rewrite elem_of_cons; unfold key at 1; naive_solver.
Qed.

Lemma deny_nodup c n k now l : NoDup (map key l) -> NoDup (map key (deny c n k now l)).
Proof.
  intros H. rewrite deny_keys. destruct (decide _) as [|Hin]; [done|].
  apply NoDup_app. split; [done|]. split; [|apply NoDup_singleton].
  intros x Hx. rewrite list_elem_of_singleton. by intros ->.
Qed.

Lemma count_absent q (l : list Denied) : q ∉ map key l ->
  foldr (fun d m => ((if decide (key d = q) then d_count d else 0) + m)%Z) 0%Z l = 0%Z.
Proof.
  induction l as [|d l IH]; [done|]. cbn. rewrite not_elem_of_cons. intros [Hd Hl].
  rewrite decide_False by congruence. by rewrite IH.
Qed.

Lemma deny_count c n k now q l : NoDup (map key l) ->
  (foldr (fun d m => (if decide (key d = q) then d_count d else 0) + m) 0 (deny c n k now l)
     mod 18446744073709551616
   = (foldr (fun d m => (if decide (key d = q) then d_count d else 0) + m) 0 l
      + (if decide ((c, n) = q) then k else 0)) mod 18446744073709551616)%Z.
Proof.
  induction l as [|d l IH]; cbn [deny foldr map]; intros Hn.
  - unfold key. cbn [d_class d_name d_count]. f_equal. lia.
  - apply NoDup_cons in Hn as [Hd Hn]. specialize (IH Hn).
    destruct (bool_decide (d_class d = c) && bool_decide (d_name d = n)) eqn:E; cbn [foldr].
    + split_bools. rewrite !bool_decide_eq_true in *. subst.
      assert (Hk : forall x y z, key (mk_denied (d_class d) (d_name d) x y z) = key d) by done.
      rewrite Hk. cbn [d_count]. change (d_class d, d_name d) with (key d).
      destruct (decide (key d = q)) as [Hq|Hne]; [|f_equal; lia].
      unfold wrap64. rewrite Zplus_mod_idemp_l. f_equal. lia.
    + rewrite Zplus_mod, IH, <- Zplus_mod. f_equal. lia.
Qed.

Lemma set_label_blank l0 l : (match l0 with Some l => if blank l then None else Some l | None => None end) = Some l ->
  blank l = false.
Proof. destruct l0 as [l'|]; [|done]. destruct (blank l') eqn:E; [done|]. by intros [= <-]. Qed.

Lemma apply_event_wf s e : wf_session s -> wf_session (apply_event s e).
Proof.
  intros Hw. pose proof Hw as (Hd & Hg & Hl & Hc & Hs). unfold apply_event. destruct (is_terminal (state s)) eqn:Et; [done|].
  destruct (ekind e) eqn:Ek; try done; unfold wf_session; cbn.
  - repeat split; try done; destruct (state s); naive_solver.
  - split; [by apply deny_nodup|]. done.
  - destruct (existsb _ _) eqn:Ex; [done|]. cbn. repeat split; try done; try lia.
    apply NoDup_app. split; [done|]. split; [|apply NoDup_singleton]. intros x Hx.
    rewrite list_elem_of_singleton. intros ->. apply list_elem_of_In in Hx.
    assert (existsb (fun x => bool_decide (x = mechanism)) (degraded (sandbox s)) = true); [|congruence].
    apply existsb_exists. exists mechanism. by rewrite bool_decide_true.
  - repeat split; try done; try lia. intros l H. by eapply set_label_blank.
  - unfold wrap32, u32_max in *. split; [done|]. split; [done|]. split; [done|]. split; [lia_div|].
    by destruct (state s).
  - unfold sat_sub, u32_max in *. split; [done|]. split; [done|]. split; [done|]. split; [lia|].
    by destruct (state s).
  - destruct (is_live (state s)) eqn:El; [|done]. cbn. split; [done|]. split; [done|]. split; [done|]. split; [done|].
    by destruct (state s).
Qed.

Lemma apply_event_terminal s e :
  is_terminal (state (apply_event s e)) = is_terminal (state s) || ends e.
Proof.
  unfold apply_event, ends. destruct (is_terminal (state s)) eqn:E; [done|].
  destruct (ekind e); cbn; rewrite ?E; try done.
  - by destruct (existsb _ _).
  - destruct (is_live (state s)); [done|by rewrite E].
Qed.

Lemma fold_terminal events : forall s,
  is_terminal (state (foldl apply_event s events)) = is_terminal (state s) || existsb ends events.
Proof.
  induction events as [|e events IH]; intros s; cbn; [by rewrite orb_false_r|].
  by rewrite IH, apply_event_terminal, orb_assoc.
Qed.

Lemma fold_effective events : forall s, foldl apply_event s events = foldl apply_event s (effective events).
Proof.
  induction events as [|e events IH]; intros s; [done|]. cbn. destruct (ends e) eqn:E; cbn; [|apply IH].
  apply terminal_fixed. by rewrite apply_event_terminal, E, orb_true_r.
Qed.

Lemma apply_event_denied s e k : wf_session s -> is_terminal (state s) = false ->
  (refused_count k (apply_event s e) mod 18446744073709551616
   = (refused_count k s + denials k [e]) mod 18446744073709551616)%Z.
Proof.
  intros (Hd & _) Ht. unfold apply_event. rewrite Ht. unfold denials. cbn [foldr].
  destruct (ekind e); rewrite ?Z.add_0_r; try done.
  - unfold refused_count. cbn [sandbox denied set_sandbox]. apply deny_count, Hd.
  - by destruct (existsb _ _).
  - by destruct (is_live (state s)).
Qed.

Lemma denials_cons k e events : denials k (e :: events) = (denials k [e] + denials k events)%Z.
Proof. unfold denials. cbn. lia. Qed.

Lemma denials_effective events : forall s k, wf_session s -> is_terminal (state s) = false ->
  (refused_count k (foldl apply_event s events) mod 18446744073709551616
   = (refused_count k s + denials k (effective events)) mod 18446744073709551616)%Z.
Proof.
  induction events as [|e events IH]; intros s k Hw Ht; cbn [foldl effective]; [f_equal; cbn; lia|].
  destruct (ends e) eqn:E.
  - rewrite terminal_fixed by by rewrite apply_event_terminal, E, orb_true_r. by apply apply_event_denied.
  - rewrite IH; [|by apply apply_event_wf|by rewrite apply_event_terminal, Ht, E].
    rewrite denials_cons, Z.add_assoc, Zplus_mod, apply_event_denied, <- Zplus_mod by done. done.
Qed.

Lemma initial_wf spec : wf_session (initial spec).
Proof. repeat split; try done; constructor. Qed.

#[export] Hint Resolve initial_wf apply_event_wf : willie.

Lemma fold_wf events : forall s, wf_session s -> wf_session (foldl apply_event s events).
Proof. induction events; cbn; auto with willie. Qed.

(** ** Properties *)

(** C21. Whatever a log holds, in any order, it describes a coherent session:
    a process and a start exactly while it is live, an end time and no process
    or client once it is over, one row per refused (class, name), each degraded
    mechanism once, and never a blank label. *)
Theorem log_describes_coherent_session (spec : SessionSpec) (events : list SessionEvent) :
  wf_session (from_log spec events).
Proof. apply fold_wf, initial_wf. Qed.

(** A log ends once: the session is over exactly when the log holds an
    end, what follows the first end changes nothing, and the spec's identity is
    the session's. *)
Theorem log_ends_once (spec : SessionSpec) (events : list SessionEvent) :
  is_terminal (state (from_log spec events)) = existsb ends events /\
  from_log spec events = from_log spec (effective events) /\
  id (from_log spec events) = s_id spec /\ project_id (from_log spec events) = s_project_id spec /\
  kind (from_log spec events) = s_kind spec /\ resumed_from (from_log spec events) = s_resumed_from spec.
Proof.
  split; [apply fold_terminal|]. split; [apply fold_effective|].
  assert (H : forall s, id (foldl apply_event s events) = id s /\
    project_id (foldl apply_event s events) = project_id s /\ kind (foldl apply_event s events) = kind s /\
    resumed_from (foldl apply_event s events) = resumed_from s); [|apply (H (initial spec))].
  induction events as [|e events IH]; intros s; [done|]. cbn. destruct (IH (apply_event s e)) as (-> & -> & -> & ->).
  unfold apply_event. destruct (is_terminal _); [done|]. by destruct (ekind e); repeat case_match.
Qed.

(** Every refusal of the log is in the session's count of its class and
    name, modulo the width of the counter. *)
Theorem denials_accumulate (spec : SessionSpec) (events : list SessionEvent) (k : string * string) :
  (refused_count k (from_log spec events) mod 18446744073709551616
   = denials k (effective events) mod 18446744073709551616)%Z.
Proof. unfold from_log. by rewrite denials_effective by auto with willie. Qed.

Example stopped_session :
  state (from_log
    (mk_spec 1 2 "claude-code" "/w" "s" [] [] "1" "0" None Agent default_set)
    [mk_event "1" Created; mk_event "2" (Started 7); mk_event "3" (StopRequested "app");
     mk_event "4" (EvExited (Some 0%Z) None); mk_event "5" (Started 8)]) = Exited (Some 0%Z) None.
Proof. reflexivity. Qed.
