(* ===== verification/Project.v ===== *)
(** * Projects and identifiers

    Models crates/willie-core/src/project.rs (the record, slugs, the identity of
    a Windows checkout), crates/willie-core/src/paths.rs (drive paths) and
    crates/willie-core/src/id.rs (prefixed ids).  The ULID's text form belongs
    to the ulid crate and is a parameter, and so is Unicode lower-casing. *)

From S2P Require Import Prelude Text Sandbox.

Local Open Scope string_scope.
Local Open Scope list_scope.

(** ** Data *)

Inductive ProjectState : Type :=
| Preparing | Ready
| ProjFailed (code message remediation : string).

#[export] Instance ProjectState_eq_dec : EqDecision ProjectState.
Proof. solve_decision. Defined.

Record SandboxProblem : Type := mk_problem { sp_code : string; sp_message : string; sp_remediation : string }.

#[export] Instance SandboxProblem_eq_dec : EqDecision SandboxProblem.
Proof. solve_decision. Defined.

Record Project : Type := mk_project {
  id : N;
  name : string;
  slug : string;
  source : string;
  workspace : string;
  branch : string;
  state : ProjectState;
  source_present : bool;
  created_at : string;
  sandbox : SandboxProfile;
  sandbox_problem : option SandboxProblem
}.

#[export] Instance Project_eq_dec : EqDecision Project.
Proof. solve_decision. Defined.

(** ** Slugs *)

(** Latin letters with accents, by code point. *)
Definition fold_ascii (ch : Z) : Z :=
  let among l := bool_decide (ch ∈ l) in
  (if among [225; 224; 226; 227; 228; 193; 192; 194; 195; 196] then 97
   else if among [233; 232; 234; 235; 201; 200; 202; 203] then 101
   else if among [237; 236; 238; 239; 205; 204; 206; 207] then 105
   else if among [243; 242; 244; 245; 246; 211; 210; 212; 213; 214] then 111
   else if among [250; 249; 251; 252; 218; 217; 219; 220] then 117
   else if among [231; 199] then 99
   else if among [241; 209] then 110
   else ch)%Z.

Definition alphanumeric (c : Z) : bool := in_range 48 57 c || in_range 65 90 c || in_range 97 122 c.

(** [out.push(mapped.to_ascii_lowercase())]. *)
Definition lower_byte (c : Z) : ascii := to_ascii_lowercase (ascii_of_N (Z.to_N c)).

Definition kebab_step (st : string * bool) (ch : Z) : string * bool :=
  let '(out, dash) := st in
  let mapped := fold_ascii ch in
  if alphanumeric mapped then (out +:+ String (lower_byte mapped) EmptyString, false)
  else if negb (is_empty out) && negb dash then (out +:+ "-", true)
  else (out, dash).

Definition kebab_ascii (s : string) : string :=
  let '(out, _) := foldl kebab_step (EmptyString, false) (chars s) in trim_matches "-" out.

Definition candidate (base : string) (n : N) : string := base +:+ "-" +:+ pretty n.

(** The code's [loop]; [n] is a [u32]. *)
Fixpoint slug_loop (fuel : nat) (base : string) (taken : list string) (n : N) : option string :=
  match fuel with
  | O => None
  | S fuel =>
      if bool_decide (candidate base n ∈ taken) then
        slug_loop fuel base taken ((n + 1) mod 4294967296)
      else Some (candidate base n)
  end.

Definition slug_for (folder_name : string) (taken : list string) : option string :=
  let base := kebab_ascii folder_name in
  let base := if is_empty base then "project" else base in
  if negb (bool_decide (base ∈ taken)) then Some base
  else slug_loop (S (length taken)) base taken 2.

(** ** Checkout identity and drive paths *)

Definition backslash : ascii := "\".

Section SourceKey.
Context (to_lowercase : string -> string).

Definition source_key (windows_path : string) : string :=
  to_lowercase (trim_end_matches "/" (replace_char backslash "/" windows_path)).
End SourceKey.

Definition windows_to_drvfs (path : string) : option string :=
  match path with
  | String a (String b (String sep rest)) =>
      if negb (bool_decide (b = ":"%char)) then None
      else
        let drive := to_ascii_lowercase a in
        if negb (is_ascii_alphabetic drive) then None
        else if negb (bool_decide (sep = backslash)) && negb (bool_decide (sep = "/"%char)) then None
        else Some ("/mnt/" +:+ String drive (replace_char backslash "/" (String sep rest)))
  | _ => None
  end.

(** ** Identifiers *)

Inductive Kind : Type := KProject | KSession | KTool | KProfile | KJob.

#[export] Instance Kind_eq_dec : EqDecision Kind.
Proof. solve_decision. Defined.

Definition PREFIX (k : Kind) : string :=
  match k with
  | KProject => "proj" | KSession => "sess" | KTool => "tool" | KProfile => "prof" | KJob => "job"
  end.

Inductive ParseIdError : Type :=
| WrongPrefix (expected input : string)
| InvalidUlid (input : string).

Section Ids.
Context (ulid_to_string : N -> string) (ulid_from_string : string -> option N).

Definition id_display (k : Kind) (u : N) : string := PREFIX k +:+ "_" +:+ ulid_to_string u.

Definition id_from_str (k : Kind) (s : string) : result N ParseIdError :=
  match (match strip_prefix (PREFIX k) s with Some r => strip_prefix "_" r | None => None end) with
  | None => Err (WrongPrefix (PREFIX k) s)
  | Some rest =>
      match ulid_from_string rest with
      | Some u => Ok u
      | None => Err (InvalidUlid s)
      end
  end.
End Ids.

(** ** Specification: a slug is dash-separated runs of letters and digits *)

Definition slug_char (a : ascii) : bool := is_ascii_digit a || is_ascii_lowercase a.
Definition slug_part (s : string) : bool := negb (is_empty s) && str_forallb slug_char s.

Definition is_slug (s : string) : Prop :=
  exists parts, parts <> [] /\ Forall (fun p => slug_part p = true) parts /\ s = join "-" parts.

(** ** Lemmas *)

Lemma str_forallb_app p a b : str_forallb p (a +:+ b) = str_forallb p a && str_forallb p b.
Proof.
  induction a as [|x a IH]; [done|]. rewrite str_app_cons. cbn. by rewrite IH, andb_assoc.
Qed.

Lemma join_snoc sep l x : l <> [] -> join sep (l ++ [x]) = join sep l +:+ sep +:+ x.
Proof.
  intros Hl. induction l as [|y l IH]; [done|]. destruct l as [|z l]; [done|].
  change (join sep ((y :: z :: l) ++ [x])) with (y +:+ sep +:+ join sep ((z :: l) ++ [x])).
  rewrite IH by done. change (join sep (y :: z :: l)) with (y +:+ sep +:+ join sep (z :: l)).
  by rewrite <- !str_app_assoc.
Qed.

Lemma join_extend sep l x t : join sep (l ++ [x]) +:+ t = join sep (l ++ [x +:+ t]).
Proof.
  destruct l as [|y l]; [done|]. rewrite !join_snoc by done. by rewrite <- !str_app_assoc.
Qed.

Lemma alnum_lower c : alphanumeric c = true -> slug_char (lower_byte c) = true.
Proof.
  unfold alphanumeric. intros H.
  assert (Hc : (48 <= c <= 57 \/ 65 <= c <= 90 \/ 97 <= c <= 122)%Z) by (unfold in_range in H; lia).
  clear H. assert (Hall : forallb (fun n => if alphanumeric (Z.of_nat n) then slug_char (lower_byte (Z.of_nat n)) else true)
    (seq 0 123) = true) by (vm_compute; reflexivity).
  rewrite forallb_forall in Hall. specialize (Hall (Z.to_nat c) ltac:(apply in_seq; lia)).
  rewrite Z2Nat.id in Hall by lia. destruct (alphanumeric c) eqn:E; [done|].
  unfold alphanumeric, in_range in E. lia.
Qed.

(** What the loop has pushed: nothing, parts, or parts and one dash. *)
Definition kebab_inv (st : string * bool) : Prop :=
  st = (EmptyString, false) \/
  exists parts, parts <> [] /\ Forall (fun p => slug_part p = true) parts /\
    fst st = (if snd st then join "-" parts +:+ "-" else join "-" parts).

Lemma slug_part_snoc p c : str_forallb slug_char p = true -> slug_char c = true ->
  slug_part (p +:+ String c EmptyString) = true.
Proof.
  intros Hp Hc. unfold slug_part. rewrite str_forallb_app, Hp. cbn. rewrite Hc.
  destruct p; [done|]. by rewrite str_app_cons.
Qed.

Lemma kebab_step_inv st ch : kebab_inv st -> kebab_inv (kebab_step st ch).
Proof.
  destruct st as [out dash]. unfold kebab_step. intros Hi.
  destruct (alphanumeric (fold_ascii ch)) eqn:Ea.
  - pose proof (alnum_lower _ Ea) as Hc. right. destruct Hi as [[= -> ->]|(parts & Hn & Hp & Ho)].
    + exists [String (lower_byte (fold_ascii ch)) EmptyString]. split; [done|]. split; [|done].
      constructor; [|done]. by apply (slug_part_snoc EmptyString).
    + cbn in Ho. subst out. destruct dash.
      * exists (parts ++ [String (lower_byte (fold_ascii ch)) EmptyString]).
        split; [by destruct parts|]. split.
        { apply Forall_app. split; [done|]. constructor; [|done]. by apply (slug_part_snoc EmptyString). }
        cbn. by rewrite join_snoc, str_app_assoc.
      * destruct (exists_last Hn) as (ps & p & ->). apply Forall_app in Hp as [Hps Hp].
        apply Forall_cons in Hp as [Hp _]. exists (ps ++ [p +:+ String (lower_byte (fold_ascii ch)) EmptyString]).
        split; [by destruct ps|]. split; [|by apply join_extend].
        apply Forall_app. split; [done|]. constructor; [|done]. unfold slug_part in Hp. split_bools.
        by apply slug_part_snoc.
  - destruct (negb (is_empty out) && negb dash) eqn:Ed; [|done]. split_bools.
    destruct Hi as [[= -> ->]|(parts & Hn & Hp & Ho)]; [done|]. right. exists parts.
    destruct dash; [done|]. cbn in Ho. subst. done.
Qed.

Lemma trim_start_slug parts t : parts <> [] -> Forall (fun p => slug_part p = true) parts ->
  trim_start_matches "-" (join "-" parts +:+ t) = join "-" parts +:+ t.
Proof.
  intros Hn Hp. destruct parts as [|p ps]; [done|]. apply Forall_cons in Hp as [Hp _].
  destruct p as [|a p]; [done|]. unfold slug_part in Hp. cbn in Hp. split_bools.
  assert (exists r, join "-" (String a p :: ps) +:+ t = String a r) as [r ->].
  { destruct ps; [eexists; apply str_app_cons|]. eexists. cbn [join]. by rewrite !str_app_cons. }
  cbn. rewrite decide_False; [done|]. intros ->. done.
Qed.

Lemma trim_end_snoc s a c : a <> c -> trim_end_matches c (s +:+ String a EmptyString) = s +:+ String a EmptyString.
Proof.
  intros Ha. induction s as [|x s IH]; [rewrite str_app_nil_l; cbn; by rewrite decide_False|].
  rewrite str_app_cons. cbn. rewrite IH. by destruct s.
Qed.

Lemma trim_end_dropped s a c : a <> c ->
  trim_end_matches c ((s +:+ String a EmptyString) +:+ String c EmptyString) = s +:+ String a EmptyString.
Proof.
  intros Ha. induction s as [|x s IH].
  - rewrite str_app_nil_l, str_app_cons, str_app_nil_l. cbn. rewrite decide_True by done. by rewrite decide_False.
  - rewrite !str_app_cons. cbn. rewrite IH. by destruct s.
Qed.

Lemma slug_last parts : parts <> [] -> Forall (fun p => slug_part p = true) parts ->
  exists s a, join "-" parts = s +:+ String a EmptyString /\ a <> "-"%char.
Proof.
  intros Hn Hp. destruct (exists_last Hn) as (ps & p & ->). apply Forall_app in Hp as [_ Hp].
  apply Forall_cons in Hp as [Hp _]. unfold slug_part in Hp. split_bools.
  assert (Hs : p <> EmptyString -> exists s a, p = s +:+ String a EmptyString /\ a <> "-"%char).
  { match goal with H : str_forallb _ _ = true |- _ => revert H end. clear. induction p as [|a p IH]; [done|].
    cbn. intros [Ha Hp]%andb_prop _. destruct p as [|b p].
    - exists EmptyString, a. split; [done|]. by intros ->.
    - destruct (IH Hp) as (s & x & -> & Hx); [done|]. exists (String a s), x. by rewrite str_app_cons. }
  destruct Hs as (s & a & -> & Ha); [by destruct p|].
  destruct ps as [|q ps]; [by exists s, a|].
  exists (join "-" (q :: ps) +:+ "-" +:+ s), a. split; [|done]. rewrite join_snoc by done.
  by rewrite <- !str_app_assoc.
Qed.

Lemma kebab_slug s : kebab_ascii s = EmptyString \/ is_slug (kebab_ascii s).
Proof.
  unfold kebab_ascii. assert (Hi : kebab_inv (foldl kebab_step (EmptyString, false) (chars s))).
  { assert (forall l st, kebab_inv st -> kebab_inv (foldl kebab_step st l)) as H.
    { induction l; cbn; auto using kebab_step_inv. }
    apply H. by left. }
  destruct (foldl _ _ _) as [out dash]. destruct Hi as [[= -> ->]|(parts & Hn & Hp & Ho)]; [by left|right].
  exists parts. split; [done|]. split; [done|]. cbn in Ho. subst out. unfold trim_matches.
  destruct (slug_last parts Hn Hp) as (t & a & Hl & Ha). destruct dash.
  - rewrite trim_start_slug, Hl by done. by apply trim_end_dropped.
  - rewrite <- (str_app_nil (join "-" parts)) at 1. rewrite trim_start_slug, str_app_nil, Hl by done.
    by apply trim_end_snoc.
Qed.

Lemma digit_slug x : (x < 10)%N -> slug_char (pretty_N_char x) = true.
Proof.
  intros H. assert (Hall : forallb (fun n => slug_char (pretty_N_char (N.of_nat n))) (seq 0 10) = true)
    by reflexivity.
  rewrite forallb_forall in Hall. specialize (Hall (N.to_nat x) ltac:(apply in_seq; lia)).
  by rewrite N2Nat.id in Hall.
Qed.

Lemma pretty_go_slug x : forall s, str_forallb slug_char s = true -> (0 < x)%N ->
  slug_part (pretty_N_go x s) = true.
Proof.
  induction (N.lt_wf_0 x) as [x _ IH]. intros s Hs Hx. rewrite pretty_N_go_step by done.
  assert (Hs' : str_forallb slug_char (String (pretty_N_char (x mod 10)) s) = true).
  { cbn. rewrite Hs, andb_true_r. apply digit_slug. by apply N.mod_lt. }
  destruct (decide (x < 10)%N) as [Hl|Hl].
  - rewrite N.div_small by done. rewrite pretty_N_go_0. unfold slug_part. by rewrite Hs'.
  - apply IH; [by apply N.div_lt|done|]. apply N.div_str_pos. lia.
Qed.

Lemma pretty_slug (n : N) : slug_part (pretty n) = true.
Proof.
  unfold pretty, pretty_N. case_decide; [done|]. apply pretty_go_slug; [done|lia].
Qed.

Lemma candidate_slug base n : is_slug base -> is_slug (candidate base n).
Proof.
  intros (parts & Hn & Hp & ->). exists (parts ++ [pretty n]). split; [by destruct parts|].
  split; [apply Forall_app; split; [done|]; constructor; [apply pretty_slug|done]|].
  unfold candidate. by rewrite join_snoc.
Qed.

Lemma candidate_inj base n m : candidate base n = candidate base m -> n = m.
Proof.
  unfold candidate. intros H. apply str_app_inj, str_app_inj in H. by apply (inj pretty).
Qed.

(** The loop either finds the first free number or has seen them all taken. *)
Lemma slug_loop_spec fuel base taken : forall n, (n + N.of_nat fuel <= 4294967296)%N ->
  match slug_loop fuel base taken n with
  | Some s => exists m, s = candidate base m /\ s ∉ taken /\ (n <= m)%N /\
      forall i, (n <= i < m)%N -> candidate base i ∈ taken
  | None => forall i, (n <= i < n + N.of_nat fuel)%N -> candidate base i ∈ taken
  end.
Proof.
  induction fuel as [|fuel IH]; intros n Hn; cbn [slug_loop]; [lia|].
  case_bool_decide as Hin; [|exists n; split; [done|]; split; [done|]; split; lia].
  destruct (decide (fuel = 0)) as [->|Hf].
  { cbn. intros i Hi. by replace i with n by lia. }
  rewrite N.mod_small by lia. specialize (IH (n + 1)%N ltac:(lia)).
  destruct (slug_loop _ _ _ _) as [s|].
  - destruct IH as (m & Hs & Hm & Hle & Hall). exists m. split; [done|]. split; [done|]. split; [lia|].
    intros i Hi. destruct (decide (i = n)) as [->|]; [done|]. apply Hall. lia.
  - intros i Hi. destruct (decide (i = n)) as [->|]; [done|]. apply IH. lia.
Qed.

Lemma slug_loop_total base taken : (N.of_nat (length taken) < 4294967290)%N ->
  slug_loop (S (length taken)) base taken 2 <> None.
Proof.
  intros Hl Hnone. pose proof (slug_loop_spec (S (length taken)) base taken 2 ltac:(lia)) as H.
  rewrite Hnone in H.
  pose (cs := map (fun i => candidate base (N.of_nat i)) (seq 2 (S (length taken)))).
  assert (Hnd : NoDup cs).
  { apply NoDup_fmap; [|apply NoDup_seq]. intros i j Hij. apply candidate_inj in Hij. lia. }
  assert (Hsub : cs ⊆ taken).
  { intros c Hc. apply list_elem_of_fmap in Hc as (i & -> & Hi). apply elem_of_seq in Hi. apply H. lia. }
  apply NoDup_submseteq in Hsub; [|done]. apply submseteq_length in Hsub.
  unfold cs in Hsub. rewrite length_map, length_seq in Hsub. lia.
Qed.

(** ** Properties *)

(** A project always gets a slug, and a good one: with fewer registered
    slugs than a [u32] counts, the search ends with a slug of dash-separated
    lower-case letters and digits that no other project has; it is the folder's
    own when free, and otherwise carries the first free number from 2. *)
Theorem slug_for_fresh (folder_name : string) (taken : list string) :
  (N.of_nat (length taken) < 4294967290)%N ->
  let base := if is_empty (kebab_ascii folder_name) then "project" else kebab_ascii folder_name in
  exists s, slug_for folder_name taken = Some s /\ is_slug s /\ s ∉ taken /\
    (base ∉ taken -> s = base) /\
    (base ∈ taken -> exists m, s = candidate base m /\ forall i, (2 <= i < m)%N -> candidate base i ∈ taken).
Proof.
  intros Hl base.
  assert (Hb : is_slug base).
  { subst base. destruct (kebab_slug folder_name) as [->|Hs].
    - exists ["project"]. split; [done|]. split; [by repeat constructor|done].
    - destruct (is_empty _) eqn:E; [|done]. exists ["project"]. split; [done|]. split; [by repeat constructor|done]. }
  unfold slug_for. fold base. case_bool_decide as Hin; cbn [negb].
  - pose proof (slug_loop_total base taken Hl) as Ht.
    pose proof (slug_loop_spec (S (length taken)) base taken 2 ltac:(lia)) as Hs.
    destruct (slug_loop _ _ _ _) as [s|]; [|done]. destruct Hs as (m & -> & Hm & _ & Hall).
    eexists. split; [done|]. split; [by apply candidate_slug|]. split; [done|]. split; [done|]. eauto.
  - exists base. by repeat split.
Qed.

(** Only a drive path maps to a mount, and it maps under that drive: the
    result is [/mnt/], the lower-case letter, and the rest with every separator
    a slash; anything relative, UNC or without a letter has none. *)
Theorem windows_to_drvfs_spec (path : string) :
  match windows_to_drvfs path with
  | Some mount => exists drive sep rest,
      path = String drive (String ":" (String sep rest)) /\ is_ascii_alphabetic drive = true /\
      (sep = backslash \/ sep = "/"%char) /\ contains_char backslash mount = false /\
      mount = "/mnt/" +:+ String (to_ascii_lowercase drive) (String "/" (replace_char backslash "/" rest))
  | None => forall drive sep rest,
      path = String drive (String ":" (String sep rest)) -> is_ascii_alphabetic drive = true ->
      sep <> backslash /\ sep <> "/"%char
  end.
Proof.
  assert (Hlow : forall a, is_ascii_alphabetic (to_ascii_lowercase a) = is_ascii_alphabetic a /\
    (to_ascii_lowercase a = backslash -> a = backslash)).
  { intros a. destruct a as [[] [] [] [] [] [] [] []]; by vm_compute. }
  assert (Hrep : forall r, contains_char backslash (replace_char backslash "/" r) = false).
  { unfold replace_char. induction r as [|x r IH]; [done|]. cbn.
    destruct (decide (x = backslash)); [exact IH|by rewrite decide_False]. }
  unfold windows_to_drvfs. destruct path as [|a [|b [|sep rest]]]; try (intros drive s r [=]).
  destruct (bool_decide (b = ":"%char)) eqn:Eb; cbn [negb].
  2:{ rewrite bool_decide_eq_false in Eb. intros drive s r [=]. by subst. }
  rewrite bool_decide_eq_true in Eb. subst b. rewrite (proj1 (Hlow a)).
  destruct (is_ascii_alphabetic a) eqn:Ea; cbn [negb].
  2:{ intros drive s r [=] Hd. subst. congruence. }
  destruct (negb _ && negb _) eqn:Es.
  { split_bools. rewrite !bool_decide_eq_false in *. intros drive s r [=] _. by subst. }
  assert (Hsep : sep = backslash \/ sep = "/"%char).
  { apply andb_false_iff in Es as [Es|Es]; apply negb_false_iff, bool_decide_eq_true in Es; auto. }
  exists a, sep, rest. split; [done|]. split; [done|]. split; [done|].
  assert (Hr : replace_char backslash "/" (String sep rest) = String "/" (replace_char backslash "/" rest)).
  { by destruct Hsep as [->| ->]. }
  rewrite Hr. split; [|done]. rewrite !str_app_cons, str_app_nil_l, !contains_char_false_cons, Hrep.
  repeat split; try done. intros Hx. apply (proj2 (Hlow a)) in Hx. by subst.
Qed.

(** The same checkout has one identity: separators and a trailing one do
    not matter, whatever the lower-casing of the platform. *)
Theorem source_key_separators (lower : string -> string) (path : string) :
  source_key lower (replace_char backslash "/" path) = source_key lower path /\
  source_key lower (path +:+ String backslash EmptyString) = source_key lower path /\
  source_key lower (path +:+ "/") = source_key lower path.
Proof.
  unfold source_key.
  assert (Hidem : forall s, replace_char backslash "/" (replace_char backslash "/" s) = replace_char backslash "/" s).
  { intros s. unfold replace_char. induction s as [|a s IH]; [done|]. cbn. rewrite IH. f_equal.
    destruct (decide (a = backslash)); by rewrite ?decide_False. }
  assert (Hsnoc : forall s, trim_end_matches "/" (s +:+ "/") = trim_end_matches "/" s).
  { induction s as [|a s IH]; [done|]. rewrite str_app_cons. cbn. by rewrite IH. }
  assert (Happ : forall s t, replace_char backslash "/" (s +:+ t)
    = replace_char backslash "/" s +:+ replace_char backslash "/" t).
  { unfold replace_char. intros s t. induction s as [|a s IH]; [done|]. rewrite str_app_cons. cbn.
    by rewrite IH, str_app_cons. }
  by rewrite Hidem, !Happ, !Hsnoc.
Qed.

Lemma prefix_unique k k' u : strip_prefix (PREFIX k) (PREFIX k' +:+ u) = None \/ k = k'.
Proof. destruct k, k'; first [by right|left; reflexivity]. Qed.

(** Over any ULID text form that reads back, an id survives its text and
    only in its own family: another family's id is refused by its prefix, and
    no two ids share a text. *)
Theorem id_roundtrip (to_string : N -> string) (from_string : string -> option N) (k k' : Kind) (u u' : N) :
  (forall u, (u < 2 ^ 128)%N -> from_string (to_string u) = Some u) -> (u < 2 ^ 128)%N -> (u' < 2 ^ 128)%N ->
  id_from_str from_string k (id_display to_string k u) = Ok u /\
  (k <> k' -> id_from_str from_string k (id_display to_string k' u)
              = Err (WrongPrefix (PREFIX k) (id_display to_string k' u))) /\
  (id_display to_string k u = id_display to_string k' u' -> k = k' /\ u = u').
Proof.
  intros Hrt Hu Hu'.
  assert (Hself : forall k u, (u < 2 ^ 128)%N -> id_from_str from_string k (id_display to_string k u) = Ok u).
  { intros k0 u0 H0. unfold id_from_str, id_display. by rewrite !strip_prefix_app, Hrt. }
  split; [by apply Hself|]. split.
  - intros Hk. unfold id_from_str, id_display.
    destruct (prefix_unique k k' ("_" +:+ to_string u)) as [-> |]; done.
  - intros He. destruct (decide (k = k')) as [<-|Hk].
    + pose proof (Hself k u Hu) as H1. rewrite He, Hself in H1 by done. by injection H1.
    + exfalso. pose proof (Hself k u Hu) as H1. rewrite He in H1. unfold id_from_str, id_display in H1.
      by destruct (prefix_unique k k' ("_" +:+ to_string u')) as [E|]; [rewrite E in H1|].
Qed.

(** ** The properties at concrete inputs *)

Lemma slug_for_fresh_witness :
  let base := if is_empty (kebab_ascii "Meu Projeto!") then "project" else kebab_ascii "Meu Projeto!" in
  exists s, slug_for "Meu Projeto!" ["meu-projeto"; "meu-projeto-2"] = Some s /\ is_slug s /\
    s ∉ ["meu-projeto"; "meu-projeto-2"] /\
    (base ∉ ["meu-projeto"; "meu-projeto-2"] -> s = base) /\
    (base ∈ ["meu-projeto"; "meu-projeto-2"] -> exists m, s = candidate base m /\
       forall i, (2 <= i < m)%N -> candidate base i ∈ ["meu-projeto"; "meu-projeto-2"]).
Proof. apply (slug_for_fresh "Meu Projeto!" ["meu-projeto"; "meu-projeto-2"]). cbn. lia. Defined.

(** A text form that reads back: so many letters. *)
Definition unary (u : N) : string := N.iter u (String "x") EmptyString.

Lemma id_roundtrip_witness :
  id_from_str (fun s => Some (N.of_nat (String.length s))) KProject (id_display unary KProject 3) = Ok 3%N /\
  (KProject <> KSession ->
   id_from_str (fun s => Some (N.of_nat (String.length s))) KProject (id_display unary KSession 3)
   = Err (WrongPrefix "proj" (id_display unary KSession 3))) /\
  (id_display unary KProject 3 = id_display unary KSession 4 -> KProject = KSession /\ 3%N = 4%N).
Proof.
  apply (id_roundtrip unary (fun s => Some (N.of_nat (String.length s))) KProject KSession 3 4); [|reflexivity|reflexivity].
  intros u _. unfold unary. f_equal. induction u as [|u IH] using N.peano_ind; [done|].
  rewrite N.iter_succ. cbn [String.length]. lia.
Defined.

Example slug_accents : slug_for "Ação Ñ" [] = Some "acao-n".
Proof. vm_compute. reflexivity. Qed.
