(* ===== verification/Harness.v ===== *)
(** * Harnesses

    Models crates/willie-harness/src/lib.rs: the trait as a record of
    operations, its default methods, Claude Code's entry, and where a harness
    keeps what the sandbox binds.  A path is its text; the environment variable
    [TZ] and the file test of [locate] are arguments. *)

From S2P Require Import Prelude Text BTree Sandbox.

Local Open Scope string_scope.
Local Open Scope list_scope.

(** ** Data *)

Inductive Resume : Type := ResumeNone | ById | ResumeContinue.

Inductive LaunchMode : Type := Fresh | Continue.

#[export] Instance LaunchMode_eq_dec : EqDecision LaunchMode.
Proof. solve_decision. Defined.

Record HarnessCapabilities : Type := mk_hcaps {
  interactive_tui : bool; resume : Resume; headless_stream : bool
}.

Record Launch : Type := mk_launch { argv : list string; env : btree string string }.

Record Link : Type := mk_link { target : string; l_path : string }.

Record AgentState : Type := mk_agent { dir : string; links : list Link }.

Record Cache : Type := mk_cache { c_name : string; c_path : string }.

(** The trait: what a harness says of itself. *)
Record Harness : Type := mk_harness {
  h_id : string;
  binary_name : string;
  h_capabilities : HarnessCapabilities;
  default_capabilities : CapabilitySet;
  agent_state_of : string -> option AgentState;
  session_logs_dir : string -> option string;
  escape_workspace : string -> string;
  installer : string
}.

(** ** Paths *)

Definition under (home rel : string) : string := home +:+ "/" +:+ rel.

Definition tool_roots (home : string) : list string := [under home ".local"; under home ".dotnet"].

Definition cache_paths (home : string) : list Cache :=
  [mk_cache "npm" (under home ".npm"); mk_cache "nuget" (under home ".nuget");
   mk_cache "cache" (under home ".cache")].

Definition session_path (home : string) : list string :=
  [home +:+ "/.local/bin"; "/usr/local/bin"; "/usr/bin"; "/bin"].

(** The first [dir/<binary_name>] that is a file. *)
Definition locate (is_file : string -> bool) (h : Harness) (dirs : list string) : option string :=
  List.find is_file (map (fun d => d +:+ "/" +:+ binary_name h) dirs).

(** ** The trait's default methods *)

Definition trait_default_capabilities : CapabilitySet := mk_caps true false true true true [].

Definition trait_agent_state (home : string) : option AgentState := None.

Definition trait_session_logs_dir (home : string) : option string := None.

Definition trait_escape_workspace (workspace : string) : string := replace_char "/" "-" workspace.

Fixpoint skip_nondigits (s : string) : string :=
  match s with
  | EmptyString => EmptyString
  | String a s' => if is_ascii_digit a then s else skip_nondigits s'
  end.

Fixpoint cut_nondigits (s : string) : string :=
  match s with
  | EmptyString => EmptyString
  | String a s =>
      match cut_nondigits s with
      | EmptyString => if is_ascii_digit a then String a EmptyString else EmptyString
      | t => String a t
      end
  end.

Definition is_version (t : string) : bool :=
  let parts := split "." t in
  (length parts =? 3)%nat && forallb (fun p => negb (is_empty p) && str_forallb is_ascii_digit p) parts.

Definition parse_version (output : string) : option string :=
  List.find is_version (map (fun t => cut_nondigits (skip_nondigits t)) (split_whitespace output)).

(** [Path::file_name]: the last component, unless it is [..]. *)
Definition file_name (path : string) : option string :=
  match last (comps path) with
  | Some c => if bool_decide (c = "..") then None else Some c
  | None => None
  end.

Definition launch (tz : option string) (binary home : string) (mode : LaunchMode) : Launch :=
  let env := [] in
  let env := put "PATH" (join ":" (session_path home)) env in
  let env := put "HOME" home env in
  let env := put "USER" (default "willie" (file_name home)) env in
  let env := put "TERM" "xterm-256color" env in
  let env := put "COLORTERM" "truecolor" env in
  let env := put "LANG" "C.UTF-8" env in
  let env := match tz with
             | Some tz => if is_empty tz then env else put "TZ" tz env
             | None => env
             end in
  let env := put "DISABLE_AUTOUPDATER" "1" env in
  mk_launch (binary :: if decide (mode = Continue) then ["--continue"] else []) env.

(** ** Claude Code *)

Definition STATE : string := ".willie/agent-state/claude".

Definition claude_agent_state (home : string) : option AgentState :=
  Some (mk_agent (under home STATE)
    [mk_link (STATE +:+ "/dot-claude") (under home ".claude");
     mk_link (STATE +:+ "/claude.json") (under home ".claude.json")]).

Definition claude_session_logs_dir (home : string) : option string :=
  Some (under home (STATE +:+ "/dot-claude/projects")).

Definition claude_default_capabilities : CapabilitySet := mk_caps true true true true true [].

Definition ClaudeCode : Harness := mk_harness "claude-code" "claude" (mk_hcaps true ById true)
  claude_default_capabilities claude_agent_state claude_session_logs_dir trait_escape_workspace
  "curl -fsSL https://claude.ai/install.sh | bash".

Definition registry : list Harness := [ClaudeCode].

(** ** Specification *)

(** What a harness binds or keeps under the home: every path an extra path
    must not reopen. *)
Definition managed_paths (h : Harness) (home : string) : list string :=
  tool_roots home ++ map c_path (cache_paths home)
  ++ match agent_state_of h home with
     | Some s => dir s :: map l_path (links s)
     | None => []
     end
  ++ option_list (session_logs_dir h home).

(** The variables a launch may set. *)
Definition ENV_KEYS : list string :=
  ["PATH"; "HOME"; "USER"; "TERM"; "COLORTERM"; "LANG"; "TZ"; "DISABLE_AUTOUPDATER"].

(** ** Lemmas *)

Lemma elem_put (e : string * string) k v m : e ∈ put k v m -> e = (k, v) \/ e ∈ m.
Proof.
  induction m as [|[k' v'] m IH]; cbn [put]; [rewrite list_elem_of_singleton; auto|].
  destruct (decide (k = k')) as [->|]; [rewrite !elem_of_cons; tauto|].
  destruct (ltb k k'); rewrite !elem_of_cons; tauto.
Qed.

Lemma put_keys_subset (k v : string) m ks : map fst m ⊆ ks -> k ∈ ks -> map fst (put k v m) ⊆ ks.
Proof.
  intros Hm Hk x Hx. apply list_elem_of_fmap in Hx as (e & -> & He). apply elem_put in He as [->|He]; [done|].
  apply Hm, list_elem_of_fmap. eauto.
Qed.

Lemma under_reaches home rel e :
  (comps home ++ [e], Subtree) ∈ protected (comps home) -> comps rel `prefix_of` [e] \/ [e] `prefix_of` comps rel ->
  refused (under home rel) home.
Proof.
  intros Hin Hp. unfold refused. right; right; right. exists (comps home ++ [e], Subtree). split; [done|].
  unfold under, reaches. rewrite comps_under. cbn [fst snd].
  destruct Hp as [Hp|Hp]; [left|right; split; [done|]]; by apply prefix_app.
Qed.

(** ** Properties *)

(** What the sandbox grants by a capability of its own cannot be reopened
    as an extra path: for every harness of the build and every home, the guard
    refuses each tool root, package cache, agent-state directory, dot link and
    transcript directory, and everything below them. *)
Theorem managed_paths_are_guarded (h : Harness) (home p sub : string) :
  h ∈ registry -> comps home <> [] -> p ∈ managed_paths h home ->
  guard_extra_path p home <> None /\ (p <> under home ".claude.json" -> guard_extra_path (p +:+ "/" +:+ sub) home <> None).
Proof.
  intros Hh Hn Hp. apply list_elem_of_singleton in Hh as ->.
  assert (Hg : forall q, refused q home -> guard_extra_path q home <> None).
  { intros q Hq. by apply (guard_spec q home Hn) in Hq; destruct (guard_extra_path q home). }
  assert (Hsub : forall rel e, (comps home ++ [e], Subtree) ∈ protected (comps home) -> [e] `prefix_of` comps rel ->
    guard_extra_path (under home rel) home <> None /\ guard_extra_path (under home rel +:+ "/" +:+ sub) home <> None).
  { intros rel e He Hr. split; apply Hg; [apply (under_reaches home rel e); auto|].
    unfold under. rewrite <- !str_app_assoc. apply (under_reaches home _ e); [done|right].
    rewrite comps_under. by apply prefix_app_r. }
  assert (Hj : guard_extra_path (under home ".claude.json") home <> None).
  { apply Hg. unfold refused. right; right; right. exists (comps home ++ [".claude.json"], Exact).
    split; [unfold protected; in_list|]. left.
    unfold under. rewrite comps_under. cbn [fst]. done. }
  change (managed_paths ClaudeCode home) with
    [under home ".local"; under home ".dotnet"; under home ".npm"; under home ".nuget"; under home ".cache";
     under home STATE; under home ".claude"; under home ".claude.json";
     under home (STATE +:+ "/dot-claude/projects")] in Hp.
  rewrite !elem_of_cons, elem_of_nil in Hp.
  destruct Hp as [->|[->|[->|[->|[->|[->|[->|[->|[->|[]]]]]]]]]].
  - destruct (Hsub ".local" ".local"); [unfold protected; in_list|done|auto].
  - destruct (Hsub ".dotnet" ".dotnet"); [unfold protected; in_list|done|auto].
  - destruct (Hsub ".npm" ".npm"); [unfold protected; in_list|done|auto].
  - destruct (Hsub ".nuget" ".nuget"); [unfold protected; in_list|done|auto].
  - destruct (Hsub ".cache" ".cache"); [unfold protected; in_list|done|auto].
  - destruct (Hsub STATE ".willie"); [unfold protected; in_list|by exists ["agent-state"; "claude"]|auto].
  - destruct (Hsub ".claude" ".claude"); [unfold protected; in_list|done|auto].
  - split; [done|]. intros H. done.
  - destruct (Hsub (STATE +:+ "/dot-claude/projects") ".willie");
      [unfold protected; in_list|by exists ["agent-state"; "claude"; "dot-claude"; "projects"]|auto].
Qed.

(** A launch is closed: the environment holds only the listed variables,
    with the session's own home, whatever the daemon inherited; the command is
    the binary, continued only when asked. *)
Theorem launch_env_closed (tz : option string) (binary home : string) (m : LaunchMode) :
  let l := launch tz binary home m in
  map fst (env l) ⊆ ENV_KEYS /\ ordered (env l) /\ get "HOME" (env l) = Some home /\
  get "PATH" (env l) = Some (join ":" (session_path home)) /\
  (get "TZ" (env l) <> None <-> exists z, tz = Some z /\ z <> EmptyString) /\
  head (argv l) = Some binary /\ ("--continue" ∈ tl (argv l) <-> m = Continue).
Proof.
  cbn zeta. unfold launch. cbn [env argv].
  set (base := put "LANG" _ _).
  assert (Hb : map fst base ⊆ ENV_KEYS).
  { unfold base. repeat apply put_keys_subset; [intros x Hx; by apply elem_of_nil in Hx|by_deciding..]. }
  assert (Ho : ordered base) by (unfold base; repeat apply put_ordered; exact I).
  assert (Hz : get "TZ" base = None) by (unfold base; by rewrite !get_put_ne).
  assert (Hh : get "HOME" base = Some home) by (unfold base; by rewrite !get_put_ne, get_put by done).
  assert (Hp : get "PATH" base = Some (join ":" (session_path home))) by
    (unfold base; by rewrite !get_put_ne, get_put by done).
  set (full := match tz with Some z => _ | None => base end).
  assert (Hf : map fst full ⊆ ENV_KEYS /\ ordered full /\ get "HOME" full = Some home /\
    get "PATH" full = Some (join ":" (session_path home)) /\
    (get "TZ" full <> None <-> exists z, tz = Some z /\ z <> EmptyString)).
  { unfold full. destruct tz as [z|]; [destruct z as [|a z]|]; cbn [is_empty].
    - do 4 (split; [done|]). rewrite Hz. split; [done|]. by intros (z & [= <-] & ?).
    - split; [apply put_keys_subset; [done|by_deciding]|].
      split; [by apply put_ordered|]. rewrite !get_put_ne, get_put by done.
      split; [done|]. split; [done|]. split; [intros _; by exists (String a z)|done].
    - do 4 (split; [done|]). rewrite Hz. split; [done|]. by intros (z & [=] & ?). }
  destruct Hf as (H1 & H2 & H3 & H4 & H5). split; [apply put_keys_subset; [done|by_deciding]|].
  split; [by apply put_ordered|]. rewrite !get_put_ne by done. split; [done|]. split; [done|].
  split; [done|]. split; [done|]. cbn [tl]. case_decide as Hm.
  - split; [done|]. intros _. left.
  - rewrite elem_of_nil. done.
Qed.

(** A detected version is one: three dot-separated runs of digits. *)
Theorem parse_version_shape (output v : string) :
  parse_version output = Some v ->
  exists a b c, v = a +:+ "." +:+ b +:+ "." +:+ c /\
    Forall (fun p => p <> EmptyString /\ str_forallb is_ascii_digit p = true) [a; b; c].
Proof.
  unfold parse_version. intros H. apply List.find_some in H as [_ H]. unfold is_version in H. split_bools.
  pose proof (join_split "." v) as Hj. destruct (split "." v) as [|a [|b [|c [|d l]]]]; try done.
  cbn in *. split_bools. exists a, b, c. split; [done|].
  repeat constructor; try done; by destruct a, b, c.
Qed.

(** ** The properties at concrete inputs *)

Lemma managed_paths_are_guarded_witness :
  guard_extra_path "/home/willie/.npm" "/home/willie" <> None /\
  ("/home/willie/.npm" <> under "/home/willie" ".claude.json" ->
   guard_extra_path ("/home/willie/.npm" +:+ "/" +:+ "x") "/home/willie" <> None).
Proof.
  apply (managed_paths_are_guarded ClaudeCode "/home/willie" "/home/willie/.npm" "x");
    [left|done|do 2 right; left].
Defined.

Lemma parse_version_shape_witness :
  exists a b c, "2.1.0" = a +:+ "." +:+ b +:+ "." +:+ c /\
    Forall (fun p => p <> EmptyString /\ str_forallb is_ascii_digit p = true) [a; b; c].
Proof. apply (parse_version_shape "claude v2.1.0 (Claude Code)" "2.1.0"). vm_compute. reflexivity. Defined.
