(* ===== verification/Plan.v ===== *)
(** * The boundary of a session, as data

    Models crates/willie-linux/src/sandbox/: mod.rs (the plan of mounts),
    bwrap.rs (the helper's argument vector), landlock.rs (the writable set),
    inner.rs (the required mechanisms), and the preparation of
    crates/willie-sess/src/sandbox/mod.rs, whose file-system queries are
    arguments.  What the helper does with its arguments is a specification:
    options with a fixed number of values, mounts applied in order. *)

From S2P Require Import Prelude Text BTree Sandbox Session Project Harness.

Local Open Scope string_scope.
Local Open Scope list_scope.
Local Open Scope willie_scope.

(** ** Data *)

Inductive Op : Type :=
| Tmpfs (dest perms : string)
| Bind (src dest : string) (mode : PathMode) (optional : bool)
| Symlink (target link : string).

Record Plan : Type := mk_plan {
  home : string;
  workspace : string;
  argv : list string;
  inner_exe : string;
  env : btree string string;
  ensure_dirs : list string;
  ops : list Op
}.

Inductive PlanError : Type := HomeMissing.

Definition plan_error_code (e : PlanError) : string := match e with HomeMissing => "spec_invalid" end.

(** The plain comparison of plan paths. *)
Definition lies_under (path prefix : string) : bool :=
  bool_decide (path = prefix)
  || match strip_prefix prefix path with Some rest => starts_with "/" rest | None => false end.

Definition SYSTEM_TREE : string := "/usr".

(** ** The plan *)

Section Planning.
Context (ulid_to_string : N -> string).

(** The host directory of one of a project's caches. *)
Definition cache_src (home : string) (pid : N) (c : Cache) : string :=
  home +:+ "/.willie/caches/" +:+ id_display ulid_to_string KProject pid +:+ "/" +:+ c_name c.

Definition agent_ops (caps : CapabilitySet) (h : Harness) (home : string) : list Op :=
  if agent_state caps then
    match agent_state_of h home with
    | Some st => Bind (dir st) (dir st) Rw false :: map (fun l => Symlink (target l) (l_path l)) (links st)
    | None => []
    end
  else [].

Definition tool_ops (caps : CapabilitySet) (home : string) : list Op :=
  if tools_ro caps then map (fun root => Bind root root Ro true) (tool_roots home) else [].

Definition carried (caps : CapabilitySet) (home : string) : list string :=
  SYSTEM_TREE :: if tools_ro caps then tool_roots home else [].

Definition binary_ops (caps : CapabilitySet) (home : string) (argv : list string) : list Op :=
  match argv with
  | binary :: _ =>
      if negb (existsb (lies_under binary) (carried caps home)) then [Bind binary binary Ro false] else []
  | [] => []
  end.

Definition cache_ops (caps : CapabilitySet) (home : string) (pid : N) : list Op :=
  if caches_rw caps then map (fun c => Bind (cache_src home pid c) (c_path c) Rw false) (cache_paths home)
  else [].

Definition git_ops (caps : CapabilitySet) (home : string) : list Op :=
  if git_identity caps then [Bind (home +:+ "/.gitconfig") (home +:+ "/.gitconfig") Ro false] else [].

Definition extra_ops (caps : CapabilitySet) : list Op :=
  map (fun e => Bind (path e) (path e) (mode e) false) (extra_paths caps).

Definition plan (spec : SessionSpec) (h : Harness) (inner_exe : string) : result Plan PlanError :=
  let? home := ok_or HomeMissing
    (match get "HOME" (Session.env spec) with
     | Some home => if is_empty home then None else Some home
     | None => None
     end) in
  let caps := capabilities spec in
  let ws := s_workspace spec in
  Ok (mk_plan home ws (Session.argv spec) inner_exe (Session.env spec)
    (if caches_rw caps then map (cache_src home (s_project_id spec)) (cache_paths home) else [])
    ([Tmpfs home "0700"; Bind ws ws Rw false] ++ agent_ops caps h home ++ tool_ops caps home
     ++ binary_ops caps home (Session.argv spec) ++ cache_ops caps home (s_project_id spec)
     ++ git_ops caps home ++ extra_ops caps ++ [Bind inner_exe inner_exe Ro false])).

End Planning.

(** ** The helper's argument vector *)

Definition BWRAP : string := "/usr/bin/bwrap".

Definition ETC : list string := ["resolv.conf"; "hosts"; "passwd"; "group"; "nsswitch.conf"; "ssl"; "alternatives"].

Definition ETC_OPTIONAL : list string :=
  ["ld.so.cache"; "localtime"; "terminfo"; "gitconfig"; "os-release"; "willie/zsh"].

Definition MASKED : list string := ["/usr/bin/sudo"].

Definition USR_LINKS : list (string * string) :=
  [("usr/bin", "/bin"); ("usr/lib", "/lib"); ("usr/lib64", "/lib64"); ("usr/sbin", "/sbin")].

Definition render (op : Op) : list string :=
  match op with
  | Tmpfs dest perms => ["--perms"; perms; "--tmpfs"; dest]
  | Bind src dest m optional =>
      let flag := match m, optional with
        | Ro, false => "--ro-bind"
        | Ro, true => "--ro-bind-try"
        | Rw, false => "--bind"
        | Rw, true => "--bind-try"
        end in [flag; src; dest]
  | Symlink target link => ["--symlink"; target; link]
  end.

Definition bwrap_argv (p : Plan) (inner_fd : Z) : list string :=
  [BWRAP]
  ++ ["--unshare-user"; "--unshare-pid"; "--unshare-ipc"; "--unshare-uts"; "--disable-userns"; "--die-with-parent"]
  ++ ["--clearenv"]
  ++ concat (map (fun e => ["--setenv"; fst e; snd e]) (env p))
  ++ ["--ro-bind"; "/usr"; "/usr"]
  ++ concat (map (fun e => ["--symlink"; fst e; snd e]) USR_LINKS)
  ++ concat (map (fun n => ["--ro-bind"; "/etc/" +:+ n; "/etc/" +:+ n]) ETC)
  ++ concat (map (fun n => ["--ro-bind-try"; "/etc/" +:+ n; "/etc/" +:+ n]) ETC_OPTIONAL)
  ++ ["--proc"; "/proc"; "--dev"; "/dev"; "--tmpfs"; "/tmp"]
  ++ concat (map (fun m => ["--ro-bind"; "/dev/null"; m]) MASKED)
  ++ concat (map render (ops p))
  ++ ["--chdir"; workspace p; "--"; inner_exe p; "--inner"; pretty inner_fd].

(** ** Landlock *)

Definition ACCESS_FS_EXECUTE : Z := 1.
Definition ACCESS_FS_READ_FILE : Z := 4.
Definition ACCESS_FS_READ_DIR : Z := 8.
Definition ACCESS_FS_TRUNCATE : Z := 16384.
Definition READ_EXEC : Z := Z.lor (Z.lor ACCESS_FS_EXECUTE ACCESS_FS_READ_FILE) ACCESS_FS_READ_DIR.
Definition ALL_ABI2 : Z := Z.shiftl 1 14 - 1.

Definition BASE_WRITABLE : list string := ["/tmp"; "/dev"].

Definition grant (write : list string) (path : string) : list string :=
  if existsb (fun p => bool_decide (p = path)) write then write else write ++ [path].

(** The destination an op makes writable. *)
Definition writable_dest (op : Op) : option string :=
  match op with
  | Tmpfs dest _ => Some dest
  | Bind _ dest Rw _ => Some dest
  | Bind _ _ Ro _ | Symlink _ _ => None
  end.

Definition rules (p : Plan) : list string :=
  let write := foldl (fun w op => match writable_dest op with Some d => grant w d | None => w end) [] (ops p) in
  foldl grant write BASE_WRITABLE.

Inductive Apply : Type := Ruleset (handled : Z) | NotApplied.

Definition applicability (abi : Z) : Apply :=
  if (abi <=? 1)%Z then NotApplied
  else if (abi =? 2)%Z then Ruleset ALL_ABI2
  else Ruleset (Z.lor ALL_ABI2 ACCESS_FS_TRUNCATE).

(** ** The stage's report *)

Record Rlimits : Type := mk_rlimits { nproc : Z; nofile : Z; core : Z }.
Definition RLIMITS_DEFAULT : Rlimits := mk_rlimits 4096 65536 0.

Record Request : Type := mk_request { r_argv : list string; rlimits : Rlimits; landlock : list string }.

Definition REQUIRED : list string := ["namespaces"; "mounts"; "rlimits"; "seccomp"].

Definition required_missing (applied : list string) : option string :=
  List.find (fun req => negb (existsb (fun m => bool_decide (m = req)) applied)) REQUIRED.

(** ** Preparation *)

Inductive PrepareError : Type :=
| HarnessUnknown (id : string)
| PlanFailed (e : PlanError)
| BackendMissing (path : string)
| CacheDir (path : string)
| HarnessMissing (step path : string)
| ExtraPathResolved (path detail : string)
| BindSource (path : string).

Definition prepare_error_code (e : PrepareError) : string :=
  match e with
  | HarnessUnknown _ | PlanFailed _ => "spec_invalid"
  | BackendMissing _ => "sandbox_backend_missing"
  | CacheDir _ | BindSource _ => "sandbox_apply_failed"
  | HarnessMissing _ _ => "harness_exec_failed"
  | ExtraPathResolved _ _ => "sandbox_profile_invalid"
  end.

(** The last bind at a destination gets another source; [rev_rebind] walks
    the ops from the end. *)
Fixpoint rev_rebind (ops : list Op) (destination resolved : string) : list Op :=
  match ops with
  | [] => []
  | Bind src dest m o :: ops =>
      if bool_decide (dest = destination) then Bind resolved dest m o :: ops
      else Bind src dest m o :: rev_rebind ops destination resolved
  | op :: ops => op :: rev_rebind ops destination resolved
  end.

Definition rebind_source (ops : list Op) (destination resolved : string) : list Op :=
  rev (rev_rebind (rev ops) destination resolved).

Section Preparing.
Context (ulid_to_string : N -> string).
(** The machine: what the file system answers.  [exists_] is asked after the
    given directories were created; the texts of I/O errors are dropped from
    the error values, except where they become part of a message. *)
Context (is_file is_executable_file is_dir create_dir_all : string -> bool)
  (canonicalize : string -> result string string)
  (exists_ : list string -> string -> bool).

Definition harness_for (spec : SessionSpec) : option Harness :=
  match s_kind spec with
  | Shell => if bool_decide (s_harness spec = SHELL_HARNESS) then Some ClaudeCode else None
  | Agent => List.find (fun h => bool_decide (h_id h = s_harness spec)) registry
  end.

Fixpoint resolve_extras (home : string) (extras : list ExtraPath) (ops : list Op) : result (list Op) PrepareError :=
  match extras with
  | [] => Ok ops
  | e :: extras =>
      match canonicalize (path e) with
      | Err error => Err (ExtraPathResolved (path e) ("cannot be resolved: " +:+ error))
      | Ok resolved =>
          match (if bool_decide (resolved = path e) then None else guard_extra_path resolved home) with
          | Some reason =>
              Err (ExtraPathResolved (path e)
                ("resolves to `" +:+ resolved +:+ "`, which cannot be an extra path: " +:+ reason))
          | None => resolve_extras home extras (rebind_source ops (path e) resolved)
          end
      end
  end.

Fixpoint check_sources (created : list string) (ops : list Op) : result unit PrepareError :=
  match ops with
  | [] => Ok tt
  | Bind src _ _ false :: ops =>
      if exists_ created src then check_sources created ops else Err (BindSource src)
  | _ :: ops => check_sources created ops
  end.

Definition set_ops (l : list Op) (p : Plan) : Plan :=
  mk_plan (home p) (workspace p) (argv p) (inner_exe p) (env p) (ensure_dirs p) l.

Definition prepare (spec : SessionSpec) (helper inner_exe : string) : result (Plan * Request) PrepareError :=
  let? h := ok_or (HarnessUnknown (s_harness spec)) (harness_for spec) in
  let? p := map_err PlanFailed (plan ulid_to_string spec h inner_exe) in
  guard? is_file helper else BackendMissing helper in
  let binary := default EmptyString (head (argv p)) in
  guard? is_executable_file binary else HarnessMissing "cannot execute the harness" binary in
  guard? is_dir (workspace p) else HarnessMissing "cannot enter the workspace" (workspace p) in
  let? l := resolve_extras (home p) (extra_paths (capabilities spec)) (ops p) in
  let p := set_ops l p in
  match List.find (fun d => negb (create_dir_all d)) (ensure_dirs p) with
  | Some d => Err (CacheDir d)
  | None =>
      let? _ := check_sources (ensure_dirs p) (ops p) in
      Ok (p, mk_request (argv p) RLIMITS_DEFAULT (rules p))
  end.

End Preparing.

(** ** Specification: the helper's command line *)

(** An option of the helper and its values. *)
Definition item : Type := string * list string.

Definition arity (flag : string) : option nat :=
  if bool_decide (flag ∈ ["--unshare-user"; "--unshare-pid"; "--unshare-ipc"; "--unshare-uts";
                          "--disable-userns"; "--die-with-parent"; "--clearenv"]) then Some 0%nat
  else if bool_decide (flag ∈ ["--proc"; "--dev"; "--tmpfs"; "--perms"; "--chdir"]) then Some 1%nat
  else if bool_decide (flag ∈ ["--setenv"; "--symlink"; "--ro-bind"; "--ro-bind-try"; "--bind"; "--bind-try"])
  then Some 2%nat
  else None.

(** The helper's reading of its arguments: options up to [--], then the
    command. *)
Fixpoint parse_args (fuel : nat) (args : list string) : option (list item * list string) :=
  match fuel, args with
  | S fuel, flag :: rest =>
      if bool_decide (flag = "--") then Some ([], rest)
      else match arity flag with
           | Some n =>
               if (n <=? length rest)%nat then
                 match parse_args fuel (drop n rest) with
                 | Some (items, cmd) => Some ((flag, take n rest) :: items, cmd)
                 | None => None
                 end
               else None
           | None => None
           end
  | _, _ => None
  end.

Definition op_items (op : Op) : list item :=
  match op with
  | Tmpfs dest perms => [("--perms", [perms]); ("--tmpfs", [dest])]
  | Bind src dest m o =>
      [(match m, o with Ro, false => "--ro-bind" | Ro, true => "--ro-bind-try"
                      | Rw, false => "--bind" | Rw, true => "--bind-try" end, [src; dest])]
  | Symlink target link => [("--symlink", [target; link])]
  end.

(** What every session gets before its plan. *)
Definition base_items : list item :=
  [("--ro-bind", ["/usr"; "/usr"])]
  ++ map (fun e => ("--symlink", [fst e; snd e])) USR_LINKS
  ++ map (fun n => ("--ro-bind", ["/etc/" +:+ n; "/etc/" +:+ n])) ETC
  ++ map (fun n => ("--ro-bind-try", ["/etc/" +:+ n; "/etc/" +:+ n])) ETC_OPTIONAL
  ++ [("--proc", ["/proc"]); ("--dev", ["/dev"]); ("--tmpfs", ["/tmp"])]
  ++ map (fun m => ("--ro-bind", ["/dev/null"; m])) MASKED.

Definition command_items (p : Plan) : list item :=
  map (fun f => (f, [])) ["--unshare-user"; "--unshare-pid"; "--unshare-ipc"; "--unshare-uts";
                          "--disable-userns"; "--die-with-parent"; "--clearenv"]
  ++ map (fun e => ("--setenv", [fst e; snd e])) (env p)
  ++ base_items ++ concat (map op_items (ops p)) ++ [("--chdir", [workspace p])].

(** ** Specification: what is visible and writable *)

(** Two locations overlap when one is at or above the other. *)
Definition overlap (a b : list string) : Prop := a `prefix_of` b \/ b `prefix_of` a.

(** The helper applies the ops in order, so the last one at or above a path
    decides what is there. *)
Definition op_dest (op : Op) : string :=
  match op with Tmpfs d _ => d | Bind _ d _ _ => d | Symlink _ l => l end.

Fixpoint view (ops : list Op) (p : list string) : option Op :=
  match ops with
  | [] => None
  | op :: ops =>
      match view ops p with
      | Some o => Some o
      | None => if decide (comps (op_dest op) `prefix_of` p) then Some op else None
      end
  end.

(** The bind that counts for a destination: the last one. *)
Definition binds_at (d : string) (op : Op) : bool :=
  match op with Bind _ dest _ _ => bool_decide (dest = d) | _ => false end.

Definition last_bind (ops : list Op) (d : string) : option Op := List.find (binds_at d) (rev ops).

Definition with_src (r : string) (op : Op) : Op :=
  match op with Bind _ d m o => Bind r d m o | op => op end.

(** ** Lemmas: the command line *)

Definition flat (i : item) : list string := fst i :: snd i.

Definition item_ok (i : item) : Prop := arity (fst i) = Some (length (snd i)) /\ fst i <> "--".

Lemma parse_flat items cmd : Forall item_ok items -> forall fuel, (length items < fuel)%nat ->
  parse_args fuel (concat (map flat items) ++ "--" :: cmd) = Some (items, cmd).
Proof.
  induction 1 as [|[f args] items [Ha Hf] _ IH]; intros fuel Hl; (destruct fuel as [|fuel]; [cbn in Hl; lia|]).
  - done.
  - cbn [map concat flat fst snd app parse_args]. rewrite bool_decide_false by done. cbn in Ha. rewrite Ha.
    rewrite <- app_assoc, length_app. destruct (Nat.leb_spec (length args) (length args + length (concat (map flat items) ++ "--" :: cmd))); [|lia].
    rewrite drop_app_length, take_app_length, IH by (cbn in Hl; lia). done.
Qed.

Lemma op_items_ok op : Forall item_ok (op_items op).
Proof. destruct op as [|? ? [] []|]; repeat constructor; done. Qed.

Lemma op_items_render op : concat (map flat (op_items op)) = render op.
Proof. by destruct op as [|? ? [] []|]. Qed.

Lemma concat_map_flat {A} (f : A -> item) (l : list A) :
  concat (map flat (map f l)) = concat (map (fun x => flat (f x)) l).
Proof. by rewrite map_map. Qed.

Lemma ops_items_render l : concat (map flat (concat (map op_items l))) = concat (map render l).
Proof.
  induction l as [|op l IH]; [done|]. cbn. by rewrite map_app, concat_app, op_items_render, IH.
Qed.

Lemma command_items_ok p : Forall item_ok (command_items p).
Proof.
  assert (Hb : Forall item_ok base_items) by (unfold base_items; repeat constructor; done).
  unfold command_items. rewrite !Forall_app. split; [|split; [|split; [done|split]]].
  - repeat constructor; done.
  - apply Forall_map, Forall_forall. done.
  - apply Forall_concat, Forall_map, Forall_forall. intros op _. apply op_items_ok.
  - repeat constructor; done.
Qed.

Lemma bwrap_argv_items p fd :
  bwrap_argv p fd = BWRAP :: concat (map flat (command_items p)) ++ "--" :: [inner_exe p; "--inner"; pretty fd].
Proof.
  unfold command_items. rewrite !map_app, !concat_app, ops_items_render.
  rewrite (concat_map_flat (fun e => ("--setenv", [fst e; snd e]))). unfold bwrap_argv, base_items.
  rewrite !map_app, !concat_app, <- !app_assoc. cbn [app]. reflexivity.
Qed.

(** ** Lemmas: the writable set *)

Lemma grant_spec w d x : x ∈ grant w d <-> x ∈ w \/ x = d.
Proof.
  unfold grant. destruct (existsb _ _) eqn:E.
  - apply existsb_exists in E as (y & Hy & E). apply bool_decide_eq_true in E as ->. apply list_elem_of_In in Hy.
    naive_solver.
  - rewrite elem_of_app, list_elem_of_singleton. done.
Qed.

Lemma grant_nodup w d : NoDup w -> NoDup (grant w d).
Proof.
  intros Hw. unfold grant. destruct (existsb _ _) eqn:E; [done|]. apply NoDup_app. split; [done|].
  split; [|apply NoDup_singleton]. intros x Hx. rewrite list_elem_of_singleton. intros ->.
  assert (existsb (fun p => bool_decide (p = d)) w = true); [|congruence].
  apply existsb_exists. exists d. by rewrite bool_decide_true, <- list_elem_of_In.
Qed.

Lemma rules_spec p : NoDup (rules p) /\
  forall d, d ∈ rules p <-> d ∈ BASE_WRITABLE \/ exists op, op ∈ ops p /\ writable_dest op = Some d.
Proof.
  unfold rules. set (w := foldl _ [] _).
  assert (Hw : NoDup w /\ forall d, d ∈ w <-> exists op, op ∈ ops p /\ writable_dest op = Some d).
  { subst w. assert (H : forall l w0, NoDup w0 ->
      let w1 := foldl (fun w op => match writable_dest op with Some d => grant w d | None => w end) w0 l in
      NoDup w1 /\ forall d, d ∈ w1 <-> d ∈ w0 \/ exists op, op ∈ l /\ writable_dest op = Some d).
    { induction l as [|op l IH]; intros w0 Hn; cbn [foldl].
      - split; [done|]. intros d. split; [auto|]. intros [?|(? & Hin & _)]; [done|]. by apply elem_of_nil in Hin.
      - destruct (writable_dest op) as [x|] eqn:E.
        + destruct (IH (grant w0 x) (grant_nodup _ _ Hn)) as [H1 H2]. split; [done|]. intros d.
          rewrite H2, grant_spec. setoid_rewrite elem_of_cons. naive_solver.
        + destruct (IH w0 Hn) as [H1 H2]. split; [done|]. intros d. rewrite H2. setoid_rewrite elem_of_cons.
          naive_solver. }
    destruct (H (ops p) [] NoDup_nil_2) as [H1 H2]. split; [done|]. intros d. rewrite H2, elem_of_nil. naive_solver. }
  destruct Hw as [Hn Hw]. unfold BASE_WRITABLE. cbn [foldl]. split; [by apply grant_nodup, grant_nodup|].
  intros d. rewrite !grant_spec, Hw, !elem_of_cons, elem_of_nil. tauto.
Qed.

Lemma view_covers l q op : view l q = Some op -> op ∈ l /\ comps (op_dest op) `prefix_of` q.
Proof.
  induction l as [|o l IH]; [done|]. cbn [view]. destruct (view l q) as [o'|].
  - intros [= <-]. destruct (IH eq_refl). split; [by right|done].
  - case_decide; [|done]. intros [= <-]. split; [left|done].
Qed.

Lemma view_app l1 l2 q : view (l1 ++ l2) q = match view l2 q with Some o => Some o | None => view l1 q end.
Proof.
  induction l1 as [|o l1 IH]; cbn [app view]; [by destruct (view l2 q)|]. rewrite IH. by destruct (view l2 q).
Qed.

(** ** Lemmas: component lists that do not overlap *)

Lemma overlap_app h a b : overlap (h ++ a) (h ++ b) <-> overlap a b.
Proof.
  unfold overlap. split; (intros [H|H]; [left|right]); first [by apply prefix_app_inv in H|by apply prefix_app].
Qed.

Lemma overlap_cons (x y : string) a b : overlap (x :: a) (y :: b) -> x = y.
Proof. intros [H|H]; [by apply prefix_cons_inv_1 in H|symmetry; by apply prefix_cons_inv_1 in H]. Qed.

Lemma overlap_sym a b : overlap a b -> overlap b a.
Proof. unfold overlap. tauto. Qed.

Lemma protected_overlap p e : reaches p (e, Subtree) <-> overlap p e.
Proof. unfold reaches, overlap. cbn. naive_solver. Qed.

(** ** Lemmas: the last bind *)

Lemma find_app_r {A} (f : A -> bool) l1 l2 :
  List.find f (l1 ++ l2) = match List.find f l1 with Some x => Some x | None => List.find f l2 end.
Proof. induction l1 as [|x l1 IH]; [done|]. cbn. by destruct (f x). Qed.

Lemma last_bind_app l1 l2 d :
  last_bind (l1 ++ l2) d = match last_bind l2 d with Some o => Some o | None => last_bind l1 d end.
Proof. unfold last_bind. by rewrite rev_app_distr, find_app_r. Qed.

Lemma rebind_last l d r d' :
  last_bind (rebind_source l d r) d' = if decide (d = d') then with_src r <$> last_bind l d' else last_bind l d'.
Proof.
  unfold last_bind, rebind_source. rewrite rev_involutive. induction (rev l) as [|op ops IH].
  { by destruct (decide (d = d')). }
  cbn [rev_rebind]. destruct op as [| src dest m o |]; [exact IH| |exact IH].
  case_bool_decide as E; cbn [List.find binds_at].
  - subst dest. destruct (decide (d = d')) as [->|Hne]; [by rewrite !bool_decide_true|].
    by rewrite !bool_decide_false.
  - rewrite IH. case_bool_decide as E'; [|done]. subst. by rewrite decide_False.
Qed.

Lemma with_src_dest r op d : binds_at d op = true -> binds_at d (with_src r op) = true.
Proof. by destruct op. Qed.

Section Resolved.
Context (canonicalize : string -> result string string) (home : string).

Lemma resolve_extras_other extras : forall l l' d,
  resolve_extras canonicalize home extras l = Ok l' -> d ∉ map path extras -> last_bind l' d = last_bind l d.
Proof.
  induction extras as [|e extras IH]; intros l l' d; cbn [resolve_extras map]; [by intros [= ->]|].
  destruct (canonicalize (path e)) as [r|]; [|done]. destruct (if bool_decide (r = path e) then _ else _); [done|].
  rewrite not_elem_of_cons. intros H [Hd Hn]. rewrite (IH _ _ _ H Hn), rebind_last. by rewrite decide_False.
Qed.

Lemma resolve_extras_bind extras : forall l l' e,
  resolve_extras canonicalize home extras l = Ok l' -> NoDup (map path extras) -> e ∈ extras ->
  exists r, canonicalize (path e) = Ok r /\ (r = path e \/ guard_extra_path r home = None) /\
    last_bind l' (path e) = with_src r <$> last_bind l (path e).
Proof.
  induction extras as [|x extras IH]; intros l l' e; cbn [resolve_extras map]; [by intros _ _ ?%elem_of_nil|].
  destruct (canonicalize (path x)) as [r|] eqn:Er; [|done].
  destruct (if bool_decide (r = path x) then _ else _) eqn:Eg; [done|].
  intros H [Hx Hn]%NoDup_cons [->|Hin]%elem_of_cons.
  - exists r. split; [done|]. split; [case_bool_decide; auto|].
    rewrite (resolve_extras_other _ _ _ _ H Hx), rebind_last. by rewrite decide_True.
  - destruct (IH _ _ _ H Hn Hin) as (r' & H1 & H2 & H3). exists r'. split; [done|]. split; [done|].
    rewrite H3, rebind_last. rewrite decide_False; [done|]. intros Heq. apply Hx. rewrite Heq.
    by apply list_elem_of_fmap_2.
Qed.

End Resolved.

Lemma last_bind_extras (extras : list ExtraPath) e : NoDup (map path extras) -> e ∈ extras ->
  last_bind (map (fun e => Bind (path e) (path e) (mode e) false) extras) (path e)
  = Some (Bind (path e) (path e) (mode e) false).
Proof.
  induction extras as [|x extras IH]; [by intros _ ?%elem_of_nil|]. cbn [map].
  intros [Hx Hn]%NoDup_cons [->|Hin]%elem_of_cons;
    change (?a :: ?l) with ([a] ++ l); rewrite last_bind_app; [|by rewrite IH].
  assert (last_bind (map (fun e => Bind (path e) (path e) (mode e) false) extras) (path x) = None) as ->.
  { destruct (last_bind _ _) as [op|] eqn:E; [|done]. unfold last_bind in E. apply List.find_some in E as [Hin Hb].
    apply in_rev, list_elem_of_In, list_elem_of_fmap in Hin as (y & -> & Hy). cbn in Hb.
    apply bool_decide_eq_true in Hb. exfalso. apply Hx. rewrite <- Hb. by apply list_elem_of_fmap_2. }
  unfold last_bind. cbn. by rewrite bool_decide_true.
Qed.

Lemma check_sources_ok (exists_ : list string -> string -> bool) created l :
  check_sources exists_ created l = Ok tt ->
  forall src d m, Bind src d m false ∈ l -> exists_ created src = true.
Proof.
  induction l as [|op l IH]; intros H src d m Hin; [by apply elem_of_nil in Hin|]. cbn in H.
  apply elem_of_cons in Hin as [<-|Hin]; [by destruct (exists_ created src)|].
  destruct op as [|s' d' m' []|]; try (by eapply IH). destruct (exists_ created s'); [by eapply IH|done].
Qed.

(** What the plan of a spec is made of. *)
Lemma plan_inv show spec h exe p :
  plan show spec h exe = Ok p ->
  exists home, get "HOME" (Session.env spec) = Some home /\ home <> EmptyString /\
    p = mk_plan home (s_workspace spec) (Session.argv spec) exe (Session.env spec)
      (if caches_rw (capabilities spec) then map (cache_src show home (s_project_id spec)) (cache_paths home) else [])
      ([Tmpfs home "0700"; Bind (s_workspace spec) (s_workspace spec) Rw false]
       ++ agent_ops (capabilities spec) h home ++ tool_ops (capabilities spec) home
       ++ binary_ops (capabilities spec) home (Session.argv spec)
       ++ cache_ops show (capabilities spec) home (s_project_id spec)
       ++ git_ops (capabilities spec) home ++ extra_ops (capabilities spec) ++ [Bind exe exe Ro false]).
Proof.
  unfold plan. destruct (get "HOME" (Session.env spec)) as [home|]; [|done].
  destruct home as [|a home]; [done|]. cbn [is_empty ok_or]. intros [= <-]. by exists (String a home).
Qed.

(** Where the sources of a plan's binds come from. *)
Lemma plan_sources show spec h exe p src dest m o :
  h ∈ registry -> plan show spec h exe = Ok p -> Bind src dest m o ∈ ops p ->
  src = s_workspace spec \/ src = exe \/ head (Session.argv spec) = Some src \/
  (exists e, e ∈ extra_paths (capabilities spec) /\ src = path e) \/
  (exists rel, src = under (home p) rel /\ comps rel ∈ [[".willie"; "agent-state"; "claude"]; [".local"]; [".dotnet"]; [".gitconfig"]]) \/
  (exists c, c ∈ cache_paths (home p) /\ src = cache_src show (home p) (s_project_id spec) c).
Proof.
  intros Hh Hp. apply list_elem_of_singleton in Hh as ->. apply plan_inv in Hp as (home & _ & _ & ->).
  cbn [ops Plan.home]. rewrite !elem_of_app.
  intros [H|[H|[H|[H|[H|[H|[H|H]]]]]]].
  - rewrite !elem_of_cons, elem_of_nil in H. destruct H as [[=]|[[= -> _ _ _]|[]]]. auto.
  - unfold agent_ops in H. destruct (agent_state _); [|by apply elem_of_nil in H].
    cbn [ClaudeCode agent_state_of claude_agent_state map dir links] in H.
    rewrite !elem_of_cons, elem_of_nil in H. destruct H as [[= -> _ _ _]|[[=]|[[=]|[]]]].
    do 4 right; left. exists STATE. split; [done|left].
  - unfold tool_ops, tool_roots in H. destruct (tools_ro _); [|by apply elem_of_nil in H]. cbn [map] in H.
    rewrite !elem_of_cons, elem_of_nil in H. do 4 right; left.
    destruct H as [[= -> _ _ _]|[[= -> _ _ _]|[]]]; eexists; (split; [done|]); cbn; in_list.
  - unfold binary_ops in H. destruct (Session.argv spec) as [|b l]; [by apply elem_of_nil in H|].
    destruct (negb _); [|by apply elem_of_nil in H]. apply list_elem_of_singleton in H as [= -> _ _ _].
    right; right; left. done.
  - unfold cache_ops in H. destruct (caches_rw _); [|by apply elem_of_nil in H].
    apply list_elem_of_fmap in H as (c & [= -> _ _ _] & Hc). do 5 right. eauto.
  - unfold git_ops in H. destruct (git_identity _); [|by apply elem_of_nil in H].
    apply list_elem_of_singleton in H as [= -> _ _ _]. do 4 right; left. exists ".gitconfig".
    split; [done|]. in_list.
  - unfold extra_ops in H. apply list_elem_of_fmap in H as (e & [= -> _ _ _] & He). do 3 right; left. eauto.
  - apply list_elem_of_singleton in H as [= -> _ _ _]. auto.
Qed.

(** Locations a session must never reach: the keys, another project's
    caches, and the interop sockets. *)
Definition secret (show : N -> string) (h : list string) (pid : N) (l : list string) : Prop :=
  l = h ++ [".ssh"] \/ l = ["run"] \/
  exists other, other <> id_display show KProject pid /\ l = h ++ [".willie"; "caches"; other].

Lemma secret_guarded show h pid l p : secret show h pid l ->
  overlap p l -> exists e, e ∈ protected h /\ reaches p e.
Proof.
  intros [->|[->|(other & _ & ->)]] Ho.
  - exists (h ++ [".ssh"], Subtree). split; [unfold protected; in_list|by apply protected_overlap].
  - exists (["run"], Subtree). split; [unfold protected; in_list|by apply protected_overlap].
  - exists (h ++ [".willie"], Subtree). split; [unfold protected; in_list|]. apply protected_overlap.
    change [".willie"; "caches"; other] with ([".willie"] ++ ["caches"; other]) in Ho.
    rewrite app_assoc in Ho. destruct Ho as [Ho|Ho].
    + apply (prefix_weak_total _ _ _ Ho). by apply prefix_app_r.
    + right. etrans; [|exact Ho]. by apply prefix_app_r.
Qed.

Lemma comps_plain s : contains_char "/" s = false -> proper s = true -> comps s = [s].
Proof. intros Hc Hp. unfold comps. rewrite split_none by done. cbn. by rewrite Hp. Qed.

Lemma comps_cache show home pid c :
  contains_char "/" (id_display show KProject pid) = false -> c ∈ cache_paths home ->
  exists name, comps (cache_src show home pid c)
    = comps home ++ [".willie"; "caches"; id_display show KProject pid; name].
Proof.
  intros Hs Hc. unfold cache_src.
  change ("/.willie/caches/" +:+ ?x) with ("/" +:+ (".willie" +:+ "/" +:+ ("caches" +:+ "/" +:+ x))).
  rewrite !comps_under. rewrite (comps_plain (id_display show KProject pid)) by done.
  exists (c_name c). f_equal. change (comps ".willie") with [".willie"]. change (comps "caches") with ["caches"].
  cbn [app]. do 3 f_equal. unfold cache_paths in Hc. rewrite !elem_of_cons, elem_of_nil in Hc.
  by destruct Hc as [->|[->|[->|[]]]].
Qed.

(** ** Properties *)

(** C20. Nothing in a plan can pass for an option: the helper reads the
    vector as the namespaces, a cleared environment and exactly the plan's
    variables, the base mounts, the plan's ops in order and the working
    directory, then runs the inner stage, whatever text the values hold. *)
Theorem helper_vector_unambiguous (p : Plan) (fd : Z) :
  exists args, bwrap_argv p fd = BWRAP :: args /\
    parse_args (S (length args)) args = Some (command_items p, [inner_exe p; "--inner"; pretty fd]).
Proof.
  eexists. split; [apply bwrap_argv_items|]. apply parse_flat; [apply command_items_ok|].
  rewrite length_app. assert (length (command_items p) <= length (concat (map flat (command_items p))))%nat; [|cbn [length]; lia].
  induction (command_items p) as [|i l IH]; [done|]. cbn [map concat]. rewrite length_app. unfold flat at 1.
  cbn [length]. lia.
Qed.

(** C3. A resolved policy never exposes a secret: whatever it grants, no bind
    of the session's plan has a source at, above or below the user's keys, the
    interop sockets or another project's caches, for every session whose
    workspace, harness binary ([argv[0]]) and supervisor executable do not
    themselves lie at, above or below that secret, whose home is a directory
    other than the root and not below [/run], and whose project's shown id has no
    slash. *)
Theorem plan_keeps_secrets (show : N -> string) (spec : SessionSpec) (h : Harness) (exe home : string)
    (p : Plan) (defaults : CapabilitySet) (profile : SandboxProfile) (l : list string) :
  h ∈ registry -> get "HOME" (Session.env spec) = Some home -> comps home <> [] ->
  head (comps home) <> Some "run" -> resolve defaults profile home = Ok (capabilities spec) ->
  contains_char "/" (id_display show KProject (s_project_id spec)) = false ->
  plan show spec h exe = Ok p -> secret show (comps home) (s_project_id spec) l ->
  ~ overlap (comps (s_workspace spec)) l -> ~ overlap (comps exe) l ->
  (forall b, head (Session.argv spec) = Some b -> ~ overlap (comps b) l) ->
  forall src dest m o, Bind src dest m o ∈ ops p -> ~ overlap (comps src) l.
Proof.
  intros Hh Hhome Hn Hrun Hr Hid Hp Hl Hws Hexe Hb src dest m o Hin Ho.
  assert (Plan.home p = home) as Hph.
  { apply plan_inv in Hp as (home' & Hg & _ & ->). cbn. congruence. }
  assert (Hrunl : forall a, ~ overlap (comps home ++ a) ["run"]).
  { intros a Hov. destruct (comps home) as [|x r]; [done|]. apply overlap_cons in Hov. by subst. }
  pose proof (plan_sources _ _ _ _ _ _ _ _ _ Hh Hp Hin) as
    [->|[->|[Ha|[(e & He & ->)|[(rel & -> & Hrel)|(c & Hc & ->)]]]]]; [done|done|by eapply Hb| | |].
  - unfold resolve in Hr. destruct (first_unsupported _); [done|].
    destruct (check_extras _ _) as [[]|] eqn:Ec; [|done]. injection Hr as Hr. rewrite <- Hr in He. cbn in He.
    apply check_extras_ok in Ec. rewrite Forall_forall in Ec. destruct (Ec _ He) as [_ Hg].
    assert (Hs : is_some (guard_extra_path (path e) home) = true).
    { apply guard_spec; [done|]. right; right; right. by eapply secret_guarded. }
    by rewrite Hg in Hs.
  - rewrite Hph in Ho. unfold under in Ho. rewrite comps_under in Ho.
    rewrite !elem_of_cons, elem_of_nil in Hrel.
    destruct Hl as [->|[->|(other & _ & ->)]]; [|by eapply Hrunl|];
      apply overlap_app in Ho; destruct Hrel as [E|[E|[E|[E|[]]]]]; rewrite E in Ho;
      try (by apply overlap_cons in Ho).
    change (overlap ([".willie"] ++ ["agent-state"; "claude"]) ([".willie"] ++ ["caches"; other])) in Ho.
    apply overlap_app in Ho. by apply overlap_cons in Ho.
  - rewrite Hph in *. destruct (comps_cache show home (s_project_id spec) c Hid Hc) as (name & Hcomps).
    rewrite Hcomps in Ho. destruct Hl as [->|[->|(other & Hne & ->)]]; [|by eapply Hrunl|]; apply overlap_app in Ho.
    + by apply overlap_cons in Ho.
    + change (overlap ([".willie"; "caches"] ++ [id_display show KProject (s_project_id spec); name])
        ([".willie"; "caches"] ++ [other])) in Ho.
      apply overlap_app, overlap_cons in Ho. by subst.
Qed.

(** The Landlock rules are the plan's writable set: each path once, only
    the base trees and what an op mounts writable, and nothing the mounts leave
    writable is denied. *)
Theorem landlock_matches_mounts (p : Plan) :
  NoDup (rules p) /\
  (forall d, d ∈ rules p <-> d ∈ BASE_WRITABLE \/ exists op, op ∈ ops p /\ writable_dest op = Some d) /\
  (forall q op d, view (ops p) q = Some op -> writable_dest op = Some d ->
     exists r, r ∈ rules p /\ comps r `prefix_of` q).
Proof.
  destruct (rules_spec p) as [Hn Hr]. split; [done|]. split; [done|]. intros q op d Hv Hd.
  apply view_covers in Hv as [Hin Hp]. exists d. split; [apply Hr; eauto|].
  by destruct op as [| ? ? [] |]; cbn in Hd; simplify_eq.
Qed.

(** They do not deny more: the home is granted as a whole, so for the
    read-only tool roots under it Landlock grants writing and only the mount
    refuses it. *)
Theorem landlock_grants_readonly_tools (show : N -> string) (spec : SessionSpec) (h : Harness)
    (exe root : string) (p : Plan) :
  plan show spec h exe = Ok p -> tools_ro (capabilities spec) = true -> root ∈ tool_roots (home p) ->
  Bind root root Ro true ∈ ops p /\
  forall q, comps root `prefix_of` q -> exists r, r ∈ rules p /\ comps r `prefix_of` q.
Proof.
  intros Hp Ht Hroot. destruct (rules_spec p) as [_ Hr]. pose proof Hp as Hq.
  apply plan_inv in Hp as (home & _ & _ & Hp). rewrite Hp in Hroot |- *. cbn [ops Plan.home] in *. split.
  - rewrite !elem_of_app. unfold tool_ops. rewrite Ht. do 2 right; left. by apply list_elem_of_fmap_2 with (f := fun r => Bind r r Ro true).
  - intros q Hpre. exists home. rewrite <- Hp. split.
    + apply Hr. right. exists (Tmpfs home "0700"). split; [|done]. rewrite Hp. cbn. left.
    + etrans; [|exact Hpre]. unfold tool_roots, under in Hroot. rewrite !elem_of_cons, elem_of_nil in Hroot.
      destruct Hroot as [->|[->|[]]]; rewrite comps_under; by apply prefix_app_r.
Qed.

(** [project.rw] can be taken away after all: a profile whose extra path
    is the workspace itself, read-only, resolves, with the project reported
    writable; the plan mounts the workspace and then that path over it, so what
    the session sees there is read-only. *)
Theorem extra_path_freezes_project (show : N -> string) (spec : SessionSpec) (h : Harness) (exe home ws : string) :
  starts_with "/" ws = true -> guard_extra_path ws home = None ->
  let profile := mk_profile (Some true) None None None None [mk_extra ws Ro] None None None None in
  let caps := mk_caps true false false false false [mk_extra ws Ro] in
  resolve default_set profile home = Ok caps /\ project_rw caps = true /\
  (capabilities spec = caps -> s_workspace spec = ws -> get "HOME" (Session.env spec) = Some home ->
   home <> EmptyString -> ~ comps exe `prefix_of` comps ws ->
   exists p, plan show spec h exe = Ok p /\ Bind ws ws Rw false ∈ ops p /\
     view (ops p) (comps ws) = Some (Bind ws ws Ro false)).
Proof.
  intros Hs Hg profile caps. split; [|split; [done|]].
  - unfold resolve. cbn. by rewrite Hs, Hg.
  - intros Hc Hw Hhome Hne Hexe. unfold plan. rewrite Hhome. destruct home as [|a home]; [done|].
    cbn [is_empty ok_or]. eexists. split; [done|]. cbn [ops]. rewrite Hw. split; [right; left|].
    rewrite Hc. rewrite !app_assoc, view_app. cbn [view op_dest]. rewrite decide_False by done.
    rewrite view_app. unfold extra_ops. subst caps. cbn [extra_paths map view op_dest path mode].
    by rewrite decide_True.
Qed.

(** A prepared session is what was checked: every source bound without
    tolerance exists, the binary and the workspace are there, the stage gets
    the plan's own writable set, and, for distinct extra paths, the bind that
    counts at each mounts the resolved path, which is the written one or has
    passed the guard again. *)
Theorem prepare_sound (show : N -> string) (is_file is_exec is_dir mkdir : string -> bool)
    (canonicalize : string -> result string string) (exists_ : list string -> string -> bool)
    (spec : SessionSpec) (helper exe : string) (p : Plan) (req : Request) :
  prepare show is_file is_exec is_dir mkdir canonicalize exists_ spec helper exe = Ok (p, req) ->
  is_file helper = true /\ is_dir (s_workspace spec) = true /\
  is_exec (default EmptyString (head (Session.argv spec))) = true /\
  r_argv req = Session.argv spec /\ landlock req = rules p /\
  (forall src d m, Bind src d m false ∈ ops p -> exists_ (ensure_dirs p) src = true) /\
  (NoDup (map path (extra_paths (capabilities spec))) -> exe ∉ map path (extra_paths (capabilities spec)) ->
   forall e, e ∈ extra_paths (capabilities spec) ->
   exists r, canonicalize (path e) = Ok r /\ (r = path e \/ guard_extra_path r (home p) = None) /\
     last_bind (ops p) (path e) = Some (Bind r (path e) (mode e) false)).
Proof.
  unfold prepare. destruct (harness_for spec) as [h|]; [|done]. cbn [ok_or].
  destruct (plan show spec h exe) as [p0|] eqn:Ep; [|done]. cbn [map_err].
  apply plan_inv in Ep as (home & _ & _ & Hp0).
  destruct (is_file helper) eqn:Ef; [|done]. destruct (is_exec _) eqn:Ex; [|done].
  destruct (is_dir _) eqn:Ed; [|done].
  destruct (resolve_extras _ _ _ _) as [l|] eqn:Er; [|done].
  destruct (List.find _ _); [done|]. destruct (check_sources _ _ _) as [[]|] eqn:Ec; [|done].
  intros [= <- <-]. rewrite Hp0 in *. cbn [set_ops argv workspace ops ensure_dirs Plan.home r_argv landlock] in *.
  do 5 (split; [done|]). split; [by eapply check_sources_ok|].
  intros Hn Hexe e He. destruct (resolve_extras_bind _ _ _ _ _ _ Er Hn He) as (r & H1 & H2 & H3).
  exists r. split; [done|]. split; [done|]. rewrite H3, !app_assoc, last_bind_app.
  assert (last_bind [Bind exe exe Ro false] (path e) = None) as ->.
  { unfold last_bind. cbn. rewrite bool_decide_false; [done|]. intros ->. apply Hexe. by apply list_elem_of_fmap_2. }
  rewrite last_bind_app. unfold extra_ops. by rewrite last_bind_extras.
Qed.

(** ** The properties at concrete inputs *)

Definition sample_caps : CapabilitySet := mk_caps true true true true true [mk_extra "/home/willie/notes" Rw].

Definition sample_profile : SandboxProfile :=
  mk_profile None None None None None [mk_extra "/home/willie/notes" Rw] None None None None.

Definition sample_spec (caps : CapabilitySet) : SessionSpec :=
  mk_spec 7 2 "claude-code" "/home/willie/projects/x" "/run/s" ["/home/willie/.local/bin/claude"]
    [("HOME", "/home/willie")] "1" "0" None Agent caps.

Definition sample_plan (caps : CapabilitySet) : Plan :=
  match plan pretty (sample_spec caps) ClaudeCode "/opt/willie/willie-sess" with
  | Ok p => p
  | Err _ => mk_plan EmptyString EmptyString [] EmptyString [] [] []
  end.

(** Overlap is decidable, so concrete cases are evaluated. *)
#[export] Instance overlap_dec a b : Decision (overlap a b).
Proof. unfold overlap. apply _. Defined.

Lemma plan_keeps_secrets_witness :
  Bind "/home/willie/notes" "/home/willie/notes" Rw false ∈ ops (sample_plan sample_caps) /\
  ~ overlap (comps "/home/willie/notes") ["home"; "willie"; ".ssh"].
Proof.
  assert (Hin : Bind "/home/willie/notes" "/home/willie/notes" Rw false ∈ ops (sample_plan sample_caps))
    by (vm_compute; in_list).
  split; [exact Hin|].
  apply (plan_keeps_secrets pretty (sample_spec sample_caps) ClaudeCode "/opt/willie/willie-sess" "/home/willie"
    (sample_plan sample_caps) claude_default_capabilities sample_profile ["home"; "willie"; ".ssh"])
    with (dest := "/home/willie/notes") (m := Rw) (o := false).
  - left.
  - reflexivity.
  - discriminate.
  - discriminate.
  - vm_compute. reflexivity.
  - vm_compute. reflexivity.
  - vm_compute. reflexivity.
  - left. reflexivity.
  - by_deciding.
  - by_deciding.
  - intros b [= <-]. by_deciding.
  - exact Hin.
Defined.

Lemma landlock_grants_readonly_tools_witness :
  Bind "/home/willie/.local" "/home/willie/.local" Ro true ∈ ops (sample_plan sample_caps) /\
  exists r, r ∈ rules (sample_plan sample_caps) /\ comps r `prefix_of` ["home"; "willie"; ".local"; "bin"].
Proof.
  destruct (landlock_grants_readonly_tools pretty (sample_spec sample_caps) ClaudeCode "/opt/willie/willie-sess"
    "/home/willie/.local" (sample_plan sample_caps)) as [Hb Hr]; [vm_compute; reflexivity|reflexivity|left|].
  split; [exact Hb|apply Hr]. by_deciding.
Defined.

Definition frozen_caps : CapabilitySet := mk_caps true false false false false [mk_extra "/home/willie/projects/x" Ro].

Lemma extra_path_freezes_project_witness :
  exists p, plan pretty (sample_spec frozen_caps) ClaudeCode "/opt/willie/willie-sess" = Ok p /\
    Bind "/home/willie/projects/x" "/home/willie/projects/x" Rw false ∈ ops p /\
    view (ops p) (comps "/home/willie/projects/x")
      = Some (Bind "/home/willie/projects/x" "/home/willie/projects/x" Ro false).
Proof.
  destruct (extra_path_freezes_project pretty (sample_spec frozen_caps) ClaudeCode "/opt/willie/willie-sess"
    "/home/willie" "/home/willie/projects/x") as (_ & _ & H); [vm_compute; reflexivity..|].
  apply H; [reflexivity|reflexivity|reflexivity|discriminate|by_deciding].
Defined.

(** A machine with everything in place, where [notes] is a link. *)
Definition sample_canonicalize (p : string) : result string string :=
  if bool_decide (p = "/home/willie/notes") then Ok "/data/notes" else Ok p.

Definition sample_prepared : Plan * Request :=
  match prepare pretty (fun _ => true) (fun _ => true) (fun _ => true) (fun _ => true) sample_canonicalize
    (fun _ _ => true) (sample_spec sample_caps) BWRAP "/opt/willie/willie-sess" with
  | Ok r => r
  | Err _ => (sample_plan sample_caps, mk_request [] RLIMITS_DEFAULT [])
  end.

Lemma prepare_sound_witness :
  last_bind (ops (fst sample_prepared)) "/home/willie/notes" = Some (Bind "/data/notes" "/home/willie/notes" Rw false).
Proof.
  destruct (prepare_sound pretty (fun _ => true) (fun _ => true) (fun _ => true) (fun _ => true)
    sample_canonicalize (fun _ _ => true) (sample_spec sample_caps) BWRAP "/opt/willie/willie-sess"
    (fst sample_prepared) (snd sample_prepared)) as (_ & _ & _ & _ & _ & _ & H); [vm_compute; reflexivity|].
  destruct (H ltac:(by_deciding) ltac:(by_deciding) (mk_extra "/home/willie/notes" Rw) ltac:(left))
    as (r & Hr & _ & Hb).
  vm_compute in Hr. injection Hr as <-. exact Hb.
Defined.
