(* ===== verification/DaemonState.v ===== *)
(** * The daemon's state and its event stream

    Models crates/willied/src/state.rs with the wire types of
    crates/willie-proto/src/state.rs and job.rs: the three maps, the sequence
    number, the four mutations and [emit], which commits a mutation and sends
    its event under one lock.  The channel to the client is the list of events
    sent; plugins are not in this state. *)

From S2P Require Import Prelude Text BTree Session Project.

Local Open Scope list_scope.

(** ** Data *)

Inductive JobKind : Type :=
| Add | Remove | SyncToWindows | UpdateFromWindows | Relocate | InstallHarness | UpdateHarness.

#[export] Instance JobKind_eq_dec : EqDecision JobKind.
Proof. solve_decision. Defined.

Inductive JobState : Type :=
| JRunning | JDone
| JFailed (code message remediation : string).

#[export] Instance JobState_eq_dec : EqDecision JobState.
Proof. solve_decision. Defined.

Record Job : Type := mk_job {
  j_id : N;
  j_kind : JobKind;
  j_project : option N;
  j_state : JobState;
  j_started_at : string;
  j_finished_at : option string;
  j_log_tail : string
}.

#[export] Instance Job_eq_dec : EqDecision Job.
Proof. solve_decision. Defined.

Record State : Type := mk_state {
  projects : btree N Project;
  jobs : btree N Job;
  sessions : btree N Session;
  seq : Z
}.

Definition state_new : State := mk_state [] [] [] 0.

Inductive EventKind : Type :=
| ProjectChanged (p : Project)
| ProjectRemoved (id : N)
| JobChanged (j : Job)
| SessionChanged (s : Session).

Record Event : Type := mk_ev { e_seq : Z; e_kind : EventKind }.

Record Snapshot : Type := mk_snapshot {
  n_seq : Z; n_projects : list Project; n_jobs : list Job; n_sessions : list Session
}.

(** ** Operations *)

(** [load], on the records the store read. *)
Definition load (records : list Project) : State :=
  mk_state (foldl (fun m p => put (Project.id p) p m) [] records) [] [] 0.

Definition snapshot (s : State) : Snapshot :=
  mk_snapshot (seq s) (values (projects s)) (values (jobs s)) (values (sessions s)).

Definition bump (s : State) : State :=
  mk_state (projects s) (jobs s) (sessions s) (wrap64 (seq s + 1)).

Definition upsert_project (p : Project) (s : State) : State * Event :=
  let s := bump s in
  (mk_state (put (Project.id p) p (projects s)) (jobs s) (sessions s) (seq s), mk_ev (seq s) (ProjectChanged p)).

Definition remove_project (id : N) (s : State) : State * Event :=
  let s := bump s in
  (mk_state (remove id (projects s)) (jobs s) (sessions s) (seq s), mk_ev (seq s) (ProjectRemoved id)).

Definition upsert_job (j : Job) (s : State) : State * Event :=
  let s := bump s in
  (mk_state (projects s) (put (j_id j) j (jobs s)) (sessions s) (seq s), mk_ev (seq s) (JobChanged j)).

Definition upsert_session (x : Session) (s : State) : State * Event :=
  let s := bump s in
  (mk_state (projects s) (jobs s) (put (Session.id x) x (sessions s)) (seq s), mk_ev (seq s) (SessionChanged x)).

Definition live_session_ids_for (project : N) (s : State) : list N :=
  map Session.id
    (List.filter (fun x => (Session.project_id x =? project)%N && is_live (Session.state x)) (values (sessions s))).

(** The shared state and what the outbound thread was given. *)
Definition Shared : Type := State * list Event.

Definition emit (mutate : State -> State * Event) (d : Shared) : Shared :=
  let '(s, out) := d in
  let '(s, event) := mutate s in (s, out ++ [event]).

(** ** Specification *)

(** Every mutation of the code is one of the four. *)
Inductive mutation : Type :=
| MUpsertProject (p : Project) | MRemoveProject (id : N) | MUpsertJob (j : Job) | MUpsertSession (x : Session).

Definition mutate (m : mutation) : State -> State * Event :=
  match m with
  | MUpsertProject p => upsert_project p
  | MRemoveProject id => remove_project id
  | MUpsertJob j => upsert_job j
  | MUpsertSession x => upsert_session x
  end.

(** Every record is stored under its own id, in order. *)
Definition keyed {V} (id : V -> N) (m : btree N V) : Prop := Forall (fun e => fst e = id (snd e)) m.

Definition wf_state (s : State) : Prop :=
  ordered (projects s) /\ ordered (jobs s) /\ ordered (sessions s) /\
  keyed Project.id (projects s) /\ keyed j_id (jobs s) /\ keyed Session.id (sessions s) /\
  (0 <= seq s <= u64_max)%Z.

(** ** Lemmas *)

Lemma keyed_values {V} (id : V -> N) m : keyed id m -> map (fun v => (id v, v)) (values m) = m.
Proof.
  induction 1 as [|[k v] m Hk _ IH]; [done|]. cbn in *. unfold values in IH. by rewrite IH, Hk.
Qed.

Lemma keyed_put {V} (id : V -> N) v m : keyed id m -> keyed id (put (id v) v m).
Proof. by apply put_forall. Qed.

Lemma mutate_wf m s : wf_state s -> wf_state (fst (mutate m s)).
Proof.
  intros (O1 & O2 & O3 & K1 & K2 & K3 & Hs).
  assert (Hw : (0 <= wrap64 (seq s + 1) <= u64_max)%Z) by (unfold wrap64, u64_max; lia_div).
  destruct m; cbn; unfold wf_state; cbn; (repeat (split; [by auto using put_ordered, remove_ordered, keyed_put|])); try done;
    (split; [by apply remove_forall|]); done.
Qed.

Lemma emit_out m s out : emit (mutate m) (s, out) = (fst (mutate m s), out ++ [snd (mutate m s)]).
Proof. unfold emit. by destruct (mutate m s). Qed.

Lemma load_wf records : wf_state (load records).
Proof.
  assert (H : forall m : btree N Project, ordered m -> keyed Project.id m ->
    let m' := foldl (fun m p => put (Project.id p) p m) m records in ordered m' /\ keyed Project.id m').
  { induction records as [|p l IH]; intros m Ho Hk; [done|]. cbn [foldl].
    apply IH; [by apply put_ordered|by apply keyed_put]. }
  destruct (H [] I (Forall_nil_2 _)) as [H1 H2]. unfold wf_state, load, keyed. cbn.
  repeat (split; [by auto|]). unfold u64_max. lia.
Qed.
