(* ===== verification/View.v ===== *)
(** * The webview's copy of the daemon's state

    Models src/apps/willie-app/src/lib/domain/state.ts and daemon-snapshot.ts:
    the reducer of the daemon's events, and the store that holds the last
    snapshot, folds an event that follows it and fetches another where one does
    not.  The daemon, its events on their way, the fetches and the holders of
    the store move in any order.  The plugins of a snapshot, which no event
    changes, are left out. *)

From S2P Require Import Prelude Text BTree Session Project DaemonState.

Local Open Scope list_scope.

(** ** The reducer *)

Definition needsResnapshot (current : Snapshot) (ev : Event) : bool := negb (e_seq ev =? n_seq current + 1)%Z.

(** The first row with the id, in its place, or one more row. *)
Definition replace_row {V} (id : V -> N) (v : V) (rows : list V) : list V :=
  match list_find (fun x => id x = id v) rows with
  | Some (i, _) => <[i := v]> rows
  | None => rows ++ [v]
  end.

Definition applyEvent (current : Snapshot) (ev : Event) : Snapshot :=
  match e_kind ev with
  | ProjectChanged p => mk_snapshot (e_seq ev) (replace_row Project.id p (n_projects current)) (n_jobs current) (n_sessions current)
  | ProjectRemoved id =>
      mk_snapshot (e_seq ev) (List.filter (fun p => negb (Project.id p =? id)%N) (n_projects current)) (n_jobs current) (n_sessions current)
  | JobChanged j => mk_snapshot (e_seq ev) (n_projects current) (replace_row j_id j (n_jobs current)) (n_sessions current)
  | SessionChanged x => mk_snapshot (e_seq ev) (n_projects current) (n_jobs current) (replace_row Session.id x (n_sessions current))
  end.

(** ** The store *)

Inductive Status : Type := Idle | Loading | Ready | Failed.

(** [createStore]'s variables; [unsubscribed] is the subscription's problem. *)
Record Store : Type := mk_store {
  status : Status;
  shown : option Snapshot;
  holders : nat;
  generation : nat;
  unsubscribed : bool
}.

Definition createStore : Store := mk_store Idle None 0 0 false.

Definition set (st : Status) (n : option Snapshot) (s : Store) : Store := mk_store st n (holders s) (generation s) (unsubscribed s).

Definition fail (s : Store) : Store := set Failed (shown s) s.

(** A fetch that has resolved, or been rejected. *)
Definition loaded (gen : nat) (r : option Snapshot) (s : Store) : Store :=
  if negb (gen =? generation s)%nat then s
  else
    match r with
    | Some n => if unsubscribed s then set Failed (Some n) s else set Ready (Some n) s
    | None => fail s
    end.

(** An event, none where what came has no number; whether a fetch is begun. *)
Definition handle (ev : option Event) (gen : nat) (s : Store) : Store * bool :=
  if negb (gen =? generation s)%nat then (s, false)
  else
    match status s, shown s, ev with
    | Ready, Some n, Some ev => if needsResnapshot n ev then (s, true) else (set Ready (Some (applyEvent n ev)) s, false)
    | _, _, _ => (s, true)
    end.

(** The first holder begins a fetch. *)
Definition acquire (s : Store) : Store * bool :=
  if (holders s =? 0)%nat then (mk_store Loading (shown s) 1 (S (generation s)) false, true)
  else (mk_store (status s) (shown s) (S (holders s)) (generation s) (unsubscribed s), false).

Definition release (s : Store) : Store :=
  match holders s with
  | 0 => s
  | 1 => mk_store Idle None 0 (S (generation s)) false
  | S n => mk_store (status s) (shown s) n (generation s) (unsubscribed s)
  end.

(** The subscription of a generation is refused. *)
Definition refuse_subscription (gen : nat) (s : Store) : Store :=
  if negb (gen =? generation s)%nat then s
  else fail (mk_store (status s) (shown s) (holders s) (generation s) true).

(** ** The daemon, the bridge and the store *)

Record System : Type := mk_system {
  daemon : State;
  transit : list Event;
  asked : list nat;
  answered : list (nat * option Snapshot);
  store : Store
}.

(** The daemon mutates its state; the next event reaches the listener of a
    generation (nobody listens where the store has no holder) or is lost on the
    way; the daemon answers a fetch, which resolves later, in any order. *)
Inductive Move : Type :=
| Mutate (m : mutation)
| Deliver (gen : nat)
| Lose
| Answer (i : nat)
| Refuse (i : nat)
| Resolve (i : nat)
| Acquire
| Release
| Unsubscribe (gen : nat).

Section system.
  (** What the page reads of an event and of a snapshot that were sent. *)
  Context (heard : Event -> option Event) (read : Snapshot -> option Snapshot).

Definition with_store (s : System) (st : Store) (gen : nat) (begun : bool) : System :=
  mk_system (daemon s) (transit s) (if begun then asked s ++ [gen] else asked s) (answered s) st.

Definition step (s : System) (m : Move) : System :=
  match m with
  | Mutate m => let '(d, out) := emit (mutate m) (daemon s, transit s) in mk_system d out (asked s) (answered s) (store s)
  | Deliver gen =>
      match transit s with
      | [] => s
      | e :: rest =>
          let '(st, begun) := if (holders (store s) =? 0)%nat then (store s, false) else handle (heard e) gen (store s) in
          with_store (mk_system (daemon s) rest (asked s) (answered s) (store s)) st gen begun
      end
  | Lose => mk_system (daemon s) (tail (transit s)) (asked s) (answered s) (store s)
  | Answer i =>
      match asked s !! i with
      | Some gen => mk_system (daemon s) (transit s) (delete i (asked s)) (answered s ++ [(gen, read (snapshot (daemon s)))]) (store s)
      | None => s
      end
  | Refuse i =>
      match asked s !! i with
      | Some gen => mk_system (daemon s) (transit s) (delete i (asked s)) (answered s ++ [(gen, None)]) (store s)
      | None => s
      end
  | Resolve i =>
      match answered s !! i with
      | Some (gen, r) => mk_system (daemon s) (transit s) (asked s) (delete i (answered s)) (loaded gen r (store s))
      | None => s
      end
  | Acquire => let '(st, begun) := acquire (store s) in with_store s st (generation st) begun
  | Release => with_store s (release (store s)) 0 false
  | Unsubscribe gen => if (holders (store s) =? 0)%nat then s else with_store s (refuse_subscription gen (store s)) 0 false
  end.

Definition run (s : System) (ms : list Move) : System := foldl step s ms.

Definition at_start (records : list Project) : System := mk_system (load records) [] [] [] createStore.
End system.

(** ** Specification *)

(** What is known of a snapshot, by id. *)
Record View : Type := mk_view { v_projects : gmap N Project; v_jobs : gmap N Job; v_sessions : gmap N Session }.

Definition by_id {V} (id : V -> N) (rows : list V) : gmap N V := list_to_map (map (fun v => (id v, v)) rows).
#[local] Arguments by_id : simpl never.

Definition view_of (n : Snapshot) : View :=
  mk_view (by_id Project.id (n_projects n)) (by_id j_id (n_jobs n)) (by_id Session.id (n_sessions n)).

(** No id has two rows. *)
Definition rows_apart (n : Snapshot) : Prop :=
  NoDup (map Project.id (n_projects n)) /\ NoDup (map j_id (n_jobs n)) /\ NoDup (map Session.id (n_sessions n)).

(** The mutations among the moves, the daemon's state after the first [k] of
    them, and the event of the one after those. *)
Definition committed (ms : list Move) : list mutation := omap (fun m => match m with Mutate m => Some m | _ => None end) ms.

Definition history (records : list Project) (ms : list mutation) (k : nat) : State :=
  foldl (fun s m => fst (mutate m s)) (load records) (firstn k ms).

Definition events (records : list Project) (ms : list mutation) : list Event :=
  imap (fun k m => snd (mutate m (history records ms k))) ms.

(** A snapshot of the state after [k] of the mutations, with [k] up to [j]. *)
Definition faithful (records : list Project) (ms : list mutation) (j : nat) (n : Snapshot) : Prop :=
  exists k, (k <= j)%nat /\ n_seq n = Z.of_nat k /\ view_of n = view_of (snapshot (history records ms k)) /\ rows_apart n.

(** ** The reducer's lemmas *)

Lemma by_id_values {V} (id : V -> N) m : keyed id m -> by_id id (values m) = to_gmap m.
Proof. intros H. unfold by_id. by rewrite keyed_values. Qed.

Lemma replace_row_cons {V} (id : V -> N) v x rows :
  replace_row id v (x :: rows) = if decide (id x = id v) then v :: rows else x :: replace_row id v rows.
Proof.
  unfold replace_row. cbn [list_find]. destruct (decide (id x = id v)); [done|]. by destruct (list_find _ rows) as [[i y]|].
Qed.

Lemma by_id_replace {V} (id : V -> N) v rows : by_id id (replace_row id v rows) = <[id v := v]> (by_id id rows).
Proof.
  unfold by_id. induction rows as [|x rows IH]; [done|]. rewrite replace_row_cons. destruct (decide (id x = id v)) as [E|E]; cbn.
  - by rewrite E, insert_insert_eq.
  - by rewrite IH, insert_insert_ne.
Qed.

Lemma by_id_without {V} (id : V -> N) i rows :
  by_id id (List.filter (fun p => negb (id p =? i)%N) rows) = delete i (by_id id rows).
Proof.
  unfold by_id. induction rows as [|x rows IH]; cbn; [by rewrite delete_empty|]. destruct (N.eqb_spec (id x) i) as [E|E]; cbn; rewrite IH.
  - by rewrite <- E, delete_insert_eq.
  - by rewrite delete_insert_ne.
Qed.

Lemma replaced_ids {V} (id : V -> N) v rows x : x ∈ map id (replace_row id v rows) -> x = id v \/ x ∈ map id rows.
Proof.
  induction rows as [|y rows IH]; [cbn; rewrite list_elem_of_singleton; by left|]. rewrite replace_row_cons.
  destruct (decide (id y = id v)) as [E|E]; cbn; rewrite !elem_of_cons; [intros [->|H]; tauto|]. intros [->|H]; [tauto|].
  destruct (IH H); tauto.
Qed.

Lemma replaced_apart {V} (id : V -> N) v rows : NoDup (map id rows) -> NoDup (map id (replace_row id v rows)).
Proof.
  induction rows as [|x rows IH]; [intros _; apply NoDup_singleton|]. cbn [map]. rewrite NoDup_cons. intros [Hx Hr].
  rewrite replace_row_cons. destruct (decide (id x = id v)) as [E|E]; cbn; rewrite NoDup_cons; [by rewrite <- E|].
  split; [|by apply IH]. intros H. destruct (replaced_ids _ _ _ _ H); [done|tauto].
Qed.

Lemma without_apart {V} (id : V -> N) f rows : NoDup (map id rows) -> NoDup (map id (List.filter f rows)).
Proof.
  induction rows as [|x rows IH]; [done|]. cbn. rewrite NoDup_cons. intros [Hx Hr]. destruct (f x); [|by apply IH].
  cbn. rewrite NoDup_cons. split; [|by apply IH]. intros H. apply Hx. apply list_elem_of_In, in_map_iff in H as (y & <- & Hy).
  apply List.filter_In in Hy as [Hy _]. by apply list_elem_of_In, in_map.
Qed.

Lemma applied_apart n ev : rows_apart n -> rows_apart (applyEvent n ev).
Proof.
  intros (H1 & H2 & H3). unfold applyEvent, rows_apart. destruct (e_kind ev); cbn; repeat split;
    auto using replaced_apart, without_apart.
Qed.

(** An event folded into a view of the state it comes after is a view of the
    state it comes from. *)
Lemma applied_view m s n : wf_state s -> view_of n = view_of (snapshot s) ->
  view_of (applyEvent n (snd (mutate m s))) = view_of (snapshot (fst (mutate m s))).
Proof.
  intros Hw Hn. pose proof (mutate_wf m s Hw) as (_ & _ & _ & P1 & P2 & P3 & _). destruct Hw as (_ & _ & _ & K1 & K2 & K3 & _).
  unfold view_of in *. injection Hn as H1 H2 H3. cbn [snapshot n_projects n_jobs n_sessions] in *.
  rewrite !by_id_values in * by done. destruct m; cbn in *; f_equal;
    by rewrite ?by_id_replace, ?by_id_without, ?to_gmap_insert, ?to_gmap_remove, ?H1, ?H2, ?H3.
Qed.

Lemma keyed_apart {V} (id : V -> N) m : ordered m -> keyed id m -> NoDup (map id (values m)).
Proof.
  intros Ho Hk. apply ordered_nodup in Ho. replace (map id (values m)) with (map fst m); [done|]. unfold values.
  rewrite map_map. clear Ho. induction Hk as [|e m He _ IH]; [done|]. cbn. by rewrite He, IH.
Qed.

Lemma snapshot_apart s : wf_state s -> rows_apart (snapshot s).
Proof. intros (O1 & O2 & O3 & K1 & K2 & K3 & _). unfold rows_apart. cbn. auto using keyed_apart. Qed.

(** ** Every run *)

Section runs.
  Context (heard : Event -> option Event) (read : Snapshot -> option Snapshot).
  Context (records : list Project) (ms : list mutation).
  (** What the mutations send is read as it was sent, and they can be counted. *)
  Context (Hheard : Forall (fun e => heard e = Some e) (events records ms))
    (Hread : forall k, (k <= length ms)%nat -> read (snapshot (history records ms k)) = Some (snapshot (history records ms k)))
    (Hcount : (Z.of_nat (length ms) <= u64_max)%Z).

Lemma history_next k m : ms !! k = Some m -> history records ms (S k) = fst (mutate m (history records ms k)).
Proof using Type. intros H. unfold history. by rewrite (take_S_r _ _ m H), foldl_app. Qed.

Lemma history_wf k : (k <= length ms)%nat -> wf_state (history records ms k) /\ seq (history records ms k) = Z.of_nat k.
Proof using Hcount.
  induction k as [|k IH]; intros Hk; [by split; [apply load_wf|]|]. destruct (IH ltac:(lia)) as [Hw Hs].
  destruct (lookup_lt_is_Some_2 ms k ltac:(lia)) as [m Hm]. rewrite (history_next k m Hm). split; [by apply mutate_wf|].
  replace (seq (fst (mutate m (history records ms k)))) with (wrap64 (seq (history records ms k) + 1)) by by destruct m.
  rewrite Hs. unfold wrap64, u64_max in *. rewrite Z.mod_small; lia.
Qed.

(** The event of the mutation [k] is the next number's. *)
Lemma event_seq k m : ms !! k = Some m -> e_seq (snd (mutate m (history records ms k))) = (Z.of_nat k + 1)%Z.
Proof using Hcount.
  intros Hm. pose proof (lookup_lt_Some _ _ _ Hm) as Hk. destruct (history_wf (S k) ltac:(lia)) as [_ Hs].
  rewrite (history_next k m Hm) in Hs. replace (e_seq (snd (mutate m (history records ms k)))) with (seq (fst (mutate m (history records ms k)))) by by destruct m.
  rewrite Hs. lia.
Qed.

(** An event of the first [j] mutations. *)
Definition emitted (j : nat) (e : Event) : Prop := exists k m, (k < j)%nat /\ ms !! k = Some m /\ e = snd (mutate m (history records ms k)).

Lemma emitted_heard j e : emitted j e -> heard e = Some e.
Proof using Hheard.
  intros (k & m & _ & Hm & ->). rewrite Forall_forall in Hheard. apply Hheard. apply list_elem_of_lookup. exists k.
  unfold events. rewrite list_lookup_imap, Hm. done.
Qed.

(** An event that follows a faithful snapshot makes the next one. *)
Lemma applied_faithful j n e : (j <= length ms)%nat -> faithful records ms j n -> emitted j e -> e_seq e = (n_seq n + 1)%Z ->
  faithful records ms j (applyEvent n e) /\ n_seq (applyEvent n e) = e_seq e.
Proof using Hcount.
  intros Hj (k & Hk & Hn & Hv & Ha) (k' & m & Hk' & Hm & ->) He. rewrite (event_seq k' m Hm) in He. assert (k' = k) as -> by lia.
  assert (Hs : n_seq (applyEvent n (snd (mutate m (history records ms k)))) = e_seq (snd (mutate m (history records ms k)))) by by destruct m.
  split; [|done]. exists (S k). split; [lia|]. rewrite Hs, (event_seq k m Hm). split; [lia|].
  rewrite (history_next k m Hm). split; [|by apply applied_apart]. apply applied_view; [|done]. by apply history_wf; lia.
Qed.

Lemma snapshot_faithful j : (j <= length ms)%nat -> faithful records ms j (snapshot (history records ms j)).
Proof using Hcount.
  intros Hj. destruct (history_wf j Hj) as [Hw Hs]. exists j. repeat split; [lia|by cbn|by apply snapshot_apart..].
Qed.

(** After [j] mutations. *)
Definition good (j : nat) (s : System) : Prop :=
  (j <= length ms)%nat /\ daemon s = history records ms j /\ Forall (emitted j) (transit s) /\
  Forall (fun a => forall n, snd a = Some n -> faithful records ms j n) (answered s) /\
  (forall n, shown (store s) = Some n -> faithful records ms j n).

Lemma handle_shows ev gen st n : shown (fst (handle ev gen st)) = Some n ->
  shown st = Some n \/ exists n0 e, ev = Some e /\ shown st = Some n0 /\ e_seq e = (n_seq n0 + 1)%Z /\ n = applyEvent n0 e.
Proof using Type.
  unfold handle, needsResnapshot. destruct (negb _); [by left|].
  destruct (status st), (shown st) as [n0|] eqn:E, ev as [e|]; cbn; try (rewrite E; by left).
  destruct (Z.eqb_spec (e_seq e) (n_seq n0 + 1)); cbn; [|rewrite E; by left]. intros [= <-]. right. eauto 6.
Qed.

Lemma loaded_shows gen r st n : shown (loaded gen r st) = Some n -> shown st = Some n \/ r = Some n.
Proof using Type. unfold loaded, fail. repeat case_match; cbn; auto; intros [= <-]; auto. Qed.

Lemma good_grows j s : good j s -> (S j <= length ms)%nat ->
  Forall (emitted (S j)) (transit s) /\ Forall (fun a => forall n, snd a = Some n -> faithful records ms (S j) n) (answered s) /\
  (forall n, shown (store s) = Some n -> faithful records ms (S j) n).
Proof using Type.
  assert (Hf : forall n, faithful records ms j n -> faithful records ms (S j) n) by (intros n (k & Hk & H); exists k; split; [lia|done]).
  intros (_ & _ & H1 & H2 & H3) _. split; [|split; [|auto]].
  - eapply Forall_impl; [exact H1|]. intros e (k & m & Hk & H). exists k, m. split; [lia|done].
  - eapply Forall_impl; [exact H2|]. intros a H n Hn. auto.
Qed.

Lemma step_good j s m : good j s -> (forall x, m = Mutate x -> ms !! j = Some x) ->
  good (match m with Mutate _ => S j | _ => j end) (step heard read s m).
Proof using All.
  intros Hg Hm. pose proof Hg as (Hj & Hd & Ht & Ha & Hs). destruct m as [x|gen| |i|i|i| | |gen]; cbn [step].
  - specialize (Hm x eq_refl). pose proof (lookup_lt_Some _ _ _ Hm) as Hlt. destruct (good_grows j s Hg Hlt) as (H1 & H2 & H3).
    rewrite emit_out. split; [done|]. cbn. rewrite Hd, <- (history_next j x Hm). split; [done|]. split; [|by split].
    apply Forall_app. split; [done|]. constructor; [|constructor]. exists j, x. rewrite <- Hd. repeat split; [lia|done].
  - destruct (transit s) as [|e rest] eqn:Et; [by rewrite <- Et in Ht|]. apply Forall_cons in Ht as [He Hr].
    destruct (holders (store s) =? 0)%nat; [by repeat split|].
    destruct (handle (heard e) gen (store s)) as [st b] eqn:Eh. repeat split; [done..|]. cbn. intros n Hn.
    destruct (handle_shows (heard e) gen (store s) n) as [Hn0|(n0 & e0 & He0 & Hn0 & Hq & ->)]; [by rewrite Eh|by apply Hs|].
    rewrite (emitted_heard j e He) in He0. injection He0 as <-. by apply applied_faithful; auto.
  - repeat split; [done..| |done|done]. cbn. by destruct Ht.
  - destruct (asked s !! i) as [gen|]; [|done]. repeat split; [done..| |done]. cbn. apply Forall_app. split; [done|].
    constructor; [|constructor]. cbn. rewrite Hd, (Hread j Hj). intros n [= <-]. by apply snapshot_faithful.
  - destruct (asked s !! i) as [gen|]; [|done]. repeat split; [done..| |done]. cbn. apply Forall_app. split; [done|]. by repeat constructor.
  - destruct (answered s !! i) as [[gen r]|] eqn:Ei; [|done]. repeat split; [done..| |].
    + cbn. by apply Forall_delete.
    + cbn. intros n [Hn| ->]%loaded_shows; [by apply Hs|]. rewrite Forall_lookup in Ha. by apply (Ha i _ Ei).
  - unfold acquire. destruct (_ =? _)%nat; by repeat split.
  - unfold release. destruct (holders (store s)) as [|[|h]] eqn:Eh; repeat split; try done; cbn; by rewrite ?Eh in *.
  - destruct (_ =? _)%nat; [done|]. unfold refuse_subscription. destruct (negb _); by repeat split.
Qed.

Lemma run_good moves : forall pre s, ms = pre ++ committed moves -> good (length pre) s -> good (length ms) (run heard read s moves).
Proof using All.
  induction moves as [|m moves IH]; intros pre s Hc Hg.
  - cbn in Hc. rewrite app_nil_r in Hc. by rewrite Hc.
  - cbn [run foldl]. fold (run heard read (step heard read s m) moves). destruct m as [x|gen| |i|i|i| | |gen].
    1: { apply (IH (pre ++ [x])); [by rewrite <- app_assoc|]. rewrite length_app, Nat.add_1_r. apply (step_good _ s (Mutate x)); [done|].
         intros y [= <-]. rewrite Hc, lookup_app_r, Nat.sub_diag by done. done. }
    all: apply (IH pre); [done|]; match goal with |- good _ (step _ _ _ ?m) => refine (step_good _ s m Hg _); discriminate end.
Qed.

(** What is on its way, when nothing of it was lost since the snapshot shown. *)
Definition unbroken (j : nat) (es : list Event) (n : Snapshot) : Prop :=
  exists a, (0 <= a <= n_seq n + 1)%Z /\ map e_seq es = seqZ a (Z.of_nat j + 1 - a).

Lemma delivered_all j es : forall s n, transit s = es -> good j s -> status (store s) = Ready -> shown (store s) = Some n ->
  holders (store s) <> 0%nat -> unbroken j es n ->
  let s' := run heard read s (repeat (Deliver (generation (store s))) (length es)) in
  status (store s') = Ready /\ daemon s' = daemon s /\ exists n', shown (store s') = Some n' /\ n_seq n' = Z.of_nat j /\
    view_of n' = view_of (snapshot (daemon s)).
Proof using All.
  revert j. induction es as [|e es IH]; intros j s n Ht Hg Hr Hs Hh (a & Ha & Hu); cbn zeta.
  - cbn. split; [done|]. split; [done|]. exists n. split; [done|]. destruct Hg as (Hj & Hd & _ & _ & Hf).
    destruct (Hf n Hs) as (k & Hk & Hn & Hv & _). assert (Hl : length (seqZ a (Z.of_nat j + 1 - a)) = 0%nat) by by rewrite <- Hu.
    rewrite length_seqZ in Hl. assert (k = j) as -> by lia. by rewrite Hd.
  - cbn [map] in Hu. assert (Hl : (0 < Z.of_nat j + 1 - a)%Z).
    { destruct (decide (0 < Z.of_nat j + 1 - a)%Z); [done|]. rewrite seqZ_nil in Hu by lia. discriminate. }
    rewrite seqZ_cons in Hu by lia. injection Hu as He Hes.
    pose proof Hg as (_ & _ & Hem & _). rewrite Ht in Hem. apply Forall_cons in Hem as [Hem _].
    cbn [length repeat run foldl]. set (s1 := step heard read s (Deliver (generation (store s)))).
    assert (Hg1 : good j s1) by exact (step_good _ s (Deliver _) Hg ltac:(discriminate)).
    assert (H1 : exists n1 q b, s1 = mk_system (daemon s) es (asked s ++ b) (answered s) (set Ready (Some n1) (store s)) /\ n_seq n1 = q /\ (a <= q)%Z).
    { unfold s1. cbn [step]. rewrite Ht, (emitted_heard j e Hem). destruct (Nat.eqb_spec (holders (store s)) 0) as [|_]; [done|].
      unfold handle, needsResnapshot. rewrite Nat.eqb_refl, Hr, Hs. cbn [negb]. destruct (Z.eqb_spec (e_seq e) (n_seq n + 1)) as [E|E]; cbn.
      - exists (applyEvent n e), a, []. rewrite app_nil_r. split; [done|]. split; [by destruct e as [q []]|lia].
      - exists n, (n_seq n), [generation (store s)]. split; [|split; [done|lia]]. unfold set, with_store. f_equal. rewrite <- Hr, <- Hs. by destruct (store s). }
    destruct H1 as (n1 & q & b & E1 & Hq & Hle).
    specialize (IH j s1 n1 ltac:(by rewrite E1) Hg1 ltac:(by rewrite E1) ltac:(by rewrite E1) ltac:(by rewrite E1)).
    assert (E2 : generation (store s1) = generation (store s)) by by rewrite E1.
    assert (E3 : daemon s1 = daemon s) by by rewrite E1.
    rewrite E2, E3 in IH. apply IH. exists (a + 1)%Z. split; [lia|].
    rewrite Hes. f_equal; lia.
Qed.
End runs.

(** What a run of the system shows, in its mutations [ms]. *)
Definition true_view (heard : Event -> option Event) (read : Snapshot -> option Snapshot) (records : list Project) (ms : list mutation) (s : System) : Prop :=
  daemon s = history records ms (length ms)
  /\ (forall n, shown (store s) = Some n -> faithful records ms (length ms) n)
  /\ (forall n, status (store s) = Ready -> shown (store s) = Some n -> holders (store s) <> 0%nat -> unbroken (length ms) (transit s) n ->
      let s' := run heard read s (repeat (Deliver (generation (store s))) (length (transit s))) in
      status (store s') = Ready /\ daemon s' = daemon s /\ exists n', shown (store s') = Some n' /\ n_seq n' = Z.of_nat (length ms) /\
        view_of n' = view_of (snapshot (daemon s)))
  /\ (forall n e rest, status (store s) = Ready -> shown (store s) = Some n -> holders (store s) <> 0%nat -> transit s = e :: rest ->
      e_seq e <> (n_seq n + 1)%Z -> let gen := generation (store s) in
      step heard read s (Deliver gen) = mk_system (daemon s) rest (asked s ++ [gen]) (answered s) (store s))
  /\ (forall i, asked s !! i = Some (generation (store s)) -> unsubscribed (store s) = false ->
      let s' := run heard read s [Answer i; Resolve (length (answered s))] in
      status (store s') = Ready /\ shown (store s') = Some (snapshot (daemon s)) /\ daemon s' = daemon s).

Lemma run_true heard read records moves : let ms := committed moves in
  Forall (fun e => heard e = Some e) (events records ms) ->
  (forall k, (k <= length ms)%nat -> read (snapshot (history records ms k)) = Some (snapshot (history records ms k))) ->
  (Z.of_nat (length ms) <= u64_max)%Z ->
  true_view heard read records ms (run heard read (at_start records) moves).
Proof.
  intros ms Hh Hr Hc. assert (Hg : good records ms (length ms) (run heard read (at_start records) moves)).
  { apply (run_good heard read records ms Hh Hr Hc moves [] (at_start records)); [done|].
    split; [cbn; lia|]. split; [done|]. split; [constructor|]. split; [constructor|done]. }
  destruct Hg as (Hj & Hd & Ht & Ha & Hs). split; [done|]. split; [done|]. split; [|split].
  - intros n H1 H2 H3 H4. by eapply (delivered_all heard read records ms).
  - intros n e rest H1 H2 H3 H4 H5. rewrite H4 in Ht. apply Forall_cons in Ht as [He _]. cbn [step]. rewrite H4, (emitted_heard heard records ms Hh _ e He).
    destruct (Nat.eqb_spec (holders (store (run heard read (at_start records) moves))) 0); [done|].
    unfold handle, needsResnapshot. rewrite Nat.eqb_refl, H1, H2. cbn [negb]. by destruct (Z.eqb_spec (e_seq e) (n_seq n + 1)).
  - intros i H1 H2. cbn [run foldl]. cbn [step]. rewrite H1. cbn [answered asked daemon transit store].
    rewrite lookup_app_r, Nat.sub_diag by done. cbn. rewrite Hd at 1 2. rewrite (Hr _ Hj). unfold loaded. rewrite Nat.eqb_refl, H2. cbn.
    by rewrite Hd.
Qed.

Lemma events_numbered records ms : (Z.of_nat (length ms) <= u64_max)%Z ->
  map e_seq (events records ms) = seqZ 1 (Z.of_nat (length ms)).
Proof.
  intros Hc. apply list_eq. intros i. unfold events. rewrite list_lookup_fmap, list_lookup_imap.
  destruct (ms !! i) as [m|] eqn:Hm; cbn.
  - rewrite (event_seq records ms Hc i m Hm). pose proof (lookup_lt_Some _ _ _ Hm) as Hi. symmetry. apply lookup_seqZ. lia.
  - symmetry. apply lookup_seqZ_ge. apply lookup_ge_None in Hm. lia.
Qed.

(** ** A daemon that was started again *)

Definition a_job (id : N) : Job := mk_job id Add None JDone "100" None EmptyString.

(** The store that shows an earlier daemon's first state, when the new one has
    mutated its own once, and that event was lost before anybody listened. *)
Definition restarted : System :=
  mk_system (history [] [MUpsertJob (a_job 2)] 1) [] [] [] (mk_store Ready (Some (mk_snapshot 1 [] [a_job 1] [])) 1 1 false).

(** A restart is told by its numbers alone: the new daemon's second event
    follows the old one's first, and is folded into a state no daemon had, with
    no fetch begun. *)
Example a_restart_can_be_missed :
  let s := run Some Some restarted [Mutate (MUpsertJob (a_job 3)); Deliver 1] in
  (map j_id ∘ n_jobs <$> shown (store s)) = Some [1; 3]%N /\ map j_id (n_jobs (snapshot (daemon s))) = [2; 3]%N /\ asked s = [].
Proof. by vm_compute. Qed.
