(* ===== verification/Jobs.v ===== *)
(** * The job runner

    Models crates/willied/src/jobs.rs as the atomic actions of its threads: a
    submission inserts its busy entry, registers its cancel flag, emits the
    running job and spawns the worker; a worker takes a pool slot, runs, gives
    the slot back, clears its bookkeeping lock by lock and emits the final job.
    The actions of all threads interleave freely; [act] is executable and
    [step] is the relation it induces.  What the work closure does is the
    outcome of its action. *)

From S2P Require Import Prelude Text BTree DaemonState.

Local Open Scope string_scope.
Local Open Scope list_scope.

(** ** Data *)

Definition triple : Type := string * string * string.

(** [JobOutcome], and what ends the work: a value or a panic. *)
Definition JobOutcome : Type := result string triple.
Inductive ending : Type := Returned (o : JobOutcome) | Panicked (message : option string).

(** Where a job's thread is, by the last thing it did. *)
Inductive phase : Type :=
| Reserved      (** the busy entry, or the tool flag, is taken *)
| Registered    (** the cancel flag is in the table *)
| Waiting       (** the running job was emitted, the thread spawned *)
| Acquired      (** a pool slot is held, the cleanup guard exists *)
| Ran (o : JobOutcome)
| Released (o : JobOutcome)
| Unbusied (o : JobOutcome)
| Dropped (o : JobOutcome).

Record Worker : Type := mk_worker {
  w_kind : JobKind; w_project : option N; w_started_at : string; w_tripped : bool; w_phase : phase
}.

Record Runner : Type := mk_runner {
  shared : Shared;
  running : nat;
  busy : gset N;
  tool_busy : bool;
  cancels : gset N;
  workers : gmap N Worker
}.

Definition LIMIT : nat := 3.

Definition runner_new (st : State) : Runner := mk_runner (st, []) 0 ∅ false ∅ ∅.

(** ** Outcomes *)

Definition cancelled_outcome : triple :=
  ("cancelled", "the job was cancelled", "start it again if you still need it").

Definition panic_outcome (message : option string) : triple :=
  ("job_panicked", default "the job thread panicked" message,
   "try the operation again; if it keeps happening, report it").

Fixpoint str_drop (n : nat) (s : string) : string :=
  match n, s with
  | S n, String _ s => str_drop n s
  | _, _ => s
  end.

(** Forward to the next character boundary. *)
Fixpoint to_boundary (s : string) : string :=
  match s with
  | EmptyString => EmptyString
  | String a s' => if continuation a then to_boundary s' else s
  end.

Definition TAIL_MAX : nat := Z.to_nat 4096.
Arguments TAIL_MAX : simpl never.

Definition tail (log : string) : string :=
  if (String.length log <=? TAIL_MAX)%nat then log
  else to_boundary (str_drop (String.length log - TAIL_MAX) log).

Definition outcome_of (tripped : bool) (e : ending) : JobOutcome :=
  if tripped then Err cancelled_outcome
  else match e with
       | Returned o => o
       | Panicked m => Err (panic_outcome m)
       end.

Definition running_job (id : N) (w : Worker) (now : string) : Job :=
  mk_job id (w_kind w) (w_project w) JRunning now None EmptyString.

Definition done_job (id : N) (w : Worker) (o : JobOutcome) (now : string) : Job :=
  let '(st, log) := match o with
    | Ok log => (JDone, log)
    | Err (c, m, r) => (JFailed c m r, EmptyString)
    end in
  mk_job id (w_kind w) (w_project w) st (w_started_at w) (Some now) (tail log).

(** ** Actions *)

Inductive action : Type :=
| Submit (kind : JobKind) (project id : N)
| SubmitGlobal (kind : JobKind) (id : N)
| Register (id : N)
| EmitRunning (id : N) (now : string)
| Acquire (id : N)
| RunWork (id : N) (e : ending)
| Release (id : N)
| ClearBusy (id : N)
| ClearCancel (id : N)
| EmitDone (id : N) (now : string)
| CancelJob (id : N)
| Shutdown.

Definition set_worker (id : N) (w : Worker) (r : Runner) : Runner :=
  mk_runner (shared r) (running r) (busy r) (tool_busy r) (cancels r) (<[id := w]> (workers r)).

Definition at_phase (p : phase) (w : Worker) : Worker :=
  mk_worker (w_kind w) (w_project w) (w_started_at w) (w_tripped w) p.

Definition trip (w : Worker) : Worker :=
  mk_worker (w_kind w) (w_project w) (w_started_at w) true (w_phase w).

(** [JobId::new()] is fresh. *)
Definition fresh (id : N) (r : Runner) : bool :=
  bool_decide (workers r !! id = None) && bool_decide (get id (jobs (fst (shared r))) = None).

(** [submit]: the busy entry decides; a refusal changes nothing. *)
Definition submit (kind : JobKind) (project id : N) (r : Runner) : option Runner :=
  if negb (fresh id r) then None
  else if bool_decide (project ∈ busy r) then Some r
  else Some (mk_runner (shared r) (running r) ({[project]} ∪ busy r) (tool_busy r) (cancels r)
    (<[id := mk_worker kind (Some project) EmptyString false Reserved]> (workers r))).

Definition submit_global (kind : JobKind) (id : N) (r : Runner) : option Runner :=
  if negb (fresh id r) then None
  else if tool_busy r then Some r
  else Some (mk_runner (shared r) (running r) (busy r) true (cancels r)
    (<[id := mk_worker kind None EmptyString false Reserved]> (workers r))).

(** The actions of one worker, by its phase. *)
Definition work_act (a : action) (id : N) (w : Worker) (r : Runner) : option Runner :=
  match a, w_phase w with
  | Register _, Reserved =>
      Some (set_worker id (at_phase Registered w)
        (mk_runner (shared r) (running r) (busy r) (tool_busy r) ({[id]} ∪ cancels r) (workers r)))
  | EmitRunning _ now, Registered =>
      Some (set_worker id (mk_worker (w_kind w) (w_project w) now (w_tripped w) Waiting)
        (mk_runner (emit (upsert_job (running_job id w now)) (shared r)) (running r) (busy r) (tool_busy r)
          (cancels r) (workers r)))
  | Acquire _, Waiting =>
      if (LIMIT <=? running r)%nat then None
      else Some (set_worker id (at_phase Acquired w)
        (mk_runner (shared r) (S (running r)) (busy r) (tool_busy r) (cancels r) (workers r)))
  | RunWork _ e, Acquired => Some (set_worker id (at_phase (Ran (outcome_of (w_tripped w) e)) w) r)
  | Release _, Ran o =>
      Some (set_worker id (at_phase (Released o) w)
        (mk_runner (shared r) (running r - 1) (busy r) (tool_busy r) (cancels r) (workers r)))
  | ClearBusy _, Released o =>
      Some (set_worker id (at_phase (Unbusied o) w)
        (match w_project w with
         | Some p => mk_runner (shared r) (running r) (busy r ∖ {[p]}) (tool_busy r) (cancels r) (workers r)
         | None => mk_runner (shared r) (running r) (busy r) false (cancels r) (workers r)
         end))
  | ClearCancel _, Unbusied o =>
      Some (set_worker id (at_phase (Dropped o) w)
        (mk_runner (shared r) (running r) (busy r) (tool_busy r) (cancels r ∖ {[id]}) (workers r)))
  | EmitDone _ now, Dropped o =>
      Some (mk_runner (emit (upsert_job (done_job id w o now)) (shared r)) (running r) (busy r) (tool_busy r)
        (cancels r) (delete id (workers r)))
  | _, _ => None
  end.

Definition actor (a : action) : option N :=
  match a with
  | Register id | EmitRunning id _ | Acquire id | RunWork id _ | Release id | ClearBusy id | ClearCancel id
  | EmitDone id _ => Some id
  | _ => None
  end.

(** [cancel]: trips the flag registered for the job. *)
Definition cancel (id : N) (r : Runner) : Runner :=
  if bool_decide (id ∈ cancels r) then
    match workers r !! id with Some w => set_worker id (trip w) r | None => r end
  else r.

Definition shutdown (r : Runner) : Runner :=
  mk_runner (shared r) (running r) (busy r) (tool_busy r) (cancels r)
    (map_imap (fun id w => Some (if bool_decide (id ∈ cancels r) then trip w else w)) (workers r)).

Definition is_busy (project : N) (r : Runner) : bool := bool_decide (project ∈ busy r).

Definition act (a : action) (r : Runner) : option Runner :=
  match a with
  | Submit kind p id => submit kind p id r
  | SubmitGlobal kind id => submit_global kind id r
  | CancelJob id => Some (cancel id r)
  | Shutdown => Some (shutdown r)
  | _ =>
      match actor a with
      | Some id => match workers r !! id with Some w => work_act a id w r | None => None end
      | None => None
      end
  end.

Inductive step : Runner -> Runner -> Prop :=
| step_act a r r' : act a r = Some r' -> step r r'.

Definition reachable (st : State) (r : Runner) : Prop := rtc step (runner_new st) r.

Fixpoint run (acts : list action) (r : Runner) : option Runner :=
  match acts with
  | [] => Some r
  | a :: acts => match act a r with Some r => run acts r | None => None end
  end.

(** ** Specification *)

Definition holds_slot (w : Worker) : bool := match w_phase w with Acquired | Ran _ => true | _ => false end.
Definition owns_busy (w : Worker) : bool := match w_phase w with Unbusied _ | Dropped _ => false | _ => true end.
Definition registered (w : Worker) : bool := match w_phase w with Reserved | Dropped _ => false | _ => true end.
Definition announced (w : Worker) : bool := match w_phase w with Reserved | Registered => false | _ => true end.

(** The ids of the workers a test selects. *)
Definition chosen (p : Worker -> bool) (ws : gmap N Worker) : gset N := dom (filter (fun e => p (snd e) = true) ws).

Definition job_state (id : N) (r : Runner) : option JobState := j_state <$> get id (jobs (fst (shared r))).

(** The jobs a daemon starts with have all ended. *)
Definition settled (st : State) : Prop :=
  forall id j, get id (jobs st) = Some j -> j_state j <> JRunning.

(** A worker still holds the exclusion of a project, or of the tools. *)
Definition owned (ws : gmap N Worker) (o : option N) : Prop :=
  exists id w, ws !! id = Some w /\ w_project w = o /\ owns_busy w = true.

Definition exclusive (ws : gmap N Worker) : Prop :=
  forall id1 id2 w1 w2, ws !! id1 = Some w1 -> ws !! id2 = Some w2 ->
    w_project w1 = w_project w2 -> owns_busy w1 = true -> owns_busy w2 = true -> id1 = id2.

Definition has_announced (ws : gmap N Worker) (id : N) : Prop :=
  exists w, ws !! id = Some w /\ announced w = true.

Record runner_inv (r : Runner) : Prop := {
  inv_running : running r = size (chosen holds_slot (workers r));
  inv_limit : (running r <= LIMIT)%nat;
  inv_busy : forall p, p ∈ busy r <-> owned (workers r) (Some p);
  inv_tool : tool_busy r = true <-> owned (workers r) None;
  inv_once : exclusive (workers r);
  inv_cancels : cancels r = chosen registered (workers r);
  inv_jobs : forall id, job_state id r = Some JRunning <-> has_announced (workers r) id;
  inv_quiet : forall id w, workers r !! id = Some w -> announced w = false -> job_state id r = None
}.

(** ** Lemmas *)

Lemma elem_chosen p ws id : id ∈ chosen p ws <-> exists w, ws !! id = Some w /\ p w = true.
Proof.
  unfold chosen. rewrite elem_of_dom. split.
  - intros [w Hw]. apply map_lookup_filter_Some in Hw as [H1 H2]. eauto.
  - intros (w & H1 & H2). exists w. by apply map_lookup_filter_Some.
Qed.

Lemma chosen_lookup p ws id w : ws !! id = Some w -> id ∈ chosen p ws <-> p w = true.
Proof. rewrite elem_chosen. intros H. split; [intros (w' & ? & ?); congruence|eauto]. Qed.

Lemma chosen_insert p ws id w :
  chosen p (<[id := w]> ws) = if p w then {[id]} ∪ chosen p ws else chosen p ws ∖ {[id]}.
Proof.
  apply set_eq. intros x. destruct (decide (x = id)) as [->|Hne].
  - rewrite (chosen_lookup p _ id w) by apply lookup_insert_eq. destruct (p w); set_solver.
  - rewrite elem_chosen, lookup_insert_ne, <- elem_chosen by done. destruct (p w); set_solver.
Qed.

Lemma chosen_delete p ws id : chosen p (delete id ws) = chosen p ws ∖ {[id]}.
Proof.
  apply set_eq. intros x. rewrite elem_chosen, elem_of_difference, elem_chosen, elem_of_singleton.
  destruct (decide (x = id)) as [->|Hne].
  - rewrite lookup_delete_eq. split; [intros (? & ? & _); congruence|intros [_ ?]; done].
  - rewrite lookup_delete_ne by done. split; [by split|by intros [? _]].
Qed.

Lemma chosen_absent p ws id : ws !! id = None -> id ∉ chosen p ws.
Proof. rewrite elem_chosen. intros ? (? & ? & _). congruence. Qed.

(** How one worker's move changes the number of selected workers. *)
Lemma chosen_size p ws id w0 w : ws !! id = Some w0 ->
  (size (chosen p (<[id := w]> ws)) + (if p w0 then 1 else 0)
   = size (chosen p ws) + (if p w then 1 else 0))%nat.
Proof.
  intros H0. rewrite chosen_insert. pose proof (chosen_lookup p ws id w0 H0) as Hid.
  destruct (p w), (p w0) eqn:E.
  - replace ({[id]} ∪ chosen p ws) with (chosen p ws); [done|]. apply set_eq. set_solver.
  - rewrite size_union, size_singleton by (apply disjoint_singleton_l; intros ?%Hid; done). lia.
  - assert (size (chosen p ws) = 1 + size (chosen p ws ∖ {[id]}))%nat; [|lia].
    rewrite <- (size_singleton (C := gset N) id), <- size_union by set_solver. f_equal.
    apply union_difference_L, singleton_subseteq_l, Hid. done.
  - replace (chosen p ws ∖ {[id]}) with (chosen p ws); [done|]. apply set_eq.
    assert (id ∉ chosen p ws) by (intros ?%Hid; done). set_solver.
Qed.

Lemma chosen_new p ws id w : ws !! id = None -> p w = false ->
  chosen p (<[id := w]> ws) = chosen p ws.
Proof.
  intros H0 Hp. rewrite chosen_insert, Hp. apply set_eq. pose proof (chosen_absent p ws id H0). set_solver.
Qed.

Lemma job_state_emit j sh id :
  j_state <$> get id (jobs (fst (emit (upsert_job j) sh)))
  = if decide (id = j_id j) then Some (j_state j) else j_state <$> get id (jobs (fst sh)).
Proof.
  destruct sh as [s out]. cbn. destruct (decide (id = j_id j)) as [->|Hne]; [by rewrite get_put|by rewrite get_put_ne].
Qed.

Lemma done_job_state id w o now : j_state (done_job id w o now) <> JRunning /\ j_id (done_job id w o now) = id.
Proof. unfold done_job. destruct o as [?|[[? ?] ?]]; done. Qed.

(** Exclusion under the moves of a worker. *)
Section moves.
  Context (ws : gmap N Worker) (id : N).

Lemma owned_move w0 w1 o : ws !! id = Some w0 -> w_project w1 = w_project w0 -> owns_busy w1 = owns_busy w0 ->
  owned (<[id := w1]> ws) o <-> owned ws o.
Proof.
  intros H0 Hp Ho. split; intros (x & w & Hx & Hw & Hb); destruct (decide (x = id)) as [->|Hne].
  - rewrite lookup_insert_eq in Hx. simplify_eq. exists id, w0. by rewrite <- Hp, <- Ho.
  - rewrite lookup_insert_ne in Hx by done. exists x, w. done.
  - simplify_eq. exists id, w1. by rewrite lookup_insert_eq, Hp, Ho.
  - exists x, w. by rewrite lookup_insert_ne.
Qed.

Lemma exclusive_move w0 w1 : ws !! id = Some w0 -> w_project w1 = w_project w0 ->
  (owns_busy w1 = true -> owns_busy w0 = true) -> exclusive ws -> exclusive (<[id := w1]> ws).
Proof.
  intros H0 Hp Ho He x y wx wy Hx Hy Hxy Hbx Hby.
  destruct (decide (x = id)) as [->|Hx'], (decide (y = id)) as [->|Hy'];
    rewrite ?lookup_insert_eq, ?lookup_insert_ne in * by done; simplify_eq; try done.
  - apply (He id y w0 wy); auto; congruence.
  - apply (He x id wx w0); auto; congruence.
  - apply (He x y wx wy); auto.
Qed.

Lemma owned_give_up w0 w1 o : ws !! id = Some w0 -> owns_busy w0 = true -> owns_busy w1 = false ->
  exclusive ws -> owned (<[id := w1]> ws) o <-> owned ws o /\ o <> w_project w0.
Proof.
  intros H0 Ho0 Ho1 He. split.
  - intros (x & w & Hx & Hw & Hb). destruct (decide (x = id)) as [->|Hne].
    + rewrite lookup_insert_eq in Hx. congruence.
    + rewrite lookup_insert_ne in Hx by done. split; [by exists x, w|].
      intros ->. apply Hne. by apply (He x id w w0).
  - intros [(x & w & Hx & Hw & Hb) Hne]. exists x, w. rewrite lookup_insert_ne; [done|]. intros ->. congruence.
Qed.

Lemma owned_new w o : ws !! id = None -> owns_busy w = true ->
  owned (<[id := w]> ws) o <-> o = w_project w \/ owned ws o.
Proof.
  intros H0 Ho. split.
  - intros (x & wx & Hx & Hw & Hb). destruct (decide (x = id)) as [->|Hne].
    + rewrite lookup_insert_eq in Hx. simplify_eq. by left.
    + rewrite lookup_insert_ne in Hx by done. right. by exists x, wx.
  - intros [->|(x & wx & Hx & Hw & Hb)].
    + exists id, w. by rewrite lookup_insert_eq.
    + exists x, wx. rewrite lookup_insert_ne; [done|]. intros ->. congruence.
Qed.

Lemma exclusive_new w : ws !! id = None -> ~ owned ws (w_project w) -> exclusive ws ->
  exclusive (<[id := w]> ws).
Proof.
  intros H0 Hn He x y wx wy Hx Hy Hxy Hbx Hby.
  destruct (decide (x = id)) as [->|Hx'], (decide (y = id)) as [->|Hy'];
    rewrite ?lookup_insert_eq, ?lookup_insert_ne in * by done; simplify_eq; try done.
  - destruct Hn. by exists y, wy.
  - destruct Hn. by exists x, wx.
  - apply (He x y wx wy); auto.
Qed.

Lemma owned_delete w0 o : ws !! id = Some w0 -> owns_busy w0 = false ->
  owned (delete id ws) o <-> owned ws o.
Proof.
  intros H0 Ho. split; intros (x & w & Hx & Hw & Hb); exists x, w.
  - apply lookup_delete_Some in Hx as [? ?]. done.
  - rewrite lookup_delete_ne; [done|]. intros ->. congruence.
Qed.

Lemma exclusive_delete : exclusive ws -> exclusive (delete id ws).
Proof.
  intros He x y wx wy [_ Hx]%lookup_delete_Some [_ Hy]%lookup_delete_Some. by apply He.
Qed.

Lemma announced_insert w x : has_announced (<[id := w]> ws) x <->
  if decide (x = id) then announced w = true else has_announced ws x.
Proof.
  unfold has_announced. destruct (decide (x = id)) as [->|Hne].
  - rewrite lookup_insert_eq. split; [intros (? & [= <-] & ?)|]; eauto.
  - by rewrite lookup_insert_ne.
Qed.
End moves.

(** ** Every action keeps the invariant *)

Lemma chosen_keep p ws id w0 w1 : ws !! id = Some w0 -> p w1 = p w0 ->
  chosen p (<[id := w1]> ws) = chosen p ws.
Proof.
  intros H0 Hp. rewrite chosen_insert, Hp. pose proof (chosen_lookup p ws id w0 H0) as Hid.
  destruct (p w0); [|assert (id ∉ chosen p ws) by (intros ?%Hid; done)]; apply set_eq; set_solver.
Qed.

Lemma announced_keep ws id w0 w1 x : ws !! id = Some w0 -> announced w1 = announced w0 ->
  has_announced (<[id := w1]> ws) x <-> has_announced ws x.
Proof.
  intros H0 Ha. rewrite announced_insert. destruct (decide (x = id)) as [->|]; [|done].
  unfold has_announced. rewrite Ha, H0. split; [eauto|intros (? & [= <-] & ?); done].
Qed.

(** A move that touches neither the exclusion nor the shared state. *)
Lemma inv_silent r id w0 w1 n c : runner_inv r -> workers r !! id = Some w0 ->
  w_project w1 = w_project w0 -> owns_busy w1 = owns_busy w0 -> announced w1 = announced w0 ->
  (n + (if holds_slot w0 then 1 else 0) = running r + (if holds_slot w1 then 1 else 0))%nat ->
  (n <= LIMIT)%nat -> c = chosen registered (<[id := w1]> (workers r)) ->
  runner_inv (mk_runner (shared r) n (busy r) (tool_busy r) c (<[id := w1]> (workers r))).
Proof.
  intros I H0 Hp Ho Ha Hn Hl Hc. split; cbn.
  - pose proof (chosen_size holds_slot _ _ _ w1 H0). rewrite (inv_running r I) in Hn. lia.
  - done.
  - intros p. rewrite (owned_move _ _ w0) by done. apply I.
  - rewrite (owned_move _ _ w0) by done. apply I.
  - apply (exclusive_move _ _ w0); [done|done|congruence|apply I].
  - done.
  - intros x. rewrite (announced_keep _ _ w0) by done. apply (inv_jobs r I).
  - intros x w Hx Hw. destruct (decide (x = id)) as [->|Hne].
    + rewrite lookup_insert_eq in Hx. simplify_eq. apply (inv_quiet r I id w0 H0). congruence.
    + rewrite lookup_insert_ne in Hx by done. by apply (inv_quiet r I x w).
Qed.

(** A move that gives the exclusion up. *)
Lemma inv_clear_busy r id w0 o : runner_inv r -> workers r !! id = Some w0 -> w_phase w0 = Released o ->
  runner_inv (set_worker id (at_phase (Unbusied o) w0)
    (match w_project w0 with
     | Some p => mk_runner (shared r) (running r) (busy r ∖ {[p]}) (tool_busy r) (cancels r) (workers r)
     | None => mk_runner (shared r) (running r) (busy r) false (cancels r) (workers r)
     end)).
Proof.
  intros I H0 Hph. set (w1 := at_phase (Unbusied o) w0).
  assert (Ho : owns_busy w0 = true) by (unfold owns_busy; by rewrite Hph).
  assert (Hg : forall q, owned (<[id := w1]> (workers r)) q <-> owned (workers r) q /\ q <> w_project w0)
    by (intros q; apply owned_give_up; try done; apply (inv_once r I)).
  assert (Hs : forall b t, (forall p, p ∈ b <-> owned (<[id := w1]> (workers r)) (Some p)) ->
    (t = true <-> owned (<[id := w1]> (workers r)) None) ->
    runner_inv (mk_runner (shared r) (running r) b t (cancels r) (<[id := w1]> (workers r)))).
  { intros b t Hb Ht. split; cbn; [|apply I|done|done| | | |].
    - rewrite (chosen_keep _ _ _ w0) by (unfold holds_slot; by rewrite ?Hph). apply I.
    - apply (exclusive_move _ _ w0); try done. apply (inv_once r I).
    - rewrite (chosen_keep _ _ _ w0) by (unfold registered; by rewrite ?Hph). apply I.
    - intros x. rewrite (announced_keep _ _ w0) by (unfold announced; by rewrite ?Hph).
      apply (inv_jobs r I).
    - intros x w Hx Hw. destruct (decide (x = id)) as [->|Hne].
      + rewrite lookup_insert_eq in Hx. simplify_eq.
      + rewrite lookup_insert_ne in Hx by done. by apply (inv_quiet r I x w). }
  destruct (w_project w0) as [p|]; apply Hs; cbn; intros; rewrite Hg.
  - rewrite elem_of_difference, elem_of_singleton, (inv_busy r I). intuition congruence.
  - rewrite (inv_tool r I). intuition congruence.
  - rewrite (inv_busy r I). intuition congruence.
  - intuition congruence.
Qed.

Lemma inv_emit_running r id w0 now : runner_inv r -> workers r !! id = Some w0 -> w_phase w0 = Registered ->
  runner_inv (set_worker id (mk_worker (w_kind w0) (w_project w0) now (w_tripped w0) Waiting)
    (mk_runner (emit (upsert_job (running_job id w0 now)) (shared r)) (running r) (busy r) (tool_busy r)
      (cancels r) (workers r))).
Proof.
  intros I H0 Hph. split; unfold set_worker; cbn -[emit].
  - rewrite (chosen_keep _ _ _ w0) by (unfold holds_slot; by rewrite ?Hph). apply I.
  - apply I.
  - intros p. rewrite (owned_move _ _ w0) by (unfold owns_busy; by rewrite ?Hph). apply I.
  - rewrite (owned_move _ _ w0) by (unfold owns_busy; by rewrite ?Hph). apply I.
  - apply (exclusive_move _ _ w0); [done|done| |apply I]. unfold owns_busy. by rewrite Hph.
  - rewrite (chosen_keep _ _ _ w0) by (unfold registered; by rewrite ?Hph). apply I.
  - intros x. unfold job_state. cbn -[emit]. rewrite job_state_emit, announced_insert. cbn.
    destruct (decide (x = id)); [done|apply (inv_jobs r I)].
  - intros x w Hx Hw. unfold job_state. cbn -[emit]. rewrite job_state_emit. cbn.
    destruct (decide (x = id)) as [->|Hne].
    + rewrite lookup_insert_eq in Hx. by simplify_eq.
    + rewrite lookup_insert_ne in Hx by done. by apply (inv_quiet r I x w).
Qed.

Lemma inv_emit_done r id w0 o now : runner_inv r -> workers r !! id = Some w0 -> w_phase w0 = Dropped o ->
  runner_inv (mk_runner (emit (upsert_job (done_job id w0 o now)) (shared r)) (running r) (busy r) (tool_busy r)
    (cancels r) (delete id (workers r))).
Proof.
  intros I H0 Hph. destruct (done_job_state id w0 o now) as [Hd Hi].
  assert (Hc : forall p, p w0 = false -> chosen p (delete id (workers r)) = chosen p (workers r)).
  { intros p Hp. rewrite chosen_delete. pose proof (chosen_lookup p _ _ _ H0) as Hid.
    assert (id ∉ chosen p (workers r)) by (intros ?%Hid; congruence). apply set_eq. set_solver. }
  split; cbn -[emit].
  - rewrite Hc by (unfold holds_slot; by rewrite Hph). apply I.
  - apply I.
  - intros p. rewrite (owned_delete _ _ w0) by (unfold owns_busy; by rewrite ?Hph). apply I.
  - rewrite (owned_delete _ _ w0) by (unfold owns_busy; by rewrite ?Hph). apply I.
  - apply exclusive_delete, I.
  - rewrite Hc by (unfold registered; by rewrite Hph). apply I.
  - intros x. unfold job_state. cbn -[emit]. rewrite job_state_emit, Hi. unfold has_announced.
    destruct (decide (x = id)) as [->|Hne].
    + rewrite lookup_delete_eq. split; [congruence|intros (? & ? & _); done].
    + rewrite lookup_delete_ne by done. apply (inv_jobs r I).
  - intros x w [Hne Hx]%lookup_delete_Some Hw. unfold job_state. cbn -[emit].
    rewrite job_state_emit, Hi, decide_False by done. by apply (inv_quiet r I x w).
Qed.

Lemma inv_reserve r id w b t : runner_inv r -> fresh id r = true -> w_phase w = Reserved ->
  ~ owned (workers r) (w_project w) ->
  (forall p, p ∈ b <-> w_project w = Some p \/ p ∈ busy r) ->
  (t = true <-> w_project w = None \/ tool_busy r = true) ->
  runner_inv (mk_runner (shared r) (running r) b t (cancels r) (<[id := w]> (workers r))).
Proof.
  intros I [Hf%bool_decide_eq_true Hj%bool_decide_eq_true]%andb_true_iff Hph Hn Hb Ht. split; cbn.
  - rewrite chosen_new by (done || (unfold holds_slot; by rewrite Hph)). apply I.
  - apply I.
  - intros p. rewrite owned_new by (done || (unfold owns_busy; by rewrite Hph)).
    rewrite Hb, (inv_busy r I). intuition congruence.
  - rewrite owned_new by (done || (unfold owns_busy; by rewrite Hph)).
    rewrite Ht, (inv_tool r I). intuition congruence.
  - apply exclusive_new; [done|done|apply I].
  - rewrite chosen_new by (done || (unfold registered; by rewrite Hph)). apply I.
  - intros x. rewrite announced_insert. destruct (decide (x = id)) as [->|]; [|apply (inv_jobs r I)].
    unfold job_state, announced. cbn. rewrite Hj, Hph. done.
  - intros x wx Hx Hw. destruct (decide (x = id)) as [->|Hne].
    + unfold job_state. cbn. by rewrite Hj.
    + rewrite lookup_insert_ne in Hx by done. by apply (inv_quiet r I x wx).
Qed.

(** Tripping flags moves nothing. *)
Definition untripped (w : Worker) : Worker := mk_worker (w_kind w) (w_project w) (w_started_at w) false (w_phase w).

Lemma inv_trips r ws : runner_inv r -> (forall id, untripped <$> ws !! id = untripped <$> workers r !! id) ->
  runner_inv (mk_runner (shared r) (running r) (busy r) (tool_busy r) (cancels r) ws).
Proof.
  intros I Hws.
  assert (Hr : forall id w, ws !! id = Some w -> exists w', workers r !! id = Some w' /\ untripped w' = untripped w).
  { intros id w H. specialize (Hws id). rewrite H in Hws. destruct (workers r !! id) as [w'|]; [|done]. cbn in Hws. injection Hws. intros. exists w'. split; [done|]. unfold untripped; congruence. }
  assert (Hl : forall id w, workers r !! id = Some w -> exists w', ws !! id = Some w' /\ untripped w' = untripped w).
  { intros id w H. specialize (Hws id). rewrite H in Hws. destruct (ws !! id) as [w'|]; [|done]. cbn in Hws. injection Hws. intros. exists w'. split; [done|]. unfold untripped. congruence. }
  assert (Hu : forall w w', untripped w = untripped w' -> w_project w = w_project w' /\ w_phase w = w_phase w')
    by (intros [] []; cbn; intros; simplify_eq; done).
  assert (Hc : forall p, (forall w w', untripped w = untripped w' -> p w = p w') -> chosen p ws = chosen p (workers r)).
  { intros p Hp. apply set_eq. intros x. rewrite !elem_chosen. split.
    - intros (w & (w' & ? & He)%Hr & <-). exists w'. eauto.
    - intros (w & (w' & ? & He)%Hl & <-). exists w'. eauto. }
  assert (Ho : forall w w', untripped w = untripped w' ->
    holds_slot w = holds_slot w' /\ owns_busy w = owns_busy w' /\ registered w = registered w' /\ announced w = announced w').
  { intros w w' [_ He]%Hu. unfold holds_slot, owns_busy, registered, announced. by rewrite He. }
  assert (Hown : forall o, owned ws o <-> owned (workers r) o).
  { intros o. split; intros (x & w & Hx & <- & Hb); [apply Hr in Hx|apply Hl in Hx]; destruct Hx as (w' & Hx & He);
      exists x, w'; pose proof (Ho _ _ He); pose proof (Hu _ _ He); intuition congruence. }
  split; cbn.
  - rewrite Hc by (intros; by apply Ho). apply I.
  - apply I.
  - intros p. rewrite Hown. apply I.
  - rewrite Hown. apply I.
  - intros x y wx wy (wx' & Hx & Ex)%Hr (wy' & Hy & Ey)%Hr Hp Hbx Hby.
    pose proof (Ho _ _ Ex); pose proof (Hu _ _ Ex); pose proof (Ho _ _ Ey); pose proof (Hu _ _ Ey).
    apply (inv_once r I x y wx' wy'); intuition congruence.
  - rewrite Hc by (intros; by apply Ho). apply I.
  - intros x. etransitivity; [apply (inv_jobs r I)|]. unfold has_announced. split.
    + intros (w & (w' & ? & He)%Hl & <-). exists w'. split; [done|by apply Ho].
    + intros (w & (w' & ? & He)%Hr & <-). exists w'. split; [done|by apply Ho].
  - intros x w (w' & Hx & He)%Hr Hw. apply (inv_quiet r I x w' Hx). rewrite <- Hw. by apply Ho.
Qed.

Lemma inv_work_act r a id w r' : runner_inv r -> workers r !! id = Some w -> actor a = Some id ->
  work_act a id w r = Some r' -> runner_inv r'.
Proof.
  intros I H0 Ha H. unfold work_act in H.
  destruct a, (w_phase w) as [| | | |o|o|o|o] eqn:Hph; try discriminate; injection Ha as ->;
    try (case_match eqn:Hlim; [discriminate|]); injection H as <-;
    try (by apply inv_emit_running); try (by apply inv_clear_busy); try (by apply inv_emit_done);
    apply (inv_silent r id w); unfold owns_busy, announced, holds_slot; cbn; rewrite ?Hph; cbn; try done;
    try (pose proof (inv_limit r I); try apply Nat.leb_gt in Hlim; lia);
    try (rewrite (chosen_keep _ _ _ w) by (done || (unfold registered; by rewrite ?Hph)); apply I).
  - rewrite chosen_insert. cbn. by rewrite <- (inv_cancels r I).
  - enough (0 < running r)%nat by lia. rewrite (inv_running r I).
    apply Nat.neq_0_lt_0. intros Hz%size_empty_iff.
    assert (Hin : id ∈ chosen holds_slot (workers r)); [|set_solver].
    apply (chosen_lookup _ _ _ w H0). unfold holds_slot. by rewrite Hph.
  - rewrite chosen_insert. cbn. by rewrite <- (inv_cancels r I).
Qed.

Lemma inv_act a r r' : runner_inv r -> act a r = Some r' -> runner_inv r'.
Proof.
  intros I H. destruct a; cbn [act actor] in H;
    try (match type of H with match ?x with _ => _ end = _ => destruct x eqn:Hw; [|discriminate] end;
         refine (inv_work_act r _ _ _ r' I Hw _ H); reflexivity).
  - unfold submit in H. destruct (fresh id r) eqn:Hf; [|discriminate]. cbn in H.
    case_bool_decide as Hb; injection H as <-; [done|].
    apply inv_reserve; cbn; try done; [by rewrite <- (inv_busy r I)|set_solver|].
    split; [by right|intros [?|?]; done].
  - unfold submit_global in H. destruct (fresh id r) eqn:Hf; [|discriminate]. cbn in H.
    destruct (tool_busy r) eqn:Ht; injection H as <-; [done|].
    apply inv_reserve; cbn; try done; [rewrite <- (inv_tool r I); congruence| |by intuition].
    intros p. split; [by right|intros [?|?]; done].
  - injection H as <-. unfold cancel. case_bool_decide; [|done]. destruct (workers r !! id) as [w|] eqn:Hw; [|done].
    apply inv_trips; [done|]. intros x. destruct (decide (x = id)) as [->|].
    + by rewrite lookup_insert_eq, Hw.
    + by rewrite lookup_insert_ne.
  - injection H as <-. apply inv_trips; [done|]. intros x. rewrite map_lookup_imap.
    destruct (workers r !! x); cbn; [|done]. by destruct (bool_decide _).
Qed.

Lemma inv_new st : settled st -> runner_inv (runner_new st).
Proof.
  intros Hs. split; cbn; try done.
  - unfold LIMIT. lia.
  - intros p. split; [set_solver|]. intros (? & ? & ? & _). done.
  - split; [done|]. intros (? & ? & ? & _). done.
  - intros x. unfold job_state. cbn. split; [|intros (? & ? & _); done].
    destruct (get x (jobs st)) as [j|] eqn:Hj; [|done]. intros [= Hr]. by destruct (Hs x j Hj).
Qed.

Lemma inv_reachable st r : settled st -> reachable st r -> runner_inv r.
Proof.
  intros Hs H. pose proof (inv_new st Hs) as I. unfold reachable in H.
  induction H as [|r1 r2 r3 [a ? ? Ha] _ IH]; [done|]. apply IH. by eapply inv_act.
Qed.

Lemma run_steps acts r r' : run acts r = Some r' -> rtc step r r'.
Proof.
  revert r. induction acts as [|a acts IH]; intros r H; cbn in H; [by injection H as <-|].
  destruct (act a r) as [r1|] eqn:Ha; [|discriminate]. by apply (rtc_l _ _ r1); [econstructor|apply IH].
Qed.

(** ** Draining *)

(** How many moves a worker has left. *)
Definition moves_left (w : Worker) : nat :=
  match w_phase w with
  | Reserved => 8 | Registered => 7 | Waiting => 6 | Acquired => 5
  | Ran _ => 4 | Released _ => 3 | Unbusied _ => 2 | Dropped _ => 1
  end.

Definition all_moves (ws : gmap N Worker) : nat := map_fold (fun _ w n => (moves_left w + n)%nat) 0%nat ws.

Definition work_left (r : Runner) : nat := all_moves (workers r).

Definition by_worker (a : action) : Prop := actor a <> None.

Lemma left_lookup ws id w : ws !! id = Some w -> all_moves ws = (moves_left w + all_moves (delete id ws))%nat.
Proof. 
  intros H. apply (map_fold_delete_L (fun _ w n => (moves_left w + n)%nat) 0%nat id w ws); [|done].
  intros. lia.
Qed.

Lemma left_insert ws id w w' : ws !! id = Some w -> moves_left w = S (moves_left w') ->
  all_moves ws = S (all_moves (<[id := w']> ws)).
Proof.
  intros H Hw. rewrite (left_lookup ws id w H), (left_lookup (<[id := w']> ws) id w' (lookup_insert_eq _ _ _)).
  rewrite delete_insert_eq. lia.
Qed.

(** A worker's move uses up one. *)
Lemma act_uses_one a r r' : by_worker a -> act a r = Some r' -> work_left r = S (work_left r').
Proof.
  intros Ha H.
  assert (exists id w, actor a = Some id /\ workers r !! id = Some w /\ work_act a id w r = Some r') as (id & w & Hid & Hw & Hwork).
  { unfold by_worker in Ha. destruct a; try done; cbn [act actor] in H;
      match type of H with match ?x with _ => _ end = _ => destruct x eqn:Hw; [|discriminate] end; eauto. }
  clear H. unfold work_act in Hwork. unfold work_left.
  destruct a, (w_phase w) as [| | | |o|o|o|o] eqn:Hph; try discriminate; injection Hid as ->;
    try (case_match; [discriminate|]); injection Hwork as <-;
    try (apply (left_insert _ id w); [done|unfold moves_left; by rewrite Hph]).
  - cbn. destruct (w_project w); (apply (left_insert _ id w); [done|unfold moves_left; by rewrite Hph]).
  - cbn. rewrite (left_lookup _ id w Hw). unfold moves_left at 1. by rewrite Hph.
Qed.

(** While a worker is left, some worker can move: those that only wait for a
    slot wait for one that can give it up. *)
Lemma worker_moves r : runner_inv r -> workers r <> ∅ -> exists a r', by_worker a /\ act a r = Some r'.
Proof.
  intros I (id & w & Hw)%map_choose.
  assert (Hgo : forall id w, workers r !! id = Some w -> w_phase w <> Waiting -> exists a r', by_worker a /\ act a r = Some r').
  { clear id w Hw. intros id w Hw Hne.
    destruct (w_phase w) eqn:Hph; try done;
      [exists (Register id)|exists (EmitRunning id EmptyString)|exists (RunWork id (Panicked None))|exists (Release id)
      |exists (ClearBusy id)|exists (ClearCancel id)|exists (EmitDone id EmptyString)];
      eexists; (split; [discriminate|]); cbn [act actor]; rewrite Hw; unfold work_act; rewrite Hph; reflexivity. }
  destruct (decide (LIMIT <= running r)%nat) as [Hl|Hl].
  - rewrite (inv_running r I) in Hl.
    assert (exists x, x ∈ chosen holds_slot (workers r)) as [x Hx].
    { apply set_choose_L. intros Hz. rewrite Hz, size_empty in Hl. unfold LIMIT in Hl. lia. }
    apply elem_chosen in Hx as (wx & Hx & Hh). apply (Hgo x wx Hx). intros Hph. unfold holds_slot in Hh.
    by rewrite Hph in Hh.
  - destruct (w_phase w) eqn:Hph; try (apply (Hgo id w Hw); congruence).
    exists (Acquire id). eexists. split; [discriminate|]. cbn [act actor]. rewrite Hw. unfold work_act. rewrite Hph.
    destruct (Nat.leb_spec LIMIT (running r)); [lia|reflexivity].
Qed.

Lemma run_app acts1 acts2 r : run (acts1 ++ acts2) r = match run acts1 r with Some r => run acts2 r | None => None end.
Proof. revert r. induction acts1 as [|a acts1 IH]; intros r; cbn; [done|]. by destruct (act a r). Qed.

Lemma run_uses acts r r' : Forall by_worker acts -> run acts r = Some r' -> work_left r = (length acts + work_left r')%nat.
Proof.
  intros Ha. revert r. induction Ha as [|a acts Ha _ IH]; intros r H; cbn in *; [by injection H as <-|].
  destruct (act a r) as [r1|] eqn:H1; [|discriminate]. rewrite (act_uses_one a r r1 Ha H1), (IH r1 H). lia.
Qed.

Lemma inv_run acts r r' : runner_inv r -> run acts r = Some r' -> runner_inv r'.
Proof.
  revert r. induction acts as [|a acts IH]; intros r I H; cbn in H; [by injection H as <-|].
  destruct (act a r) as [r1|] eqn:Ha; [|discriminate]. apply (IH r1); [by eapply inv_act|done].
Qed.

Lemma drain n r : runner_inv r -> work_left r = n ->
  exists acts r', Forall by_worker acts /\ run acts r = Some r' /\ workers r' = ∅.
Proof.
  revert r. induction n as [|n IH]; intros r I Hn; (destruct (decide (workers r = ∅)) as [He|He]; [by exists [], r|]);
    destruct (worker_moves r I He) as (a & r1 & Ha & H1); pose proof (act_uses_one a r r1 Ha H1); [lia|].
  destruct (IH r1) as (acts & r' & ? & Hr & ?); [by eapply inv_act|lia|].
  exists (a :: acts), r'. split; [by constructor|]. cbn. by rewrite H1.
Qed.

(** ** Theorems *)

(** C2. However submissions, workers, cancels and shutdowns interleave, at
    most three jobs hold a pool slot and the counter is their number; no two
    workers hold the exclusion of one project, or the tools' flag, and both
    are set exactly while a worker holds them, so a remove never runs beside
    another job of its project; and a job is shown running exactly while its
    worker is between its first and its last event. *)
Theorem runner_excludes st r : settled st -> reachable st r ->
  (running r = size (chosen holds_slot (workers r)) /\ running r <= LIMIT)%nat /\
  exclusive (workers r) /\
  (forall p, is_busy p r = true <-> owned (workers r) (Some p)) /\
  (tool_busy r = true <-> owned (workers r) None) /\
  (forall id, job_state id r = Some JRunning <-> has_announced (workers r) id).
Proof.
  intros Hs Hr. pose proof (inv_reachable st r Hs Hr) as I.
  split; [split; apply I|split; [apply I|split; [|split; apply I]]].
  intros p. unfold is_busy. rewrite bool_decide_eq_true. apply I.
Qed.

(** C16. No interleaving wedges the pool: whatever was reached, the workers
    still there can run to their end, no schedule of theirs is longer than the
    moves they have left (at most eight each), and it stops only when none is
    left; and then the slots, the exclusions, the flag and the cancel table
    are all clear and no job is left running, panics included. *)
Theorem runner_drains st r : settled st -> reachable st r ->
  (exists acts r', Forall by_worker acts /\ run acts r = Some r' /\ workers r' = ∅) /\
  forall acts r', Forall by_worker acts -> run acts r = Some r' ->
    (length acts <= work_left r)%nat /\
    (workers r' <> ∅ -> exists a r'', by_worker a /\ act a r' = Some r'') /\
    (workers r' = ∅ -> running r' = 0%nat /\ busy r' = ∅ /\ tool_busy r' = false /\ cancels r' = ∅ /\
       forall id, job_state id r' <> Some JRunning).
Proof.
  intros Hs Hr. pose proof (inv_reachable st r Hs Hr) as I. split; [by apply (drain (work_left r))|].
  intros acts r' Ha H. pose proof (inv_run acts r r' I H) as I'. pose proof (run_uses acts r r' Ha H).
  split; [lia|split; [by apply worker_moves|]]. intros He.
  assert (Hn : forall o, ~ owned (workers r') o) by (intros o (? & ? & Hx & _); by rewrite He in Hx).
  split; [|split; [|split; [|split]]].
  - rewrite (inv_running r' I'), He. reflexivity.
  - apply set_eq. intros p. rewrite (inv_busy r' I'). split; [by intros ?%Hn|set_solver].
  - apply not_true_is_false. rewrite (inv_tool r' I'). apply Hn.
  - rewrite (inv_cancels r' I'), He. reflexivity.
  - intros id Hj%(inv_jobs r' I'). destruct Hj as (? & Hx & _). by rewrite He in Hx.
Qed.

(** The life of one job with nothing in between; a cancel may come once the
    worker waits. *)
Definition life (kind : JobKind) (p id : N) (cancelled : bool) (e : ending) (t0 t1 : string) : list action :=
  [Submit kind p id; Register id; EmitRunning id t0] ++ (if cancelled then [CancelJob id] else []) ++
  [Acquire id; RunWork id e; Release id; ClearBusy id; ClearCancel id; EmitDone id t1].

(** A job submitted for an idle project while a slot is free ends with
    exactly two events, running and ended, and everything else as it was: a
    cancel that came before the work started makes it failed as cancelled, a
    panic makes it failed with the panic's message, and otherwise the record
    carries the work's own result with the end of its log. *)
Theorem job_runs_to_its_record st r kind p id cancelled e t0 t1 :
  settled st -> reachable st r -> fresh id r = true -> is_busy p r = false -> (running r < LIMIT)%nat ->
  let w := mk_worker kind (Some p) t0 cancelled Waiting in
  run (life kind p id cancelled e t0 t1) r
  = Some (mk_runner
      (emit (upsert_job (done_job id w (outcome_of cancelled e) t1)) (emit (upsert_job (running_job id w t0)) (shared r)))
      (running r) (busy r) (tool_busy r) (cancels r) (workers r)).
Proof.
  intros Hs Hr Hf Hb Hl w. pose proof (inv_reachable st r Hs Hr) as I.
  pose proof Hf as [Hw%bool_decide_eq_true _]%andb_true_iff. unfold is_busy in Hb.
  assert (Hc : id ∉ cancels r) by (rewrite (inv_cancels r I); by apply chosen_absent).
  assert (Hp : p ∉ busy r) by (by apply bool_decide_eq_false in Hb).
  assert (Hle : (LIMIT <=? running r)%nat = false) by (apply Nat.leb_gt; lia).
  assert (Hd : ({[p]} ∪ busy r) ∖ {[p]} = busy r) by (apply set_eq; set_solver).
  assert (He : ({[id]} ∪ cancels r) ∖ {[id]} = cancels r) by (apply set_eq; set_solver).
  assert (Hin : bool_decide (id ∈ {[id]} ∪ cancels r) = true) by (apply bool_decide_eq_true; set_solver).
  assert (Hj : bool_decide (get id (jobs (shared r).1) = None) = true) by (by apply andb_true_iff in Hf as [_ ?]).
  destruct r as [sh n b t c ws]; cbn [shared running busy tool_busy cancels workers] in *.
  assert (Hsub : submit kind p id (mk_runner sh n b t c ws)
    = Some (mk_runner sh n ({[p]} ∪ b) t c (<[id := mk_worker kind (Some p) EmptyString false Reserved]> ws))).
  { unfold submit. rewrite Hf. cbn -[union]. by rewrite Hb. }
  unfold life. destruct cancelled; cbn [app run act]; rewrite Hsub;
    repeat (cbn [act actor workers set_worker shared running busy tool_busy cancels]; unfold cancel;
            cbn [workers cancels]; rewrite ?Hin, ?lookup_insert_eq; cbn [work_act w_phase w_project w_kind w_tripped
              w_started_at at_phase trip set_worker workers shared running busy tool_busy cancels]; rewrite ?Hle).
  all: rewrite Hd, He, !insert_insert_eq, delete_insert_id by done; do 2 f_equal; lia.
Qed.

Lemma to_boundary_spec s : exists pre, s = pre +:+ to_boundary s /\ str_forallb continuation pre = true /\
  match to_boundary s with String a _ => continuation a = false | EmptyString => True end.
Proof.
  induction s as [|a s (pre & Hs & Hp & Hb)]; [by exists EmptyString|]. cbn [to_boundary].
  destruct (continuation a) eqn:E; [|by exists EmptyString; rewrite E].
  exists (String a pre). rewrite str_app_cons. cbn [str_forallb]. rewrite E. split; [congruence|done].
Qed.

Lemma str_drop_spec n : forall s, (n <= String.length s)%nat ->
  exists pre, s = pre +:+ str_drop n s /\ String.length pre = n.
Proof.
  induction n as [|n IH]; intros s Hn; [by exists EmptyString|].
  destruct s as [|a s]; cbn in *; [lia|]. destruct (IH s) as (pre & Hs & Hl); [lia|].
  exists (String a pre). rewrite str_app_cons. cbn. split; [congruence|lia].
Qed.

Lemma str_app_length a b : String.length (a +:+ b) = (String.length a + String.length b)%nat.
Proof. induction a as [|x a IH]; [done|]. rewrite str_app_cons. cbn. lia. Qed.

(** UTF-8 has at most three continuation bytes in a row. *)
Definition short_characters (s : string) : Prop :=
  forall a x b, s = a +:+ x +:+ b -> str_forallb continuation x = true -> (String.length x <= 3)%nat.

(** A job's log tail is the end of the log, starts at a character and has
    at most 4096 bytes, and no more than three less than that where the log is
    longer: the search for the boundary ends. *)
Theorem tail_keeps_the_end log : short_characters log ->
  exists pre, log = pre +:+ tail log /\
    (String.length (tail log) <= TAIL_MAX)%nat /\
    ((String.length log <= TAIL_MAX)%nat -> tail log = log) /\
    ((TAIL_MAX < String.length log)%nat ->
       (TAIL_MAX <= String.length (tail log) + 3)%nat /\
       match tail log with String a _ => continuation a = false | EmptyString => True end).
Proof.
  intros Hc. unfold tail. destruct (Nat.leb_spec (String.length log) TAIL_MAX) as [Hl|Hl].
  - exists EmptyString. rewrite str_app_nil_l. repeat split; try done; lia.
  - destruct (str_drop_spec (String.length log - TAIL_MAX) log) as (p1 & H1 & L1); [lia|].
    set (s := str_drop _ log) in *. destruct (to_boundary_spec s) as (p2 & H2 & C2 & B2).
    assert (L2 : (String.length p2 <= 3)%nat) by (apply (Hc p1 p2 (to_boundary s)); [congruence|done]).
    pose proof (f_equal String.length H1) as E1. pose proof (f_equal String.length H2) as E2.
    rewrite str_app_length in E1, E2. exists (p1 +:+ p2). rewrite <- str_app_assoc, <- H2.
    repeat split; try done; lia.
Qed.

(** ** Witnesses *)

Lemma ascii_short s : str_forallb (fun a => negb (continuation a)) s = true -> short_characters s.
Proof.
  intros Hs a x b ->. induction a as [|c a IH].
  - rewrite str_app_nil_l in Hs. destruct x as [|c x]; [cbn; lia|]. rewrite str_app_cons in Hs. cbn in *.
    destruct (continuation c); [done|]. intros H. discriminate H.
  - rewrite str_app_cons in Hs. cbn in Hs. apply andb_true_iff in Hs as [_ ?]. by apply IH.
Qed.

Lemma settled_new : settled state_new.
Proof. intros id j H. discriminate H. Qed.

Definition example_acts : list action :=
  [Submit Add 7 1; Register 1; Submit Remove 7 2; EmitRunning 1 "t0"; Acquire 1; SubmitGlobal InstallHarness 3; Shutdown].

Definition example_runner : Runner := default (runner_new state_new) (run example_acts (runner_new state_new)).

Lemma example_reached : reachable state_new example_runner.
Proof. apply (run_steps example_acts). vm_compute. reflexivity. Qed.

Lemma runner_excludes_witness : (running example_runner <= LIMIT)%nat /\ is_busy 7 example_runner = true.
Proof.
  destruct (runner_excludes state_new example_runner settled_new example_reached) as ([_ H] & _ & Hb & _).
  split; [exact H|]. apply Hb. exists 1%N. eexists. split; [reflexivity|]. split; reflexivity.
Defined.

Lemma runner_drains_witness : exists acts r', Forall by_worker acts /\ run acts example_runner = Some r' /\ workers r' = ∅.
Proof. exact (proj1 (runner_drains state_new example_runner settled_new example_reached)). Defined.

Lemma job_runs_to_its_record_witness :
  run (life Add 9 4 true (Panicked None) "t0" "t1") example_runner <> None.
Proof.
  pose proof (job_runs_to_its_record state_new example_runner Add 9 4 true (Panicked None) "t0" "t1"
    settled_new example_reached) as H.
  cbv zeta in H. rewrite H; [discriminate|vm_compute; reflexivity|vm_compute; reflexivity|vm_compute; lia].
Defined.

Fixpoint str_repeat (n : nat) (a : ascii) : string :=
  match n with O => EmptyString | S n => String a (str_repeat n a) end.

Definition long_log : string := str_repeat (Z.to_nat 4100) "x".

Lemma tail_keeps_the_end_witness :
  (TAIL_MAX <= String.length (tail long_log) + 3)%nat /\ (String.length (tail long_log) <= TAIL_MAX)%nat.
Proof.
  assert (Hs : str_forallb (fun a => negb (continuation a)) long_log = true) by (vm_compute; reflexivity).
  assert (Hl : (TAIL_MAX <? String.length long_log)%nat = true) by (vm_compute; reflexivity).
  generalize dependent long_log. intros log Hs Hl.
  destruct (tail_keeps_the_end log (ascii_short log Hs)) as (pre & _ & H1 & _ & H2).
  split; [|exact H1]. apply H2. apply Nat.ltb_lt, Hl.
Defined.
