(* ===== verification/Supervisor.v ===== *)
(** * The session supervisor

    Models crates/willie-sess/src/server.rs over the filter, the screen, the
    tally, the wire and the session's log: clients with bounded queues fed from
    one PTY pump, the event log fanned out to control clients, the stop ladder,
    the end, and the writer threads.  One step is what a thread does under one
    lock: a client joins in four ([let_in], [replay], [fit], [register]), the
    pump reads and pushes in one and fans out in another, and an event whose
    cause is already visible is owed by its thread until it is logged.
    The JSON encodings are serde's, hence parameters; the n-th reading of
    the two clocks is a parameter of the sessions's clock. *)

From S2P Require Import Prelude Text BTree VtFilter Screen Tally Wire Session.

Local Open Scope string_scope.
Local Open Scope list_scope.
Local Open Scope Z_scope.

(** ** Data *)

Definition RING_BYTES : nat := Z.to_nat 262144.
Arguments RING_BYTES : simpl never.
Definition QUEUE_BYTES : Z := 1048576.
Definition DENIAL_WINDOW : Z := 5000.
Definition DEFAULT_ROWS : Z := 24.
Definition DEFAULT_COLS : Z := 80.

Inductive Phase : Type := PRunning | PStopping | PExited.

#[export] Instance Phase_eq_dec : EqDecision Phase.
Proof. solve_decision. Defined.

Inductive Role : Type := Terminal | Control.

#[export] Instance Role_eq_dec : EqDecision Role.
Proof. solve_decision. Defined.

Inductive CloseReason : Type := CExited | CStopped | CShutdown | CTooSlow | CProtocol.

#[export] Instance CloseReason_eq_dec : EqDecision CloseReason.
Proof. solve_decision. Defined.

Record Closed : Type := mk_closed { reason : CloseReason; closed_code : option Z; closed_signal : option Z }.

Record Hello : Type := mk_hello { h_role : Role; h_rows : Z; h_cols : Z }.

Record Status : Type := mk_status { st_pid : Z; st_state : string; st_clients : Z; st_started_at : string }.

Inductive Msg : Type := Data (bytes : list Z) | Close (bytes : list Z).

Definition msg_bytes (m : Msg) : list Z := match m with Data b | Close b => b end.

(** [ClientHandle] with its channel and its writer: [written] is what the
    socket took, [open_] whether the writer still receives, [shut] whether the
    socket was shut down. *)
Record ClientHandle : Type := mk_client {
  c_id : N; c_role : Role; queued : Z; chan : list Msg; written : list Z; open_ : bool; shut : bool
}.

(** *** The threads between two of their steps *)

(** How far a client that said hello has come on its way to the list: it has
    its id and its writer, its replay, its size. *)
Inductive Stage : Type := Greeted | Replayed | Sized.

Record Joiner : Type := mk_joiner { j_client : ClientHandle; j_hello : Hello; j_stage : Stage }.

Inductive Owner : Type := MainThread | ClientThread (id : N) | SignalThread.

#[export] Instance Owner_eq_dec : EqDecision Owner.
Proof. solve_decision. Defined.

(** What a thread has still to do of a change it made, in order. *)
Inductive Task : Type :=
| RecordCause (cause : CloseReason)
| LogStop (by_ : string)
| LogAttached (id : N)
| LogDetached (id : N)
| LogExit (code signal : option Z)
| SendClosed (code signal : option Z).

(** [Shared], the pump's filter, what the outside sees (the log, the window
    sizes set, the input written), and where the threads are.  [gone] holds
    the clients no longer in the list, whose writers may still run; [ending]
    those [finish] took; [joining] those not in it yet; [owed] what each
    thread has still to do; [pumping] the output pushed to the screen and not
    yet fanned out; [looping] the clients in their loop. *)
Record Shared : Type := mk_shared {
  child : Z;
  started : string;
  ring : Ring;
  alt : AltScreen;
  rows_ : Z;
  cols_ : Z;
  registered : list ClientHandle;
  gone : list ClientHandle;
  ending : list ClientHandle;
  next_id : N;
  events : list SessionEvent;
  phase : Phase;
  stop_cause : option CloseReason;
  tally : Tally;
  tearing_down : bool;
  filter_ : VtFilter;
  sizes : list (Z * Z);
  input : list Z;
  listening : bool;
  ticks : nat;
  joining : list Joiner;
  owed : list (Owner * Task);
  pumping : list Z;
  looping : list N
}.

(** *** Updates in place *)

Definition on_clients (f : list ClientHandle -> list ClientHandle) (s : Shared) : Shared :=
  mk_shared (child s) (started s) (ring s) (alt s) (rows_ s) (cols_ s) (f (registered s)) (gone s) (ending s)
    (next_id s) (events s) (phase s) (stop_cause s) (tally s) (tearing_down s) (filter_ s) (sizes s) (input s)
    (listening s) (ticks s) (joining s) (owed s) (pumping s) (looping s).

Definition add_gone (l : list ClientHandle) (s : Shared) : Shared :=
  mk_shared (child s) (started s) (ring s) (alt s) (rows_ s) (cols_ s) (registered s) (gone s ++ l) (ending s)
    (next_id s) (events s) (phase s) (stop_cause s) (tally s) (tearing_down s) (filter_ s) (sizes s) (input s)
    (listening s) (ticks s) (joining s) (owed s) (pumping s) (looping s).

Definition set_phase (p : Phase) (cause : option CloseReason) (s : Shared) : Shared :=
  mk_shared (child s) (started s) (ring s) (alt s) (rows_ s) (cols_ s) (registered s) (gone s) (ending s)
    (next_id s) (events s) p cause (tally s) (tearing_down s) (filter_ s) (sizes s) (input s)
    (listening s) (ticks s) (joining s) (owed s) (pumping s) (looping s).

Definition set_screen (r : Ring) (a : AltScreen) (rows cols : Z) (s : Shared) : Shared :=
  mk_shared (child s) (started s) r a rows cols (registered s) (gone s) (ending s)
    (next_id s) (events s) (phase s) (stop_cause s) (tally s) (tearing_down s) (filter_ s) (sizes s) (input s)
    (listening s) (ticks s) (joining s) (owed s) (pumping s) (looping s).

Definition set_filter (f : VtFilter) (s : Shared) : Shared :=
  mk_shared (child s) (started s) (ring s) (alt s) (rows_ s) (cols_ s) (registered s) (gone s) (ending s)
    (next_id s) (events s) (phase s) (stop_cause s) (tally s) (tearing_down s) f (sizes s) (input s)
    (listening s) (ticks s) (joining s) (owed s) (pumping s) (looping s).

Definition set_next_id (n : N) (s : Shared) : Shared :=
  mk_shared (child s) (started s) (ring s) (alt s) (rows_ s) (cols_ s) (registered s) (gone s) (ending s)
    n (events s) (phase s) (stop_cause s) (tally s) (tearing_down s) (filter_ s) (sizes s) (input s)
    (listening s) (ticks s) (joining s) (owed s) (pumping s) (looping s).

Definition set_window_size (size : Z * Z) (s : Shared) : Shared :=
  mk_shared (child s) (started s) (ring s) (alt s) (rows_ s) (cols_ s) (registered s) (gone s) (ending s)
    (next_id s) (events s) (phase s) (stop_cause s) (tally s) (tearing_down s) (filter_ s) (sizes s ++ [size])
    (input s) (listening s) (ticks s) (joining s) (owed s) (pumping s) (looping s).

Definition write_input (bytes : list Z) (s : Shared) : Shared :=
  mk_shared (child s) (started s) (ring s) (alt s) (rows_ s) (cols_ s) (registered s) (gone s) (ending s)
    (next_id s) (events s) (phase s) (stop_cause s) (tally s) (tearing_down s) (filter_ s) (sizes s)
    (input s ++ bytes) (listening s) (ticks s) (joining s) (owed s) (pumping s) (looping s).

Definition begin_teardown (s : Shared) : Shared :=
  mk_shared (child s) (started s) (ring s) (alt s) (rows_ s) (cols_ s) (registered s) (gone s) (ending s)
    (next_id s) (events s) (phase s) (stop_cause s) (tally s) true (filter_ s) (sizes s) (input s)
    (listening s) (ticks s) (joining s) (owed s) (pumping s) (looping s).

(** One reading of the clock, with the tally it left. *)
Definition set_tally (t : Tally) (s : Shared) : Shared :=
  mk_shared (child s) (started s) (ring s) (alt s) (rows_ s) (cols_ s) (registered s) (gone s) (ending s)
    (next_id s) (events s) (phase s) (stop_cause s) t (tearing_down s) (filter_ s) (sizes s) (input s)
    (listening s) (S (ticks s)) (joining s) (owed s) (pumping s) (looping s).

Definition add_event (e : SessionEvent) (s : Shared) : Shared :=
  mk_shared (child s) (started s) (ring s) (alt s) (rows_ s) (cols_ s) (registered s) (gone s) (ending s)
    (next_id s) (events s ++ [e]) (phase s) (stop_cause s) (tally s) (tearing_down s) (filter_ s) (sizes s) (input s)
    (listening s) (S (ticks s)) (joining s) (owed s) (pumping s) (looping s).

(** [mem::take] of the clients, and the socket file removed. *)
Definition take_clients (f : ClientHandle -> ClientHandle) (s : Shared) : Shared :=
  mk_shared (child s) (started s) (ring s) (alt s) (rows_ s) (cols_ s) [] (gone s) (ending s ++ map f (registered s))
    (next_id s) (events s) (phase s) (stop_cause s) (tally s) (tearing_down s) (filter_ s) (sizes s) (input s)
    false (ticks s) (joining s) (owed s) (pumping s) (looping s).

(** A change to one client that has joined. *)
Definition on_client (id : N) (f : ClientHandle -> ClientHandle) (s : Shared) : Shared :=
  let go := map (fun c => if bool_decide (c_id c = id) then f c else c) in
  mk_shared (child s) (started s) (ring s) (alt s) (rows_ s) (cols_ s) (go (registered s)) (go (gone s))
    (go (ending s)) (next_id s) (events s) (phase s) (stop_cause s) (tally s) (tearing_down s) (filter_ s) (sizes s)
    (input s) (listening s) (ticks s) (joining s) (owed s) (pumping s) (looping s).

Definition set_joining (f : list Joiner -> list Joiner) (s : Shared) : Shared :=
  mk_shared (child s) (started s) (ring s) (alt s) (rows_ s) (cols_ s) (registered s) (gone s) (ending s)
    (next_id s) (events s) (phase s) (stop_cause s) (tally s) (tearing_down s) (filter_ s) (sizes s) (input s)
    (listening s) (ticks s) (f (joining s)) (owed s) (pumping s) (looping s).

Definition set_owed (o : list (Owner * Task)) (s : Shared) : Shared :=
  mk_shared (child s) (started s) (ring s) (alt s) (rows_ s) (cols_ s) (registered s) (gone s) (ending s)
    (next_id s) (events s) (phase s) (stop_cause s) (tally s) (tearing_down s) (filter_ s) (sizes s) (input s)
    (listening s) (ticks s) (joining s) o (pumping s) (looping s).

Definition set_pumping (out : list Z) (s : Shared) : Shared :=
  mk_shared (child s) (started s) (ring s) (alt s) (rows_ s) (cols_ s) (registered s) (gone s) (ending s)
    (next_id s) (events s) (phase s) (stop_cause s) (tally s) (tearing_down s) (filter_ s) (sizes s) (input s)
    (listening s) (ticks s) (joining s) (owed s) out (looping s).

Definition set_looping (f : list N -> list N) (s : Shared) : Shared :=
  mk_shared (child s) (started s) (ring s) (alt s) (rows_ s) (cols_ s) (registered s) (gone s) (ending s)
    (next_id s) (events s) (phase s) (stop_cause s) (tally s) (tearing_down s) (filter_ s) (sizes s) (input s)
    (listening s) (ticks s) (joining s) (owed s) (pumping s) (f (looping s)).

Definition owe (o : Owner) (tasks : list Task) (s : Shared) : Shared := set_owed (owed s ++ map (pair o) tasks) s.

Definition owes (o : Owner) (s : Shared) : bool := existsb (fun x => bool_decide (fst x = o)) (owed s).

(** A writer's turn changes its client wherever the handle is. *)
Definition on_writer (id : N) (f : ClientHandle -> ClientHandle) (s : Shared) : Shared :=
  set_joining (map (fun j => if bool_decide (c_id (j_client j) = id)
                             then mk_joiner (f (j_client j)) (j_hello j) (j_stage j) else j)) (on_client id f s).

Definition shared_new (pid : Z) (started_at : string) (log : list SessionEvent) : Shared :=
  mk_shared pid started_at (ring_new RING_BYTES) alt_new DEFAULT_ROWS DEFAULT_COLS [] [] [] 0 log PRunning None
    (Tally.new DENIAL_WINDOW) false VtFilter.new [] [] true 0 [] [] [] [].

(** ** One client's queue *)

Definition set_queue (q : Z) (ch : list Msg) (c : ClientHandle) : ClientHandle :=
  mk_client (c_id c) (c_role c) q ch (written c) (open_ c) (shut c).

Definition len (l : list Z) : Z := Z.of_nat (length l).

(** [enqueue]: [fetch_add], the budget, [send]; a refusal takes the bytes back. *)
Definition enqueue (c : ClientHandle) (frame : list Z) : ClientHandle * bool :=
  if QUEUE_BYTES <? wrap64 (queued c + len frame) then (c, false)
  else if open_ c then (set_queue (wrap64 (queued c + len frame)) (chan c ++ [Data frame]) c, true)
  else (c, false).

(** [iter().all(enqueue)] stops at the first refusal. *)
Fixpoint enqueue_all (c : ClientHandle) (frames : list (list Z)) : ClientHandle * bool :=
  match frames with
  | [] => (c, true)
  | f :: frames => let '(c, ok) := enqueue c f in if ok then enqueue_all c frames else (c, false)
  end.

Definition send_close (frame : list Z) (c : ClientHandle) : ClientHandle :=
  if open_ c then set_queue (wrap64 (queued c + len frame)) (chan c ++ [Close frame]) c else c.

Definition shut_down (c : ClientHandle) : ClientHandle :=
  mk_client (c_id c) (c_role c) (queued c) (chan c) (written c) (open_ c) true.

(** One turn of [writer_loop]: the write fails on a socket shut down, and
    otherwise after any number of bytes or not at all. *)
Definition writer_turn (failed : option nat) (c : ClientHandle) : ClientHandle :=
  if open_ c then
    match chan c with
    | [] => c
    | m :: ch =>
        let failed := if shut c then Some (default 0%nat failed) else failed in
        let out := match failed with None => msg_bytes m | Some n => take n (msg_bytes m) end in
        let q := wrap64 (queued c - len (msg_bytes m)) in
        match m, failed with
        | Data _, None => mk_client (c_id c) (c_role c) q ch (written c ++ out) true (shut c)
        | _, _ => mk_client (c_id c) (c_role c) q [] (written c ++ out) false true
        end
    end
  else c.

Section supervisor.
  Context {JErr : Type}.
  Context (event_json : SessionEvent -> result (list Z) JErr)
    (closed_json : Closed -> result (list Z) JErr) (status_json : Status -> result (list Z) JErr)
    (hello_json : list Z -> result Hello JErr).
  Context (clock : nat -> string) (instant : nat -> Z).

Definition close_client (why : CloseReason) (c : ClientHandle) : ClientHandle :=
  let c := match encode_json closed_json CLOSED (mk_closed why None None) with
           | Ok frame => send_close frame c
           | Err _ => c
           end in
  if bool_decide (why = CTooSlow) then shut_down c else c.

(** [retain] with a test that also changes the client: who stays, who goes. *)
Fixpoint retain (f : ClientHandle -> ClientHandle * bool) (l : list ClientHandle) :
    list ClientHandle * list ClientHandle :=
  match l with
  | [] => ([], [])
  | c :: l =>
      let '(c, ok) := f c in
      let '(kept, lost) := retain f l in if ok then (c :: kept, lost) else (kept, c :: lost)
  end.

Definition retain_clients (f : ClientHandle -> ClientHandle * bool) (s : Shared) : Shared * list ClientHandle :=
  let '(kept, lost) := retain f (registered s) in (add_gone lost (on_clients (fun _ => kept) s), lost).

(** ** The log *)

Definition log_event (kind : SessionEventKind) (s : Shared) : Shared :=
  let event := mk_event (clock (ticks s)) kind in
  let s := add_event event s in
  match encode_json event_json EVENT event with
  | Ok frame =>
      fst (retain_clients (fun c => if bool_decide (c_role c = Control) then enqueue c frame else (c, true)) s)
  | Err _ => s
  end.

Definition log_all (kinds : list SessionEventKind) (s : Shared) : Shared :=
  foldl (fun s k => log_event k s) s kinds.

Definition denied_event (r : report) : SessionEventKind :=
  let '(class, name, count) := r in SandboxDenied class name count.

Definition record_denial (class name : string) (s : Shared) : Shared :=
  let '(t, due) := record (tally s) (instant (ticks s)) class name in
  let s := set_tally t s in
  match due with Some r => log_event (denied_event r) s | None => s end.

(** ** Output *)

Definition push_screen (bytes : list Z) (s : Shared) : Shared :=
  set_screen (ring_push (ring s) bytes) (alt_feed (alt s) bytes) (rows_ s) (cols_ s) s.

Definition offer (frames : list (list Z)) (c : ClientHandle) : ClientHandle * bool :=
  match c_role c with
  | Control => (c, true)
  | Terminal =>
      let '(c, ok) := enqueue_all c frames in (if ok then c else close_client CTooSlow c, ok)
  end.

(** The part of [broadcast] under the clients' lock; the clients dropped are
    logged after it. *)
Definition fan_out (s : Shared) : Shared :=
  let '(s, dropped) := retain_clients (offer (chunks OUTPUT (pumping s))) s in
  owe MainThread (map (fun c => LogDetached (c_id c)) dropped) (set_pumping [] s).

(** One turn of [serve]'s loop, on the bytes one read gave, up to the screen. *)
Definition serve_read (bytes : list Z) (s : Shared) : Shared :=
  let '(f, out, dropped) := feed (filter_ s) bytes in
  let s := foldl (fun s n => record_denial "terminal" n s) (set_filter f s) dropped in
  if bool_decide (out = []) then s else set_pumping out (push_screen out s).

(** ** Stopping and the end *)

(** [request_stop] under the phase's lock; the flag says whether it goes on,
    to the cause, the event and the ladder. *)
Definition request_stop (o : Owner) (by_ : string) (cause : CloseReason) (s : Shared) : Shared * bool :=
  match phase s with
  | PRunning => (owe o [RecordCause cause; LogStop by_] (set_phase PStopping (stop_cause s) s), true)
  | _ => (s, false)
  end.

(** [finish] up to the phase. *)
Definition conclude (s : Shared) : Shared :=
  let '(t, pending) := flush (tally s) (instant (ticks s)) in
  let s := log_all (map denied_event pending) (set_tally t s) in
  set_phase PExited (stop_cause s) s.

(** [finish] from the cause to the wait; the wait only lets the writers run. *)
Definition collect (code signal : option Z) (s : Shared) : Shared :=
  let closed := mk_closed (default CExited (stop_cause s)) code signal in
  let frame := match encode_json closed_json CLOSED closed with Ok f => f | Err _ => [] end in
  take_clients (send_close frame) s.


(** *** What a thread owes *)

Definition do_task (t : Task) (s : Shared) : Shared :=
  match t with
  | RecordCause cause => set_phase (phase s) (Some cause) s
  | LogStop by_ => log_event (StopRequested by_) s
  | LogAttached id => log_event (Attached (Z.of_N id)) s
  | LogDetached id => log_event (Detached (Z.of_N id)) s
  | LogExit code signal => owe MainThread [SendClosed code signal] (log_event (EvExited code signal) s)
  | SendClosed code signal => collect code signal s
  end.

Fixpoint take_first (o : Owner) (l : list (Owner * Task)) : option (Task * list (Owner * Task)) :=
  match l with
  | [] => None
  | (o', t) :: l =>
      if decide (o' = o) then Some (t, l) else (fun '(t0, l) => (t0, (o', t) :: l)) <$> take_first o l
  end.

Definition pay (o : Owner) (s : Shared) : Shared :=
  match take_first o (owed s) with Some (t, rest) => do_task t (set_owed rest s) | None => s end.

(** The drain is over while nothing is queued, or at the deadline. *)
Definition drained (s : Shared) : bool := negb (existsb (fun c => 0 <? queued c) (ending s)).

Definition hang_up (s : Shared) : Shared :=
  foldl (fun s c => on_client (c_id c) shut_down s) s (ending s).

(** ** Clients *)

Definition status_of (s : Shared) : Status :=
  let n := Z.of_nat (length (List.filter (fun c => bool_decide (c_role c = Terminal)) (registered s))) in
  mk_status (if in_range 0 u32_max (child s) then child s else 0)
    (match phase s with PStopping => "stopping" | _ => "running" end)
    (Z.min u32_max n) (started s).

(** [apply_size]; [ok] says whether each [set_window_size] succeeded. *)
Definition apply_size (rows cols : Z) (force_redraw : bool) (ok1 ok2 : bool) (s : Shared) : Shared :=
  let same := (rows_ s =? rows) && (cols_ s =? cols) in
  let s := set_screen (ring s) (alt s) rows cols s in
  let s := if force_redraw && same && active (alt s) then
      log_event (Resized rows (sat_sub cols 1)) (if ok1 then set_window_size (rows, sat_sub cols 1) s else s)
    else s in
  if ok2 then log_event (Resized rows cols) (set_window_size (rows, cols) s) else s.

(** The hello of [client_thread]: the first frame, and not after the end. *)
Definition greet (first : option Frame) (s : Shared) : option Hello :=
  match first with
  | Some f =>
      if Wire.kind f =? HELLO then
        match decode_json hello_json (payload f) with
        | Ok h => if bool_decide (phase s = PExited) then None else Some h
        | Err _ => None
        end
      else None
  | None => None
  end.

(** What a late terminal is sent before it is registered. *)
Definition replay_for (s : Shared) : list Z := if active (alt s) then [] else snapshot (ring s).

Definition new_client (id : N) (role : Role) : ClientHandle := mk_client id role 0 [] [] true false.

Definition replayed (replay : list Z) (c : ClientHandle) : ClientHandle * bool :=
  if bool_decide (replay = []) then (c, true) else enqueue_all c (chunks OUTPUT replay).

(** *** The way in, a step at a time *)

Definition let_in (first : option Frame) (s : Shared) : option (N * Role) * Shared :=
  match greet first s with
  | None => (None, s)
  | Some h =>
      let id := (next_id s + 1)%N in
      (Some (id, h_role h),
       set_joining (fun l => l ++ [mk_joiner (new_client id (h_role h)) h Greeted]) (set_next_id id s))
  end.

Definition j_id (j : Joiner) : N := c_id (j_client j).

Definition find_joiner (id : N) (s : Shared) : option Joiner :=
  List.find (fun j => bool_decide (j_id j = id)) (joining s).

Definition drop_joiner (id : N) : Shared -> Shared :=
  set_joining (List.filter (fun j => negb (bool_decide (j_id j = id)))).

Definition put_joiner (id : N) (c : ClientHandle) (st : Stage) : Shared -> Shared :=
  set_joining (map (fun j => if bool_decide (j_id j = id) then mk_joiner c (j_hello j) st else j)).

(** The snapshot, under the screen's lock, and its way into the client's own
    queue; false for a client that cannot take it. *)
Definition replay (id : N) (s : Shared) : bool * Shared :=
  match find_joiner id s with
  | Some j =>
      match j_stage j, c_role (j_client j) with
      | Greeted, Terminal =>
          let '(c, ok) := replayed (replay_for s) (j_client j) in
          if ok then (true, put_joiner id c Replayed s)
          else (false, add_gone [close_client CTooSlow c] (drop_joiner id s))
      | _, _ => (false, s)
      end
  | None => (false, s)
  end.

Definition fit (id : N) (ok1 ok2 : bool) (s : Shared) : Shared :=
  match find_joiner id s with
  | Some (mk_joiner c h Replayed) => put_joiner id c Sized (apply_size (h_rows h) (h_cols h) true ok1 ok2 s)
  | _ => s
  end.

Definition enter (id : N) (c : ClientHandle) (s : Shared) : Shared :=
  set_looping (fun l => l ++ [id]) (on_clients (fun l => l ++ [c]) (drop_joiner id s)).

(** The handle pushed under the clients' lock; a terminal is logged after. *)
Definition register (id : N) (s : Shared) : Shared :=
  match find_joiner id s with
  | Some (mk_joiner c _ st) =>
      match c_role c, st with
      | Control, Greeted => enter id c s
      | Terminal, Sized => owe (ClientThread id) [LogAttached id] (enter id c s)
      | _, _ => s
      end
  | None => s
  end.

Definition reply (frame : list Z) (c : ClientHandle) : ClientHandle :=
  set_queue (wrap64 (queued c + len frame)) (if open_ c then chan c ++ [Data frame] else chan c) c.

(** One frame of the loop; the flag says whether the loop goes on. *)
Definition client_frame (id : N) (role : Role) (f : Frame) (ok : bool) (s : Shared) : Shared * bool :=
  if Wire.kind f =? INPUT then (if ok then write_input (payload f) s else s, ok)
  else if Wire.kind f =? RESIZE then
    (match decode_resize (payload f) with
     | Some (rows, cols) => apply_size rows cols false true ok s
     | None => s
     end, true)
  else if Wire.kind f =? DETACH then (s, false)
  else if (Wire.kind f =? STOP) && bool_decide (role = Control) then (fst (request_stop (ClientThread id) "daemon" CStopped s), true)
  else if (Wire.kind f =? STATUS_REQ) && bool_decide (role = Control) then
    (match encode_json status_json STATUS (status_of s) with
     | Ok frame => on_client id (reply frame) s
     | Err _ => s
     end, true)
  else (s, true).

(** The end of [client_thread], up to its event. *)
Definition hang (c : ClientHandle) : ClientHandle :=
  shut_down (set_queue (queued c) (if open_ c then chan c ++ [Close []] else chan c) c).

Definition depart (id : N) (role : Role) (s : Shared) : Shared :=
  let '(s, lost) := retain_clients (fun c => (c, negb (bool_decide (c_id c = id)))) s in
  let s := set_looping (List.filter (fun i => negb (bool_decide (i = id)))) (on_client id hang s) in
  if negb (bool_decide (lost = [])) && bool_decide (role = Terminal) then owe (ClientThread id) [LogDetached id] s else s.

(** ** Runs *)

Inductive action : Type :=
| PtyRead (bytes : list Z)
| FanOut
| Teardown
| Refusal (class name : string)
| Greet (first : option Frame)
| Replay (id : N)
| Fit (id : N) (ok1 ok2 : bool)
| Register (id : N)
| ClientFrame (id : N) (f : Frame) (ok : bool)
| Leave (id : N)
| Stop (by_ : string) (cause : CloseReason)
| Pay (o : Owner)
| Writer (id : N) (failed : option nat)
| Finish (code signal : option Z)
| HangUp.

(** A client's thread knows its own role. *)
Definition role_of (id : N) (s : Shared) : option Role :=
  c_role <$> List.find (fun c => bool_decide (c_id c = id)) (registered s ++ gone s ++ ending s).

(** A thread takes its next step once it has done what it owes.  The main one
    pumps until the teardown, and then ends the session, once. *)
Definition main_idle (s : Shared) : bool := negb (owes MainThread s) && bool_decide (pumping s = []).

Definition may_read (s : Shared) : bool := main_idle s && negb (tearing_down s).

Definition may_finish (s : Shared) : bool := main_idle s && tearing_down s && negb (bool_decide (phase s = PExited)).

Definition in_loop (id : N) (s : Shared) : bool := bool_decide (id ∈ looping s) && negb (owes (ClientThread id) s).

Definition act (a : action) (s : Shared) : Shared :=
  match a with
  | PtyRead bytes => if may_read s then serve_read bytes s else s
  | FanOut => if bool_decide (pumping s = []) then s else fan_out s
  | Teardown => if main_idle s then begin_teardown s else s
  | Refusal class name => record_denial class name s
  | Greet first => snd (let_in first s)
  | Replay id => snd (replay id s)
  | Fit id ok1 ok2 => fit id ok1 ok2 s
  | Register id => register id s
  | ClientFrame id f ok =>
      if in_loop id s then match role_of id s with Some r => fst (client_frame id r f ok s) | None => s end else s
  | Leave id => if in_loop id s then match role_of id s with Some r => depart id r s | None => s end else s
  | Stop by_ cause => if owes SignalThread s then s else fst (request_stop SignalThread by_ cause s)
  | Pay o => pay o s
  | Writer id failed => on_writer id (writer_turn failed) s
  | Finish code signal =>
      if may_finish s then owe MainThread [LogExit code signal] (conclude s) else s
  | HangUp => if main_idle s then hang_up s else s
  end.

Definition run_acts (acts : list action) (s : Shared) : Shared := foldl (fun s a => act a s) s acts.

(** ** Specification *)

Definition is_terminal_client (c : ClientHandle) : bool := bool_decide (c_role c = Terminal).

Definition terminals (s : Shared) : list ClientHandle := List.filter is_terminal_client (registered s).



(** The output one action sends to the terminals, and that of a run. *)
Definition output_of (a : action) (s : Shared) : list (list Z) :=
  match a with
  | FanOut => if bool_decide (pumping s = []) then [] else chunks OUTPUT (pumping s)
  | _ => []
  end.

Fixpoint all_output (acts : list action) (s : Shared) : list (list Z) :=
  match acts with
  | [] => []
  | a :: acts => output_of a s ++ all_output acts (act a s)
  end.

(** All a client was given: what its socket took and what is queued. *)
Definition stream (c : ClientHandle) : list Z := written c ++ concat (map msg_bytes (chan c)).

Definition is_finish (a : action) : bool := match a with Finish _ _ => true | _ => false end.

(** The terminals in the list, the clients on their way to it, and what is owed
    of each kind. *)
Definition ids (s : Shared) : list N := map c_id (registered s).

Definition jids (s : Shared) : list N := map j_id (joining s).

Definition tids (s : Shared) : list N := map c_id (terminals s).

Definition attaching (t : Task) : option N := match t with LogAttached i => Some i | _ => None end.
Definition detaching (t : Task) : option N := match t with LogDetached i => Some i | _ => None end.
Definition stopping (t : Task) : option unit := match t with LogStop _ => Some tt | _ => None end.
Definition exiting (t : Task) : option unit := match t with LogExit _ _ => Some tt | _ => None end.
Definition closing (t : Task) : option unit := match t with SendClosed _ _ => Some tt | _ => None end.

Definition picks {A} (f : Task -> option A) (s : Shared) : list A := omap (fun x => f (snd x)) (owed s).

(** The terminals whose arrival, and those whose leaving, is not logged yet. *)
Definition aids (s : Shared) : list N := picks attaching s.

Definition dids (s : Shared) : list N := picks detaching s.

Definition owes_stop (s : Shared) : bool := negb (bool_decide (picks stopping s = [])).

Definition owes_exit (s : Shared) : bool := negb (bool_decide (picks exiting s = [])).

(** A client is logged as gone before it is as attached. *)
Definition early (a : action) (s : Shared) : bool :=
  match a with
  | Pay o => match take_first o (owed s) with Some (LogDetached i, _) => bool_decide (i ∈ aids s) | _ => false end
  | _ => false
  end.

Fixpoint in_turn (acts : list action) (s : Shared) : bool :=
  match acts with
  | [] => true
  | a :: acts => negb (early a s) && in_turn acts (act a s)
  end.


(** ** What logging leaves alone *)

Definition core (s : Shared) :=
  (ring s, alt s, (rows_ s, cols_ s), next_id s, phase s, stop_cause s, tally s, filter_ s, terminals s,
   (joining s, owed s, pumping s, looping s)).

Definition logged (s s' : Shared) (kinds : list SessionEventKind) : Prop :=
  exists es, events s' = events s ++ es /\ map ekind es = kinds.

Lemma logged_nil s s' : events s' = events s -> logged s s' [].
Proof. intros H. exists []. by rewrite H, app_nil_r. Qed.

Lemma logged_app s1 s2 s3 k1 k2 : logged s1 s2 k1 -> logged s2 s3 k2 -> logged s1 s3 (k1 ++ k2).
Proof.
  intros (e1 & H1 & <-) (e2 & H2 & <-). exists (e1 ++ e2). by rewrite H2, H1, app_assoc, map_app.
Qed.

Lemma retain_filter f l : (forall c, is_terminal_client c = true -> f c = (c, true)) ->
  (forall c, is_terminal_client (fst (f c)) = is_terminal_client c) ->
  List.filter is_terminal_client (fst (retain f l)) = List.filter is_terminal_client l.
Proof.
  intros Hf Hr. induction l as [|c l IH]; [done|]. cbn [retain].
  pose proof (Hf c) as H1. pose proof (Hr c) as H2. destruct (f c) as [c' ok].
  destruct (retain f l) as [kept lost]. cbn [fst List.filter] in *.
  destruct (is_terminal_client c).
  - pose proof (H1 eq_refl) as [= -> ->]. cbn [fst List.filter]. by rewrite H2, IH.
  - destruct ok; cbn [fst List.filter]; [by rewrite H2|done].
Qed.

Lemma enqueue_id c f : c_id (fst (enqueue c f)) = c_id c /\ c_role (fst (enqueue c f)) = c_role c.
Proof. unfold enqueue. by repeat case_match. Qed.

Lemma log_event_core kind s : core (log_event kind s) = core s.
Proof.
  unfold log_event, retain_clients. destruct (encode_json _ _ _) as [frame|]; [|done].
  destruct (retain _ _) as [kept lost] eqn:E. cbn [fst]. unfold core, terminals. cbn.
  assert (H : List.filter is_terminal_client kept = List.filter is_terminal_client (registered s)); [|by rewrite H].
  change kept with (fst (kept, lost)). rewrite <- E. apply retain_filter.
  - intros c Hc%bool_decide_eq_true. by rewrite Hc.
  - intros c. destruct (bool_decide (c_role c = Control)); [|done]. unfold is_terminal_client.
    by rewrite (proj2 (enqueue_id c frame)).
Qed.

Lemma log_event_logged kind s : logged s (log_event kind s) [kind].
Proof.
  exists [mk_event (clock (ticks s)) kind]. split; [|done].
  unfold log_event, retain_clients. destruct (encode_json _ _ _); [|done]. by destruct (retain _ _).
Qed.

Lemma log_all_core kinds : forall s, core (log_all kinds s) = core s.
Proof. induction kinds as [|k kinds IH]; intros s; [done|]. cbn. unfold log_all in IH. by rewrite IH, log_event_core. Qed.

Lemma log_all_logged kinds : forall s, logged s (log_all kinds s) kinds.
Proof.
  induction kinds as [|k kinds IH]; intros s; [by apply logged_nil|].
  apply (logged_app s (log_event k s) _ [k]); [apply log_event_logged|apply IH].
Qed.

(** ** The log tells how the session stands *)

(** What an event does to the record's state and client count. *)
Definition track (x : SessionState * Z) (k : SessionEventKind) : SessionState * Z :=
  let '(st, n) := x in
  if is_terminal st then x
  else match k with
       | Started _ => (Running, n)
       | Attached _ => (st, wrap32 (n + 1))
       | Detached _ => (st, sat_sub n 1)
       | StopRequested _ => (if is_live st then Stopping else st, n)
       | EvExited code signal => (Exited code signal, 0)
       | EvFailed code message => (Failed code message (remediation_for code), 0)
       | _ => x
       end.

Definition standing (spec : SessionSpec) (s : Shared) : SessionState * Z :=
  let S := from_log spec (events s) in (state S, clients S).

Lemma standing_fold spec s s' kinds : logged s s' kinds -> standing spec s' = foldl track (standing spec s) kinds.
Proof.
  intros (es & He & <-). unfold standing, from_log. rewrite He, foldl_app.
  generalize (foldl apply_event (initial spec) (events s)). clear He. induction es as [|e es IH]; intros S; [done|].
  cbn [foldl map]. rewrite IH. f_equal. unfold apply_event, track. destruct (is_terminal (state S)); [done|].
  destruct (ekind e); cbn; try done; [by destruct (existsb _ _)|by destruct (is_live (state S))].
Qed.

Definition quiet (k : SessionEventKind) : bool :=
  match k with SandboxDenied _ _ _ | Resized _ _ => true | _ => false end.

Lemma track_quiet kinds x : forallb quiet kinds = true -> foldl track x kinds = x.
Proof.
  revert x. induction kinds as [|k kinds IH]; intros [st n]; [done|]. cbn [forallb foldl]. intros [Hk Hq]%andb_true_iff.
  replace (track (st, n) k) with (st, n); [by apply IH|]. unfold track. by destruct (is_terminal st), k.
Qed.

(** ** Who is registered, joining and owed *)

Definition ids_ok (s : Shared) : Prop :=
  NoDup (ids s ++ jids s) /\ Forall (fun i => (i <= next_id s)%N) (ids s ++ jids s).

(** What logging and the clients' queues leave alone, some of the control
    clients apart. *)
Definition steady (s s' : Shared) : Prop :=
  phase s' = phase s /\ next_id s' = next_id s /\ ids s' `sublist_of` ids s /\ tids s' = tids s /\
  jids s' = jids s /\ owed s' = owed s.

#[local] Instance steady_preorder : PreOrder steady.
Proof.
  split; [done|]. intros s1 s2 s3 (P1 & N1 & I1 & T1 & J1 & O1) (P2 & N2 & I2 & T2 & J2 & O2).
  repeat split; try congruence. by etrans.
Qed.

(** And nothing of the lifecycle is logged. *)
Definition calm (spec : SessionSpec) (s s' : Shared) : Prop := steady s s' /\ standing spec s' = standing spec s.

#[local] Instance calm_preorder spec : PreOrder (calm spec).
Proof. split; [done|]. intros s1 s2 s3 [S1 E1] [S2 E2]. split; [by etrans|congruence]. Qed.

Lemma retain_ids f l : (forall c, c_id (fst (f c)) = c_id c) ->
  map c_id (fst (retain f l)) `sublist_of` map c_id l.
Proof.
  intros Hf. induction l as [|c l IH]; [constructor|]. cbn [retain]. specialize (Hf c). destruct (f c) as [c' ok].
  destruct (retain f l) as [kept lost]. cbn [fst map] in *. destruct ok; cbn [fst map]; [rewrite Hf|]; by constructor.
Qed.

(** Queue changes keep a client's name and role. *)
Definition same_client (f : ClientHandle -> ClientHandle) : Prop :=
  forall c, c_id (f c) = c_id c /\ c_role (f c) = c_role c.

Lemma same_terminal f c : same_client f -> is_terminal_client (f c) = is_terminal_client c.
Proof. intros H. unfold is_terminal_client. by rewrite (proj2 (H c)). Qed.

(** The terminals that a test lets go are those that are no longer kept. *)
Lemma retain_split f l : same_client (fun c => fst (f c)) -> (forall c, is_terminal_client c = false -> snd (f c) = true) ->
  map c_id (List.filter is_terminal_client l)
  ≡ₚ map c_id (List.filter is_terminal_client (fst (retain f l))) ++ map c_id (snd (retain f l)).
Proof.
  intros Hr Hc. induction l as [|c l IH]; [done|]. cbn [retain]. pose proof (same_terminal _ c Hr) as Hs. specialize (Hr c). specialize (Hc c).
  cbv beta in Hs, Hr. destruct (f c) as [c' ok]. destruct (retain f l) as [kept lost]. cbn [fst snd List.filter] in *. destruct Hr as [Hi _].
  destruct (is_terminal_client c), ok; cbn [fst snd List.filter map]; rewrite ?Hs; cbn [map]; rewrite ?Hi, ?IH; try done.
  - apply Permutation_middle.
  - by specialize (Hc eq_refl).
Qed.

Lemma log_event_steady kind s : steady s (log_event kind s).
Proof.
  pose proof (log_event_core kind s) as H. unfold core in H. injection H as _ _ _ _ Hn Hp _ _ _ Ht Hj Ho _ _.
  unfold steady, tids, jids. rewrite Hn, Hp, Ht, Hj, Ho. repeat split. unfold ids.
  unfold log_event, retain_clients. destruct (encode_json _ _ _) as [frame|]; [|done].
  destruct (retain _ _) as [kept lost] eqn:E. cbn [fst]. cbn.
  change kept with (fst (kept, lost)). rewrite <- E. apply retain_ids. intros c.
  destruct (bool_decide (c_role c = Control)); [apply enqueue_id|done].
Qed.

Lemma log_all_steady kinds : forall s, steady s (log_all kinds s).
Proof. induction kinds as [|k kinds IH]; intros s; [done|]. etrans; [apply log_event_steady|apply IH]. Qed.

Lemma standing_log spec kind s : standing spec (log_event kind s) = track (standing spec s) kind.
Proof. by rewrite (standing_fold spec s _ [kind] (log_event_logged kind s)). Qed.

Lemma log_calm spec kind s s' : calm spec s s' -> quiet kind = true -> calm spec s (log_event kind s').
Proof.
  intros H Hq. etrans; [exact H|]. split; [apply log_event_steady|]. rewrite standing_log.
  apply (track_quiet [kind]). cbn. by rewrite Hq.
Qed.

Definition reports (l : list report) : list SessionEventKind := map denied_event l.

Lemma reports_quiet l : forallb quiet (reports l) = true.
Proof. induction l as [|[[c n] k] l IH]; [done|]. cbn. apply IH. Qed.


Lemma record_calm spec class name s : calm spec s (record_denial class name s).
Proof.
  unfold record_denial. destruct (record _ _ _ _) as [t [[[c n] k]|]]; [|done]. by apply log_calm.
Qed.

Lemma records_calm spec class names : forall s, calm spec s (foldl (fun s n => record_denial class n s) s names).
Proof. induction names as [|n names IH]; intros s; [done|]. etrans; [apply record_calm|apply IH]. Qed.

Lemma reports_calm spec l t s : calm spec s (log_all (reports l) (set_tally t s)).
Proof.
  split; [etrans; [|apply log_all_steady]; done|].
  rewrite (standing_fold spec _ _ _ (log_all_logged (reports l) (set_tally t s))). apply track_quiet, reports_quiet.
Qed.

Lemma size_calm spec rows cols force ok1 ok2 s : calm spec s (apply_size rows cols force ok1 ok2 s).
Proof. unfold apply_size. cbv zeta. destruct (force && _ && _), ok1, ok2; repeat (apply log_calm; [|done]); done. Qed.

Lemma enqueue_all_id frames : same_client (fun c => fst (enqueue_all c frames)).
Proof.
  induction frames as [|f frames IH]; intros c; [done|]. cbn [enqueue_all]. pose proof (enqueue_id c f) as [H1 H2].
  destruct (enqueue c f) as [c' []]; [|done]. cbn in *. destruct (IH c') as [-> ->]. done.
Qed.

Lemma send_close_id frame : same_client (send_close frame).
Proof. intros c. unfold send_close. by destruct (open_ c). Qed.

Lemma close_client_id why : same_client (close_client why).
Proof.
  intros c. unfold close_client. destruct (encode_json _ _ _) as [frame|]; case_bool_decide; cbn;
    try apply send_close_id; done.
Qed.

Lemma offer_id frames : same_client (fun c => fst (offer frames c)).
Proof.
  intros c. unfold offer. destruct (c_role c) eqn:E; [|done]. pose proof (enqueue_all_id frames c) as [H1 H2].
  destruct (enqueue_all c frames) as [c' ok]. cbn in *. destruct ok; [by rewrite H1, H2|].
  destruct (close_client_id CTooSlow c') as [-> ->]. by rewrite H1, H2.
Qed.

Lemma writer_turn_id failed : same_client (writer_turn failed).
Proof. intros c. unfold writer_turn. destruct (open_ c); [|done]. destruct (chan c) as [|[b|b] ch]; by repeat case_match. Qed.

Lemma replayed_id replay : same_client (fun c => fst (replayed replay c)).
Proof. intros c. unfold replayed. case_bool_decide; [done|apply enqueue_all_id]. Qed.

Lemma hang_id : same_client hang.
Proof. by intros c. Qed.

Lemma on_client_calm spec id f s : same_client f -> calm spec s (on_client id f s).
Proof.
  intros Hf. assert (H : forall l, map c_id (map (fun c => if bool_decide (c_id c = id) then f c else c) l) = map c_id l
    /\ map c_id (List.filter is_terminal_client (map (fun c => if bool_decide (c_id c = id) then f c else c) l))
       = map c_id (List.filter is_terminal_client l)).
  { induction l as [|c l [IH1 IH2]]; [done|]. cbn [map List.filter].
    destruct (bool_decide (c_id c = id)); rewrite ?(same_terminal f c Hf), ?(proj1 (Hf c)), IH1; (split; [done|]);
      destruct (is_terminal_client c); cbn [map]; by rewrite ?(proj1 (Hf c)), IH2. }
  unfold calm, steady, ids, tids, terminals. cbn. by destruct (H (registered s)) as [-> ->].
Qed.

Lemma on_writer_calm spec id f s : same_client f -> calm spec s (on_writer id f s).
Proof.
  intros Hf. etrans; [by apply (on_client_calm spec id f)|]. unfold calm, steady. split_and!; try done. unfold jids. cbn. rewrite map_map.
  apply map_ext. intros j. case_bool_decide; [apply Hf|done].
Qed.

Lemma hang_up_calm spec s : calm spec s (hang_up s).
Proof.
  unfold hang_up. generalize (ending s). intros l. revert s. induction l as [|c l IH]; intros s; [done|]. cbn [foldl].
  etrans; [by apply (on_client_calm spec (c_id c) shut_down)|apply IH].
Qed.

(** *** What is owed *)

Lemma take_first_spec o : forall l t rest, take_first o l = Some (t, rest) ->
  exists l1 l2, l = l1 ++ (o, t) :: l2 /\ rest = l1 ++ l2.
Proof.
  induction l as [|[o' t'] l IH]; intros t rest; [done|]. cbn [take_first]. case_decide as Ho.
  - intros [= <- <-]. exists [], l. by subst.
  - destruct (take_first o l) as [[t0 l0]|]; [|done]. intros [= <- <-]. destruct (IH _ _ eq_refl) as (l1 & l2 & -> & ->).
    by exists ((o', t') :: l1), l2.
Qed.

Lemma pay_picks {A} (f : Task -> option A) o s t rest : take_first o (owed s) = Some (t, rest) ->
  picks f s ≡ₚ option_list (f t) ++ picks f (set_owed rest s).
Proof.
  intros H. apply take_first_spec in H as (l1 & l2 & H & ->). unfold picks. rewrite H. cbn [set_owed owed].
  rewrite !omap_app. cbn [omap list_omap snd]. destruct (f t) as [a|]; [|done]. cbn. by rewrite Permutation_middle.
Qed.

Lemma picks_owe {A} (f : Task -> option A) o tasks s : picks f (owe o tasks s) = picks f s ++ omap f tasks.
Proof.
  unfold picks, owe. cbn. rewrite omap_app. f_equal. induction tasks as [|t tasks IH]; [done|]. cbn.
  destruct (f t); by rewrite IH.
Qed.

(** ** The log against the session *)

(** The state the log tells, against the phase and what is still owed. *)
Definition phase_ok (p : Phase) (stops exits : nat) (st : SessionState) : Prop :=
  match p, stops, exits with
  | PRunning, O, O => st = Running
  | PStopping, S O, O => st = Running
  | PStopping, O, O => st = Stopping
  | PExited, _, S O => is_live st = true
  | PExited, _, O => is_terminal st = true
  | _, _, _ => False
  end.

(** The count the log tells, against the terminals that are [here]: registered,
    or gone and not yet logged so.  It is [exact] as long as none was logged
    as gone before it was as attached. *)
Definition counts_ok (exact : bool) (n : Z) (next : N) (here coming joiners : list N) : Prop :=
  0 <= n /\ n + Z.of_nat (length coming) + Z.of_nat (length joiners) <= Z.of_N next /\
  NoDup here /\ NoDup coming /\
  (forall i, i ∈ here \/ i ∈ coming -> (i <= next)%N /\ i ∉ joiners) /\
  Z.of_nat (length here) <= n + Z.of_nat (length coming) /\
  (exact = true -> Z.of_nat (length here) = n + Z.of_nat (length coming) /\ forall i, i ∈ coming -> i ∈ here).

Lemma counts_perm exact n next h h' c c' j j' : h ≡ₚ h' -> c ≡ₚ c' -> j ≡ₚ j' ->
  counts_ok exact n next h c j -> counts_ok exact n next h' c' j'.
Proof.
  intros Eh Ec Ej. unfold counts_ok. rewrite Eh, Ec, Ej. intros (H1 & H2 & H3 & H4 & H5 & H6 & H7).
  repeat split; try done.
  - apply H5. by rewrite Eh, Ec.
  - rewrite <- Ej. apply H5. by rewrite Eh, Ec.
  - by apply H7.
  - intros i Hi. rewrite <- Eh. apply (proj2 (H7 H)). by rewrite Ec.
Qed.

Lemma counts_weaken (exact b : bool) n next h c j : (b = true -> exact = true) ->
  counts_ok exact n next h c j -> counts_ok b n next h c j.
Proof. intros Hb (H1 & H2 & H3 & H4 & H5 & H6 & H7). do 6 (split; [done|]). intros He. by apply H7, Hb. Qed.

(** A terminal gets its id. *)
Lemma counts_greet exact n next h c j : counts_ok exact n next h c j ->
  counts_ok exact n (next + 1) h c (j ++ [(next + 1)%N]).
Proof.
  intros (H1 & H2 & H3 & H4 & H5 & H6 & H7). unfold counts_ok. rewrite length_app. cbn [length].
  split; [done|]. split; [lia|]. do 2 (split; [done|]). split; [|by split]. intros i Hi. destruct (H5 i Hi) as [Hle Hj].
  split; [lia|]. rewrite elem_of_app, list_elem_of_singleton. intros [?| ->]; [done|lia].
Qed.

(** It is registered, or only a control client was, or it went. *)
Lemma counts_register exact n next h c j i : NoDup (i :: j) -> (i <= next)%N -> counts_ok exact n next h c (i :: j) ->
  counts_ok exact n next (h ++ [i]) (c ++ [i]) j.
Proof.
  intros Hn Hle (H1 & H2 & H3 & H4 & H5 & H6 & H7). apply NoDup_cons in Hn as [Hi Hn]. unfold counts_ok. rewrite !length_app. cbn [length] in *.
  split; [done|]. split; [lia|].
  assert (Hf : forall l, NoDup l -> (forall x, x ∈ l -> x ∉ i :: j) -> NoDup (l ++ [i])).
  { intros l Hl Hx. apply NoDup_app. split; [done|]. split; [|apply NoDup_singleton]. intros x Hin. apply Hx in Hin.
    rewrite list_elem_of_singleton. intros ->. apply Hin. by left. }
  split; [apply Hf; [done|]; intros x Hx; by apply H5; left|]. split; [apply Hf; [done|]; intros x Hx; by apply H5; right|].
  split; [|split; [lia|intros He; destruct (H7 He) as [Heq Hin]; split; [lia|]]].
  - intros x Hx. rewrite !elem_of_app, list_elem_of_singleton in Hx.
    assert (x = i \/ (x ∈ h \/ x ∈ c)) as [-> |Hx'] by tauto; [done|]. destruct (H5 x Hx') as [? Hj]. split; [done|].
    intros Hin. apply Hj. by right.
  - intros x Hx. rewrite !elem_of_app in *. destruct Hx as [Hx|Hx]; [left; by apply Hin|by right].
Qed.

Lemma counts_left exact n next h c j i : counts_ok exact n next h c (i :: j) -> counts_ok exact n next h c j.
Proof.
  intros (H1 & H2 & H3 & H4 & H5 & H6 & H7). unfold counts_ok. cbn [length] in *. split; [done|]. split; [lia|].
  do 2 (split; [done|]). split; [|by split]. intros x Hx. destruct (H5 x Hx) as [? Hj]. split; [done|].
  intros Hin. apply Hj. by right.
Qed.

(** Its arrival is logged. *)
Lemma counts_attached exact n next h c j i : Z.of_N next <= u32_max -> counts_ok exact n next h (i :: c) j ->
  counts_ok exact (wrap32 (n + 1)) next h c j.
Proof.
  intros Hb (H1 & H2 & H3 & H4 & H5 & H6 & H7). apply NoDup_cons in H4 as [Hi H4]. cbn [length] in *.
  assert (wrap32 (n + 1) = n + 1) as -> by (unfold wrap32, u32_max in *; rewrite Z.mod_small; lia).
  unfold counts_ok. split; [lia|]. split; [lia|]. do 2 (split; [done|]). split; [|split; [lia|]].
  - intros x Hx. apply H5. destruct Hx; [by left|right; by right].
  - intros He. destruct (H7 He) as [Heq Hin]. split; [lia|]. intros x Hx. apply Hin. by right.
Qed.

(** It is logged as gone; exactly when it had been logged as arrived. *)
Lemma counts_detached exact n next h c j i : counts_ok exact n next (i :: h) c j -> (exact = true -> i ∉ c) ->
  counts_ok exact (sat_sub n 1) next h c j.
Proof.
  intros (H1 & H2 & H3 & H4 & H5 & H6 & H7) Hi. apply NoDup_cons in H3 as [Hh H3]. unfold counts_ok, sat_sub. cbn [length] in *.
  split; [lia|]. split; [lia|]. do 2 (split; [done|]). split; [|split; [lia|]].
  - intros x Hx. apply H5. destruct Hx; [left; by right|by right].
  - intros He. destruct (H7 He) as [Heq Hin]. specialize (Hi He).
    assert (Hin' : forall x, x ∈ c -> x ∈ h).
    { intros x Hx. pose proof (Hin x Hx) as [->|?]%elem_of_cons; done. }
    split; [|done]. assert (length c <= length h)%nat; [|lia].
    apply submseteq_length, NoDup_submseteq; done.
Qed.

(** ** The invariant *)

Definition told (spec : SessionSpec) (exact : bool) (s : Shared) : Prop :=
  let st := fst (standing spec s) in
  ids_ok s /\ phase_ok (phase s) (length (picks stopping s)) (length (picks exiting s)) st /\
  (picks closing s <> [] -> is_terminal st = true) /\
  (is_terminal st = false ->
     counts_ok exact (snd (standing spec s)) (next_id s) (tids s ++ dids s) (aids s) (jids s)).

Lemma told_calm spec exact s s' : told spec exact s -> calm spec s s' -> told spec exact s'.
Proof.
  intros ([Hn Hf] & Hp & Hc & Ht) [(P & N & I & T & J & O) E]. unfold told, picks, dids, aids, picks.
  rewrite E, P, N, T, J, O. split; [|done].
  assert (Hs : (ids s' ++ jids s') `sublist_of` (ids s ++ jids s)) by (rewrite J; by apply sublist_app).
  split; [by eapply sublist_NoDup|]. rewrite N. rewrite Forall_forall in Hf |- *. intros x Hx. apply Hf.
  eapply elem_of_submseteq; [exact Hx|by apply sublist_submseteq].
Qed.

Lemma told_weaken spec exact b s : told spec exact s -> (b = true -> exact = true) -> told spec b s.
Proof.
  intros (Hi & Hp & Hc & Ht) Hb. do 3 (split; [done|]). intros Hl. by apply (counts_weaken exact); [|apply Ht].
Qed.

(** What changes the lists of terminals and of what is owed, and logs nothing. *)
Lemma told_moved spec exact s s' : told spec exact s -> standing spec s' = standing spec s -> phase s' = phase s ->
  next_id s' = next_id s -> ids s' `sublist_of` ids s -> jids s' = jids s ->
  picks stopping s' ≡ₚ picks stopping s -> picks exiting s' ≡ₚ picks exiting s -> picks closing s' ≡ₚ picks closing s ->
  tids s' ++ dids s' ≡ₚ tids s ++ dids s -> aids s' ≡ₚ aids s -> told spec exact s'.
Proof.
  intros ([Hn Hf] & Hp & Hc & Ht) E P N I J Hs1 Hs2 Hs3 Hh Ha. unfold told. rewrite E, P, N, Hs1, Hs2.
  assert (Hs : (ids s' ++ jids s') `sublist_of` (ids s ++ jids s)) by (rewrite J; by apply sublist_app).
  split; [|split; [done|split]].
  - split; [by eapply sublist_NoDup|]. rewrite N. rewrite Forall_forall in Hf |- *. intros x Hx. apply Hf.
    eapply elem_of_submseteq; [exact Hx|by apply sublist_submseteq].
  - intros H. apply Hc. intros H0. apply H. rewrite H0 in Hs3. by apply Permutation_nil_r in Hs3.
  - intros Hl. eapply counts_perm; [symmetry; exact Hh|symmetry; exact Ha|by rewrite J|by apply Ht].
Qed.

Lemma told_read spec exact bytes s : told spec exact s -> told spec exact (serve_read bytes s).
Proof.
  intros Ht. eapply told_calm; [exact Ht|]. unfold serve_read. destruct (feed _ _) as [[f out] dropped].
  assert (H : calm spec s (foldl (fun s n => record_denial "terminal" n s) (set_filter f s) dropped))
    by (etrans; [|apply records_calm]; done).
  case_bool_decide; [done|]. etrans; [exact H|done].
Qed.

Lemma omap_detached (l : list ClientHandle) : omap detaching (map (fun c => LogDetached (c_id c)) l) = map c_id l.
Proof. induction l as [|c l IH]; [done|]. cbn. by rewrite IH. Qed.

Lemma omap_none {A} (f : Task -> option A) (l : list ClientHandle) : (forall i, f (LogDetached i) = None) ->
  omap f (map (fun c => LogDetached (c_id c)) l) = [].
Proof. intros H. induction l as [|c l IH]; [done|]. cbn. by rewrite H, IH. Qed.

Lemma told_fan_out spec exact s : told spec exact s -> told spec exact (fan_out s).
Proof.
  intros Ht. unfold fan_out, retain_clients. set (f := offer (chunks OUTPUT (pumping s))).
  pose proof (retain_split f (registered s) (offer_id _)) as Hs. pose proof (retain_ids f (registered s)) as Hi.
  destruct (retain f (registered s)) as [kept lost]. cbn [fst snd] in *.
  eapply told_moved; [exact Ht|done..| |done| | | | |]; try (rewrite picks_owe, omap_none, app_nil_r by done; done).
  - apply Hi. intros c. apply offer_id.
  - unfold dids. rewrite picks_owe, omap_detached. unfold tids, terminals. cbn [owe set_owed set_pumping add_gone on_clients registered].
    rewrite Hs by (intros c Hc; unfold f, offer, is_terminal_client in *; by destruct (c_role c)).
    change (picks detaching (set_pumping _ _)) with (picks detaching s). solve_Permutation.
  - unfold aids. rewrite picks_owe, omap_none, app_nil_r by done. done.
Qed.

Lemma told_stop spec exact o by_ cause s : told spec exact s -> told spec exact (fst (request_stop o by_ cause s)).
Proof.
  intros (Hi & Hp & Hc & Ht). unfold request_stop. destruct (phase s) eqn:E; [|by rewrite <- E in Hp..]. cbn [fst].
  split; [done|]. unfold dids, aids. rewrite !picks_owe. cbn [omap list_omap stopping exiting closing attaching detaching]. rewrite !app_nil_r.
  split; [|by split]. rewrite length_app. cbn [length owe set_owed phase set_phase].
  change (picks stopping (set_phase _ _ s)) with (picks stopping s). change (picks exiting (set_phase _ _ s)) with (picks exiting s).
  change (standing spec (owe _ _ _)) with (standing spec s).
  unfold phase_ok in Hp. by destruct (length (picks stopping s)), (length (picks exiting s)).
Qed.

Lemma told_conclude spec exact code signal s : told spec exact s -> phase s <> PExited ->
  told spec exact (owe MainThread [LogExit code signal] (conclude s)).
Proof.
  intros Ht Hx. unfold conclude. destruct (flush _ _) as [t pending]. fold (reports pending).
  pose proof (reports_calm spec pending t s) as Hc. set (s1 := log_all (reports pending) (set_tally t s)) in *.
  pose proof (told_calm _ _ _ _ Ht Hc) as (Hi & Hp & Hcl & Hcount). destruct Hc as [(P & _) _].
  split; [done|]. unfold dids, aids. rewrite !picks_owe. cbn [omap list_omap stopping exiting closing attaching detaching]. rewrite !app_nil_r.
  split; [|by split]. rewrite length_app. cbn [length owe set_owed phase set_phase].
  change (picks stopping (set_phase _ _ s1)) with (picks stopping s1). change (picks exiting (set_phase _ _ s1)) with (picks exiting s1).
  change (standing spec (owe _ _ _)) with (standing spec s1). rewrite P in Hp.
  unfold phase_ok in *. destruct (phase s); [..|done]; destruct (length (picks stopping s1)) as [|[|?]], (length (picks exiting s1)); try done; by rewrite Hp.
Qed.

(** *** What is owed is done *)

Lemma track_live x k : is_terminal (fst x) = true -> track x k = x.
Proof. intros H. destruct x as [st n]. unfold track. cbn in H. by rewrite H. Qed.

(** The invariant after an event that settles what [s1] no longer owes. *)
Lemma told_steady spec exact s1 s2 : ids_ok s1 -> steady s1 s2 ->
  phase_ok (phase s1) (length (picks stopping s1)) (length (picks exiting s1)) (fst (standing spec s2)) ->
  (picks closing s1 <> [] -> is_terminal (fst (standing spec s2)) = true) ->
  (is_terminal (fst (standing spec s2)) = false ->
     counts_ok exact (snd (standing spec s2)) (next_id s1) (tids s1 ++ dids s1) (aids s1) (jids s1)) ->
  told spec exact s2.
Proof.
  intros [Hi1 Hi2] (P & N & I & T & J & O) Hp Hc Hn. unfold told, dids, aids, picks in *. rewrite P, N, T, J, O.
  split; [|done]. assert (Hs : (ids s2 ++ jids s2) `sublist_of` (ids s1 ++ jids s1)) by (rewrite J; by apply sublist_app).
  split; [by eapply sublist_NoDup|]. rewrite N. rewrite Forall_forall in Hi2 |- *. intros x Hx. apply Hi2.
  eapply elem_of_submseteq; [exact Hx|by apply sublist_submseteq].
Qed.

Lemma told_collect spec exact code signal s : ids_ok s ->
  phase_ok (phase s) (length (picks stopping s)) (length (picks exiting s)) (fst (standing spec s)) ->
  is_terminal (fst (standing spec s)) = true -> told spec exact (collect code signal s).
Proof.
  intros [Hn Hf] Hp Ht. split; [|split; [exact Hp|split; [intros _; exact Ht|]]].
  - unfold ids_ok, ids. cbn. apply NoDup_app in Hn as (_ & _ & Hn). split; [done|]. by apply Forall_app in Hf as [_ Hf].
  - change (standing spec (collect code signal s)) with (standing spec s). by rewrite Ht.
Qed.

Lemma told_exit spec exact code signal s : ids_ok s -> phase_ok (phase s) (length (picks stopping s)) 1 (fst (standing spec s)) ->
  picks exiting s = [] -> told spec exact (do_task (LogExit code signal) s).
Proof.
  intros [Hn Hf] Hp He. cbn [do_task]. set (s2 := log_event _ s).
  pose proof (standing_log spec (EvExited code signal) s) as Hs. destruct (log_event_steady (EvExited code signal) s) as (P & N & I & T & J & O).
  fold s2 in Hs, P, N, I, T, J, O.
  assert (Hst : is_terminal (fst (standing spec s2)) = true).
  { rewrite Hs. unfold track. destruct (standing spec s) as [st n]. by destruct (is_terminal st) eqn:E. }
  split; [|split; [|split; [intros _; exact Hst|intros H; change (is_terminal (fst (standing spec s2)) = false) in H; congruence]]].
  - assert (Hsub : (ids s2 ++ jids s2) `sublist_of` (ids s ++ jids s)) by (rewrite J; by apply sublist_app).
    split; [by eapply sublist_NoDup|]. cbn [owe set_owed next_id]. rewrite N. rewrite Forall_forall in Hf |- *. intros x Hx.
    apply Hf. eapply elem_of_submseteq; [exact Hx|by apply sublist_submseteq].
  - rewrite !picks_owe. cbn [omap list_omap stopping exiting]. rewrite !app_nil_r. unfold picks in *. rewrite O, He.
    cbn [owe set_owed phase]. rewrite P. change (standing spec (owe _ _ s2)) with (standing spec s2).
    unfold phase_ok in Hp |- *. destruct (phase s); [by destruct (length _)|by destruct (length _) as [|[|?]]|done].
Qed.

Lemma told_pay spec exact o s : told spec exact s -> Z.of_N (next_id s) <= u32_max ->
  told spec (exact && negb (early (Pay o) s)) (pay o s).
Proof.
  intros Ht Hb. unfold pay, early. destruct (take_first o (owed s)) as [[t rest]|] eqn:E;
    [|by apply (told_weaken _ exact); [|rewrite andb_true_r]].
  set (s1 := set_owed rest s). destruct Ht as (Hi & Hp & Hc & Hn).
  pose proof (pay_picks stopping o s t rest E) as E1. pose proof (pay_picks exiting o s t rest E) as E2.
  pose proof (pay_picks closing o s t rest E) as E3. pose proof (pay_picks detaching o s t rest E) as E4.
  pose proof (pay_picks attaching o s t rest E) as E5. fold s1 in E1, E2, E3, E4, E5.
  assert (Hc' : option_list (closing t) ++ picks closing s1 <> [] -> is_terminal (fst (standing spec s)) = true).
  { intros H. apply Hc. intros H0. apply H. rewrite H0 in E3. by apply Permutation_nil_l in E3. }
  apply Permutation_length in E1, E2. rewrite E1, E2 in Hp. clear E1 E2 E3 Hc.
  assert (Hn' : is_terminal (fst (standing spec s)) = false -> counts_ok exact (snd (standing spec s)) (next_id s)
      (option_list (detaching t) ++ (tids s ++ dids s1)) (option_list (attaching t) ++ aids s1) (jids s)).
  { intros Hl. eapply counts_perm; [|exact E5|done|by apply Hn]. unfold dids. rewrite E4. solve_Permutation. }
  assert (Hlog : forall k, standing spec (log_event k s1) = track (standing spec s) k) by (intros k; exact (standing_log spec k s1)).
  assert (Hquiet : forall k, is_terminal (fst (standing spec s)) = true -> fst (track (standing spec s) k) = fst (standing spec s))
    by (intros k Hk; by rewrite track_live).
  clear Hn E4.
  destruct (standing spec s) as [st n] eqn:Es. cbn [fst snd] in *.
  destruct t as [cause|by_|i|i|code signal|code signal]; cbn [do_task option_list app negb stopping exiting closing detaching attaching length] in *;
    rewrite ?andb_true_r.
  - unfold told. change (standing spec (set_phase _ _ s1)) with (standing spec s). rewrite Es. done.
  - refine (told_steady spec _ s1 _ Hi (log_event_steady _ s1) _ _ _); rewrite Hlog; unfold track; destruct (is_terminal st) eqn:El; cbn [fst snd]; try done; try (intros; congruence).
    + change (phase s1) with (phase s). unfold phase_ok in Hp |- *.
      destruct (phase s), (picks stopping s1), (picks exiting s1); try done; cbn in Hp; subst; try done; by destruct st.
    + change (phase s1) with (phase s). unfold phase_ok in Hp |- *. subst.
      destruct (phase s), (picks stopping s1), (picks exiting s1); try done; cbn in Hp; subst; try done; by destruct st.
    + intros H. by specialize (Hc' H).
    + intros _. by apply Hn'.
  - refine (told_steady spec _ s1 _ Hi (log_event_steady _ s1) _ _ _); rewrite Hlog; unfold track; destruct (is_terminal st) eqn:El; cbn [fst snd]; try done; try (intros; congruence).
    + intros H. by specialize (Hc' H).
    + intros _. eapply counts_attached; [done|by apply Hn'].
  - refine (told_steady spec _ s1 _ Hi (log_event_steady _ s1) _ _ _); rewrite Hlog; unfold track; destruct (is_terminal st) eqn:El; cbn [fst snd]; try done; try (intros; congruence).
    + intros H. by specialize (Hc' H).
    + intros _. eapply counts_detached.
      * eapply counts_weaken; [|by apply Hn']. by intros [-> _]%andb_true_iff.
      * intros [_ H%negb_true_iff%bool_decide_eq_false]%andb_true_iff. unfold aids in *. by rewrite E5 in H.
  - apply (told_exit spec exact code signal s1 Hi).
    + change (phase s1) with (phase s). change (standing spec s1) with (standing spec s). rewrite Es. cbn [fst].
      unfold phase_ok in Hp |- *. by destruct (phase s), (picks stopping s1), (picks exiting s1).
    + unfold phase_ok in Hp. by destruct (phase s), (picks stopping s1) as [|? [|]], (picks exiting s1).
  - apply told_collect; [done|..]; change (standing spec s1) with (standing spec s); rewrite Es; cbn [fst]; [done|by apply Hc'].
Qed.

(** *** The way in and out *)

Lemma find_joiner_some id s j : find_joiner id s = Some j -> j ∈ joining s /\ j_id j = id.
Proof.
  unfold find_joiner. intros H. apply List.find_some in H as [H1 H2]. rewrite bool_decide_eq_true in H2.
  split; [by apply list_elem_of_In|done].
Qed.

Lemma put_joiner_calm spec id c st s : c_id c = id -> calm spec s (put_joiner id c st s).
Proof.
  intros Hc. unfold calm, steady. split_and!; try done. unfold jids. cbn. rewrite map_map. apply map_ext. intros j.
  case_bool_decide as Hj; [|done]. unfold j_id in *. cbn. congruence.
Qed.

(** The others on their way are left there. *)
Lemma drop_joiner_jids id s : NoDup (jids s) -> id ∈ jids s -> jids s ≡ₚ id :: jids (drop_joiner id s).
Proof.
  unfold jids. cbn. induction (joining s) as [|j l IH]; [by intros _ ?%elem_of_nil|]. cbn [map List.filter]. intros [Hj Hn]%NoDup_cons Hin.
  case_bool_decide as He; cbn [negb map].
  - rewrite He. constructor. rewrite List.filter_ext_in with (g := fun _ => true).
    + by rewrite List.filter_true.
    + intros x Hx%list_elem_of_In. rewrite bool_decide_false; [done|]. intros Hxe. apply Hj. rewrite He, <- Hxe. by apply list_elem_of_fmap_2.
  - apply elem_of_cons in Hin as [->|Hin]; [done|]. rewrite (IH Hn Hin) at 1. apply Permutation_swap.
Qed.

Lemma told_let_in spec exact first s : told spec exact s ->
  told spec exact (snd (let_in first s)) /\ (next_id (snd (let_in first s)) <= next_id s + 1)%N.
Proof.
  intros ([Hn Hf] & Hp & Hc & Ht). unfold let_in. destruct (greet first s) as [h|]; cbn [snd]; [|split; [by split|lia]].
  set (s' := set_joining _ _). assert (Hj : jids s' = jids s ++ [(next_id s + 1)%N]) by (unfold jids; cbn; by rewrite map_app).
  split; [|cbn; lia]. split; [|split; [done|split; [done|]]].
  - unfold ids_ok. rewrite Hj, app_assoc. change (ids s') with (ids s). cbn [next_id s' set_joining set_next_id]. split.
    + apply NoDup_app. split; [done|]. split; [|apply NoDup_singleton]. intros x Hx. rewrite list_elem_of_singleton. intros ->.
      rewrite Forall_forall in Hf. apply Hf in Hx. lia.
    + apply Forall_app. split; [|by constructor]. eapply Forall_impl; [exact Hf|]. cbn. lia.
  - intros Hl. rewrite Hj. by apply counts_greet, Ht.
Qed.

Lemma told_drop spec exact id s l : told spec exact s -> id ∈ jids s -> told spec exact (add_gone l (drop_joiner id s)).
Proof.
  intros ([Hn Hf] & Hp & Hc & Ht) Hin. pose proof Hn as Hn'. apply NoDup_app in Hn' as (_ & _ & Hnj).
  pose proof (drop_joiner_jids id s Hnj Hin) as Hd. split; [|split; [done|split; [done|]]].
  - change (ids_ok (drop_joiner id s)). unfold ids_ok. change (ids (drop_joiner id s)) with (ids s). rewrite Hd in Hn, Hf.
    rewrite <- Permutation_middle in Hn, Hf. apply NoDup_cons in Hn as [_ Hn]. apply Forall_cons in Hf as [_ Hf]. by split.
  - intros Hl. eapply counts_left, counts_perm; [..|by apply Ht]; done.
Qed.

Lemma told_replay spec exact id s : told spec exact s -> told spec exact (snd (replay id s)).
Proof.
  intros Ht. unfold replay. destruct (find_joiner id s) as [j|] eqn:E; [|done]. apply find_joiner_some in E as [Hj Hid].
  destruct (j_stage j), (c_role (j_client j)); try done. pose proof (replayed_id (replay_for s) (j_client j)) as [Hi _].
  destruct (replayed _ _) as [c []]; cbn [fst snd] in *.
  - eapply told_calm; [exact Ht|]. apply put_joiner_calm. by rewrite Hi.
  - apply told_drop; [done|]. rewrite <- Hid. by apply list_elem_of_fmap_2.
Qed.

Lemma told_fit spec exact id ok1 ok2 s : told spec exact s -> told spec exact (fit id ok1 ok2 s).
Proof.
  intros Ht. unfold fit. destruct (find_joiner id s) as [[c h []]|] eqn:E; try done. apply find_joiner_some in E as [_ Hid].
  eapply told_calm; [exact Ht|]. etrans; [apply size_calm|]. by apply put_joiner_calm.
Qed.

Lemma enter_lists id c s : ids (enter id c s) = ids s ++ [c_id c] /\ jids (enter id c s) = jids (drop_joiner id s)
  /\ tids (enter id c s) = tids s ++ (if is_terminal_client c then [c_id c] else []).
Proof.
  unfold ids, tids, terminals, enter. cbn. rewrite List.filter_app, !map_app. split; [done|]. split; [done|]. cbn.
  by destruct (is_terminal_client c).
Qed.

Lemma told_register spec exact id s : told spec exact s -> told spec exact (register id s).
Proof.
  intros Htold. pose proof Htold as ([Hn Hf] & Hp & Hc & Ht). unfold register. destruct (find_joiner id s) as [[c h st]|] eqn:E; [|done].
  apply find_joiner_some in E as [Hj Hid]. unfold j_id in Hid. cbn in Hid.
  assert (Hin : id ∈ jids s) by (rewrite <- Hid; by apply (list_elem_of_fmap_2 j_id) in Hj).
  pose proof Hn as Hn'. apply NoDup_app in Hn' as (_ & _ & Hnj). pose proof (drop_joiner_jids id s Hnj Hin) as Hd.
  destruct (enter_lists id c s) as (E1 & E2 & E3).
  assert (Hle : (id <= next_id s)%N) by (rewrite Forall_forall in Hf; apply Hf, elem_of_app; by right).
  assert (Hids : ids_ok (enter id c s)).
  { unfold ids_ok. rewrite E1, E2, Hid, <- app_assoc. cbn [app]. split; [by rewrite <- Hd|].
    change (next_id (enter id c s)) with (next_id s). by rewrite <- Hd. }
  destruct (c_role c) eqn:Er, st; try done.
  - split; [exact Hids|]. unfold aids, dids. rewrite !picks_owe. cbn [omap list_omap stopping exiting closing attaching detaching].
    rewrite !app_nil_r. do 2 (split; [done|]). intros Hl. change (jids (owe _ _ (enter id c s))) with (jids (enter id c s)).
    change (tids (owe _ _ (enter id c s))) with (tids (enter id c s)). rewrite E2, E3, Hid. unfold is_terminal_client. rewrite bool_decide_true by done.
    eapply counts_perm; [|done..|eapply (counts_register exact _ _ _ _ _ id); [by rewrite <- Hd|exact Hle|]].
    2:{ eapply counts_perm; [..|by apply Ht]; done. }
    change (picks detaching (enter id c s)) with (dids s). solve_Permutation.
  - split; [exact Hids|]. do 2 (split; [done|]). intros Hl. rewrite E2, E3. unfold is_terminal_client. rewrite bool_decide_false by congruence.
    rewrite app_nil_r. eapply counts_left, counts_perm; [..|by apply Ht]; done.
Qed.

Definition stays (id : N) (c : ClientHandle) : ClientHandle * bool := (c, negb (bool_decide (c_id c = id))).

Lemma retain_absent id l : id ∉ map c_id l -> retain (stays id) l = (l, []).
Proof.
  induction l as [|c l IH]; [done|]. cbn [map]. rewrite not_elem_of_cons. intros [Hc Hl]. cbn [retain].
  unfold stays at 1. rewrite bool_decide_false by done. by rewrite IH.
Qed.

Lemma retain_by_id id rest l : NoDup (map c_id l) ->
  retain (stays id) l = (l, []) \/
  exists kept c, retain (stays id) l = (kept, [c]) /\ c_id c = id /\
    List.find (fun c => bool_decide (c_id c = id)) (l ++ rest) = Some c /\
    map c_id (List.filter is_terminal_client l)
    ≡ₚ map c_id (List.filter is_terminal_client kept) ++ (if is_terminal_client c then [id] else []).
Proof.
  induction l as [|c l IH]; [by left|]. cbn [map]. intros [Hc Hn]%NoDup_cons.
  cbn [retain app List.find List.filter]. unfold stays at 1 3. destruct (decide (c_id c = id)) as [He|He].
  - right. rewrite bool_decide_true by done. rewrite retain_absent by congruence. exists l, c.
    do 3 (split; [done|]). destruct (is_terminal_client c); cbn [map]; [rewrite He; by rewrite Permutation_app_comm|by rewrite app_nil_r].
  - rewrite bool_decide_false by done. destruct (IH Hn) as [->|(kept & c' & -> & Hid & Hf & Hl)]; [by left|].
    right. exists (c :: kept), c'. do 3 (split; [done|]). cbn [List.filter]. destruct (is_terminal_client c); cbn [map]; by rewrite Hl.
Qed.

Lemma told_depart spec exact id role s : told spec exact s -> role_of id s = Some role -> told spec exact (depart id role s).
Proof.
  intros Ht Hr. pose proof Ht as ([Hn _] & _). apply NoDup_app in Hn as (Hn & _ & _). unfold depart, retain_clients.
  change (fun c => (c, negb (bool_decide (c_id c = id)))) with (stays id).
  destruct (retain_by_id id (gone s ++ ending s) (registered s) Hn) as [->|(kept & c & E & Hid & Hf & Hl)].
  - rewrite bool_decide_true by done. cbn [negb andb]. eapply told_calm; [exact Ht|].
    etrans; [|etrans; [apply (on_client_calm spec id hang), hang_id|]]; done.
  - pose proof (retain_ids (stays id) (registered s)) as Hs. rewrite E in Hs |- *. cbn [fst] in Hs.
    assert (Hrole : role = c_role c) by (unfold role_of in Hr; rewrite Hf in Hr; cbn in Hr; congruence).
    rewrite bool_decide_false by done. cbn [negb andb].
    set (s1 := add_gone [c] (on_clients (fun _ => kept) s)).
    destruct (on_client_calm spec id hang s1 hang_id) as [(_ & _ & I & T & _) _].
    assert (I' : ids (on_client id hang s1) `sublist_of` ids s) by (etrans; [exact I|]; by apply Hs).
    unfold is_terminal_client in Hl at 3. rewrite <- Hrole in Hl.
    destruct (decide (role = Terminal)) as [->|Hne].
    + rewrite bool_decide_true in Hl |- * by done.
      eapply told_moved; [exact Ht|done..|exact I'|done| | | | |]; unfold dids, aids; rewrite ?picks_owe; cbn [omap list_omap stopping exiting closing attaching detaching];
        rewrite ?app_nil_r; try done.
      change (tids (owe _ _ _)) with (tids (on_client id hang s1)). rewrite T. change (tids s1) with (map c_id (List.filter is_terminal_client kept)).
      unfold tids, terminals. rewrite Hl. change (picks detaching _) with (picks detaching s) at 1. solve_Permutation.
    + rewrite bool_decide_false in Hl |- * by done.
      eapply told_moved; [exact Ht|done..|exact I'|done|done|done|done| |done].
      change (tids (set_looping _ _)) with (tids (on_client id hang s1)). rewrite T. change (tids s1) with (map c_id (List.filter is_terminal_client kept)).
      unfold tids, terminals. by rewrite Hl, app_nil_r.
Qed.

(** ** Runs *)

Lemma client_frame_told spec exact id r f ok s : told spec exact s -> told spec exact (fst (client_frame id r f ok s)).
Proof.
  intros Ht. unfold client_frame. repeat case_match; cbn [fst]; try done.
  - eapply told_calm; [exact Ht|apply size_calm].
  - by apply told_stop.
  - eapply told_calm; [exact Ht|]. by apply (on_client_calm spec id (reply _)).
Qed.

(** Only a client that says hello takes an id. *)
Definition no_id (s s' : Shared) : Prop := next_id s' = next_id s.

Lemma calm_no_id s s' : (forall spec, calm spec s s') -> no_id s s'.
Proof. intros H. by destruct (H (mk_spec 0 0 "" "" "" [] [] "" "" None Agent Sandbox.default_set)) as [(_ & ? & _) _]. Qed.

Lemma log_no_id k s : no_id s (log_event k s).
Proof. by destruct (log_event_steady k s) as (_ & ? & _). Qed.

Lemma task_no_id t s : no_id s (do_task t s).
Proof. destruct t; cbn [do_task]; done || apply log_no_id. Qed.

Lemma act_next a s : next_id (act a s) = next_id s \/ next_id (act a s) = (next_id s + 1)%N.
Proof.
  destruct a as [bytes| | |class name|first|id|id ok1 ok2|id|id f ok|id|by_ cause|o|id failed|code signal|]; cbn [act];
    try (unfold let_in; destruct (greet _ _); [by right|by left]); left;
    lazymatch goal with |- next_id ?s1 = _ => change (no_id s s1) end.
  - destruct (may_read s); [|done]. unfold serve_read. destruct (feed _ _) as [[f out] dropped].
    pose proof (calm_no_id (set_filter f s) _ (fun spec => records_calm spec "terminal" dropped _)) as H. by case_bool_decide.
  - case_bool_decide; [done|]. unfold fan_out, retain_clients. by destruct (retain _ _).
  - by destruct (main_idle s).
  - apply (calm_no_id s). intros spec. apply record_calm.
  - unfold replay. destruct (find_joiner id s) as [j|]; [|done]. destruct (j_stage j), (c_role (j_client j)); try done. by destruct (replayed _ _) as [c []].
  - unfold fit. destruct (find_joiner id s) as [[c h []]|]; try done.
    apply (calm_no_id s (apply_size (h_rows h) (h_cols h) true ok1 ok2 s)). intros spec. apply size_calm.
  - unfold register. destruct (find_joiner id s) as [[c h st]|]; [|done]. by destruct (c_role c), st.
  - destruct (in_loop id s); [|done]. destruct (role_of id s); [|done]. unfold client_frame. repeat case_match; cbn [fst]; try done.
    + apply (calm_no_id s). intros spec. apply size_calm.
    + unfold request_stop. by destruct (phase s).
  - destruct (in_loop id s); [|done]. destruct (role_of id s); [|done]. unfold depart, retain_clients. destruct (retain _ _). by destruct (_ && _).
  - destruct (owes SignalThread s); [done|]. unfold request_stop. by destruct (phase s).
  - unfold pay. destruct (take_first o (owed s)) as [[t rest]|]; [|done]. apply (task_no_id t (set_owed rest s)).
  - apply (calm_no_id s). intros spec. apply on_writer_calm, writer_turn_id.
  - destruct (may_finish s); [|done]. unfold conclude. destruct (flush _ _) as [t pending].
    apply (calm_no_id s (log_all (reports pending) (set_tally t s))). intros spec. apply reports_calm.
  - destruct (main_idle s); [|done]. apply (calm_no_id s). intros spec. apply hang_up_calm.
Qed.

Lemma act_told spec exact a s : told spec exact s -> Z.of_N (next_id s) < u32_max ->
  told spec (exact && negb (early a s)) (act a s).
Proof.
  intros Ht Hb. assert (Hw : forall b s', told spec exact s' -> told spec (exact && b) s')
    by (intros b s' H; apply (told_weaken _ exact); [done|]; by intros [-> _]%andb_true_iff).
  destruct a as [bytes| | |class name|first|id|id ok1 ok2|id|id f ok|id|by_ cause|o|id failed|code signal|]; cbn [act];
    try (apply told_pay; [done|lia]); apply Hw.
  - destruct (may_read s); [by apply told_read|done].
  - case_bool_decide; [done|by apply told_fan_out].
  - by destruct (main_idle s).
  - eapply told_calm; [exact Ht|apply record_calm].
  - by apply told_let_in.
  - by apply told_replay.
  - by apply told_fit.
  - by apply told_register.
  - destruct (in_loop id s); [|done]. destruct (role_of id s); [by apply client_frame_told|done].
  - destruct (in_loop id s); [|done]. destruct (role_of id s) eqn:E; [by apply told_depart|done].
  - destruct (owes SignalThread s); [done|by apply told_stop].
  - eapply told_calm; [exact Ht|]. by apply on_writer_calm, writer_turn_id.
  - destruct (may_finish s) eqn:E; [|done]. apply told_conclude; [done|]. unfold may_finish in E. split_bools. by rewrite bool_decide_eq_false in *.
  - destruct (main_idle s); [|done]. eapply told_calm; [exact Ht|apply hang_up_calm].
Qed.

Lemma run_told spec acts : forall exact s, told spec exact s -> Z.of_N (next_id s) + Z.of_nat (length acts) <= u32_max ->
  told spec (exact && in_turn acts s) (run_acts acts s).
Proof.
  unfold run_acts. induction acts as [|a acts IH]; intros exact s Ht Hb; cbn [foldl in_turn length] in *; [by rewrite andb_true_r|].
  rewrite andb_assoc. apply IH; [apply act_told; [done|lia]|]. destruct (act_next a s) as [-> | ->]; lia.
Qed.

(** Every action takes at most one id. *)
Lemma run_next acts : forall s, (next_id s <= next_id (run_acts acts s))%N /\
  Z.of_N (next_id (run_acts acts s)) <= Z.of_N (next_id s) + Z.of_nat (length acts).
Proof.
  unfold run_acts. induction acts as [|a acts IH]; intros s; cbn [foldl length] in *; [lia|].
  specialize (IH (act a s)). destruct (act_next a s) as [E|E]; rewrite E in IH; lia.
Qed.

(** ** Refusals: the tally and the log account for each *)















(** Nothing of the end is owed. *)
Definition unending (t : Task) : bool := match t with LogExit _ _ | SendClosed _ _ => false | _ => true end.

Definition goes_on (s : Shared) : Prop := Forall (fun x => unending (snd x) = true) (owed s).






Lemma owe_goes_on o tasks s s' : owed s' = owed s -> Forall (fun t => unending t = true) tasks -> goes_on s -> goes_on (owe o tasks s').
Proof. intros E Ht Hg. unfold goes_on, owe in *. cbn. rewrite E. apply Forall_app. split; [done|]. by apply Forall_map. Qed.

Lemma calm_goes_on s s' : (forall spec, calm spec s s') -> goes_on s -> goes_on s'.
Proof.
  intros H. destruct (H (mk_spec 0 0 "" "" "" [] [] "" "" None Agent Sandbox.default_set)) as [(_ & _ & _ & _ & _ & E) _].
  unfold goes_on. by rewrite E.
Qed.

Lemma act_goes_on a s : is_finish a = false -> goes_on s -> goes_on (act a s).
Proof.
  intros Hf Hg. destruct a as [bytes| | |class name|first|id|id ok1 ok2|id|id f ok|id|by_ cause|o|id failed|code signal|]; try discriminate; cbn [act].
  - destruct (may_read s); [|done]. unfold serve_read. destruct (feed _ _) as [[f out] dropped].
    pose proof (calm_goes_on (set_filter f s) _ (fun spec => records_calm spec "terminal" dropped _) Hg) as H. by case_bool_decide.
  - case_bool_decide; [done|]. unfold fan_out, retain_clients. destruct (retain _ _) as [kept lost].
    apply (owe_goes_on _ _ s); [done| |done]. apply Forall_map, Forall_true. done.
  - by destruct (main_idle s).
  - eapply calm_goes_on; [|exact Hg]. intros spec. apply record_calm.
  - unfold let_in. by destruct (greet first s).
  - unfold replay. destruct (find_joiner id s) as [j|]; [|done]. destruct (j_stage j), (c_role (j_client j)); try done. by destruct (replayed _ _) as [c []].
  - unfold fit. destruct (find_joiner id s) as [[c h []]|]; try done.
    apply (calm_goes_on s (apply_size (h_rows h) (h_cols h) true ok1 ok2 s)); [|done]. intros spec. apply size_calm.
  - unfold register. destruct (find_joiner id s) as [[c h st]|]; [|done]. destruct (c_role c), st; try done.
    apply (owe_goes_on _ _ s); [done|by repeat constructor|done].
  - destruct (in_loop id s); [|done]. destruct (role_of id s); [|done]. unfold client_frame. repeat case_match; cbn [fst]; try done.
    + eapply calm_goes_on; [|exact Hg]. intros spec. apply size_calm.
    + unfold request_stop. destruct (phase s); try done. apply (owe_goes_on _ _ s); [done|by repeat constructor|done].
  - destruct (in_loop id s); [|done]. destruct (role_of id s); [|done]. unfold depart, retain_clients. destruct (retain _ _). destruct (_ && _); [|done].
    apply (owe_goes_on _ _ s); [done|by repeat constructor|done].
  - destruct (owes SignalThread s); [done|]. unfold request_stop. destruct (phase s); try done.
    apply (owe_goes_on _ _ s); [done|by repeat constructor|done].
  - unfold pay. destruct (take_first o (owed s)) as [[t rest]|] eqn:E; [|done]. apply take_first_spec in E as (l1 & l2 & E & ->).
    unfold goes_on in Hg. rewrite E in Hg. apply Forall_app in Hg as [H1 [Ht H2]%Forall_cons].
    assert (H : goes_on (set_owed (l1 ++ l2) s)) by (by apply Forall_app).
    destruct t; try done; cbn [do_task]; unfold goes_on; by rewrite (proj2 (proj2 (proj2 (proj2 (proj2 (log_event_steady _ _)))))).
  - eapply calm_goes_on; [|exact Hg]. intros spec. apply on_writer_calm, writer_turn_id.
  - destruct (main_idle s); [|done]. eapply calm_goes_on; [|exact Hg]. intros spec. apply hang_up_calm.
Qed.


(** ** What a terminal is given *)

(** A terminal of [s'] that had an id in [s], and was not on its way to the list,
    was in it there, and as long as its writer runs it was given [out] more. *)
Definition follows (s s' : Shared) (out : list (list Z)) : Prop :=
  (next_id s <= next_id s')%N /\
  (forall i, i ∈ jids s' -> i ∈ jids s \/ (next_id s < i)%N) /\
  forall c', c' ∈ terminals s' -> (c_id c' <= next_id s)%N -> c_id c' ∉ jids s ->
    exists c, c ∈ terminals s /\ c_id c = c_id c' /\
      (open_ c' = true -> open_ c = true /\ stream c' = stream c ++ concat out).

Lemma follows_trans s1 s2 s3 o1 o2 : follows s1 s2 o1 -> follows s2 s3 o2 -> follows s1 s3 (o1 ++ o2).
Proof.
  intros (N1 & J1 & F1) (N2 & J2 & F2). split; [lia|]. split.
  - intros i Hi. destruct (J2 i Hi) as [H|H]; [by apply J1|right; lia].
  - intros c3 H3 Hid Hj. assert (Hj2 : c_id c3 ∉ jids s2) by (intros H; destruct (J1 _ H); [done|lia]).
    destruct (F2 c3 H3 ltac:(lia) Hj2) as (c2 & H2 & E2 & S2).
    destruct (F1 c2 H2 ltac:(lia)) as (c1 & H1 & E1 & S1); [by rewrite E2|].
    exists c1. split; [done|]. split; [congruence|]. intros Ho. destruct (S2 Ho) as [Ho2 ->].
    destruct (S1 Ho2) as [Ho1 ->]. split; [done|]. by rewrite concat_app, app_assoc.
Qed.

Lemma follows_sub s s' : (next_id s <= next_id s')%N -> (forall i, i ∈ jids s' -> i ∈ jids s \/ (next_id s < i)%N) ->
  (forall c, c ∈ terminals s' -> c ∈ terminals s) -> follows s s' [].
Proof.
  intros Hn Hj Hs. do 2 (split; [done|]). intros c Hc _ _. exists c. split; [by apply Hs|]. split; [done|]. by rewrite app_nil_r.
Qed.

Lemma follows_same s s' : (next_id s <= next_id s')%N -> jids s' = jids s -> terminals s' = terminals s -> follows s s' [].
Proof. intros Hn Hj Hs. apply follows_sub; [done|rewrite Hj; by left|]. intros c. by rewrite Hs. Qed.

Lemma follows_refl s : follows s s [].
Proof. by apply follows_same. Qed.

Lemma follows_core s s' : core s' = core s -> follows s s' [].
Proof.
  unfold core. intros H. injection H. intros. apply follows_same; [lia| |done]. unfold jids. congruence.
Qed.

Lemma follows_log kind s s0 s1 out : follows s s0 out -> terminals s1 = terminals s0 -> next_id s1 = next_id s0 ->
  jids s1 = jids s0 -> follows s (log_event kind s1) out.
Proof.
  intros Hf Ht Hn Hj. rewrite <- (app_nil_r out). apply (follows_trans s s0); [done|].
  apply (follows_trans s0 s1 _ [] []); [by apply follows_same; [lia|..]|apply follows_core, log_event_core].
Qed.

Lemma elem_terminals c s : c ∈ terminals s <-> c ∈ registered s /\ c_role c = Terminal.
Proof.
  unfold terminals. rewrite !list_elem_of_In, List.filter_In. unfold is_terminal_client. by rewrite bool_decide_eq_true.
Qed.

Lemma follows_on_client id f s : (forall c, c_role c = Terminal -> c ∈ registered s -> c_id c = id ->
    c_id (f c) = c_id c /\ (open_ (f c) = true -> open_ c = true /\ stream (f c) = stream c)) ->
  same_client f -> follows s (on_client id f s) [].
Proof.
  intros Hf Hsame. split; [done|]. split; [by left|]. intros c' Hc' _ _. apply elem_terminals in Hc' as [Hc' Hr].
  cbn [on_client registered] in Hc'. apply list_elem_of_fmap in Hc' as (c & -> & Hc).
  case_bool_decide as He.
  - assert (c_role c = Terminal) by (by rewrite (proj2 (Hsame c)) in Hr).
    destruct (Hf c ltac:(done) Hc He) as [H1 H2]. exists c. rewrite elem_terminals, app_nil_r. by rewrite H1.
  - exists c. by rewrite elem_terminals, app_nil_r.
Qed.

Lemma writer_stream failed c : open_ (writer_turn failed c) = true ->
  open_ c = true /\ stream (writer_turn failed c) = stream c.
Proof.
  unfold writer_turn. destruct (open_ c) eqn:E; [|by rewrite E]. destruct (chan c) as [|[b|b] ch] eqn:Ec; [done| |].
  - destruct (if shut c then _ else _); cbn; [done|]. intros _. split; [done|]. unfold stream. cbn.
    by rewrite Ec, <- app_assoc.
  - by destruct (if shut c then _ else _).
Qed.

Lemma enqueue_all_stream frames : forall c c', enqueue_all c frames = (c', true) ->
  stream c' = stream c ++ concat frames /\ (open_ c' = true -> open_ c = true).
Proof.
  induction frames as [|f frames IH]; intros c c'; cbn [enqueue_all concat]; [intros [= <-]; by rewrite app_nil_r|].
  unfold enqueue. destruct (QUEUE_BYTES <? _); [done|]. destruct (open_ c) eqn:E; [|done]. intros H.
  apply IH in H as [-> Ho]. split; [|done]. unfold stream. cbn. rewrite map_app, concat_app. cbn.
  by rewrite app_nil_r, !app_assoc.
Qed.

Lemma retain_kept f l c' : c' ∈ fst (retain f l) -> exists c, c ∈ l /\ f c = (c', true).
Proof.
  induction l as [|c l IH]; cbn [retain]; [by intros ?%elem_of_nil|]. destruct (f c) as [c1 ok] eqn:E.
  destruct (retain f l) as [kept lost]. cbn [fst] in *. destruct ok; cbn [fst].
  - intros [->|H]%elem_of_cons; [exists c; split; [by left|done]|]. destruct (IH H) as (c2 & ? & ?).
    exists c2. split; [by right|done].
  - intros H. destruct (IH H) as (c2 & ? & ?). exists c2. split; [by right|done].
Qed.

Lemma follows_fan_out s : follows s (fan_out s) (chunks OUTPUT (pumping s)).
Proof.
  unfold fan_out, retain_clients. pose proof (retain_kept (offer (chunks OUTPUT (pumping s))) (registered s)) as Hk.
  destruct (retain _ _) as [kept lost]. cbn [fst] in Hk.
  split; [done|]. split; [by left|]. intros c' Hc' _ _. apply elem_terminals in Hc' as [Hc' Hr]. cbn in Hc'.
  destruct (Hk c' Hc') as (c & Hc & Ho). exists c. rewrite elem_terminals. unfold offer in Ho.
  destruct (c_role c) eqn:Er; [|by injection Ho as <-; congruence].
  pose proof (enqueue_all_id (chunks OUTPUT (pumping s)) c) as [Hid _].
  destruct (enqueue_all c _) as [c1 []] eqn:E; [|done]. injection Ho as <-. cbn in Hid.
  split; [done|]. split; [done|]. apply enqueue_all_stream in E as [-> Hop]. auto.
Qed.

Lemma follows_records class names : forall s, follows s (foldl (fun s n => record_denial class n s) s names) [].
Proof.
  induction names as [|n names IH]; intros s; [apply follows_refl|]. cbn [foldl].
  apply (follows_trans s (record_denial class n s) _ [] []); [|apply IH].
  unfold record_denial. destruct (record _ _ _ _) as [t [r|]]; [|by apply follows_same].
  eapply (follows_log _ s s); [by apply follows_same|done..].
Qed.

Lemma follows_apply_size rows cols force ok1 ok2 s : follows s (apply_size rows cols force ok1 ok2 s) [].
Proof.
  unfold apply_size. cbv zeta. destruct (force && _ && _), ok1, ok2; try (by apply follows_same);
    repeat (eapply follows_log; [|reflexivity..]); by apply follows_same.
Qed.

Lemma drop_joiner_sub id s i : i ∈ jids (drop_joiner id s) -> i ∈ jids s.
Proof.
  unfold jids. cbn. intros (j & -> & Hj)%list_elem_of_fmap. apply list_elem_of_In, List.filter_In in Hj as [Hj _].
  apply list_elem_of_fmap_2. by apply list_elem_of_In.
Qed.

Lemma follows_drop id l s : follows s (add_gone l (drop_joiner id s)) [].
Proof. apply follows_sub; [done|intros i Hi; left; exact (drop_joiner_sub id s i Hi)|done]. Qed.

(** A client that was on its way enters. *)
Lemma follows_enter id c s : id ∈ jids s -> c_id c = id -> follows s (enter id c s) [].
Proof.
  intros Hj Hid. split; [done|]. split; [intros i Hi; left; exact (drop_joiner_sub id s i Hi)|].
  intros c' Hc' _ Hn. apply elem_terminals in Hc' as [Hc' Hr]. cbn in Hc'.
  apply elem_of_app in Hc' as [Hc'|Hc'%list_elem_of_singleton]; [|subst; done].
  exists c'. rewrite elem_terminals, app_nil_r. done.
Qed.

Lemma follows_register id s : follows s (register id s) [].
Proof.
  unfold register. destruct (find_joiner id s) as [[c h st]|] eqn:E; [|apply follows_refl]. apply find_joiner_some in E as [Hj Hid].
  assert (Hin : id ∈ jids s) by (rewrite <- Hid; by apply (list_elem_of_fmap_2 j_id) in Hj).
  destruct (c_role c), st; try apply follows_refl; [|by apply follows_enter].
  eapply (follows_trans _ (enter id c s) _ [] []); [by apply follows_enter|by apply follows_same].
Qed.

(** Only the clients of [ending] are hung up, so a registered one is not. *)
Definition before_end (s : Shared) : Prop := ending s = [].

Lemma role_registered s id c : ids_ok s -> c ∈ registered s -> c_id c = id -> role_of id s = Some (c_role c).
Proof.
  intros [Hn _] Hc <-. apply NoDup_app in Hn as (Hn & _ & _). unfold role_of, ids in *. revert Hn Hc. generalize (gone s ++ ending s) as rest.
  induction (registered s) as [|c0 l IH]; intros rest Hn Hc; [by apply elem_of_nil in Hc|].
  cbn [map] in Hn. apply NoDup_cons in Hn as [Hc0 Hn]. cbn [app List.find].
  apply elem_of_cons in Hc as [->|Hc]; [by rewrite bool_decide_true|].
  rewrite bool_decide_false; [by apply IH|]. intros He. apply Hc0. rewrite He. by apply list_elem_of_fmap_2.
Qed.

Lemma client_frame_follows id r f ok s : ids_ok s -> role_of id s = Some r ->
  follows s (fst (client_frame id r f ok s)) [].
Proof.
  intros Hi Hr. unfold client_frame. repeat case_match; cbn [fst]; try (by apply follows_same); try apply follows_apply_size.
  - unfold request_stop. destruct (phase s); by apply follows_same.
  - apply follows_on_client; [|done]. intros c Hc Hin He.
    rewrite (role_registered s id c Hi Hin He) in Hr. split_bools. rewrite bool_decide_eq_true in *. congruence.
Qed.

(** *** Only the end ends it *)

Lemma log_before_end k s : before_end s -> before_end (log_event k s).
Proof. intros H. unfold before_end, log_event, retain_clients in *. destruct (encode_json _ _ _); [|done]. by destruct (retain _ _). Qed.

Lemma log_all_before_end ks : forall s, before_end s -> before_end (log_all ks s).
Proof. induction ks as [|k ks IH]; intros s H; [done|]. cbn. by apply IH, log_before_end. Qed.

Lemma record_before_end c n s : before_end s -> before_end (record_denial c n s).
Proof. intros H. unfold record_denial. destruct (record _ _ _ _) as [t [r|]]; [by apply log_before_end|done]. Qed.

Lemma records_before_end c ns : forall s, before_end s -> before_end (foldl (fun s n => record_denial c n s) s ns).
Proof. induction ns as [|n ns IH]; intros s H; [done|]. cbn. by apply IH, record_before_end. Qed.

Lemma size_before_end r c fo o1 o2 s : before_end s -> before_end (apply_size r c fo o1 o2 s).
Proof.
  intros H. unfold apply_size. cbv zeta.
  destruct (fo && _ && _), o1, o2; try done; repeat apply log_before_end; try done; apply (log_before_end _ _ H).
Qed.

Lemma on_client_before_end id f s : before_end s -> before_end (on_client id f s).
Proof. intros H. unfold before_end in *. cbn. by rewrite H. Qed.

Lemma pay_before_end o s : goes_on s -> before_end s -> before_end (pay o s).
Proof.
  intros Hg H. unfold pay. destruct (take_first o (owed s)) as [[t rest]|] eqn:E; [|done]. apply take_first_spec in E as (l1 & l2 & E & _).
  unfold goes_on in Hg. rewrite E in Hg. apply Forall_app in Hg as [_ [Ht _]%Forall_cons].
  destruct t; try done; cbn [do_task]; by apply log_before_end.
Qed.

Lemma act_before_end a s : is_finish a = false -> goes_on s -> before_end s -> before_end (act a s).
Proof.
  intros Hf Hg Hb. destruct a as [bytes| | |class name|first|id|id ok1 ok2|id|id f ok|id|by_ cause|o|id failed|code signal|]; try discriminate; cbn [act].
  - destruct (may_read s); [|done]. unfold serve_read. destruct (feed _ _) as [[f out] dropped].
    pose proof (records_before_end "terminal" dropped (set_filter f s) Hb) as H. by case_bool_decide.
  - case_bool_decide; [done|]. unfold fan_out, retain_clients. by destruct (retain _ _).
  - by destruct (main_idle s).
  - by apply record_before_end.
  - unfold let_in. by destruct (greet first s).
  - unfold replay. destruct (find_joiner id s) as [j|]; [|done]. destruct (j_stage j), (c_role (j_client j)); try done. by destruct (replayed _ _) as [c []].
  - unfold fit. destruct (find_joiner id s) as [[c h []]|]; try done. by apply size_before_end.
  - unfold register. destruct (find_joiner id s) as [[c h st]|]; [|done]. by destruct (c_role c), st.
  - destruct (in_loop id s); [|done]. destruct (role_of id s); [|done]. unfold client_frame. repeat case_match; cbn [fst]; try done.
    + by apply size_before_end.
    + unfold request_stop. by destruct (phase s).
    + by apply on_client_before_end.
  - destruct (in_loop id s); [|done]. destruct (role_of id s); [|done]. unfold depart, retain_clients. destruct (retain _ _) as [kept lost].
    assert (H : before_end (on_client id hang (add_gone lost (on_clients (fun _ => kept) s)))) by by apply on_client_before_end.
    by destruct (_ && _).
  - destruct (owes SignalThread s); [done|]. unfold request_stop. by destruct (phase s).
  - by apply pay_before_end.
  - unfold on_writer. by apply (on_client_before_end id (writer_turn failed)).
  - destruct (main_idle s); [|done]. unfold hang_up. by rewrite Hb.
Qed.

(** *** What each act does to the terminals *)

Lemma read_follows bytes s : follows s (serve_read bytes s) [].
Proof.
  unfold serve_read. destruct (feed _ _) as [[f out] dropped].
  pose proof (follows_records "terminal" dropped (set_filter f s)) as Hr. set (s1 := foldl _ _ _) in *.
  assert (Hr' : follows s s1 []) by (apply (follows_trans s (set_filter f s) s1 [] []); [by apply follows_same|done]).
  case_bool_decide; [done|]. apply (follows_trans s s1 _ [] []); [done|by apply follows_same].
Qed.

Lemma put_joiner_jids id c st s : c_id c = id -> jids (put_joiner id c st s) = jids s.
Proof. intros H. by destruct (put_joiner_calm (mk_spec 0 0 "" "" "" [] [] "" "" None Agent Sandbox.default_set) id c st s H) as [(_ & _ & _ & _ & ? & _) _]. Qed.

Lemma join_follows a s : match a with Greet _ | Replay _ | Fit _ _ _ | Register _ => True | _ => False end -> follows s (act a s) [].
Proof.
  destruct a as [bytes| | |class name|first|id|id ok1 ok2|id|id f ok|id|by_ cause|o|id failed|code signal|]; try done; intros _; cbn [act].
  - unfold let_in. destruct (greet first s) as [h|]; [|apply follows_refl]. apply follows_sub; [cbn; lia| |done].
    intros i. unfold jids. cbn. rewrite map_app. intros [H|H%list_elem_of_singleton]%elem_of_app; [by left|]. right. cbn in H. lia.
  - unfold replay. destruct (find_joiner id s) as [j|] eqn:E; [|apply follows_refl]. apply find_joiner_some in E as [_ Hid].
    destruct (j_stage j), (c_role (j_client j)); try apply follows_refl.
    pose proof (replayed_id (replay_for s) (j_client j)) as [Hi _]. destruct (replayed _ _) as [c []]; cbn [fst snd] in *; [|apply follows_drop].
    apply follows_same; [done| |done]. apply put_joiner_jids. by rewrite Hi.
  - unfold fit. destruct (find_joiner id s) as [[c h []]|] eqn:E; try apply follows_refl. apply find_joiner_some in E as [_ Hid].
    eapply (follows_trans _ _ _ [] []); [apply (follows_apply_size (h_rows h) (h_cols h) true ok1 ok2)|].
    apply follows_same; [done| |done]. by apply put_joiner_jids.
  - apply follows_register.
Qed.

Lemma leave_follows id r s : follows s (depart id r s) [].
Proof.
  unfold depart, retain_clients. pose proof (retain_kept (stays id) (registered s)) as Hk.
  change (fun c => (c, negb (bool_decide (c_id c = id)))) with (stays id).
  destruct (retain _ _) as [kept lost]. cbn [fst] in Hk. set (s1 := add_gone lost (on_clients (fun _ => kept) s)).
  assert (Hs1 : follows s (on_client id hang s1) []).
  { apply (follows_trans s s1 _ [] []).
    - apply follows_sub; [cbn; lia|by left|]. intros c. rewrite !elem_terminals. cbn. intros [Hc Hr]. split; [|done].
      destruct (Hk c Hc) as (c0 & H0 & [= -> _]). done.
    - apply follows_on_client; [|done]. intros c _ Hc He. cbn in Hc.
      destruct (Hk c Hc) as (c0 & H0 & Hs). unfold stays in Hs. injection Hs as -> Hs.
      rewrite bool_decide_true in Hs by done. done. }
  destruct (_ && _); (eapply (follows_trans _ _ _ [] []); [exact Hs1|by apply follows_same]).
Qed.

Lemma pay_follows o s : goes_on s -> follows s (pay o s) [].
Proof.
  intros Hg. unfold pay. destruct (take_first o (owed s)) as [[t rest]|] eqn:E; [|apply follows_refl]. apply take_first_spec in E as (l1 & l2 & E & _).
  unfold goes_on in Hg. rewrite E in Hg. apply Forall_app in Hg as [_ [Ht _]%Forall_cons].
  destruct t; try done; cbn [do_task]; [by apply follows_same|..]; (eapply (follows_log _ s s); [apply follows_refl|done..]).
Qed.

Lemma act_follows a s : is_finish a = false -> ids_ok s -> goes_on s -> before_end s -> follows s (act a s) (output_of a s).
Proof.
  intros Hf Hi Hg Hb. pose proof (join_follows a s) as Hj.
  destruct a as [bytes| | |class name|first|id|id ok1 ok2|id|id f ok|id|by_ cause|o|id failed|code signal|]; try discriminate;
    try (by apply Hj); clear Hj; cbn [act output_of].
  - destruct (may_read s); [apply read_follows|apply follows_refl].
  - case_bool_decide; [apply follows_refl|apply follows_fan_out].
  - destruct (main_idle s); by apply follows_same.
  - apply (follows_records class [name] s).
  - destruct (in_loop id s); [|apply follows_refl]. destruct (role_of id s) as [r|] eqn:Er; [|apply follows_refl]. by apply client_frame_follows.
  - destruct (in_loop id s); [|apply follows_refl]. destruct (role_of id s) as [r|]; [apply leave_follows|apply follows_refl].
  - destruct (owes SignalThread s); [apply follows_refl|]. unfold request_stop. destruct (phase s); by apply follows_same.
  - by apply pay_follows.
  - apply (follows_trans s (on_client id (writer_turn failed) s) _ [] []).
    + apply follows_on_client; [|apply writer_turn_id]. intros c _ _ _. split; [apply writer_turn_id|apply writer_stream].
    + apply follows_same; [done| |done].
      destruct (on_writer_calm (mk_spec 0 0 "" "" "" [] [] "" "" None Agent Sandbox.default_set) id _ s (writer_turn_id failed)) as [(_ & _ & _ & _ & ? & _) _]. done.
  - destruct (main_idle s); [|apply follows_refl]. unfold hang_up. rewrite Hb. apply follows_refl.
Qed.

Lemma run_follows spec acts : forall exact s, told spec exact s -> goes_on s -> before_end s -> existsb is_finish acts = false ->
  Z.of_N (next_id s) + Z.of_nat (length acts) <= u32_max ->
  follows s (run_acts acts s) (all_output acts s) /\ goes_on (run_acts acts s) /\ before_end (run_acts acts s).
Proof.
  unfold run_acts. induction acts as [|a acts IH]; intros exact s Ht Hg Hb Hf Hn; cbn [foldl length all_output existsb] in *.
  - split; [apply follows_refl|done].
  - apply orb_false_iff in Hf as [Ha Hf]. pose proof (act_told spec exact a s Ht ltac:(lia)) as H1.
    pose proof (act_follows a s Ha (proj1 Ht) Hg Hb) as F1.
    destruct (IH _ _ H1 (act_goes_on a s Ha Hg) (act_before_end a s Ha Hg Hb) Hf) as [F2 B2];
      [destruct (act_next a s) as [-> | ->]; lia|]. split; [by eapply follows_trans|done].
Qed.

(** ** Theorems *)

Lemma new_told spec pid started_at log : standing spec (shared_new pid started_at log) = (Running, 0) ->
  told spec true (shared_new pid started_at log).
Proof.
  intros H. unfold told. rewrite H. split; [by split; constructor|]. do 2 (split; [done|]). intros _.
  unfold counts_ok. cbn. split_and!; try done; try by constructor.
  by intros i [?%elem_of_nil|?%elem_of_nil].
Qed.

(** What is owed is done in time: an exit, and then what follows it. *)
Definition weight (l : list (Owner * Task)) : nat :=
  sum_list_with (fun x => match snd x with LogExit _ _ => 2%nat | _ => 1%nat end) l.

Lemma all_paid s : exists owners, owed (run_acts (map Pay owners) s) = [].
Proof.
  remember (weight (owed s)) as n eqn:Hn. assert (Hle : (weight (owed s) <= n)%nat) by lia. clear Hn. revert s Hle.
  induction n as [|n IH]; intros s Hle; (destruct (owed s) as [|[o t] l] eqn:E; [by exists []|]).
  { unfold weight in Hle. cbn in Hle. destruct t; lia. }
  destruct (IH (pay o s)) as [owners Ho]; [|by exists (o :: owners)].
  unfold pay. rewrite E. cbn [take_first]. rewrite decide_True by done.
  assert (Hl : forall k, owed (log_event k (set_owed l s)) = l)
    by (intros k; by destruct (log_event_steady k (set_owed l s)) as (_ & _ & _ & _ & _ & ->)).
  unfold weight in *. cbn [sum_list_with snd] in Hle.
  destruct t; cbn [do_task owe set_owed owed collect take_clients]; rewrite ?Hl; cbn [set_phase set_owed owed]; try lia.
  rewrite sum_list_with_app. cbn. lia.
Qed.

(** C10. From a log that tells a running session, whatever the clients, the pump, the daemon, the end and the writers do,
    a locked step at a time and in any order, no two registered clients share
    an id, and the log folds to the session's true standing as soon as the
    events of what was done are in it: running, stopping or over as the phase
    is, once a stop or an exit owed is logged; and with as many clients as
    there are terminals, those whose arrival is not logged yet left out and
    those whose leaving is not left in.  Before the end the count is never
    less than that, and it is exactly that unless a terminal was logged as
    gone before it was logged as attached.  At any moment the threads can do
    all they owe, one after the other. *)
Theorem log_tells_the_session spec pid started_at log acts :
  standing spec (shared_new pid started_at log) = (Running, 0) -> Z.of_nat (length acts) <= u32_max ->
  let s0 := shared_new pid started_at log in
  let s := run_acts acts s0 in
  let S := from_log spec (events s) in
  NoDup (ids s) /\
  match phase s with
  | PRunning => state S = Running
  | PStopping => state S = (if owes_stop s then Running else Stopping)
  | PExited => if owes_exit s then is_live (state S) = true else is_terminal (state S) = true
  end /\
  (is_terminal (state S) = false ->
     let counted := clients S + Z.of_nat (length (aids s)) in
     let attached := Z.of_nat (length (terminals s)) + Z.of_nat (length (dids s)) in
     attached <= counted /\ (in_turn acts s0 = true -> counted = attached)) /\
  (exists owners, owed (run_acts (map Pay owners) s) = []).
Proof.
  intros H Hn s0 s S. destruct (run_told spec acts true s0 (new_told _ _ _ _ H)) as ([Hi _] & Hp & _ & Ht); [cbn; lia|].
  fold s in Hi, Hp, Ht. unfold standing in Hp, Ht. fold S in Hp, Ht. cbn [fst snd] in Hp, Ht.
  split; [by apply NoDup_app in Hi as [Hi _]|]. split.
  - unfold owes_stop, owes_exit, phase_ok in *.
    destruct (phase s), (picks stopping s) as [|? []], (picks exiting s) as [|? []]; done.
  - split; [|apply all_paid]. intros Hl. destruct (Ht Hl) as (_ & _ & _ & _ & _ & Hle & He). rewrite length_app, Nat2Z.inj_add in Hle, He.
    unfold tids in Hle, He. rewrite length_map in Hle, He. split; [done|]. intros Ht'. cbn [andb] in He. specialize (He Ht') as [He _]. lia.
Qed.






Lemma ids_inj l (x y : ClientHandle) : NoDup (map c_id l) -> x ∈ l -> y ∈ l -> c_id x = c_id y -> x = y.
Proof.
  induction l as [|c l IH]; [by intros _ ?%elem_of_nil|]. cbn [map]. intros [Hc Hn]%NoDup_cons Hx Hy He.
  apply elem_of_cons in Hx as [->|Hx], Hy as [->|Hy]; try done.
  - destruct Hc. rewrite He. by apply list_elem_of_fmap_2.
  - destruct Hc. rewrite <- He. by apply list_elem_of_fmap_2.
  - by apply IH.
Qed.

(** A terminal sees all of it: between any two points before the end, a
    terminal still registered whose writer runs was given, after what it had,
    exactly the frames of the filtered output, in order and once, whatever the
    other clients did; one that could not take a frame is no longer
    registered. *)
Theorem terminals_get_all_output spec pid started_at log acts more c c' :
  let s1 := run_acts acts (shared_new pid started_at log) in
  let s2 := run_acts more s1 in
  standing spec (shared_new pid started_at log) = (Running, 0) -> existsb is_finish (acts ++ more) = false ->
  Z.of_nat (length (acts ++ more)) <= u32_max ->
  c ∈ terminals s1 -> c' ∈ terminals s2 -> c_id c = c_id c' -> open_ c' = true ->
  stream c' = stream c ++ concat (all_output more s1).
Proof.
  intros s1 s2 H Hf Hn Hc Hc' Hid Ho. pose proof (new_told _ _ _ _ H) as Ht.
  rewrite existsb_app, length_app in *. apply orb_false_iff in Hf as [Hf1 Hf2].
  pose proof (run_told spec acts _ _ Ht ltac:(cbn; lia)) as Ht1. destruct (run_next acts (shared_new pid started_at log)) as [_ Hnext].
  destruct (run_follows spec acts _ _ Ht (Forall_nil_2 _) ltac:(done) Hf1) as (_ & G1 & B1); [cbn; lia|]. fold s1 in Ht1, G1, B1, Hnext.
  cbn [next_id shared_new] in Hnext. destruct (run_follows spec more _ s1 Ht1 G1 B1 Hf2) as [(_ & _ & F2) _]; [lia|]. fold s2 in F2.
  destruct Ht1 as ([Hnd Hle] & _). assert (Hreg : c ∈ registered s1) by (by apply elem_terminals in Hc as [? _]).
  assert (Hin : c_id c ∈ ids s1) by by apply list_elem_of_fmap_2. apply NoDup_app in Hnd as (Hnd & Hdj & _).
  destruct (F2 c' Hc') as (c0 & H0 & Hid0 & Hs).
  - rewrite <- Hid. rewrite Forall_forall in Hle. apply Hle, elem_of_app. by left.
  - rewrite <- Hid. by apply Hdj.
  - destruct (Hs Ho) as [_ ->]. f_equal. f_equal. apply (ids_inj (registered s1)); [done|by apply elem_terminals in H0 as [? _]|done|congruence].
Qed.
End supervisor.

(** ** The stop ladder *)

Definition SIGINT : Z := 2.
Definition SIGTERM : Z := 15.
Definition SIGKILL : Z := 9.

(** What one rung finds: the harness behind the monitor now, whether the one
    found at start-up is still there, and whether the session ended within the
    grace. *)
Record Rung : Type := mk_rung { found : option Z; still_behind : bool; exited : bool }.

(** The target of [kill], a group where negative. *)
Definition aim (child : Z) (harness : option Z) (signal : Z) (r : Rung) : Z :=
  let target :=
    if signal =? SIGKILL then None
    else match found r with
         | Some p => Some p
         | None => match harness with Some p => if still_behind r then Some p else None | None => None end
         end in
  match target with Some p => p | None => - child end.

Fixpoint climb (child : Z) (harness : option Z) (signals : list Z) (world : Z -> Rung) : list (Z * Z) :=
  match signals with
  | [] => []
  | signal :: signals =>
      (aim child harness signal (world signal), signal)
      :: (if exited (world signal) then [] else climb child harness signals world)
  end.

Definition ladder (child : Z) (harness : option Z) (world : Z -> Rung) : list (Z * Z) :=
  climb child harness [SIGINT; SIGTERM; SIGKILL] world.

(** The ladder escalates in order and no further than it must, ends with
    the whole group where the session outlived the polite rungs, and never
    signals a process it did not find behind the monitor at that rung: any
    other target is the group. *)
Theorem ladder_is_safe child harness world :
  map snd (ladder child harness world) `prefix_of` [SIGINT; SIGTERM; SIGKILL] /\
  (exited (world SIGINT) = false -> exited (world SIGTERM) = false ->
     last (ladder child harness world) = Some (- child, SIGKILL)) /\
  forall target signal, (target, signal) ∈ ladder child harness world ->
    target = - child \/
    (signal <> SIGKILL /\
     (found (world signal) = Some target \/
      (found (world signal) = None /\ harness = Some target /\ still_behind (world signal) = true))).
Proof.
  unfold ladder, climb. split; [|split].
  - destruct (exited (world SIGINT)); [by exists [SIGTERM; SIGKILL]|].
    destruct (exited (world SIGTERM)); [by exists [SIGKILL]|]. destruct (exited (world SIGKILL)); by exists [].
  - intros -> ->. by destruct (exited (world SIGKILL)).
  - assert (Ha : forall signal target, aim child harness signal (world signal) = target -> target = - child \/
      (signal <> SIGKILL /\ (found (world signal) = Some target \/
      (found (world signal) = None /\ harness = Some target /\ still_behind (world signal) = true)))).
    { intros signal target <-. unfold aim. destruct (Z.eqb_spec signal SIGKILL); [by left|].
      destruct (found (world signal)); [right; split; [done|by left]|].
      destruct harness; [|by left]. destruct (still_behind (world signal)); [|by left]. right. split; [done|by right]. }
    intros target signal Hin.
    destruct (exited (world SIGINT)), (exited (world SIGTERM)), (exited (world SIGKILL));
      rewrite !elem_of_cons, elem_of_nil in Hin; naive_solver.
Qed.

(** ** One client's byte counter among the threads that share it *)

(** The counter, what threads have added and not yet sent or taken back, the
    channel, what the writer is writing, whether it still receives, and what a
    reply left counted when its send failed. *)
Record Queue : Type := mk_queue {
  counter : Z; held_ : list Z; sent_ : list Z; writing : option Z; receiving : bool; leaked : Z
}.

Definition queue_new : Queue := mk_queue 0 [] [] None true 0.

Inductive queue_step : Queue -> Queue -> Prop :=
| q_add n q : 0 <= n ->                 (* [fetch_add] of enqueue, close, finish and status *)
    queue_step q (mk_queue (wrap64 (counter q + n)) (n :: held_ q) (sent_ q) (writing q) (receiving q) (leaked q))
| q_take_back n l1 l2 q : held_ q = l1 ++ n :: l2 -> (* over budget, or the send failed *)
    queue_step q (mk_queue (wrap64 (counter q - n)) (l1 ++ l2) (sent_ q) (writing q) (receiving q) (leaked q))
| q_send n l1 l2 q : held_ q = l1 ++ n :: l2 -> receiving q = true ->
    queue_step q (mk_queue (counter q) (l1 ++ l2) (sent_ q ++ [n]) (writing q) true (leaked q))
| q_leak n l1 l2 q : held_ q = l1 ++ n :: l2 -> receiving q = false -> (* a status reply's failed send *)
    queue_step q (mk_queue (counter q) (l1 ++ l2) (sent_ q) (writing q) false (leaked q + n))
| q_recv n ch q : sent_ q = n :: ch -> writing q = None -> receiving q = true ->
    queue_step q (mk_queue (counter q) (held_ q) ch (Some n) true (leaked q))
| q_wrote n q : writing q = Some n ->   (* the writer goes on *)
    queue_step q (mk_queue (wrap64 (counter q - n)) (held_ q) (sent_ q) None (receiving q) (leaked q))
| q_ends n q : writing q = Some n ->    (* or ends, and its channel with it *)
    queue_step q (mk_queue (wrap64 (counter q - n)) (held_ q) [] None false (leaked q + foldr Z.add 0 (sent_ q))).

Definition outstanding (q : Queue) : Z :=
  foldr Z.add 0 (held_ q) + foldr Z.add 0 (sent_ q) + default 0 (writing q) + leaked q.

Definition queue_inv (q : Queue) : Prop :=
  counter q = wrap64 (outstanding q) /\ Forall (fun n => 0 <= n) (held_ q) /\ Forall (fun n => 0 <= n) (sent_ q) /\
  0 <= default 0 (writing q) /\ 0 <= leaked q.

Lemma sum_app l1 l2 : foldr Z.add 0 (l1 ++ l2) = foldr Z.add 0 l1 + foldr Z.add 0 l2.
Proof. induction l1 as [|n l1 IH]; [done|]. cbn. rewrite IH. lia. Qed.

Lemma sum_nonneg l : Forall (fun n => 0 <= n) l -> 0 <= foldr Z.add 0 l.
Proof. induction 1; cbn; lia. Qed.

Lemma wrap64_sub a n : wrap64 (wrap64 a - n) = wrap64 (a - n).
Proof. unfold wrap64. apply Zminus_mod_idemp_l. Qed.

Lemma wrap64_add a n : wrap64 (wrap64 a + n) = wrap64 (a + n).
Proof. unfold wrap64. apply Zplus_mod_idemp_l. Qed.

Lemma queue_step_inv q q' : queue_inv q -> queue_step q q' -> queue_inv q'.
Proof.
  intros (Hc & Hh & Hs & Hw & Hl) Hstep.
  destruct Hstep as [n q Hn|n l1 l2 q E|n l1 l2 q E Er|n l1 l2 q E Er|n ch q E Ew Er|n q Ew|n q Ew];
    unfold queue_inv, outstanding in *; cbn in *; rewrite ?E, ?Ew in *; cbn in *; rewrite ?sum_app in *; cbn in *;
    rewrite Hc, ?wrap64_add, ?wrap64_sub;
    rewrite ?Forall_app, ?Forall_cons in *;
    (split; [unfold wrap64; f_equal; lia|]); pose proof (sum_nonneg (sent_ q)); intuition (lia || by constructor).
Qed.

(** The counter that bounds a client's queue is exact under every
    interleaving of the pump, the log, the client's own thread and the writer:
    it is the number of bytes added and not yet written, refused or lost, so
    while that fits the machine no subtraction wraps below zero and a client
    with room is never refused. *)
Theorem queue_never_underflows q : rtc queue_step queue_new q -> outstanding q <= u64_max ->
  counter q = outstanding q /\
  (forall n, n ∈ held_ q \/ writing q = Some n -> wrap64 (counter q - n) = counter q - n /\ 0 <= counter q - n).
Proof.
  intros Hr Hb.
  assert (Hi : queue_inv q).
  { assert (H0 : queue_inv queue_new) by (split; [done|split; [constructor|split; [constructor|cbn; lia]]]).
    induction Hr as [|q1 q2 q3 Hs _ IH]; [done|]. apply IH; [done|]. by eapply queue_step_inv. }
  destruct Hi as (Hc & Hh & Hs & Hw & Hl).
  pose proof (sum_nonneg _ Hh). pose proof (sum_nonneg _ Hs).
  assert (He : counter q = outstanding q).
  { rewrite Hc. unfold wrap64, outstanding, u64_max in *. rewrite Z.mod_small; lia. }
  split; [done|]. intros n Hn.
  assert (0 <= n <= counter q).
  { rewrite He. unfold outstanding in *. destruct Hn as [Hn|Hn].
    - assert (Hsum : n <= foldr Z.add 0 (held_ q)).
      { clear -Hn Hh. induction Hh as [|m l Hm Hl IH]; [by apply elem_of_nil in Hn|]. cbn.
        pose proof (sum_nonneg l Hl). apply elem_of_cons in Hn as [->|Hn]; [lia|]. specialize (IH Hn). lia. }
      rewrite Forall_forall in Hh. specialize (Hh n Hn). lia.
    - rewrite Hn in *. cbn in *. lia. }
  unfold wrap64, outstanding, u64_max in *. rewrite Z.mod_small by lia. lia.
Qed.

(** ** The theorems at concrete inputs *)

(** A serializer that writes nothing but a tag. *)
Definition tag_json {A} (tag : Z) (_ : A) : result (list Z) unit := Ok [tag].

Definition hello_of (bytes : list Z) : result Hello unit :=
  match bytes with
  | [0; rows; cols] => Ok (mk_hello Terminal rows cols)
  | [1] => Ok (mk_hello Control 0 0)
  | _ => Err tt
  end.

Definition sample_spec : SessionSpec :=
  mk_spec 1 2 "claude-code" "/w" "s" [] [] "0" "1" None Agent Sandbox.default_set.

Definition sample_log : list SessionEvent := [mk_event "0" Created; mk_event "1" (Started 7)].

Definition sample : Shared := shared_new 7 "1" sample_log.

(** A client that comes in with nothing in between. *)
Definition joins (id : N) (first : option Frame) : list action :=
  [Greet first; Replay id; Fit id true true; Register id; Pay (ClientThread id)].

Definition terminal_hello : option Frame := Some (mk_frame HELLO [0; 24; 80]).

Definition control_hello : option Frame := Some (mk_frame HELLO [1]).

(** A terminal and the daemon attach; a clipboard write is dropped twice and
    the text around it kept; the second refusal is folded; the daemon asks for
    a stop whose event is still owed. *)
Definition sample_acts : list action :=
  joins 1 terminal_hello ++ joins 2 control_hello ++
  [PtyRead [104; 105; 27; 93; 53; 50; 59; 7]; FanOut; Writer 1 None; PtyRead [27; 93; 53; 50; 59; 7; 33]; FanOut;
   Refusal "net" "socket"; Stop "daemon" CStopped].

Definition sample_run (acts : list action) (s : Shared) : Shared :=
  run_acts (tag_json 0) (tag_json 1) (tag_json 2) hello_of (fun n => pretty n) (fun n => Z.of_nat n) acts s.


Lemma log_tells_the_session_witness :
  let S := from_log sample_spec (events (sample_run sample_acts sample)) in
  state S = Running /\ clients S = 1 /\ owes_stop (sample_run sample_acts sample) = true.
Proof.
  pose proof (log_tells_the_session (tag_json 0) (tag_json 1) (tag_json 2) hello_of (fun n => pretty n)
    (fun n => Z.of_nat n) sample_spec 7 "1" sample_log sample_acts eq_refl ltac:(vm_compute; discriminate)) as (_ & Hs & Hc & _).
  split; [vm_compute in Hs; vm_compute; exact Hs|]. split; [|vm_compute; reflexivity].
  destruct Hc as [_ He]; [vm_compute; reflexivity|]. specialize (He ltac:(vm_compute; reflexivity)).
  vm_compute in He. vm_compute. exact He.
Defined.

(** A terminal whose connection is gone is registered; the next output drops
    it and that is logged before its own thread logs that it attached: the
    log counts a client until the session ends, and there is none. *)
Example a_count_can_stay_too_high :
  let acts := [Greet terminal_hello; PtyRead [104]; FanOut; Replay 1; Fit 1 true true; Register 1; Writer 1 (Some 0%nat);
    PtyRead [105]; FanOut; Pay MainThread; Pay (ClientThread 1); Leave 1] in
  let s := sample_run acts sample in
  terminals s = [] /\ owed s = [] /\ looping s = [] /\ clients (from_log sample_spec (events s)) = 1.
Proof. vm_compute. done. Qed.

(** Between its replay and its place in the list a terminal can miss output,
    and be given twice what the screen already had. *)
Example the_attach_window :
  let first := [Greet terminal_hello; PtyRead [104]; FanOut] in
  let last := [Fit 1 true true; Register 1] in
  let shown acts := map stream (terminals (sample_run acts sample)) in
  shown (first ++ [Replay 1; PtyRead [105]; FanOut] ++ last) = [[16; 0; 1; 104]]
  /\ shown (first ++ [PtyRead [105]; Replay 1] ++ last ++ [FanOut]) = [[16; 0; 2; 104; 105; 16; 0; 1; 105]]
  /\ shown (first ++ [PtyRead [105]; FanOut; Replay 1] ++ last) = [[16; 0; 2; 104; 105]].
Proof. vm_compute. done. Qed.


Definition first_terminal (s : Shared) : ClientHandle := hd (new_client 0 Control) (terminals s).

Lemma terminals_get_all_output_witness :
  stream (first_terminal (sample_run sample_acts sample)) = [16; 0; 2; 104; 105; 16; 0; 1; 33].
Proof.
  pose proof (terminals_get_all_output (tag_json 0) (tag_json 1) (tag_json 2) hello_of (fun n => pretty n)
    (fun n => Z.of_nat n) sample_spec 7 "1" sample_log (take 5 sample_acts) (drop 5 sample_acts)
    (first_terminal (sample_run (take 5 sample_acts) sample)) (first_terminal (sample_run sample_acts sample))) as H.
  etransitivity; [apply H|]; [reflexivity|reflexivity|vm_compute; discriminate|vm_compute; left|vm_compute; left
    |reflexivity|reflexivity|vm_compute; reflexivity].
Defined.

Lemma queue_never_underflows_witness :
  counter (mk_queue 5 [3] [] (Some 2) true 0) = 5.
Proof.
  apply (queue_never_underflows (mk_queue 5 [3] [] (Some 2) true 0)); [|vm_compute; discriminate].
  eapply rtc_l; [apply (q_add 2); lia|]. eapply rtc_l; [apply (q_send 2 [] []); reflexivity|].
  eapply rtc_l; [apply (q_recv 2 []); reflexivity|]. eapply rtc_l; [apply (q_add 3); lia|]. apply rtc_refl.
Defined.
