(* ===== verification/Sessions.v ===== *)
(** * The daemon's sessions

    Models crates/willied/src/sessions.rs with the readiness handshake of
    crates/willie-sess/src/detach.rs and the daemon's shell launch: resolving
    and creating a session fail-closed, folding a supervisor's events into the
    index, finalising a lost one, the scan at start, renaming and titling.
    The index and its events are [DaemonState]'s; the session directory is the
    store, a list of specs with their logs in directory order; what the
    machine answers (the harness found, zsh present, the git identity, the
    write of the spec, the supervisor's reply, a probed socket, a first prompt)
    is an argument of the operation. *)

From S2P Require Import Prelude Text Ascii BTree Sandbox Session Project Harness DaemonState.

Local Open Scope string_scope.
Local Open Scope list_scope.
Local Open Scope willie_scope.

(** ** Errors *)

Record OpError : Type := mk_op { o_code : string; o_message : string; o_remediation : string }.

Definition coded (code message : string) : OpError := mk_op code message (remediation_for code).

Definition from_problem (p : SandboxProblem) : OpError := mk_op (sp_code p) (sp_message p) (sp_remediation p).

Definition from_capability (e : CapabilityError) : OpError := mk_op (code e) (message e) (remediation e).

Definition busy_err : OpError :=
  mk_op "project_busy" "a job is already running for this project" "wait for the current job to finish or cancel it".

Definition not_found_err (show : N -> string) (id : N) : OpError :=
  mk_op "project_not_found" ("no project with id `" +:+ id_display show KProject id +:+ "`")
    "check the project id and try again".

(** ** The readiness handshake *)

Inductive Ready : Type := ReadyOk (pid : Z) | ReadyFail (code text : string).

(** [str::split_once] on a colon and a space. *)
Fixpoint split_once_colon (s : string) : option (string * string) :=
  match strip_prefix ": " s with
  | Some rest => Some (EmptyString, rest)
  | None =>
      match s with
      | EmptyString => None
      | String a s =>
          match split_once_colon s with Some (l, r) => Some (String a l, r) | None => None end
      end
  end.

Definition parse_u32 (s : string) : option Z := parse_unsigned u32_max s.

(** What [Handshake::wait] and [parse_ready] read in a line; [other] is the
    text of the fallback. *)
Definition read_ready (line other : string) : Ready :=
  let fallback := ReadyFail "supervisor_spawn_failed" other in
  match strip_prefix "ok " line with
  | Some pid => match parse_u32 (trim pid) with Some pid => ReadyOk pid | None => fallback end
  | None =>
      match strip_prefix "fail " line with
      | Some rest => match split_once_colon rest with Some (c, t) => ReadyFail c t | None => fallback end
      | None => fallback
      end
  end.

Definition parse_ready (line : string) : Ready := read_ready line "the supervisor did not report readiness".

(** The first line, or nothing. *)
Definition first_line (text : string) : string := default EmptyString (head (lines text)).

Definition handshake_wait (text log : string) : Ready :=
  read_ready (trim (first_line text)) ("the supervisor exited before reporting; its log is " +:+ log).

Definition show_u32 (n : Z) : string := pretty n.

Definition reply_ok (pid : Z) : string := "ok " +:+ show_u32 pid +:+ String newline EmptyString.

Definition reply_fail (code text : string) : string :=
  "fail " +:+ code +:+ ": " +:+ replace_char newline " " text +:+ String newline EmptyString.

(** What the launcher prints, and what the daemon makes of it. *)
Definition print_ready (r : Ready) : string :=
  match r with
  | ReadyOk pid => "ok " +:+ show_u32 pid
  | ReadyFail code text => "fail " +:+ code +:+ ": " +:+ text
  end.

Definition relayed (wire log : string) : Ready := parse_ready (trim (print_ready (handshake_wait wire log))).

(** ** Launches *)

Definition ZSH_PATH : string := "/usr/bin/zsh".

Definition shell_launch (tz : option string) (workspace home : string) : Launch :=
  let env := [] in
  let env := put "PATH" (join ":" (session_path home)) env in
  let env := put "HOME" home env in
  let env := put "USER" (default "willie" (file_name home)) env in
  let env := put "TERM" "xterm-256color" env in
  let env := put "COLORTERM" "truecolor" env in
  let env := put "LANG" "C.UTF-8" env in
  let env := match tz with
             | Some tz => if is_empty tz then env else put "TZ" tz env
             | None => env
             end in
  let env := put "ZDOTDIR" "/etc/willie/zsh" env in
  let env := put "WILLIE_WORKSPACE" workspace env in
  mk_launch [ZSH_PATH; "-l"] env.

(** ** Resuming *)

Inductive ResumeTarget : Type :=
| TargetNone
| Latest (id : option N)
| Named (id : N) (st : option SessionState).

Definition resume_decision (resume : bool) (harness_resume : Resume) (target : ResumeTarget) :
    result (LaunchMode * option N) OpError :=
  if negb resume then Ok (Fresh, None)
  else match harness_resume with
  | ResumeNone => Err (coded "harness_cannot_resume" "this harness cannot resume a conversation")
  | _ =>
      match target with
      | Named _ None =>
          Err (mk_op "resume_target_not_found" "no such session" "choose a session from the Sessions panel")
      | Named id (Some st) =>
          if is_live st then
            Err (mk_op "resume_target_live" "that session is already open" "it is already open; switch to its tab")
          else Ok (Continue, Some id)
      | Latest id => Ok (Continue, id)
      | TargetNone => Ok (Continue, None)
      end
  end.

(** [max_by] on the creation time keeps the last of the greatest. *)
Definition later (a b : Session) : Session :=
  if ltb (Session.created_at b) (Session.created_at a) then a else b.

Definition max_created (l : list Session) : option Session :=
  match l with
  | [] => None
  | a :: l => Some (foldl later a l)
  end.

Definition latest_terminal (project : N) (st : State) : option N :=
  Session.id <$> max_created
    (List.filter (fun x => (Session.project_id x =? project)%N && is_terminal (Session.state x)) (values (sessions st))).

Record CreateParams : Type := mk_params {
  c_project : N; c_resume : bool; c_resume_from : option N; c_kind : SessionKind
}.

Definition target_of (p : CreateParams) (st : State) : ResumeTarget :=
  match c_resume_from p with
  | Some id => Named id (Session.state <$> get id (sessions st))
  | None => if c_resume p then Latest (latest_terminal (c_project p) st) else TargetNone
  end.

(** ** The world of a session operation *)

Inductive CoreEvent : Type :=
| SessionStarted (session project : N)
| SessionExited (session : N)
| ProjectRegistered (project : N)
| Tick.

Record World : Type := mk_world {
  shared : Shared;
  store : list (SessionSpec * list SessionEvent);
  untitled : gset N;
  notified : list CoreEvent
}.

Definition emit_session (x : Session) (w : World) : World :=
  mk_world (emit (upsert_session x) (shared w)) (store w) (untitled w) (notified w).

Definition notify (e : CoreEvent) (w : World) : World :=
  mk_world (shared w) (store w) (untitled w) (notified w ++ [e]).

Definition add_spec (spec : SessionSpec) (w : World) : World :=
  mk_world (shared w) (store w ++ [(spec, [])]) (untitled w) (notified w).

Definition index (w : World) : btree N Session := sessions (fst (shared w)).

(** ** Creating *)

(** What the machine answers, in the order [create] asks. *)
Record Machine : Type := mk_machine {
  m_busy : bool;                        (* [runner.is_busy] *)
  m_claude : option string;             (* [detect_claude] *)
  m_zsh : bool;                         (* [zsh_present] *)
  m_identity : option (string * string); (* [identity::ensure]'s error *)
  m_write : option string;              (* [write_spec]'s error *)
  m_spawn : result Ready OpError;       (* [spawn_supervisor] *)
  m_tz : option string;
  m_id : N;
  m_times : string * string             (* at the spec and at the answer *)
}.

Section sessions.
  Context (show : N -> string) (home run_dir version : string).

Definition session_socket (id : N) : string := run_dir +:+ "/sessions/" +:+ id_display show KSession id +:+ ".sock".

Definition session_capabilities (defaults : CapabilitySet) (profile : SandboxProfile) : result CapabilitySet OpError :=
  map_err from_capability (resolve defaults profile home).

(** The launch and the harness's name. *)
Definition launch_for (kind : SessionKind) (mode : LaunchMode) (project : Project) (m : Machine) :
    result (Launch * string) OpError :=
  match kind with
  | Agent =>
      match m_claude m with
      | None => Err (coded "harness_not_installed" "Claude Code is not installed")
      | Some binary => Ok (launch (m_tz m) binary home mode, h_id ClaudeCode)
      end
  | Shell =>
      if m_zsh m then Ok (shell_launch (m_tz m) (Project.workspace project) home, SHELL_HARNESS)
      else Err (coded "shell_unavailable" "zsh is not installed in the image")
  end.

(** Everything up to the spec, without a side effect on the daemon. *)
Definition resolve_create (p : CreateParams) (m : Machine) (st : State) : result SessionSpec OpError :=
  let? project := ok_or (not_found_err show (c_project p)) (get (c_project p) (projects st)) in
  let target := target_of p st in
  let? _ := match Project.sandbox_problem project with Some q => Err (from_problem q) | None => Ok tt end in
  let? _ := match Project.state project with
            | Project.Ready => Ok tt
            | _ => Err (coded "project_not_ready" "the project is not ready")
            end in
  let? _ := if m_busy m then Err busy_err else Ok tt in
  let? caps := session_capabilities (Harness.default_capabilities ClaudeCode) (Project.sandbox project) in
  let harness_resume := match c_kind p with Agent => Harness.resume (h_capabilities ClaudeCode) | Shell => ResumeNone end in
  let? d := resume_decision (c_resume p) harness_resume target in
  let '(mode, resumed_from) := d in
  let? lh := launch_for (c_kind p) mode project m in
  let '(l, harness_id) := lh in
  let? _ := match m_identity m with Some (c, t) => Err (coded c t) | None => Ok tt end in
  Ok (mk_spec (m_id m) (Project.id project) harness_id (Project.workspace project) (session_socket (m_id m))
    (Harness.argv l) (Harness.env l) (fst (m_times m)) version resumed_from (c_kind p) caps).

Definition failed_event (now code message : string) : SessionEvent := mk_event now (EvFailed code message).

Definition create (p : CreateParams) (m : Machine) (w : World) : result Session OpError * World :=
  match resolve_create p m (fst (shared w)) with
  | Err e => (Err e, w)
  | Ok spec =>
      match m_write m with
      | Some e => (Err (coded "supervisor_spawn_failed" e), w)
      | None =>
          let session := from_log spec [] in
          let w := emit_session session (add_spec spec w) in
          let now := snd (m_times m) in
          match m_spawn m with
          | Err e =>
              (Err e, emit_session (apply_event session (failed_event now (o_code e) (o_message e))) w)
          | Ok (ReadyOk pid) =>
              let session := apply_event session (mk_event now (Started pid)) in
              (Ok session, notify (SessionStarted (s_id spec) (s_project_id spec)) (emit_session session w))
          | Ok (ReadyFail code text) =>
              (Err (coded code text), emit_session (apply_event session (failed_event now code text)) w)
          end
      end
  end.

(** ** Following a supervisor *)

Definition placeholder (id : N) : Session :=
  mk_session id 0 EmptyString EmptyString Agent Running EmptyString None None None 0 None None None sandbox_default.

Definition current (id : N) (w : World) : Session := default (placeholder id) (get id (index w)).

(** One event of the control connection. *)
Definition fold_event (id : N) (e : SessionEvent) (w : World) : World := emit_session (apply_event (current id w) e) w.

Definition finalise_lost (now : string) (id : N) (w : World) : World :=
  match List.find (fun x => (s_id (fst x) =? id)%N) (store w) with
  | None => w
  | Some (spec, evs) =>
      let session := from_log spec evs in
      emit_session
        (if is_terminal (Session.state session) then session
         else apply_event session (failed_event now "supervisor_lost" "the supervisor stopped answering")) w
  end.

(** The control reader ended; [answers] is the probe of the socket. *)
Definition reader_ended (now : string) (answers : bool) (id : N) (w : World) : World :=
  let terminal := match get id (index w) with Some s => is_terminal (Session.state s) | None => false end in
  if terminal then notify (SessionExited id) w
  else if answers then w
  else notify (SessionExited id) (finalise_lost now id w).

(** [scan]; [probe] is the status a socket answers, if any. *)
Definition scan_one (probe : string -> option (Z * Z)) (now : string) (x : SessionSpec * list SessionEvent) (w : World) :
    World :=
  let '(spec, evs) := x in
  let session := from_log spec evs in
  if is_terminal (Session.state session) then
    mk_world (let '(st, out) := shared w in
              (mk_state (projects st) (jobs st) (put (Session.id session) session (sessions st)) (seq st), out))
      (store w) (untitled w) (notified w)
  else match probe (socket spec) with
  | Some (p, n) =>
      emit_session (mk_session (Session.id session) (Session.project_id session) (Session.harness session)
        (Session.workspace session) (Session.kind session) Running (Session.created_at session)
        (Session.started_at session) (Session.finished_at session) (Some p) n (Session.resumed_from session)
        (Session.label session) (Session.title session) (Session.sandbox session)) w
  | None => finalise_lost now (Session.id session) w
  end.

Definition scan (probe : string -> option (Z * Z)) (now : string) (w : World) : World :=
  foldl (fun w x => scan_one probe now x w) w (store w).

(** ** Renaming and titling *)

Definition clean_label (label : option string) : option string :=
  match label with
  | Some l => let l := trim l in if is_empty l then None else Some l
  | None => None
  end.

Definition append_event (id : N) (e : SessionEvent) (store : list (SessionSpec * list SessionEvent)) :=
  map (fun x => if (s_id (fst x) =? id)%N then (fst x, snd x ++ [e]) else x) store.

(** [rename] in its two halves: what it read, and what it then commits. *)
Definition rename_read (id : N) (label : option string) (w : World) : result Session OpError :=
  let label := clean_label label in
  let? _ := match label with
            | Some l =>
                if (120 <? length (chars l))%nat then
                  Err (mk_op "invalid_params" "the label is longer than 120 characters" "shorten the name")
                else Ok tt
            | None => Ok tt
            end in
  ok_or (coded "session_not_found" "no such session") (get id (index w)).

Definition rename_commit (now : string) (id : N) (label : option string) (written : option string) (session : Session)
    (w : World) : result Session OpError * World :=
  let event := mk_event now (Renamed (clean_label label)) in
  match written with
  | Some e =>
      (Err (mk_op "state_write_failed" e "check the daemon's state directory permissions and try again"), w)
  | None =>
      let session := apply_event session event in
      (Ok session, emit_session session (mk_world (shared w) (append_event id event (store w)) (untitled w) (notified w)))
  end.

Definition rename (now : string) (id : N) (label : option string) (written : option string) (w : World) :
    result Session OpError * World :=
  match rename_read id label w with
  | Err e => (Err e, w)
  | Ok session => rename_commit now id label written session w
  end.

Definition candidate_for_title (given_up : gset N) (s : Session) : bool :=
  bool_decide (Session.kind s = Agent) && bool_decide (Session.title s = None)
  && (is_live (Session.state s) || is_terminal (Session.state s)) && negb (bool_decide (Session.id s ∈ given_up)).

(** [first_prompt] answers for a session's workspace and start. *)
Definition title_one (first_prompt : Session -> option string) (w : World) (s : Session) : World :=
  match first_prompt s with
  | None =>
      if is_terminal (Session.state s) then
        mk_world (shared w) (store w) ({[Session.id s]} ∪ untitled w) (notified w)
      else w
  | Some t => emit_session (set_title (Some t) (current (Session.id s) w)) w
  end.

Definition title_untitled (first_prompt : Session -> option string) (w : World) : World :=
  foldl (title_one first_prompt) w (List.filter (candidate_for_title (untitled w)) (values (index w))).

Definition list_sessions (first_prompt : Session -> option string) (w : World) : list Session * World :=
  let w := title_untitled first_prompt w in (values (index w), w).

(** ** Lemmas *)

Lemma index_emit x w : index (emit_session x w) = put (Session.id x) x (index w).
Proof. unfold index, emit_session. by destruct (shared w) as [st out]. Qed.

Lemma index_notify e w : index (notify e w) = index w.
Proof. done. Qed.

Lemma fold_id e s : Session.id (apply_event s e) = Session.id s.
Proof. unfold apply_event. destruct (is_terminal _); [done|]. by destruct (ekind e); repeat case_match. Qed.

Lemma created_id spec : Session.id (from_log spec []) = s_id spec.
Proof. done. Qed.

(** What a resolved spec says. *)
Lemma resolve_create_inv p m st spec : resolve_create p m st = Ok spec ->
  exists project caps mode resumed,
    get (c_project p) (projects st) = Some project /\ Project.sandbox_problem project = None /\
    Project.state project = Project.Ready /\ m_busy m = false /\
    resolve (Harness.default_capabilities ClaudeCode) (Project.sandbox project) home = Ok caps /\
    resume_decision (c_resume p)
      (match c_kind p with Agent => Harness.resume (h_capabilities ClaudeCode) | Shell => ResumeNone end)
      (target_of p st) = Ok (mode, resumed) /\
    m_identity m = None /\
    (exists l h, launch_for (c_kind p) mode project m = Ok (l, h) /\
      spec = mk_spec (m_id m) (Project.id project) h (Project.workspace project) (session_socket (m_id m))
        (Harness.argv l) (Harness.env l) (fst (m_times m)) version resumed (c_kind p) caps).
Proof.
  unfold resolve_create, session_capabilities. intros H.
  destruct (get (c_project p) (projects st)) as [project|]; cbn in H; [|done].
  destruct (Project.sandbox_problem project) eqn:E1; cbn in H; [done|].
  destruct (Project.state project) eqn:E2; cbn in H; try done.
  destruct (m_busy m) eqn:E3; cbn in H; [done|].
  destruct (resolve _ _ _) as [caps|] eqn:E4; cbn in H; [|done].
  destruct (resume_decision _ _ _) as [[mode resumed]|] eqn:E5; cbn in H; [|done].
  destruct (launch_for _ _ _ _) as [[l h]|] eqn:E6; cbn in H; [|done].
  destruct (m_identity m) as [[c t]|] eqn:E7; cbn in H; [done|]. injection H as <-.
  exists project, caps, mode, resumed. repeat (split; [done|]). by exists l, h.
Qed.

(** ** Theorems *)

(** C12. Creating a session fails closed: an error either changed nothing in
    the daemon or leaves the session it announced failed with that very code;
    and a session comes out running only for a ready project with a readable
    profile, no job in flight and a policy that resolves, with that policy in
    the spec the supervisor was given. *)
Theorem create_fails_closed p m w r w' : create p m w = (r, w') ->
  match r with
  | Err e => w' = w \/
      (exists s, get (m_id m) (index w') = Some s /\
         Session.state s = Failed (o_code e) (o_message e) (remediation_for (o_code e)) /\ notified w' = notified w)
  | Ok s => exists project caps spec,
      get (c_project p) (projects (fst (shared w))) = Some project /\ Project.state project = Project.Ready /\
      Project.sandbox_problem project = None /\ m_busy m = false /\
      resolve claude_default_capabilities (Project.sandbox project) home = Ok caps /\
      get (m_id m) (index w') = Some s /\ Session.state s = Running /\ Session.project_id s = Project.id project /\
      store w' = store w ++ [(spec, [])] /\ s_id spec = m_id m /\ capabilities spec = caps /\
      notified w' = notified w ++ [SessionStarted (m_id m) (Project.id project)]
  end.
Proof.
  unfold create. destruct (resolve_create _ _ _) as [spec|e] eqn:E; [|intros [= <- <-]; by left].
  apply resolve_create_inv in E as (project & caps & mode & resumed & H1 & H2 & H3 & H4 & H5 & _ & _ & l & h & _ & ->).
  destruct (m_write m); [intros [= <- <-]; by left|].
  destruct (m_spawn m) as [[pid|code text]|e]; intros [= <- <-].
  - exists project, caps. eexists. repeat (split; [done|]). rewrite index_notify, index_emit, fold_id. cbn [s_id].
    rewrite get_put. repeat split; done.
  - right. eexists. rewrite index_emit, fold_id. cbn [s_id]. rewrite get_put. repeat split; done.
  - right. eexists. rewrite index_emit, fold_id. cbn [s_id]. rewrite get_put. repeat split; done.
Qed.

(** A session never resumes what it must not: a conversation is continued
    only when asked, only by an agent session, and a named one only when the
    daemon knows it and it is not open; with none named it is the project's
    latest ended session, if any. *)
Theorem resume_is_fail_closed p m w s w' : create p m w = (Ok s, w') ->
  (c_resume p = false -> Session.resumed_from s = None) /\
  (c_resume p = true -> c_kind p = Agent /\
     match c_resume_from p with
     | Some id => Session.resumed_from s = Some id /\
         exists old, get id (index w) = Some old /\ is_live (Session.state old) = false
     | None => Session.resumed_from s = latest_terminal (c_project p) (fst (shared w))
     end).
Proof.
  unfold create. destruct (resolve_create _ _ _) as [spec|e] eqn:E; [|done].
  apply resolve_create_inv in E as (project & caps & mode & resumed & _ & _ & _ & _ & _ & Hd & _ & l & h & _ & ->).
  destruct (m_write m); [done|]. destruct (m_spawn m) as [[pid|code text]|e]; try done. intros [= <- _].
  change (Session.resumed_from (apply_event (from_log _ []) _)) with resumed.
  unfold resume_decision, target_of in Hd. destruct (c_resume p); cbn [negb] in Hd; [|by injection Hd as <- <-].
  split; [done|]. intros _. destruct (c_kind p); [|done]. split; [done|].
  change (Harness.resume (h_capabilities ClaudeCode)) with ById in Hd.
  destruct (c_resume_from p) as [id|]; [|by injection Hd as _ <-]. unfold index.
  destruct (get id (sessions (fst (shared w)))) as [old|]; cbn in Hd; [|done].
  destruct (is_live (Session.state old)) eqn:El; [done|]. injection Hd as _ <-. split; [done|]. by exists old.
Qed.

(** A created session's record forgets the sandbox: the supervisor logs
    what it applied before it answers, when no one follows its events, and
    the daemon starts from an empty log and folds only the start; so the
    session shows no mechanism, whatever its log holds. *)
Theorem created_session_lacks_sandbox p m w s w' : create p m w = (Ok s, w') ->
  applied (Session.sandbox s) = [] /\
  exists spec, store w' = store w ++ [(spec, [])] /\
    forall t0 t1 t2 pid mechanisms unavailable,
      applied (Session.sandbox (from_log spec
        [mk_event t0 Created; mk_event t1 (SandboxApplied mechanisms unavailable); mk_event t2 (Started pid)]))
      = mechanisms.
Proof.
  unfold create. destruct (resolve_create _ _ _) as [spec|e] eqn:E; [|done].
  destruct (m_write m); [done|]. destruct (m_spawn m) as [[pid|code text]|e]; try done. intros [= <- <-].
  split; [done|]. by exists spec.
Qed.

Definition store_ids (w : World) : list N := map (fun x => s_id (fst x)) (store w).

Lemma find_spec spec evs l : NoDup (map (fun x : SessionSpec * list SessionEvent => s_id (fst x)) l) -> (spec, evs) ∈ l ->
  List.find (fun x => (s_id (fst x) =? s_id spec)%N) l = Some (spec, evs).
Proof.
  induction l as [|[sp ev] l IH]; [by intros _ ?%elem_of_nil|]. cbn [map fst]. intros [Hn Hd]%NoDup_cons Hin.
  cbn [List.find fst]. apply elem_of_cons in Hin as [[= -> ->]|Hin]; [by rewrite N.eqb_refl|].
  destruct (N.eqb_spec (s_id sp) (s_id spec)) as [He|]; [|by apply IH].
  destruct Hn. rewrite He. apply (list_elem_of_fmap_2 (fun x : SessionSpec * list SessionEvent => s_id (fst x)) l (spec, evs) Hin).
Qed.

Lemma log_id spec evs : Session.id (from_log spec evs) = s_id spec.
Proof.
  unfold from_log. change (s_id spec) with (Session.id (initial spec)). generalize (initial spec).
  induction evs as [|e evs IH]; intros s; [done|]. cbn. by rewrite IH, fold_id.
Qed.

(** What one step of the scan puts in the index: an ended session, or one whose
    supervisor answered. *)
Definition settled_by (probe : string -> option (Z * Z)) (spec : SessionSpec) (s : Session) : Prop :=
  is_terminal (Session.state s) = true \/ (Session.state s = Running /\ probe (socket spec) <> None).

Lemma scan_one_spec probe now spec evs w : NoDup (store_ids w) -> (spec, evs) ∈ store w ->
  exists s, index (scan_one probe now (spec, evs) w) = put (s_id spec) s (index w) /\ settled_by probe spec s /\
    store (scan_one probe now (spec, evs) w) = store w.
Proof.
  intros Hn Hin. unfold scan_one. destruct (is_terminal _) eqn:Et.
  - exists (from_log spec evs). unfold index. destruct (shared w) as [st out]. cbn [fst shared sessions].
    rewrite log_id. split; [done|]. split; [by left|done].
  - destruct (probe (socket spec)) as [[pid n]|] eqn:Ep.
    + eexists. rewrite index_emit. cbn [Session.id]. rewrite log_id. split; [done|]. split; [right; by rewrite Ep|done].
    + unfold finalise_lost. rewrite log_id, (find_spec spec evs) by done. rewrite Et.
      eexists. rewrite index_emit, fold_id, log_id. split; [done|]. split; [left|done].
      rewrite apply_event_terminal. apply orb_true_r.
Qed.

(** C30. The scan leaves no phantom: after it every stored session is in the
    index either ended or running with a supervisor that answered, so a lost
    one never blocks its project. *)
Theorem scan_leaves_no_phantom probe now w spec evs : NoDup (store_ids w) -> (spec, evs) ∈ store w ->
  exists s, get (s_id spec) (index (scan probe now w)) = Some s /\ settled_by probe spec s.
Proof.
  intros Hn Hin. unfold scan.
  assert (H : forall l w0, store w0 = store w -> NoDup (map (fun x => s_id (fst x)) l) -> (forall x, x ∈ l -> x ∈ store w) ->
    forall sp ev, (sp, ev) ∈ l \/ ((sp, ev) ∈ store w /\ (s_id sp ∉ map (fun x => s_id (fst x)) l) /\
        (exists s, get (s_id sp) (index w0) = Some s /\ settled_by probe sp s)) ->
    exists s, get (s_id sp) (index (foldl (fun w x => scan_one probe now x w) w0 l)) = Some s /\ settled_by probe sp s).
  { induction l as [|[sp0 ev0] l IH]; intros w0 Hs Hd Hsub sp ev Hsp; cbn [foldl].
    - destruct Hsp as [Hsp|(_ & _ & Hsp)]; [by apply elem_of_nil in Hsp|done].
    - cbn [map fst] in Hd, Hsp. apply NoDup_cons in Hd as [Hn0 Hd].
      destruct (scan_one_spec probe now sp0 ev0 w0) as (s0 & Hi & Hset & Hst).
      { unfold store_ids. by rewrite Hs. } { rewrite Hs. apply Hsub. left. }
      apply (IH (scan_one probe now (sp0, ev0) w0)) with (ev := ev); [congruence|done|intros x Hx; apply Hsub; by right|]. rewrite Hi.
      destruct Hsp as [Hsp|(Hsp & Hne & Hsp')].
      + apply elem_of_cons in Hsp as [[= -> ->]|Hsp]; [|by left]. right. split; [apply Hsub; left|].
        split; [done|]. exists s0. by rewrite get_put.
      + apply not_elem_of_cons in Hne as [Hne Hnl]. right. split; [done|]. split; [done|]. by rewrite get_put_ne. }
  apply (H (store w) w eq_refl Hn ltac:(done) spec evs). by left.
Qed.

Lemma clean_label_set s now label : is_terminal (Session.state s) = false ->
  (forall l, label = Some l -> trim (trim l) = trim l) ->
  Session.label (apply_event s (mk_event now (Renamed (clean_label label)))) = clean_label label.
Proof.
  intros Ht Hi. unfold apply_event. rewrite Ht. cbn. destruct label as [l|]; [|done]. cbn.
  destruct (is_empty (trim l)) eqn:E; [done|]. unfold blank. by rewrite (Hi l), E.
Qed.

(** A rename is durable before it is shown, and lost on a session that
    ended: it returns the session, with the label in the index and the same
    label from the log the next start folds, while the session has not ended;
    once it has, it still answers success and appends to the log, and the
    label does not change, then or at the next start. *)
Theorem rename_needs_a_live_session now id label w s : get id (index w) = Some s -> Session.id s = id ->
  (forall l, label = Some l -> trim (trim l) = trim l /\ (length (chars (trim l)) <= 120)%nat) ->
  exists s' w', rename now id label None w = (Ok s', w') /\ get id (index w') = Some s' /\
    store w' = append_event id (mk_event now (Renamed (clean_label label))) (store w) /\
    (is_terminal (Session.state s) = false -> Session.label s' = clean_label label) /\
    (is_terminal (Session.state s) = true -> s' = s) /\
    forall spec evs, let evs' := evs ++ [mk_event now (Renamed (clean_label label))] in
      (existsb ends evs = false -> Session.label (from_log spec evs') = clean_label label) /\
      (existsb ends evs = true -> from_log spec evs' = from_log spec evs).
Proof.
  intros Hg Hid Hl. unfold rename, rename_read.
  assert (Hok : match clean_label label with
    | Some l => if (120 <? length (chars l))%nat then
          Err (mk_op "invalid_params" "the label is longer than 120 characters" "shorten the name") else Ok tt
    | None => Ok tt end = Ok tt).
  { destruct label as [l|]; [|done]. unfold clean_label. cbv zeta. destruct (is_empty (trim l)); [done|].
    destruct (Hl l eq_refl) as [_ H]. destruct (Nat.ltb_spec 120 (length (chars (trim l)))); [lia|done]. }
  rewrite Hok, Hg. cbn [ok_or rename_commit]. unfold rename_commit. do 2 eexists. split; [reflexivity|].
  split; [rewrite index_emit, fold_id, Hid; apply get_put|]. split; [done|].
  assert (Hlab : forall s0, is_terminal (Session.state s0) = false ->
    Session.label (apply_event s0 (mk_event now (Renamed (clean_label label)))) = clean_label label)
    by (intros s0 H0; apply clean_label_set; [done|]; intros l El; by apply Hl).
  split; [apply Hlab|]. split; [intros Ht; unfold apply_event; by rewrite Ht|].
  intros spec evs. cbv zeta. unfold from_log. rewrite foldl_app. cbn [foldl].
  pose proof (fold_terminal evs (initial spec)) as Hend. cbn [initial Session.state is_terminal orb] in Hend. split; intros He.
  - apply Hlab. by rewrite Hend.
  - unfold apply_event at 1. by rewrite Hend, He.
Qed.

(** A rename can bring a session back to life: it commits the copy it read,
    so an end folded in between is overwritten and the index shows the session
    live, with its end in the log. *)
Theorem rename_resurrects_ended_session now later_ id label w s code signal :
  get id (index w) = Some s -> Session.id s = id -> is_live (Session.state s) = true -> rename_read id label w = Ok s ->
  let ended := fold_event id (mk_event later_ (EvExited code signal)) w in
  (exists e, get id (index ended) = Some e /\ Session.state e = Exited code signal) /\
  exists back, get id (index (snd (rename_commit now id label None s ended))) = Some back /\
    is_live (Session.state back) = true.
Proof.
  intros Hg Hid Hlive _ ended. split.
  - exists (apply_event s (mk_event later_ (EvExited code signal))). 
    assert (He : ended = emit_session (apply_event s (mk_event later_ (EvExited code signal))) w)
      by (unfold ended, fold_event, current; by rewrite Hg).
    rewrite He, index_emit, fold_id, Hid, get_put. split; [done|].
    unfold apply_event. destruct (Session.state s); try done.
  - eexists. cbn [rename_commit snd]. rewrite index_emit, fold_id, Hid, get_put. split; [done|].
    unfold apply_event. destruct (Session.state s) eqn:E; cbn; try rewrite E; try done.
Qed.
End sessions.

(** ** The readiness reply survives its two relays *)

(** A line that goes through both relays as it is. *)
Definition line_ok (s : string) : Prop :=
  ascii_text s /\ contains_char newline s = false /\ starts_solid s = true /\ ends_solid s = true.

Lemma wait_line s log : line_ok s ->
  handshake_wait (s +:+ String newline EmptyString) log
  = read_ready s ("the supervisor exited before reporting; its log is " +:+ log).
Proof.
  intros (Ha & Hn & Hh & Hl). unfold handshake_wait, first_line, lines. rewrite split_cons by done. cbn [split end_lines is_empty head default].
  rewrite drop_return_solid, trim_solid by done. done.
Qed.

Lemma relay_line s log r : line_ok s -> (forall other, read_ready s other = r) -> print_ready r = s ->
  relayed (s +:+ String newline EmptyString) log = r.
Proof.
  intros Hs Hr Hp. unfold relayed, parse_ready. rewrite wait_line, Hr, Hp by done.
  destruct Hs as (? & _ & ? & ?). rewrite trim_solid by done. apply Hr.
Qed.

Lemma show_digits n : (0 <= n <= u32_max)%Z ->
  str_forallb is_ascii_digit (show_u32 n) = true /\ is_empty (show_u32 n) = false /\
  parse_digits u32_max 0 (show_u32 n) = Some n.
Proof. apply pretty_number. Qed.

(** The code of a failure holds no separator. *)
Fixpoint no_colon (s : string) : bool :=
  match s with EmptyString => true | String a s => negb (bool_decide (a = ":"%char)) && no_colon s end.

Lemma split_once_colon_app c t : no_colon c = true -> split_once_colon (c +:+ ": " +:+ t) = Some (c, t).
Proof.
  induction c as [|a c IH]; [done|]. cbn [no_colon]. intros [Ha Hc]%andb_true_iff.
  apply negb_true_iff, bool_decide_eq_false in Ha. rewrite str_app_cons. cbn [split_once_colon].
  replace (strip_prefix ": " (String a (c +:+ ": " +:+ t))) with (@None string)
    by (cbn; by rewrite decide_False by congruence). by rewrite IH.
Qed.

Lemma replace_keeps_ascii t : ascii_text t -> ascii_text (replace_char newline " " t).
Proof.
  unfold ascii_text, replace_char. induction t as [|a t IH]; [done|]. cbn. intros [Ha Ht]%andb_true_iff.
  rewrite IH by done. case_decide; by rewrite ?Ha.
Qed.

Lemma replace_drops_newlines t : contains_char newline (replace_char newline " " t) = false.
Proof.
  unfold replace_char. induction t as [|a t IH]; [done|]. cbn [str_map]. apply contains_char_false_cons. split; [|done].
  case_decide; [|done]. by intros [=].
Qed.

Lemma replace_ends_solid t : ends_solid t = true -> ends_solid (replace_char newline " " t) = true.
Proof.
  unfold replace_char. induction t as [|a t IH]; [done|]. destruct t as [|b t].
  - cbn. intros H. rewrite decide_False; [done|]. by intros ->.
  - intros H. cbn [str_map] in *. by apply IH.
Qed.

(** The readiness reply survives the handshake pipe and the launcher's
    standard output: the daemon reads the very pid the supervisor reported,
    and a failure's code with its text on one line. *)
Theorem readiness_roundtrip pid c t log :
  (0 <= pid <= u32_max)%Z -> ascii_text c -> ascii_text t -> contains_char newline c = false -> no_colon c = true ->
  ends_solid t = true ->
  relayed (reply_ok pid) log = ReadyOk pid /\
  relayed (reply_fail c t) log = ReadyFail c (replace_char newline " " t).
Proof.
  intros Hp Hc Ht Hn Hcol He. split.
  - destruct (show_digits pid Hp) as (Hd & Hne & Hv). destruct (digits_line _ Hd) as (Ha & Hnl & Hsolid).
    destruct (Hsolid Hne) as (Hss & Hse & Hplus). unfold reply_ok. rewrite str_app_assoc.
    apply relay_line; [|intros other|done].
    + repeat split; [by apply ascii_text_app|by apply contains_char_app|by rewrite ends_solid_app].
    + unfold read_ready. rewrite strip_prefix_app, trim_solid by done. unfold parse_u32, parse_unsigned.
      by rewrite Hplus, Hne, Hv.
  - pose proof (replace_ends_solid t He) as Her. set (t' := replace_char newline " " t) in *.
    assert (is_empty t' = false) by (by destruct t'). unfold reply_fail. fold t'. rewrite !str_app_assoc.
    apply relay_line; [|intros other|by cbn; rewrite !str_app_assoc].
    + repeat split; [..|by rewrite ends_solid_app].
      * repeat apply ascii_text_app; try done. by apply replace_keeps_ascii.
      * repeat apply contains_char_app; try done. apply replace_drops_newlines.
    + rewrite <- !str_app_assoc. unfold read_ready.
      replace (strip_prefix "ok " ("fail " +:+ c +:+ ": " +:+ t')) with (@None string) by done.
      by rewrite strip_prefix_app, split_once_colon_app.
Qed.

(** ** The properties at concrete inputs *)

Definition sample_show (n : N) : string := pretty n.

Definition sample_project : Project :=
  mk_project 7 "app" "app" "/mnt/c/app" "/workspaces/app" "main" Project.Ready true "0" default_profile None.

Definition sample_spec (id : N) : SessionSpec :=
  mk_spec id 7 "claude-code" "/workspaces/app" (session_socket sample_show "/run" id) [] [] "1" "1.0" None Agent default_set.

Definition sample_machine (spawn : result Ready OpError) : Machine :=
  mk_machine false (Some "/home/willie/.local/bin/claude") true None None spawn None 9 ("2", "3").

(** A world whose store holds an ended session, 4, and a running one, 5. *)
Definition sample_world : World :=
  let ended := [mk_event "1" (Started 40); mk_event "2" (EvExited (Some 0%Z) None)] in
  let live := [mk_event "1" (Started 41)] in
  let store := [(sample_spec 4, ended); (sample_spec 5, live)] in
  mk_world (mk_state [(7%N, sample_project)] [] [(4%N, from_log (sample_spec 4) ended); (5%N, from_log (sample_spec 5) live)] 0, [])
    store ∅ [].

Definition sample_create (p : CreateParams) (spawn : result Ready OpError) : result Session OpError * World :=
  create sample_show "/home/willie" "/run" "1.0" p (sample_machine spawn) sample_world.

Definition sample_params : CreateParams := mk_params 7 true None Agent.

Definition created (r : result Session OpError * World) : Session :=
  match fst r with Ok s => s | Err _ => placeholder 0 end.

Definition sample_failed : result Session OpError * World :=
  sample_create sample_params (Ok (ReadyFail "harness_exec_failed" "gone")).

Lemma create_fails_closed_witness :
  fst sample_failed = Err (coded "harness_exec_failed" "gone") /\
  exists s, get 9%N (index (snd sample_failed)) = Some s /\
    Session.state s = Failed "harness_exec_failed" "gone" (remediation_for "harness_exec_failed").
Proof.
  split; [vm_compute; reflexivity|].
  destruct (create_fails_closed sample_show "/home/willie" "/run" "1.0" sample_params
    (sample_machine (Ok (ReadyFail "harness_exec_failed" "gone"))) sample_world
    (Err (coded "harness_exec_failed" "gone")) (snd sample_failed)) as [H|(s & Hs & Hst & _)];
    [vm_compute; reflexivity|..].
  - apply (f_equal (fun w => length (store w))) in H. vm_compute in H. discriminate.
  - exists s. split; [exact Hs|exact Hst].
Defined.

Lemma resume_is_fail_closed_witness :
  Session.resumed_from (created (sample_create sample_params (Ok (ReadyOk 42)))) = Some 4%N.
Proof.
  destruct (resume_is_fail_closed sample_show "/home/willie" "/run" "1.0" sample_params (sample_machine (Ok (ReadyOk 42)))
    sample_world (created (sample_create sample_params (Ok (ReadyOk 42))))
    (snd (sample_create sample_params (Ok (ReadyOk 42))))) as [_ H]; [vm_compute; reflexivity|].
  destruct (H eq_refl) as [_ E]. etransitivity; [exact E|]. vm_compute. reflexivity.
Defined.

Lemma created_session_lacks_sandbox_witness :
  applied (Session.sandbox (created (sample_create sample_params (Ok (ReadyOk 42))))) = [].
Proof.
  apply (created_session_lacks_sandbox sample_show "/home/willie" "/run" "1.0" sample_params
    (sample_machine (Ok (ReadyOk 42))) sample_world _ (snd (sample_create sample_params (Ok (ReadyOk 42))))).
  vm_compute. reflexivity.
Defined.

Lemma scan_leaves_no_phantom_witness :
  exists s, get 5%N (index (scan (fun _ => None) "9" sample_world)) = Some s /\ is_terminal (Session.state s) = true.
Proof.
  destruct (scan_leaves_no_phantom (fun _ => None) "9" sample_world (sample_spec 5) [mk_event "1" (Started 41)])
    as (s & Hs & [Ht|[_ Hp]]).
  - apply (bool_decide_eq_true_1 (NoDup (store_ids sample_world))). vm_compute. reflexivity.
  - apply list_elem_of_further, list_elem_of_here.
  - exists s. split; [exact Hs|exact Ht].
  - destruct Hp. reflexivity.
Defined.

Lemma rename_needs_a_live_session_witness :
  exists s w', rename "9" 4 (Some " notes ") None sample_world = (Ok s, w') /\ Session.label s = None.
Proof.
  destruct (rename_needs_a_live_session "9" 4 (Some " notes ") sample_world
    (from_log (sample_spec 4) [mk_event "1" (Started 40); mk_event "2" (EvExited (Some 0%Z) None)]) eq_refl eq_refl)
    as (s & w' & H & _ & _ & _ & Hs & _).
  - intros l E. injection E as <-. split; [vm_compute; reflexivity|]. vm_compute. repeat constructor.
  - exists s, w'. split; [exact H|]. rewrite (Hs eq_refl). reflexivity.
Defined.

Lemma rename_resurrects_ended_session_witness :
  exists back, get 5%N (index (snd (rename_commit "9" 5 (Some "a") None
      (from_log (sample_spec 5) [mk_event "1" (Started 41)])
      (fold_event 5 (mk_event "8" (EvExited (Some 0%Z) None)) sample_world)))) = Some back /\
    is_live (Session.state back) = true.
Proof.
  apply (rename_resurrects_ended_session "9" "8" 5 (Some "a") sample_world
    (from_log (sample_spec 5) [mk_event "1" (Started 41)]) (Some 0%Z) None); reflexivity.
Defined.

Lemma readiness_roundtrip_witness :
  relayed (reply_ok 4321) "log" = ReadyOk 4321 /\
  relayed (reply_fail "spec_invalid" "no: argv") "log" = ReadyFail "spec_invalid" "no: argv".
Proof. apply (readiness_roundtrip 4321 "spec_invalid" "no: argv" "log"); vm_compute; [split; discriminate|reflexivity..]. Defined.
