(* ===== verification/Effects.v ===== *)
(** * Effects in order

    A computation over a store shared with other threads, processes and the
    user: every effect is recorded with its answer, and before each one
    [others] does whatever they do meanwhile.  [does m P] says what the effects
    and the result of [m] can be, whatever the others do; [keeps J m] says what
    [m] preserves. *)

From S2P Require Import Prelude.

Section effects.
  Context {S C : Type}.

Record World : Type := mk_world { store : S; ticks : nat; calls : list C }.

Definition M (A : Type) : Type := World -> A * World.

Definition ret {A} (a : A) : M A := fun w => (a, w).

Definition bind {A B} (m : M A) (k : A -> M B) : M B := fun w => let '(a, w) := m w in k a w.

(** A computation that may return early. *)
Definition bind_result {X A B} (m : M (result A X)) (k : A -> M (result B X)) : M (result B X) :=
  bind m (fun r => match r with Ok a => k a | Err e => ret (Err e) end).

(** One effect: the others first, then [f], recorded. *)
Definition perform {A} (others : nat -> S -> S) (record : A -> list C) (f : S -> A * S) : M A := fun w =>
  let '(a, s) := f (others (ticks w) (store w)) in
  (a, mk_world s (Datatypes.S (ticks w)) (calls w ++ record a)).

(** ** What a computation does *)

Definition does {A} (m : M A) (P : A -> list C -> Prop) : Prop :=
  forall w, exists l, calls (snd (m w)) = calls w ++ l /\ P (fst (m w)) l.

Lemma does_ret {A} (a : A) (P : A -> list C -> Prop) : P a [] -> does (ret a) P.
Proof. intros H w. exists []. by rewrite app_nil_r. Qed.

Lemma does_ret_bind {A B} (a : A) (k : A -> M B) P : does (k a) P -> does (bind (ret a) k) P.
Proof. intros H w. apply H. Qed.

Lemma does_assoc {A B D} (m : M A) (f : A -> M B) (g : B -> M D) P :
  does (bind m (fun a => bind (f a) g)) P -> does (bind (bind m f) g) P.
Proof. intros H w. specialize (H w). unfold bind in *. by destruct (m w). Qed.

Lemma perform_calls {A} others rec (f : S -> A * S) w :
  calls (snd (perform others rec f w)) = calls w ++ rec (fst (perform others rec f w)).
Proof. unfold perform. by destruct (f _) as [a s]. Qed.

Lemma does_perform {A B} others rec (f : S -> A * S) (k : A -> M B) P :
  (forall a, does (k a) (fun b l => P b (rec a ++ l))) -> does (bind (perform others rec f) k) P.
Proof.
  intros H w. pose proof (perform_calls others rec f w) as Hc. unfold bind. destruct (perform others rec f w) as [a w1].
  cbn in Hc. destruct (H a w1) as (l & Hl & Hp). exists (rec a ++ l). by rewrite Hl, Hc, app_assoc.
Qed.

(** The last effect. *)
Lemma does_last {A} (m : M A) P : does (bind m ret) P -> does m P.
Proof. intros H w. specialize (H w). unfold bind, ret in H. by destruct (m w). Qed.

Lemma does_conseq {A} (m : M A) (P Q : A -> list C -> Prop) : does m P -> (forall a l, P a l -> Q a l) -> does m Q.
Proof. intros H HPQ w. destruct (H w) as (l & Hl & Hp). eauto. Qed.

Lemma does_bind {A B} (m : M A) (k : A -> M B) R P : does m R ->
  (forall a l, R a l -> does (k a) (fun b l' => P b (l ++ l'))) -> does (bind m k) P.
Proof.
  intros Hm Hk w. unfold bind. destruct (Hm w) as (l & Hl & Hr). destruct (m w) as [a w1]. cbn in Hl, Hr.
  destruct (Hk a l Hr w1) as (l' & Hl' & Hp). exists (l ++ l'). by rewrite Hl', Hl, app_assoc.
Qed.

(** *** Loops *)

(** [for a in l { f(a)?; }]. *)
Fixpoint each {X A} (f : A -> M (result unit X)) (l : list A) : M (result unit X) :=
  match l with
  | [] => ret (Ok tt)
  | a :: l => bind_result (f a) (fun _ => each f l)
  end.

(** What every round does, and what a finished round leaves in the trace. *)
Lemma each_does {X A} (f : A -> M (result unit X)) (R : A -> C -> Prop) (D : A -> list C -> Prop) l :
  (forall a l1 l2 l3, D a l2 -> D a (l1 ++ l2 ++ l3)) ->
  (forall a, does (f a) (fun r tr => Forall (R a) tr /\ (is_ok r = true -> D a tr))) ->
  does (each f l) (fun r tr => Forall (fun c => exists a, a ∈ l /\ R a c) tr /\ (is_ok r = true -> Forall (fun a => D a tr) l)).
Proof.
  intros Hmono Hf. induction l as [|a l IH]; cbn [each]; [by apply does_ret|]. unfold bind_result.
  apply (does_bind _ _ _ _ (Hf a)). intros [u|e] tr [Htr Hd].
  - apply (does_conseq _ _ _ IH). intros r tr' [Htr' Hr]. split.
    + apply Forall_app. split; [eapply Forall_impl; [exact Htr|]; intros c Hc; exists a; split; [by left|done]|].
      eapply Forall_impl; [exact Htr'|]. intros c (b & Hb & Hc). exists b. split; [by right|done].
    + intros Hok. constructor; [apply (Hmono a [] tr tr'); by apply Hd|].
      eapply Forall_impl; [by apply Hr|]. intros b Hb. specialize (Hmono b tr tr' []). rewrite app_nil_r in Hmono. auto.
  - apply does_ret. rewrite app_nil_r. split; [|done].
    eapply Forall_impl; [exact Htr|]. intros c Hc. exists a. split; [by left|done].
Qed.

(** What every effect is, and the rounds of a finished loop one after the
    other. *)
Lemma each_concat {X A} (f : A -> M (result unit X)) (Q : C -> Prop) (D : A -> list C -> Prop) l :
  (forall a, does (f a) (fun r tr => Forall Q tr /\ (is_ok r = true -> D a tr))) ->
  does (each f l) (fun r tr => Forall Q tr /\ (is_ok r = true -> exists ls, tr = concat ls /\ Forall2 D l ls)).
Proof.
  intros Hf. induction l as [|a l IH]; cbn [each]; [apply does_ret; split; [done|]; intros _; by exists []|].
  unfold bind_result. apply (does_bind _ _ _ _ (Hf a)). intros [u|e] tr [Htr Hd].
  - apply (does_conseq _ _ _ IH). intros r tr' [Htr' Hr]. split; [by apply Forall_app|]. intros Hok.
    destruct (Hr Hok) as (ls & -> & Hls). exists (tr :: ls). split; [done|]. constructor; [by apply Hd|done].
  - apply does_ret. rewrite app_nil_r. by split.
Qed.

(** ** What a computation keeps *)

Definition keeps {A} (J : World -> Prop) (m : M A) : Prop := forall w, J w -> J (snd (m w)).

Lemma keeps_ret {A} J (a : A) : keeps J (ret a).
Proof. by intros w. Qed.

Lemma keeps_bind {A B} J (m : M A) (k : A -> M B) : keeps J m -> (forall a, keeps J (k a)) -> keeps J (bind m k).
Proof. intros Hm Hk w Hw. unfold bind. specialize (Hm w Hw). destruct (m w) as [a w1]. by apply Hk. Qed.
End effects.

Arguments World : clear implicits.
Arguments M : clear implicits.

(** ** A component's computation among a larger one's

    The same store and the same others; its effects recorded as the larger
    computation records them. *)

Definition lift {S C C' A} (f : C -> C') (m : M S C A) : M S C' A := fun w =>
  let '(a, w') := m (mk_world (store w) (ticks w) []) in
  (a, mk_world (store w') (ticks w') (calls w ++ map f (calls w'))).

Lemma lift_any {S C C' A} (f : C -> C') (m : M S C A) : does (lift f m) (fun _ l => exists l0, l = map f l0).
Proof. intros w. unfold lift. destruct (m _) as [a w']. exists (map f (calls w')). split; [done|]. by exists (calls w'). Qed.

Lemma lift_does {S C C' A} (f : C -> C') (m : M S C A) P :
  does m P -> does (lift f m) (fun a l => exists l0, l = map f l0 /\ P a l0).
Proof.
  intros H w. destruct (H (mk_world (store w) (ticks w) [])) as (l & Hl & Hp). unfold lift.
  destruct (m _) as [a w']. cbn in *. exists (map f l). rewrite Hl. split; [done|]. exists l. by split.
Qed.

Notation "'let*' x ':=' m 'in' k" := (bind m (fun x => k))
  (at level 10, x name, m at level 100, k at level 200) : willie_scope.
Notation "'let!' x ':=' m 'in' k" := (bind_result m (fun x => k))
  (at level 10, x name, m at level 100, k at level 200) : willie_scope.

(** ** Symbolic execution

    [walk1] runs one effect or splits one test of a computation whose helpers
    have been unfolded to effects. *)

Ltac walk1 :=
  cbv beta iota zeta;
  lazymatch goal with
  | |- does (ret _) _ => apply does_ret; cbn [app]
  | |- does (bind (ret _) _) _ => apply does_ret_bind
  | |- does (bind (bind _ _) _) _ => apply does_assoc
  | |- does (bind (perform _ _ _) _) _ => apply does_perform; intros ?
  | |- does (bind (match ?x with _ => _ end) _) _ => destruct x eqn:?
  | |- does (match ?x with _ => _ end) _ => destruct x eqn:?
  | |- does (perform _ _ _) _ => apply does_last
  end.

(** Where an element of an explicit list can be. *)
Ltac in_cases H :=
  lazymatch type of H with
  | _ ∈ [] => by apply elem_of_nil in H
  | _ ∈ _ :: _ => apply elem_of_cons in H as [H|H]; [first [discriminate H|injection H; clear H; intros; subst|clear H]|in_cases H]
  end.
