(* ===== verification/Git.v ===== *)
(** * git

    What crates/willied/src/git.rs and its copy
    crates/willie-plugins/profiles/src/git.rs make of one run of the git
    binary; git itself is outside the source. *)

From S2P Require Import Prelude Text.

Local Open Scope string_scope.
Local Open Scope list_scope.

Record GitError : Type := mk_git_error { g_code : string; g_message : string }.

(** What [Command::output] gives. *)
Inductive Output : Type := NoSpawn (error : string) | Ended (success : bool) (stdout stderr : string).

Definition success (out : Output) : bool := match out with Ended b _ _ => b | NoSpawn _ => false end.

(** The last four lines of the error output. *)
Definition run_result (out : Output) : result string GitError :=
  match out with
  | NoSpawn e => Err (mk_git_error "git_failed" e)
  | Ended true stdout _ => Ok stdout
  | Ended false _ stderr =>
      Err (mk_git_error "git_failed" (join (String newline EmptyString) (rev (take 4 (rev (lines stderr))))))
  end.

Lemma run_ok out s : run_result out = Ok s -> exists err, out = Ended true s err.
Proof. destruct out as [e|[|] o err]; cbn; intros [=]; subst; eauto. Qed.
