(* ===== verification/Projects.v ===== *)
(** * Project operations

    Models crates/willied/src/projects.rs over crates/willied/src/git.rs, with
    the start-up sweep of crates/willied/src/main.rs: the jobs of the five
    operations that run one and the handlers that submit them, renaming, the
    sandbox profile, and the presence of the sources.  [git] and the file
    system are outside the source, hence parameters over an abstract file
    system; every effect of a job is recorded in order, and before each one
    [others] does whatever the other threads and the user do meanwhile. *)

From S2P Require Import Prelude Text BTree Sandbox Session Project Harness DaemonState Jobs Sessions Effects Git.

Local Open Scope string_scope.
Local Open Scope list_scope.
Local Open Scope willie_scope.

(** ** Data *)

(** An effect of the daemon, with its answer. *)
Inductive call : Type :=
| CPoll (tripped : bool)
| CExists (path : string) (there : bool)
| CGit (repo : option string) (args : list string) (out : Output)
| CMakeDir (path : string)
| CRemoveDir (path : string) (error : option string)
| CSave (p : Project) (error : option string)
| CDelete (p : Project)
| CRead (st : State)
| CCommit (p : Project)
| CForget (id : N).

(** ** Text and paths *)

Definition is_separator (a : ascii) : bool := bool_decide (a = backslash) || bool_decide (a = "/"%char).

Fixpoint trim_separators (s : string) : string :=
  match s with
  | EmptyString => EmptyString
  | String a s =>
      match trim_separators s with
      | EmptyString => if is_separator a then EmptyString else String a EmptyString
      | t => String a t
      end
  end.

Fixpoint has_separator (s : string) : bool :=
  match s with EmptyString => false | String a s => is_separator a || has_separator s end.

(** [rsplit(..).next()]. *)
Fixpoint last_piece (s : string) : string :=
  match s with
  | EmptyString => EmptyString
  | String _ t => if has_separator s then last_piece t else s
  end.

Definition folder_name (windows_path : string) : string := last_piece (trim_separators windows_path).

Definition source_to_linux (source : string) : option string :=
  match source with
  | String _ (String ":" _) => windows_to_drvfs source
  | String "/" _ => Some source
  | _ => None
  end.

(** ** Errors *)

Definition git_remediation_for (code : string) : string :=
  if bool_decide (code = "source_detached_head") then
    "check out a branch in the Windows checkout, then add again"
  else "check git's output and try again".

Definition git_err_to_op (e : GitError) : OpError := mk_op (g_code e) (g_message e) (git_remediation_for (g_code e)).

Definition git_err_outcome (e : GitError) : triple := (g_code e, g_message e, git_remediation_for (g_code e)).

Definition refuse (code message remediation : string) : triple := (code, message, remediation).

Definition path_not_windows_err (windows_path : string) : OpError :=
  mk_op "path_not_windows" ("`" +:+ windows_path +:+ "` is not a path on a Windows drive")
    "register a path on a Windows drive".

Definition not_a_git_repository_err (windows_path : string) : OpError :=
  mk_op "not_a_git_repository" ("`" +:+ windows_path +:+ "` is not a git repository")
    "run `git init` and a first commit in the folder, then add again".

Definition source_no_commits_err : OpError :=
  mk_op "source_no_commits" "the checkout has no commits yet"
    "make the first commit in this checkout, then add it again".

Definition interrupted (kind : JobKind) : triple :=
  ("interrupted", "the job was interrupted before it finished",
   match kind with Add => "remove the project and add it again" | _ => "retry the operation" end).

Definition failed (t : triple) : ProjectState := let '(c, m, r) := t in ProjFailed c m r.

(** *** Updates in place *)

Definition with_state (st : ProjectState) (p : Project) : Project :=
  mk_project (Project.id p) (Project.name p) (slug p) (Project.source p) (Project.workspace p) (branch p) st
    (source_present p) (Project.created_at p) (Project.sandbox p) (Project.sandbox_problem p).

Definition with_source (source : string) (p : Project) : Project :=
  mk_project (Project.id p) (Project.name p) (slug p) source (Project.workspace p) (branch p) (Project.state p)
    true (Project.created_at p) (Project.sandbox p) (Project.sandbox_problem p).

Definition with_present (present : bool) (p : Project) : Project :=
  mk_project (Project.id p) (Project.name p) (slug p) (Project.source p) (Project.workspace p) (branch p)
    (Project.state p) present (Project.created_at p) (Project.sandbox p) (Project.sandbox_problem p).

Definition with_name (name : string) (p : Project) : Project :=
  mk_project (Project.id p) name (slug p) (Project.source p) (Project.workspace p) (branch p) (Project.state p)
    (source_present p) (Project.created_at p) (Project.sandbox p) (Project.sandbox_problem p).

Definition with_profile (profile : SandboxProfile) (p : Project) : Project :=
  mk_project (Project.id p) (Project.name p) (slug p) (Project.source p) (Project.workspace p) (branch p)
    (Project.state p) (source_present p) (Project.created_at p) profile None.

(** ** Effects *)

Section projects.
  Context {FS : Type}.
  Context (git : option string -> list string -> FS -> Output * FS).
  Context (path_exists : string -> FS -> bool) (make_dir : string -> FS -> FS).
  Context (remove_dir_all : string -> FS -> option string * FS).
  Context (save_record : Project -> FS -> option string * FS) (delete_record : N -> FS -> FS).
  (** What happens before the n-th effect, and whether the job's flag is
      tripped by then. *)
  Context (others : nat -> FS * Shared -> FS * Shared) (tripped : nat -> bool).

Definition World : Type := Effects.World (FS * Shared) call.

Definition shared (w : World) : Shared := snd (store w).

Definition M (A : Type) : Type := Effects.M (FS * Shared) call A.

(** A computation that may return early with an outcome. *)
Definition E (A : Type) : Type := M (result A triple).

Definition on_fs {A} (record : A -> call) (f : FS -> A * FS) : M A :=
  perform others (fun a => [record a]) (fun s => let '(a, fs) := f (fst s) in (a, (fs, snd s))).

Definition read_state : M State := perform others (fun st => [CRead st]) (fun s => (fst (snd s), s)).

Definition is_cancelled : M bool := fun w => on_fs CPoll (fun fs => (tripped (ticks w), fs)) w.

Definition exists_ (path : string) : M bool := on_fs (CExists path) (fun fs => (path_exists path fs, fs)).

Definition git_output (repo : option string) (args : list string) : M Output := on_fs (CGit repo args) (git repo args).

Definition create_dir_all (path : string) : M unit := on_fs (fun _ => CMakeDir path) (fun fs => (tt, make_dir path fs)).

Definition remove_dir (path : string) : M (option string) := on_fs (CRemoveDir path) (remove_dir_all path).

Definition save (p : Project) : M (option string) := on_fs (CSave p) (save_record p).

Definition delete_or_log (p : Project) : M unit :=
  on_fs (fun _ => CDelete p) (fun fs => (tt, delete_record (Project.id p) fs)).

Definition emit_project (p : Project) : M unit :=
  perform others (fun _ => [CCommit p]) (fun s => (tt, (fst s, emit (upsert_project p) (snd s)))).

Definition emit_removed (id : N) : M unit :=
  perform others (fun _ => [CForget id]) (fun s => (tt, (fst s, emit (remove_project id) (snd s)))).

(** ** git *)

Definition run (repo : string) (args : list string) : M (result string GitError) :=
  let* out := git_output (Some repo) args in ret (run_result out).

Definition is_repo (path : string) : M bool := exists_ (path_join path ".git").

Definition current_branch (repo : string) : M (result string GitError) :=
  let* r := run repo ["symbolic-ref"; "--short"; "HEAD"] in
  ret (match r with
       | Ok out => Ok (trim out)
       | Err _ => Err (mk_git_error "source_detached_head" "the checkout is on a detached HEAD; check out a branch first")
       end).

Definition has_commits (repo : string) : M bool :=
  let* out := git_output (Some repo) ["rev-parse"; "--verify"; "--quiet"; "HEAD"] in ret (success out).

Definition is_clean (repo : string) : M (result bool GitError) :=
  let* r := run repo ["status"; "--porcelain"] in
  ret (match r with Ok out => Ok (is_empty (trim out)) | Err e => Err e end).

Definition clone (src dst : string) : M (result string GitError) :=
  let* out := git_output None ["clone"; "--"; src; dst] in
  ret (match out with
       | NoSpawn e => Err (mk_git_error "git_failed" e)
       | Ended ok stdout stderr => if ok then Ok (stdout +:+ stderr) else Err (mk_git_error "git_failed" (stdout +:+ stderr))
       end).

Definition head_contains (repo commit : string) : M bool :=
  let* out := git_output (Some repo) ["merge-base"; "--is-ancestor"; commit; "HEAD"] in ret (success out).

(** ** What the jobs share *)

(** [save_or_log] drops the write's error. *)
Definition update_project (p : Project) : M unit :=
  let* _ := save p in emit_project p.

Definition mark_ready (p : Project) : M unit := update_project (with_state Project.Ready p).

Definition add_fail (p : Project) (e : GitError) : M triple :=
  let* _ := update_project (with_state (failed (git_err_outcome e)) p) in ret (git_err_outcome e).

Definition check_cancelled (kind : JobKind) (p : Project) : E unit :=
  let* c := is_cancelled in
  if c then let* _ := update_project (with_state (failed (interrupted kind)) p) in ret (Err (interrupted kind))
  else ret (Ok tt).

(** [map_err] with [add_fail], and with [git_err_outcome]. *)
Definition or_add_fail {A} (p : Project) (m : M (result A GitError)) : E A :=
  let* r := m in
  match r with
  | Ok a => ret (Ok a)
  | Err e => let* t := add_fail p e in ret (Err t)
  end.

Definition or_outcome {A} (m : M (result A GitError)) : E A :=
  let* r := m in ret (map_err git_err_outcome r).

Definition stop_if {A} (b : bool) (t : triple) (k : E A) : E A := if b then ret (Err t) else k.

(** ** The jobs *)

Fixpoint copy_remotes (src workspace : string) (p : Project) (names : list string) : E unit :=
  match names with
  | [] => ret (Ok tt)
  | name :: names =>
      let! url := or_add_fail p (run src ["remote"; "get-url"; name]) in
      let! _ := or_add_fail p (run workspace ["remote"; "add"; name; trim url]) in
      copy_remotes src workspace p names
  end.

Definition other_remotes (listed : string) : list string :=
  List.filter (fun n => negb (is_empty n) && negb (bool_decide (n = "origin"))) (map trim (lines listed)).

Definition run_add (src workspace : string) (p : Project) : E string :=
  let! _ := check_cancelled Add p in
  let! log := or_add_fail p (clone src workspace) in
  let! _ := check_cancelled Add p in
  let! _ := or_add_fail p (run workspace ["remote"; "rename"; "origin"; "windows"]) in
  let! remotes := or_add_fail p (run src ["remote"]) in
  let! _ := copy_remotes src workspace p (other_remotes remotes) in
  let! _ := check_cancelled Add p in
  let! _ := or_add_fail p (run workspace ["config"; "core.autocrlf"; "false"]) in
  let! _ := or_add_fail p (run src ["config"; "receive.denyCurrentBranch"; "updateInstead"]) in
  let! _ := check_cancelled Add p in
  let* _ := mark_ready p in
  ret (Ok log).

Definition source_missing : triple :=
  refuse "source_missing" "the Windows checkout is missing" "relocate the project to a checkout that still exists".

Definition count_of (out : string) : Z := default 0%Z (parse_unsigned u64_max (trim out)).

Definition run_sync (src workspace branch : string) (p : Project) : E string :=
  let! _ := check_cancelled SyncToWindows p in
  let* there := is_repo src in
  stop_if (negb there) source_missing (
  let! clean := or_outcome (is_clean src) in
  stop_if (negb clean) (refuse "windows_tree_dirty" "the Windows checkout has uncommitted changes"
    "commit or discard the changes in the Windows checkout, then try again") (
  let! current := or_outcome (run src ["rev-parse"; "--abbrev-ref"; "HEAD"]) in
  stop_if (negb (bool_decide (trim current = branch))) (refuse "windows_branch_mismatch"
    ("the Windows checkout is on `" +:+ trim current +:+ "`, the project's branch is `" +:+ branch +:+ "`")
    "check out the project's branch in the Windows checkout, then try again") (
  let! _ := check_cancelled SyncToWindows p in
  let! _ := or_outcome (run workspace ["fetch"; "windows"]) in
  let! ahead := or_outcome (run workspace ["rev-list"; "--count"; "windows/" +:+ branch; "^HEAD"]) in
  stop_if (0 <? count_of ahead)%Z (refuse "windows_diverged"
    "the Windows checkout has commits the workspace does not"
    "click Update from Windows first, then Send to Windows again") (
  let! _ := check_cancelled SyncToWindows p in
  or_outcome (run workspace ["push"; "windows"; "HEAD:" +:+ branch]))))).

Definition is_ancestor (workspace old new : string) : M bool :=
  let* r := run workspace ["merge-base"; "--is-ancestor"; old; new] in ret (is_ok r).

Definition run_update (src workspace branch : string) (p : Project) : E string :=
  let! _ := check_cancelled UpdateFromWindows p in
  let* there := is_repo src in
  stop_if (negb there) source_missing (
  let! _ := or_outcome (run workspace ["fetch"; "windows"]) in
  let! _ := check_cancelled UpdateFromWindows p in
  let ff_ref := "windows/" +:+ branch in
  let* behind := is_ancestor workspace "HEAD" ff_ref in
  let* diverged := if behind then ret false else let* ahead := is_ancestor workspace ff_ref "HEAD" in ret (negb ahead) in
  stop_if diverged (refuse "workspace_diverged" "the workspace has commits the Windows checkout does not"
    "the workspace and the Windows checkout have both moved; reconcile them (rebase or merge in a terminal), then sync") (
  or_outcome (run workspace ["merge"; "--ff-only"; ff_ref]))).

Definition run_remove (workspace : string) (delete_workspace force : bool) (p : Project) : E string :=
  let! _ := check_cancelled Remove p in
  let! clean := if delete_workspace && negb force then or_outcome (is_clean workspace) else ret (Ok true) in
  stop_if (negb clean) (refuse "workspace_dirty" "the workspace has uncommitted changes"
    "commit or discard the workspace's changes, or remove with force") (
  let! _ := check_cancelled Remove p in
  let! _ :=
    if delete_workspace then
      let* e := remove_dir workspace in
      ret (match e with
           | Some e => Err (refuse "git_failed" e "check the daemon's permissions on the workspace and try again")
           | None => Ok tt
           end)
    else ret (Ok tt) in
  let* _ := delete_or_log p in
  let* _ := emit_removed (Project.id p) in
  ret (Ok EmptyString)).

Definition run_relocate (workspace new_src new_windows_path : string) (p : Project) : E string :=
  let! _ := check_cancelled Relocate p in
  let! head := or_outcome (run workspace ["rev-parse"; "HEAD"]) in
  let* related := head_contains new_src (trim head) in
  stop_if (negb related) (refuse "source_unrelated"
    "the new checkout's history does not contain the workspace's current commit"
    "point relocate at a checkout that shares history with the workspace") (
  let! _ := check_cancelled Relocate p in
  let! _ := or_outcome (run workspace ["remote"; "set-url"; "windows"; new_src]) in
  let* _ := update_project (with_source new_windows_path p) in
  ret (Ok EmptyString)).

(** ** The operations *)

(** A job's closure, with what it captured. *)
Inductive Work : Type :=
| WAdd (src workspace : string) (p : Project)
| WSync (src workspace branch : string) (p : Project)
| WUpdate (src workspace branch : string) (p : Project)
| WRemove (workspace : string) (delete_workspace force : bool) (p : Project)
| WRelocate (workspace new_src new_windows_path : string) (p : Project).

Definition run_work (k : Work) : E string :=
  match k with
  | WAdd src ws p => run_add src ws p
  | WSync src ws b p => run_sync src ws b p
  | WUpdate src ws b p => run_update src ws b p
  | WRemove ws d f p => run_remove ws d f p
  | WRelocate ws src path p => run_relocate ws src path p
  end.

Definition kind_of (k : Work) : JobKind :=
  match k with
  | WAdd _ _ _ => Add | WSync _ _ _ _ => SyncToWindows | WUpdate _ _ _ _ => UpdateFromWindows
  | WRemove _ _ _ _ => Remove | WRelocate _ _ _ _ => Relocate
  end.

(** What a handler hands the runner: the project and the work. *)
Definition Op (A : Type) : Type := M (result A OpError).

Definition require {A} (b : bool) (e : OpError) (k : Op A) : Op A := if b then k else ret (Err e).

(** [runner.submit] refuses a busy project. *)
Definition submit (busy : bool) (id : N) (k : Work) : Op (N * Work) :=
  ret (if busy then Err busy_err else Ok (id, k)).

Context (show : N -> string) (to_lowercase : string -> string) (home workspaces_dir : string).

Definition get_project (id : N) : Op Project :=
  let* st := read_state in ret (ok_or (not_found_err show id) (get id (projects st))).

Definition linux_source (windows_path : string) : Op string :=
  ret (ok_or (path_not_windows_err windows_path) (source_to_linux windows_path)).

Definition registered (windows_path : string) (st : State) : bool :=
  existsb (fun p => bool_decide (source_key to_lowercase (Project.source p) = source_key to_lowercase windows_path))
    (values (projects st)).

Definition new_project (id : N) (name : option string) (slug source workspace branch now : string) : Project :=
  mk_project id (default (folder_name source) name) slug source workspace branch Preparing true now default_profile None.

(** [slug_for] ends ([slug_for_fresh]); its fuel shows as an option. *)
Definition add (id : N) (now : string) (busy : bool) (windows_path : string) (name : option string) : Op (N * Work) :=
  let! src := linux_source windows_path in
  let* there := is_repo src in
  require there (not_a_git_repository_err windows_path) (
  let* born := has_commits src in
  require born source_no_commits_err (
  let* st := read_state in
  require (negb (registered windows_path st)) (mk_op "project_exists"
    ("`" +:+ windows_path +:+ "` is already registered") "this checkout is already registered as a project") (
  let* b := current_branch src in
  let! branch := ret (map_err git_err_to_op b) in
  let* st := read_state in
  match slug_for (folder_name windows_path) (map slug (values (projects st))) with
  | None => ret (Err busy_err)
  | Some slug =>
      let* _ := create_dir_all workspaces_dir in
      let workspace := path_join workspaces_dir slug in
      let* taken := exists_ workspace in
      require (negb taken) (mk_op "workspace_exists" ("workspace `" +:+ workspace +:+ "` already exists")
        ("delete that directory inside the distribution (`rm -rf " +:+ workspace +:+ "`), moving it aside first if it still holds work you want, then add the checkout again")) (
      let project := new_project id name slug windows_path workspace branch now in
      let* _ := update_project project in
      submit busy id (WAdd src workspace project))
  end))).

Definition sync_to_windows (busy : bool) (id : N) : Op (N * Work) :=
  let! p := get_project id in
  let! src := linux_source (Project.source p) in
  submit busy id (WSync src (Project.workspace p) (branch p) p).

Definition update_from_windows (busy : bool) (id : N) : Op (N * Work) :=
  let! p := get_project id in
  let! src := linux_source (Project.source p) in
  submit busy id (WUpdate src (Project.workspace p) (branch p) p).

Definition remove (busy : bool) (id : N) (delete_workspace force : bool) : Op (N * Work) :=
  let! p := get_project id in
  let* st := read_state in
  require (bool_decide (live_session_ids_for id st = []))
    (mk_op "sessions_running" "the project has a running session" (remediation_for "sessions_running")) (
  submit busy id (WRemove (Project.workspace p) delete_workspace force p)).

Definition relocate (busy : bool) (id : N) (windows_path : string) : Op (N * Work) :=
  let! p := get_project id in
  let! src := linux_source windows_path in
  let* there := is_repo src in
  require there (not_a_git_repository_err windows_path) (
  submit busy id (WRelocate (Project.workspace p) src windows_path p)).

(** The edit both [rename] and [set_sandbox] persist before they show it. *)
Definition store_edit (p : Project) : Op Project :=
  let* e := save p in
  match e with
  | Some e => ret (Err (mk_op "state_write_failed" e "check the daemon's state directory permissions and try again"))
  | None => let* _ := emit_project p in ret (Ok p)
  end.

Definition rename (id : N) (name : string) : Op Project :=
  let! p := get_project id in store_edit (with_name name p).

Definition set_sandbox (id : N) (profile : SandboxProfile) : Op Project :=
  let! p := get_project id in
  let! _ := ret (map_err from_capability (resolve (Harness.default_capabilities ClaudeCode) profile home)) in
  store_edit (with_profile profile p).

(** *** The presence of the sources *)

Definition snapshot_sources (st : State) : list (N * string) :=
  map (fun x => (fst x, Project.source (snd x))) (projects st).

Fixpoint compute_presence (sources : list (N * string)) : M (list (N * string * bool)) :=
  match sources with
  | [] => ret []
  | (id, source) :: sources =>
      let* present := match source_to_linux source with Some linux => is_repo linux | None => ret false end in
      let* rest := compute_presence sources in
      ret ((id, source, present) :: rest)
  end.

Definition apply_one (st : State) (x : N * string * bool) : State :=
  let '(id, source, present) := x in
  mk_state
    (adjust (fun p => if bool_decide (Project.source p = source) then with_present present p else p) id (projects st))
    (jobs st) (sessions st) (seq st).

Definition apply_presence (presence : list (N * string * bool)) : M unit :=
  perform others (fun _ => []) (fun s => (tt, (fst s, (foldl apply_one (fst (snd s)) presence, snd (snd s))))).

Definition refresh_source_present : M unit :=
  let* st := read_state in
  let* presence := compute_presence (snapshot_sources st) in
  apply_presence presence.

(** The sweep at start: no event is sent. *)
Definition interrupt_one (p : Project) : Project :=
  match Project.state p with
  | Preparing =>
      with_state (ProjFailed "interrupted" "the daemon stopped before the operation finished"
        "remove the project and add it again") p
  | _ => p
  end.

Definition interrupt_preparing (st : State) : State :=
  mk_state (map (fun x => (fst x, interrupt_one (snd x))) (projects st)) (jobs st) (sessions st) (seq st).

(** ** What a job does *)

Lemma does_poll {B} (k : bool -> M B) P :
  (forall c, does (k c) (fun b l => P b (CPoll c :: l))) -> does (bind is_cancelled k) P.
Proof. intros H w. exact (does_perform others (fun a => [CPoll a]) (fun s => (tripped (ticks w), (fst s, snd s))) k P H w). Qed.

(** Symbolic execution of a computation, to its effects on each path. *)
Ltac open_effects :=
  unfold run_work, run_add, run_sync, run_update, run_remove, run_relocate, check_cancelled, or_add_fail, or_outcome,
    is_clean, is_ancestor, head_contains, has_commits, current_branch, clone, run, is_repo, stop_if, require,
    mark_ready, add_fail, update_project, exists_, git_output, create_dir_all, remove_dir, save, delete_or_log,
    emit_project, emit_removed, bind_result, source_missing.

Ltac walk :=
  open_effects; repeat first
  [ cbv beta iota zeta;
    lazymatch goal with
    | |- does (bind is_cancelled _) _ => apply does_poll; intros ?
    | |- does (bind (on_fs _ _) _) _ => apply does_perform; intros ?
    | |- does (on_fs _ _) _ => apply does_last
    end
  | walk1 ].

(** A command that succeeded, with its output. *)
Definition answered (l : list call) (repo : string) (args : list string) (out : string) : Prop :=
  exists err, CGit (Some repo) args (Ended true out err) ∈ l.

Definition sync_queries (src workspace branch : string) : list (string * list string) :=
  [(src, ["status"; "--porcelain"]); (src, ["rev-parse"; "--abbrev-ref"; "HEAD"]); (workspace, ["fetch"; "windows"]);
   (workspace, ["rev-list"; "--count"; "windows/" +:+ branch; "^HEAD"])].

Lemma map_err_ok {X Y Z} (f : Y -> Z) (r : result X Y) a : map_err f r = Ok a -> r = Ok a.
Proof. destruct r; cbn; intros [=]; by subst. Qed.

Lemma clean_ok out b : (let? s := run_result out in Ok (is_empty (trim s))) = @Ok _ GitError b ->
  exists s, run_result out = Ok s /\ b = is_empty (trim s).
Proof. destruct (run_result out); cbn; intros [=]; subst; eauto. Qed.

Lemma is_empty_true s : is_empty s = true -> s = EmptyString.
Proof. by destruct s. Qed.

(** What the answers on a path were. *)
Ltac answers :=
  repeat match goal with
  | H : map_err _ _ = Ok _ |- _ => apply map_err_ok in H
  | H : (match run_result _ with Ok _ => _ | Err _ => _ end) = Ok _ |- _ => apply clean_ok in H as (? & H & ->)
  | H : run_result _ = Ok _ |- _ => apply run_ok in H as [? ->]
  | H : (match ?e with Some _ => Err _ | None => Ok _ end) = Ok _ |- _ => destruct e; [discriminate H|clear H]
  | H : negb _ = false |- _ => apply negb_false_iff in H
  | H : bool_decide _ = true |- _ => apply bool_decide_eq_true in H
  | H : is_empty _ = true |- _ => apply is_empty_true in H
  | H : _ = true |- _ => progress subst
  | H : _ = false |- _ => progress subst
  end.

(** A property the effects of a job keep. *)
Record job_invariant (J : World -> Prop) : Prop := {
  keeps_fs : forall A (rec : A -> call) f, (forall a, match rec a with CCommit _ | CForget _ => False | _ => True end) ->
    keeps J (on_fs rec f);
  keeps_emit : forall p, keeps J (emit_project p);
  keeps_removed : forall id, keeps J (emit_removed id)
}.

Ltac keep_effects :=
  repeat first
  [ apply keeps_ret
  | apply keeps_bind; [|intros ?]
  | match goal with
    | H : job_invariant ?J |- keeps ?J (emit_project _) => apply (keeps_emit J H)
    | H : job_invariant ?J |- keeps ?J (emit_removed _) => apply (keeps_removed J H)
    | H : job_invariant ?J |- keeps ?J (on_fs _ _) => apply (keeps_fs J H); done
    | H : job_invariant ?J |- keeps ?J is_cancelled => intros ?; apply (keeps_fs J H); done
    | H : keeps ?J ?m |- keeps ?J ?m => exact H
    | |- keeps _ (match ?x with _ => _ end) => destruct x
    end ].

Lemma keeps_copy J src ws p names : job_invariant J -> keeps J (copy_remotes src ws p names).
Proof.
  intros HJ. induction names as [|n names IH]; cbn [copy_remotes]; [apply keeps_ret|].
  unfold bind_result, or_add_fail, run, git_output, add_fail, update_project, save. keep_effects.
Qed.

Lemma keeps_job J k : job_invariant J -> keeps J (run_work k).
Proof.
  intros HJ. pose proof (fun src ws p names => keeps_copy J src ws p names HJ) as Hc.
  destruct k; unfold run_work, run_add, run_sync, run_update, run_remove, run_relocate, check_cancelled, or_add_fail,
    or_outcome, is_clean, is_ancestor, head_contains, clone, run, is_repo, stop_if, mark_ready, add_fail,
    update_project, exists_, git_output, remove_dir, save, delete_or_log, bind_result; cbv zeta; keep_effects; apply Hc.
Qed.

(** The index agrees with the last thing a job committed. *)
Definition word (c : call) (st : State) : Prop :=
  match c with
  | CCommit p => get (Project.id p) (projects st) = Some p
  | CForget id => get id (projects st) = None
  | _ => True
  end.

Definition told (w : World) : Prop :=
  match last (calls w) with Some c => word c (fst (shared w)) | None => True end.

Lemma told_invariant : job_invariant told.
Proof.
  split.
  - intros A rec f Hr w _. unfold told, on_fs, perform. destruct (f (fst (others _ _))) as [a fs1].
    cbn. rewrite last_snoc. specialize (Hr a). by destruct (rec a).
  - intros p w _. unfold told, emit_project, perform. destruct (others _ _) as [fs0 [st out]]. cbn. rewrite last_snoc.
    cbn. apply get_put.
  - intros id w _. unfold told, emit_removed, perform. destruct (others _ _) as [fs0 [st out]]. cbn. rewrite last_snoc.
    cbn. apply get_remove.
Qed.

(** With no one else about, the state is what the job committed. *)
Definition apply_call (sh : Shared) (c : call) : Shared :=
  match c with
  | CCommit p => emit (upsert_project p) sh
  | CForget id => emit (remove_project id) sh
  | _ => sh
  end.

Lemma quiet_invariant sh0 : (forall n x, others n x = x) ->
  job_invariant (fun w => shared w = foldl apply_call sh0 (calls w)).
Proof.
  intros Hq. split.
  - intros A rec f Hr w Hw. unfold on_fs, perform. rewrite Hq. destruct (f (fst (store w))) as [a fs1]. cbn.
    rewrite foldl_snoc, <- Hw. specialize (Hr a). by destruct (rec a).
  - intros p w Hw. unfold emit_project, perform. rewrite Hq. cbn. by rewrite foldl_snoc, <- Hw.
  - intros id w Hw. unfold emit_removed, perform. rewrite Hq. cbn. by rewrite foldl_snoc, <- Hw.
Qed.

(** What a synchronisation does before it pushes. *)
Definition sync_prelude (src workspace branch : string) (p : Project) (c : call) : Prop :=
  match c with
  | CPoll _ => True
  | CExists path _ => path = path_join src ".git"
  | CGit (Some repo) args _ => (repo, args) ∈ sync_queries src workspace branch
  | CSave q _ | CCommit q => q = with_state (failed (interrupted SyncToWindows)) p
  | _ => False
  end.

(** Tell the paths that run the last command from those that stop before. *)
Ltac split_last verb :=
  lazymatch goal with
  | |- exists before pushed, ?l = _ /\ _ =>
      lazymatch l with
      | context [CGit _ (verb :: _) _] => exists (removelast l), [default (CPoll true) (last l)]
      | _ => exists l, []; rewrite app_nil_r
      end
  end.

(** C14. A synchronisation pushes only what it checked: whatever the others do
    meanwhile, all it asks before a push is read-only but for the fetch, a
    push comes last, and then the Windows checkout was there, reported clean
    and on the project's branch, was fetched, and counted no commit the
    workspace lacks; without a push the job fails. *)
Theorem sync_pushes_only_what_it_checked src workspace branch p :
  does (run_sync src workspace branch p) (fun r l =>
    exists before pushed, l = before ++ pushed /\ Forall (sync_prelude src workspace branch p) before /\
      ((pushed = [] /\ is_ok r = false) \/
       exists out s b f a,
         pushed = [CGit (Some workspace) ["push"; "windows"; "HEAD:" +:+ branch] out] /\
         r = map_err git_err_outcome (run_result out) /\
         CExists (path_join src ".git") true ∈ before /\
         answered before src ["status"; "--porcelain"] s /\ trim s = EmptyString /\
         answered before src ["rev-parse"; "--abbrev-ref"; "HEAD"] b /\ trim b = branch /\
         answered before workspace ["fetch"; "windows"] f /\
         answered before workspace ["rev-list"; "--count"; "windows/" +:+ branch; "^HEAD"] a /\
         (count_of a <= 0)%Z)).
Proof.
  walk. all: split_last "push".
  all: split; [reflexivity|]; split; [cbn [removelast]; repeat constructor; unfold sync_queries; in_list|].
  all: try (left; split; reflexivity).
  right. answers. do 5 eexists. split; [reflexivity|]. split; [reflexivity|]. cbn [removelast].
  split; [in_list|]. repeat (split; [first [eexists; in_list|assumption|eassumption|reflexivity]|]). lia.
Qed.

Definition update_queries (workspace branch : string) : list (list string) :=
  [["fetch"; "windows"]; ["merge-base"; "--is-ancestor"; "HEAD"; "windows/" +:+ branch];
   ["merge-base"; "--is-ancestor"; "windows/" +:+ branch; "HEAD"]].

Definition update_prelude (src workspace branch : string) (p : Project) (c : call) : Prop :=
  match c with
  | CPoll _ => True
  | CExists path _ => path = path_join src ".git"
  | CGit (Some repo) args _ => repo = workspace /\ args ∈ update_queries workspace branch
  | CSave q _ | CCommit q => q = with_state (failed (interrupted UpdateFromWindows)) p
  | _ => False
  end.

(** An update only fast-forwards: no git command runs in the Windows
    checkout, the workspace's branch is moved by nothing but a last merge that
    only fast-forwards, and that runs when one side's tip, once fetched, is an
    ancestor of the other's. *)
Theorem update_only_fast_forwards src workspace branch p :
  does (run_update src workspace branch p) (fun r l =>
    exists before pushed, l = before ++ pushed /\ Forall (update_prelude src workspace branch p) before /\
      ((pushed = [] /\ is_ok r = false) \/
       exists out f a,
         pushed = [CGit (Some workspace) ["merge"; "--ff-only"; "windows/" +:+ branch] out] /\
         r = map_err git_err_outcome (run_result out) /\
         CExists (path_join src ".git") true ∈ before /\
         answered before workspace ["fetch"; "windows"] f /\
         (answered before workspace ["merge-base"; "--is-ancestor"; "HEAD"; "windows/" +:+ branch] a \/
          answered before workspace ["merge-base"; "--is-ancestor"; "windows/" +:+ branch; "HEAD"] a))).
Proof.
  walk. all: split_last "merge".
  all: split; [reflexivity|]; split; [cbn [removelast]; repeat constructor; unfold update_queries; in_list|].
  all: try (left; split; reflexivity).
  all: right; answers.
  all: repeat match goal with H : is_ok (run_result ?o) = true |- _ =>
         let E := fresh in destruct (run_result o) eqn:E; [|discriminate H]; apply run_ok in E as [? ->] end.
  all: do 3 eexists; split; [reflexivity|]; split; [reflexivity|]; cbn [removelast].
  all: split; [in_list|]; split; [eexists; in_list|].
  all: first [left; eexists; solve [in_list]|right; eexists; solve [in_list]].
Qed.

(** C15. A removal deletes only the workspace, only when asked to, and only when
    forced or after the workspace reported itself clean; the job forgets the
    project exactly when it succeeds, after the deletion it was asked for. *)
Theorem remove_deletes_only_clean workspace delete_workspace force p :
  does (run_remove workspace delete_workspace force p) (fun r l =>
    (forall path e, CRemoveDir path e ∈ l -> path = workspace /\ delete_workspace = true /\
       (force = true \/ exists s, answered l workspace ["status"; "--porcelain"] s /\ trim s = EmptyString)) /\
    (CForget (Project.id p) ∈ l <-> is_ok r = true) /\
    (is_ok r = true -> delete_workspace = true -> CRemoveDir workspace None ∈ l)).
Proof.
  walk.
  all: answers; split; [intros ?? H; in_cases H|split; [split; intros H; [in_cases H|]|intros H ?]].
  all: try discriminate; try done; try (by in_list).
  all: split; [reflexivity|]; split; [reflexivity|].
  all: first [right; eexists; split; [eexists; solve [in_list]|assumption]
             |match goal with H : true && negb ?f = false |- _ => left; by destruct f end].
Qed.

(** *** The job of an addition *)

Definition commits_nothing (l : list call) : Prop := forall q, CCommit q ∉ l.

(** A stage of the job: it goes on without a commit, or ends on the failure. *)
Definition ends_with (p : Project) (st : ProjectState) (l : list call) : Prop :=
  exists l0 e, commits_nothing l0 /\ l = l0 ++ [CSave (with_state st p) e; CCommit (with_state st p)].

Definition stage {A} (p : Project) (r : result A triple) (l : list call) : Prop :=
  match r with Ok _ => commits_nothing l | Err t => ends_with p (failed t) l end.

Definition settles (p : Project) (r : JobOutcome) (l : list call) : Prop :=
  ends_with p (match r with Ok _ => Project.Ready | Err t => failed t end) l.

Lemma commits_nothing_app l l' : commits_nothing l -> commits_nothing l' -> commits_nothing (l ++ l').
Proof. intros H H' q [Hq|Hq]%elem_of_app; [by apply (H q)|by apply (H' q)]. Qed.

Lemma ends_with_app p st l l' : commits_nothing l -> ends_with p st l' -> ends_with p st (l ++ l').
Proof.
  intros H (l0 & e & H0 & ->). exists (l ++ l0), e. split; [by apply commits_nothing_app|by rewrite app_assoc].
Qed.

Lemma stage_bind {A B} (m : E A) (k : A -> E B) p (P : result B triple -> list call -> Prop) :
  does m (stage p) -> (forall t l, ends_with p (failed t) l -> P (Err t) l) ->
  (forall a l, commits_nothing l -> does (k a) (fun r l' => P r (l ++ l'))) -> does (bind_result m k) P.
Proof.
  intros Hm He Hk. apply (does_bind m _ (stage p)); [done|]. intros [a|t] l Hl; [by apply Hk|].
  apply does_ret. rewrite app_nil_r. by apply He.
Qed.

Lemma stage_next {A B} (m : E A) (k : A -> E B) p : does m (stage p) -> (forall a, does (k a) (stage p)) ->
  does (bind_result m k) (stage p).
Proof.
  intros Hm Hk. apply (stage_bind m k p); [done|done|]. intros a l Hl. apply (does_conseq _ (stage p)); [apply Hk|].
  intros [b|t] l' H; [by apply commits_nothing_app|by apply ends_with_app].
Qed.

Lemma stage_settles {A} (m : E A) (k : A -> E string) p : does m (stage p) -> (forall a, does (k a) (settles p)) ->
  does (bind_result m k) (settles p).
Proof.
  intros Hm Hk. apply (stage_bind m k p); [done|done|]. intros a l Hl. apply (does_conseq _ (settles p)); [apply Hk|].
  intros r l' H. by apply ends_with_app.
Qed.

Ltac no_commit := intros ? H; in_cases H.

Ltac ends_now := eexists [_], _; split; [|reflexivity]; no_commit.

Lemma poll_stage kind p : kind = Add -> does (check_cancelled kind p) (stage p).
Proof.
  intros ->. walk; cbn [stage]; [ends_now|no_commit].
Qed.

Lemma git_stage repo args p : does (or_add_fail p (run repo args)) (stage p).
Proof.
  walk; cbn [stage]; [no_commit|ends_now].
Qed.

Lemma clone_stage src dst p : does (or_add_fail p (clone src dst)) (stage p).
Proof.
  walk; cbn [stage]; first [ends_now|no_commit].
Qed.

Lemma copy_stage src ws p names : does (copy_remotes src ws p names) (stage p).
Proof.
  induction names as [|n names IH]; cbn [copy_remotes]; [apply does_ret; by intros ? ?%elem_of_nil|].
  apply stage_next; [apply git_stage|intros url]. apply stage_next; [apply git_stage|by intros _].
Qed.

Lemma add_settles src ws p : does (run_add src ws p) (settles p).
Proof.
  unfold run_add.
  repeat (apply stage_settles; [first [by apply poll_stage|apply clone_stage|apply git_stage|apply copy_stage]|intros ?]).
  walk. eexists [], _. split; [by intros ? ?%elem_of_nil|reflexivity].
Qed.

(** An addition ends by settling its project, whatever happened meanwhile:
    the index then holds the record the job was submitted with, ready when the
    job succeeded and failed with the job's own error when it did not. So an
    edit of the project committed while the job ran, a rename or a stricter
    sandbox profile, is undone. *)
Theorem add_settles_its_own_copy src ws p files sh n :
  let '(r, w) := run_add src ws p (mk_world (files, sh) n []) in
  let settled := with_state (match r with Ok _ => Project.Ready | Err t => failed t end) p in
  get (Project.id p) (projects (fst (shared w))) = Some settled /\
  Project.name settled = Project.name p /\ Project.sandbox settled = Project.sandbox p.
Proof.
  pose proof (keeps_job told (WAdd src ws p) told_invariant (mk_world (files, sh) n []) I) as Ht. cbn [run_work] in Ht.
  destruct (add_settles src ws p (mk_world (files, sh) n [])) as (l & Hl & l0 & e & _ & El).
  destruct (run_add src ws p (mk_world (files, sh) n [])) as [r w]. cbn [fst snd calls app] in *. split; [|done].
  unfold told in Ht. rewrite Hl, El in Ht. change (l0 ++ [?a; ?b]) with (l0 ++ [a] ++ [b]) in Ht.
  rewrite app_assoc, last_snoc in Ht. exact Ht.
Qed.

(** *** Retrying an interrupted job *)

(** The jobs PROTOCOL.md says to retry, with the project they captured. *)
Definition retryable (k : Work) (p : Project) : Prop :=
  match k with
  | WSync _ _ _ q | WUpdate _ _ _ q | WRelocate _ _ _ q => q = p
  | _ => False
  end.

Definition stuck (k : Work) (p : Project) : Project := with_state (failed (interrupted (kind_of k))) p.

Definition keeps_state (p : Project) (c : call) : Prop :=
  match c with
  | CCommit q => Project.id q = Project.id p /\ Project.state q = Project.state p
  | CForget _ => False
  | _ => True
  end.

Lemma retry_effects k p : retryable k p ->
  does (run_work k) (fun r l =>
    (CPoll true ∈ l -> last l = Some (CCommit (stuck k p))) /\ (is_ok r = true -> Forall (keeps_state p) l)).
Proof.
  intros Hk. destruct k as [|src ws b q|src ws b q| |ws src path q]; try done; cbn [retryable] in Hk; subst q; walk.
  all: split; [intros H; in_cases H; subst; reflexivity|intros H; try discriminate H; repeat constructor].
Qed.

Lemma replay_keeps p l : forall sh q, Forall (keeps_state p) l -> get (Project.id p) (projects (fst sh)) = Some q ->
  Project.state q = Project.state p ->
  exists q', get (Project.id p) (projects (fst (foldl apply_call sh l))) = Some q' /\ Project.state q' = Project.state p.
Proof.
  induction l as [|c l IH]; intros sh q Hl Hg Hs; [by exists q|]. apply Forall_cons in Hl as [Hc Hl]. cbn [foldl].
  destruct c as [| | | | | | | |x|]; try (by apply (IH _ q)). destruct Hc as [Hi Hx]. apply (IH _ x); [done| |done].
  destruct sh as [st out]. cbn. rewrite <- Hi. apply get_put.
Qed.

(** An interrupted synchronisation, update or relocation leaves its project
    failed for good: with no one else about, every later retry of such a job
    that succeeds leaves the project in that state, so no session can be
    created for it any more, although the error says to retry. *)
Theorem interrupted_project_stays_failed run_dir version k p files sh n : (forall m x, others m x = x) -> retryable k p ->
  Project.sandbox_problem p = None ->
  let w := snd (run_work k (mk_world (files, sh) n [])) in
  CPoll true ∈ calls w ->
  get (Project.id p) (projects (fst (shared w))) = Some (stuck k p) /\
  forall k' files' n', retryable k' (stuck k p) ->
    let w' := snd (run_work k' (mk_world (files', shared w) n' [])) in
    is_ok (fst (run_work k' (mk_world (files', shared w) n' []))) = true ->
    exists q, get (Project.id p) (projects (fst (shared w'))) = Some q /\ Project.state q = failed (interrupted (kind_of k)) /\
      forall params m, c_project params = Project.id p -> is_ok (resolve_create show home run_dir version params m (fst (shared w'))) = false.
Proof.
  intros Hq Hk Hp w Hpoll.
  assert (Hw : get (Project.id p) (projects (fst (shared w))) = Some (stuck k p)).
  { pose proof (keeps_job told k told_invariant (mk_world (files, sh) n []) I) as Ht. fold w in Ht.
    destruct (retry_effects k p Hk (mk_world (files, sh) n [])) as (l & Hl & Hlast & _). fold w in Hl. cbn [calls app] in Hl.
    unfold told in Ht. rewrite Hl in Ht, Hpoll. rewrite (Hlast Hpoll) in Ht. exact Ht. }
  split; [exact Hw|]. intros k' files' n' Hk'.
  pose proof (keeps_job _ k' (quiet_invariant (shared w) Hq) (mk_world (files', shared w) n' []) eq_refl) as Hr.
  destruct (retry_effects k' _ Hk' (mk_world (files', shared w) n' [])) as (l & Hl & _ & Hok).
  destruct (run_work k' _) as [r w']. cbn [fst snd calls app] in *. intros Hr'. subst l.
  destruct (replay_keeps (stuck k p) (calls w') (shared w) (stuck k p) (Hok Hr') Hw eq_refl) as (q & Hg & Hst).
  rewrite Hr. exists q. split; [exact Hg|]. split; [exact Hst|]. intros params m Hc. unfold resolve_create. rewrite Hc.
  change (Project.id (stuck k p)) with (Project.id p) in Hg. rewrite Hg. cbn [ok_or].
  destruct (Project.sandbox_problem q); [done|]. rewrite Hst. by destruct k.
Qed.

(** *** Editing the sandbox profile *)

(** A sandbox profile is committed only if the daemon can apply it, and
    then only after it is on disk: the record committed has that profile and
    no problem, and its policy resolves for every later session; a refusal
    commits nothing. *)
Theorem set_sandbox_admits_applicable id profile :
  does (set_sandbox id profile) (fun r l =>
    match r with
    | Ok q => Project.sandbox q = profile /\ Project.sandbox_problem q = None /\
        (exists st, l = [CRead st; CSave q None; CCommit q]) /\
        is_ok (session_capabilities home (Harness.default_capabilities ClaudeCode) (Project.sandbox q)) = true
    | Err _ => commits_nothing l
    end).
Proof.
  unfold set_sandbox, get_project, store_edit, read_state. walk; try no_commit.
  split; [reflexivity|]. split; [reflexivity|]. split; [by eexists|]. unfold session_capabilities.
  change (Project.sandbox (with_profile profile a0)) with profile. by rewrite Heqr0.
Qed.

(** *** Adding a project *)

Lemma slug_loop_free fuel base taken s : forall n, slug_loop fuel base taken n = Some s -> s ∉ taken.
Proof.
  induction fuel as [|fuel IH]; intros n; cbn [slug_loop]; [done|]. case_bool_decide as Hin; [apply IH|].
  intros E. injection E as <-. exact Hin.
Qed.

Lemma slug_for_free name taken s : slug_for name taken = Some s -> s ∉ taken.
Proof.
  unfold slug_for. case_bool_decide as Hin; cbn [negb]; [apply slug_loop_free|]. intros E. injection E as <-. exact Hin.
Qed.

(** An addition admits only what is new: it registers a project, preparing
    and with the default profile, only for a path with a Linux form, a
    repository with a commit and a branch, a checkout no project had when it
    looked, and a slug and a workspace free when it looked; every other
    answer commits nothing, but for the runner's refusal. *)
Theorem add_admits_only_new id now busy windows_path name :
  does (add id now busy windows_path name) (fun r l =>
    match r with
    | Ok (i, k) =>
        exists src st1 st2 free b,
          let workspace := path_join workspaces_dir free in
          let p := new_project id name free windows_path workspace (trim b) now in
          i = id /\ k = WAdd src workspace p /\ last l = Some (CCommit p) /\
          source_to_linux windows_path = Some src /\ CExists (path_join src ".git") true ∈ l /\
          (exists err s, CGit (Some src) ["rev-parse"; "--verify"; "--quiet"; "HEAD"] (Ended true s err) ∈ l) /\
          CRead st1 ∈ l /\ registered windows_path st1 = false /\
          answered l src ["symbolic-ref"; "--short"; "HEAD"] b /\
          CRead st2 ∈ l /\ (free ∉ map slug (values (projects st2))) /\ CExists workspace false ∈ l
    | Err e => commits_nothing l \/ (busy = true /\ e = busy_err)
    end).
Proof.
  unfold add, linux_source, submit, read_state. walk; try (left; no_commit).
  destruct busy; [by right|].
  destruct (source_to_linux windows_path) as [src|] eqn:Es; [|discriminate Heqr]. injection Heqr as <-.
  apply map_err_ok in Heqr0. destruct (run_result a3) as [b|] eqn:Eb; [|discriminate Heqr0]. injection Heqr0 as <-.
  apply run_ok in Eb as [err ->]. destruct a1 as [|[] o err']; try discriminate Heqb0. apply negb_true_iff in Heqb1, Heqb2.
  subst. exists src, a2, a5, s, b. split; [done|]. split; [done|]. split; [done|]. split; [done|]. split; [in_list|].
  split; [do 2 eexists; in_list|]. split; [in_list|]. split; [done|]. split; [eexists; in_list|]. split; [in_list|].
  split; [by apply (slug_for_free (folder_name windows_path))|in_list].
Qed.

(** *** The presence of the sources *)

(** What one answer makes of a project's record. *)
Definition marked (presence : list (N * string * bool)) (id : N) (p : Project) : Project :=
  match List.find (fun x => (fst (fst x) =? id)%N) presence with
  | Some (_, source, present) => if bool_decide (Project.source p = source) then with_present present p else p
  | None => p
  end.

(** Storing the computed flags changes only the flag of a project still
    registered and still at the source that was looked at: one removed
    meanwhile does not come back, one relocated keeps its flag. *)
Theorem presence_describes_its_source presence : forall st id, NoDup (map (fun x => fst (fst x)) presence) ->
  get id (projects (foldl apply_one st presence)) = marked presence id <$> get id (projects st).
Proof.
  induction presence as [|[[i source] b] presence IH]; intros st id.
  { intros _. cbn. by destruct (get id (projects st)). }
  cbn [map fst foldl]. intros [Hn Hd]%NoDup_cons. rewrite IH by done. unfold marked. cbn [List.find fst apply_one projects].
  destruct (N.eqb_spec i id) as [->|Hne].
  - assert (Hf : List.find (fun x : N * string * bool => (fst (fst x) =? id)%N) presence = None).
    { destruct (List.find _ presence) as [x|] eqn:Ex; [|done]. apply List.find_some in Ex as [Hx He%N.eqb_eq].
      destruct Hn. rewrite <- He. by apply (list_elem_of_fmap_2 (fun x : N * string * bool => fst (fst x))), list_elem_of_In. }
    rewrite Hf, get_adjust. by destruct (get id (projects st)).
  - by rewrite get_adjust_ne.
Qed.

(** After the sweep at start no project is left preparing, and the others are
    as they were. *)
Theorem sweep_settles_additions st id : get id (projects (interrupt_preparing st)) = interrupt_one <$> get id (projects st) /\
  forall p, get id (projects (interrupt_preparing st)) = Some p -> Project.state p <> Preparing.
Proof.
  assert (H : get id (projects (interrupt_preparing st)) = interrupt_one <$> get id (projects st)).
  { destruct st as [ps js ss q]. cbn. induction ps as [|[k v] ps IH]; [done|]. cbn. by case_decide. }
  split; [done|]. intros p. rewrite H. destruct (get id (projects st)) as [x|]; cbn; [|done]. intros [= <-].
  unfold interrupt_one. destruct (Project.state x) eqn:E; cbn; congruence.
Qed.
End projects.

(** ** The properties at concrete inputs *)

Definition sample_project : Project :=
  mk_project 7 "app" "app" "/mnt/c/app" "/w/app" "main" Project.Ready true "0" default_profile None.

(** A checkout that is clean, on main, and level with the workspace. *)
Definition sample_git (repo : option string) (args : list string) (fs : unit) : Output * unit :=
  let out := if bool_decide (args = ["rev-parse"; "--abbrev-ref"; "HEAD"]) then "main" +:+ String newline EmptyString
             else if bool_decide (head args = Some "rev-list") then "0" +:+ String newline EmptyString
             else EmptyString in
  (Ended true out EmptyString, fs).

Definition sample_job (tripped : nat -> bool) (k : Work) (sh : Shared) (n : nat) : result string triple * World :=
  run_work sample_git (fun _ _ => true) (fun _ fs => (None, fs)) (fun _ fs => (None, fs)) (fun _ fs => fs)
    (fun _ x => x) tripped k (mk_world (tt, sh) n []).

Definition sample_sync (p : Project) : Work := WSync "/mnt/c/app" "/w/app" "main" p.

Definition sample_shared : Shared := (mk_state [(7%N, sample_project)] [] [] 0, []).

Example sync_pushes :
  let '(r, w) := sample_job (fun _ => false) (sample_sync sample_project) sample_shared 0 in
  r = Ok EmptyString /\
  last (calls w) = Some (CGit (Some "/w/app") ["push"; "windows"; "HEAD:main"] (Ended true EmptyString EmptyString)).
Proof. vm_compute. done. Qed.

(** The job was cancelled before its second checkpoint. *)
Definition sample_interrupted : World := snd (sample_job (fun n => (n =? 4)%nat) (sample_sync sample_project) sample_shared 0).

Lemma interrupted_project_stays_failed_witness :
  exists q, get 7%N (projects (fst (shared (snd (sample_job (fun n => (n =? 4)%nat)
      (sample_sync (stuck (sample_sync sample_project) sample_project)) (shared sample_interrupted) 10))))) = Some q /\
    Project.state q = ProjFailed "interrupted" "the job was interrupted before it finished" "retry the operation".
Proof.
  destruct (interrupted_project_stays_failed sample_git (fun _ _ => true) (fun _ fs => (None, fs)) (fun _ fs => (None, fs))
    (fun _ fs => fs) (fun _ x => x) (fun n => (n =? 4)%nat) pretty "/home/willie" "/run" "1.0"
    (sample_sync sample_project) sample_project tt sample_shared 0 (fun _ _ => eq_refl) eq_refl eq_refl) as [_ H].
  - vm_compute. apply list_elem_of_further, list_elem_of_further, list_elem_of_further, list_elem_of_further, list_elem_of_here.
  - destruct (H (sample_sync (stuck (sample_sync sample_project) sample_project)) tt 10%nat eq_refl) as (q & Hq & Hs & _);
      [vm_compute; reflexivity|]. exists q. split; [exact Hq|exact Hs].
Defined.
