(* ===== verification/Json.v ===== *)
(** * JSON values

    [serde_json::Value] built with [preserve_order]: an object is its entries
    in insertion order, a map without duplicate keys.  Parsing and printing
    are the crate's and stay parameters of what uses them.  The in-place merge
    is the one of crates/willie-plugins/profiles/src/apply.rs. *)

From S2P Require Import Prelude Text.

Local Open Scope list_scope.

(** ** Data *)

(** An integer of the crate's [Number] is a [u64] or a negative [i64]; a float
    is kept as it is printed. *)
Inductive Number : Type := Int (n : Z) | Float (text : string).

Inductive Json : Type :=
| JNull
| JBool (b : bool)
| JNumber (n : Number)
| JString (s : string)
| JArray (l : list Json)
| JObject (entries : list (string * Json)).

Definition Entries : Type := list (string * Json).

(** Induction with the hypothesis for every element and every entry. *)
Section induction.
  Variable P : Json -> Prop.
  Hypothesis (Hnull : P JNull) (Hbool : forall b, P (JBool b)) (Hnumber : forall n, P (JNumber n))
    (Hstring : forall s, P (JString s)) (Harray : forall l, Forall P l -> P (JArray l))
    (Hobject : forall m, Forall (fun e => P (snd e)) m -> P (JObject m)).

Fixpoint Json_nested_ind (v : Json) : P v :=
  match v with
  | JNull => Hnull
  | JBool b => Hbool b
  | JNumber n => Hnumber n
  | JString s => Hstring s
  | JArray l =>
      Harray l ((fix all l := match l return Forall P l with
                              | [] => Forall_nil_2 P
                              | x :: l => Forall_cons_2 P x l (Json_nested_ind x) (all l)
                              end) l)
  | JObject m =>
      Hobject m ((fix all m := match m return Forall (fun e => P (snd e)) m with
                               | [] => Forall_nil_2 _
                               | e :: m => Forall_cons_2 _ e m (Json_nested_ind (snd e)) (all m)
                               end) m)
  end.
End induction.

(** ** Objects *)

Definition keys (m : Entries) : list string := map fst m.

(** [Map::get]. *)
Fixpoint get (key : string) (m : Entries) : option Json :=
  match m with
  | [] => None
  | (k, v) :: m => if bool_decide (k = key) then Some v else get key m
  end.

(** [Map::get_mut] on a key the map has. *)
Fixpoint alter_entry (f : Json -> Json) (key : string) (m : Entries) : Entries :=
  match m with
  | [] => []
  | (k, v) :: m => if bool_decide (k = key) then (k, f v) :: m else (k, v) :: alter_entry f key m
  end.

(** [Map::insert]: a key the map has keeps its place. *)
Definition insert_entry (key : string) (v : Json) (m : Entries) : Entries :=
  match get key m with
  | Some _ => alter_entry (fun _ => v) key m
  | None => m ++ [(key, v)]
  end.

(** [Map::remove]: the last entry takes the place of the one removed. *)
Fixpoint remove_entry (key : string) (m : Entries) : Entries :=
  match m with
  | [] => []
  | (k, v) :: m =>
      if bool_decide (k = key) then match last m with Some e => e :: removelast m | None => [] end
      else (k, v) :: remove_entry key m
  end.

(** ** Reading a value *)

(** [Value::get] of a key. *)
Definition value_get (key : string) (v : Json) : option Json := match v with JObject m => get key m | _ => None end.

Definition as_str (v : Json) : option string := match v with JString s => Some s | _ => None end.

Definition as_bool (v : Json) : option bool := match v with JBool b => Some b | _ => None end.

Definition as_array (v : Json) : option (list Json) := match v with JArray l => Some l | _ => None end.

Definition as_object (v : Json) : option Entries := match v with JObject m => Some m | _ => None end.

Definition as_u64 (v : Json) : option Z :=
  match v with JNumber (Int n) => if in_range 0 u64_max n then Some n else None | _ => None end.

(** ** The merge *)

Fixpoint deep_merge (target fragment : Json) : Json :=
  match fragment with
  | JObject fragment_map =>
      match target with
      | JObject target_map =>
          JObject ((fix merge_entries (fragment_map target_map : Entries) : Entries :=
            match fragment_map with
            | [] => target_map
            | (key, value) :: fragment_map =>
                merge_entries fragment_map
                  (match get key target_map with
                   | Some _ => alter_entry (fun existing => deep_merge existing value) key target_map
                   | None => insert_entry key value target_map
                   end)
            end) fragment_map target_map)
      | _ => JObject fragment_map
      end
  | other => other
  end.

(** The loop over the fragment's entries. *)
Fixpoint merge_entries (fragment_map target_map : Entries) : Entries :=
  match fragment_map with
  | [] => target_map
  | (key, value) :: fragment_map =>
      merge_entries fragment_map
        (match get key target_map with
         | Some _ => alter_entry (fun existing => deep_merge existing value) key target_map
         | None => insert_entry key value target_map
         end)
  end.

(** What [serde_json] makes of a text: no object has a key twice. *)
Fixpoint well_formed (v : Json) : bool :=
  match v with
  | JArray l => forallb well_formed l
  | JObject m => bool_decide (NoDup (keys m)) && forallb (fun e => well_formed (snd e)) m
  | _ => true
  end.

(** Values that are printed and read back exactly: nothing that is not an
    integer, and nesting within the parser's recursion limit. *)
Fixpoint tame (depth : nat) (v : Json) : bool :=
  match v with
  | JNumber (Float _) => false
  | JArray l => match depth with O => false | S d => forallb (tame d) l end
  | JObject m => match depth with O => false | S d => forallb (fun e => tame d (snd e)) m end
  | _ => true
  end.

(** ** Lemmas *)

Lemma deep_merge_objects fm tm : deep_merge (JObject tm) (JObject fm) = JObject (merge_entries fm tm).
Proof. reflexivity. Qed.

Lemma forallb_entries (p : Json -> bool) (m : Entries) :
  forallb (fun e => p (snd e)) m = true <-> Forall (fun e => p (snd e) = true) m.
Proof. rewrite forallb_forall, List.Forall_forall. done. Qed.

Lemma well_formed_object m :
  well_formed (JObject m) = true <-> NoDup (keys m) /\ Forall (fun e => well_formed (snd e) = true) m.
Proof. cbn [well_formed]. rewrite andb_true_iff, bool_decide_eq_true. by rewrite forallb_entries. Qed.

Lemma tame_entry d key v : tame (S d) (JObject [(key, v)]) = tame d v.
Proof. cbn. apply andb_true_r. Qed.

Lemma get_keys key m : key ∈ keys m <-> is_Some (get key m).
Proof.
  unfold keys. induction m as [|[k v] m IH]; cbn; [split; [by intros ?%elem_of_nil|by intros [? ?]]|].
  rewrite elem_of_cons. case_bool_decide as E; [split; [eauto|by left]|]. rewrite IH. naive_solver.
Qed.

Lemma get_fresh key m : get key m = None <-> (key ∉ keys m).
Proof. rewrite get_keys, eq_None_not_Some. done. Qed.

Lemma get_entry key m v : get key m = Some v -> (key, v) ∈ m.
Proof.
  induction m as [|[k x] m IH]; cbn; [done|].
  case_bool_decide; [intros [= <-]; subst; by left|intros Hg; right; auto].
Qed.

Lemma entry_get key m v : NoDup (keys m) -> (key, v) ∈ m -> get key m = Some v.
Proof.
  induction m as [|[k x] m IH]; [by intros _ ?%elem_of_nil|]. cbn. intros [Hk Hd]%NoDup_cons [E|Hin]%elem_of_cons.
  - simplify_eq. by rewrite bool_decide_true.
  - rewrite bool_decide_false; [by apply IH|]. intros ->. apply Hk. by apply (list_elem_of_fmap_2 fst) in Hin.
Qed.

Lemma get_forall {P : Json -> Prop} key m v : Forall (fun e => P (snd e)) m -> get key m = Some v -> P v.
Proof.
  induction 1 as [|[k x] m Hx _ IH]; cbn; [done|]. case_bool_decide; [by intros [= <-]|auto].
Qed.

Lemma get_test (p : Json -> bool) key m v :
  Forall (fun e => p (snd e) = true) m -> get key m = Some v -> p v = true.
Proof. apply (get_forall (P := fun v => p v = true)). Qed.

Lemma keys_alter f key m : keys (alter_entry f key m) = keys m.
Proof. unfold keys. induction m as [|[k v] m IH]; [done|]. cbn. case_bool_decide; cbn; by rewrite ?IH. Qed.

Lemma get_alter f key m : get key (alter_entry f key m) = f <$> get key m.
Proof.
  induction m as [|[k v] m IH]; [done|]. cbn.
  case_bool_decide as E; cbn; [by rewrite bool_decide_true|]. by rewrite bool_decide_false.
Qed.

Lemma get_alter_ne f key key' m : key <> key' -> get key' (alter_entry f key m) = get key' m.
Proof.
  intros Hne. induction m as [|[k v] m IH]; [done|]. cbn.
  case_bool_decide as E; cbn; [subst; by rewrite !bool_decide_false|]. by rewrite IH.
Qed.

Lemma get_app key m1 m2 : get key (m1 ++ m2) = match get key m1 with Some v => Some v | None => get key m2 end.
Proof. induction m1 as [|[k v] m1 IH]; [done|]. cbn. by case_bool_decide. Qed.

Lemma keys_app m1 m2 : keys (m1 ++ m2) = keys m1 ++ keys m2.
Proof. apply map_app. Qed.

Lemma alter_id f key m v : get key m = Some v -> f v = v -> alter_entry f key m = m.
Proof.
  intros Hg Hf. induction m as [|[k x] m IH]; [done|]. cbn in *. case_bool_decide; [|by rewrite IH].
  by simplify_eq; rewrite Hf.
Qed.

Lemma get_insert key v m : get key (insert_entry key v m) = Some v.
Proof.
  unfold insert_entry. destruct (get key m) eqn:E; [by rewrite get_alter, E|].
  rewrite get_app, E. cbn. by rewrite bool_decide_true.
Qed.

Lemma get_insert_ne key key' v m : key <> key' -> get key' (insert_entry key v m) = get key' m.
Proof.
  intros Hne. unfold insert_entry. destruct (get key m) eqn:E; [by apply get_alter_ne|].
  rewrite get_app. cbn. rewrite bool_decide_false by done. by destruct (get key' m).
Qed.

(** *** Removal *)

Lemma removelast_snoc (m : Entries) e : last m = Some e -> m = removelast m ++ [e].
Proof.
  induction m as [|x m IH]; [done|]. destruct m as [|y m]; [by intros [= ->]|]. intros H.
  change (removelast (x :: y :: m)) with (x :: removelast (y :: m)). cbn [app]. f_equal. by apply IH.
Qed.

Lemma remove_entry_perm key v m : get key m = Some v -> m ≡ₚ (key, v) :: remove_entry key m.
Proof.
  induction m as [|[k x] m IH]; cbn; [done|]. case_bool_decide.
  - subst. intros [= ->]. apply Permutation_cons; [done|]. destruct (last m) as [e|] eqn:El.
    + rewrite (removelast_snoc m e El) at 1. by rewrite Permutation_app_comm.
    + by apply last_None in El as ->.
  - intros Hg. rewrite Permutation_swap. by rewrite <- IH.
Qed.

Lemma remove_entry_absent key m : get key m = None -> remove_entry key m = m.
Proof. induction m as [|[k x] m IH]; cbn; [done|]. case_bool_decide; [done|]. intros Hg. by rewrite IH. Qed.

Lemma get_perm m1 m2 key : NoDup (keys m1) -> m1 ≡ₚ m2 -> get key m1 = get key m2.
Proof.
  intros Hd Hp. assert (Hd2 : NoDup (keys m2)) by (unfold keys in *; by rewrite <- Hp).
  destruct (get key m1) as [v|] eqn:E1.
  - apply get_entry in E1. rewrite Hp in E1. symmetry. by apply entry_get.
  - destruct (get key m2) as [v|] eqn:E2; [|done]. apply get_entry in E2. rewrite <- Hp in E2.
    by rewrite (entry_get key m1 v) in E1.
Qed.

Lemma remove_entry_spec key m : NoDup (keys m) -> NoDup (keys (remove_entry key m)) /\
  get key (remove_entry key m) = None /\ forall k, k <> key -> get k (remove_entry key m) = get k m.
Proof.
  intros Hd. destruct (get key m) as [v|] eqn:E.
  - pose proof (remove_entry_perm key v m E) as Hp.
    assert (Hd2 : NoDup (keys ((key, v) :: remove_entry key m))) by (unfold keys in *; by rewrite <- Hp).
    cbn [keys map fst] in Hd2. apply NoDup_cons in Hd2 as [Hk Hd2]. split; [done|]. split; [by apply get_fresh|].
    intros k Hne. rewrite (get_perm m _ k Hd Hp). cbn. by rewrite bool_decide_false.
  - by rewrite remove_entry_absent.
Qed.

(** *** One step of the merge *)

(** The value at [key] once the fragment's value there is merged in. *)
Definition merge_value_at (t f : option Json) : option Json :=
  match t, f with
  | Some x, Some y => Some (deep_merge x y)
  | None, f => f
  | t, None => t
  end.

Lemma merge_entries_get fm : forall tm key, NoDup (keys fm) ->
  get key (merge_entries fm tm) = merge_value_at (get key tm) (get key fm).
Proof.
  induction fm as [|[k v] fm IH]; intros tm key Hd; [cbn; by destruct (get key tm)|].
  apply NoDup_cons in Hd as [Hk Hd]. cbn [merge_entries]. rewrite IH by done. cbn [get]. case_bool_decide as E.
  - subst. rewrite (proj2 (get_fresh key fm) Hk). destruct (get key tm) as [x|] eqn:Ex.
    + by rewrite get_alter, Ex.
    + unfold insert_entry. rewrite Ex, get_app, Ex. cbn. by rewrite bool_decide_true.
  - destruct (get k tm) as [x|] eqn:Ex; [by rewrite get_alter_ne|].
    unfold insert_entry. rewrite Ex, get_app. cbn. rewrite bool_decide_false by done. by destruct (get key tm).
Qed.

(** The keys a fragment adds, in its order. *)
Definition new_keys (tm fm : Entries) : list string := List.filter (fun k => negb (bool_decide (k ∈ keys tm))) (keys fm).

Lemma merge_entries_keys fm : forall tm, NoDup (keys fm) -> keys (merge_entries fm tm) = keys tm ++ new_keys tm fm.
Proof.
  induction fm as [|[k v] fm IH]; intros tm Hd; [unfold new_keys; cbn; by rewrite app_nil_r|].
  apply NoDup_cons in Hd as [Hk Hd]. cbn [merge_entries]. rewrite IH by done. unfold new_keys. cbn [keys map fst List.filter].
  fold (keys fm). destruct (get k tm) as [x|] eqn:Ex.
  - rewrite keys_alter. rewrite bool_decide_true by (apply get_keys; eauto). done.
  - rewrite (bool_decide_false (k ∈ keys tm)) by (by apply get_fresh). unfold insert_entry. rewrite Ex, keys_app, <- app_assoc. cbn. do 2 f_equal.
    apply List.filter_ext_in. intros k' Hk'%list_elem_of_In. f_equal. apply bool_decide_ext.
    rewrite elem_of_app, list_elem_of_singleton. naive_solver.
Qed.

(** Entries with distinct keys are their keys and what each is bound to. *)
Lemma entries_ext m1 m2 : NoDup (keys m1) -> keys m1 = keys m2 -> (forall k, k ∈ keys m1 -> get k m1 = get k m2) -> m1 = m2.
Proof.
  revert m2. induction m1 as [|[k v] m1 IH]; intros [|[k' v'] m2]; cbn [keys map fst]; try discriminate; [done|].
  intros [Hk Hd]%NoDup_cons [= <- E] Hg. pose proof (Hg k ltac:(by left)) as Hv. cbn in Hv.
  rewrite !bool_decide_true in Hv by done. injection Hv as <-. f_equal. apply IH; [done|done|].
  intros j Hj. specialize (Hg j ltac:(by right)). cbn in Hg. rewrite bool_decide_false in Hg; [done|].
  intros ->. done.
Qed.

Lemma new_keys_nodup tm fm : NoDup (keys tm) -> NoDup (keys fm) -> NoDup (keys tm ++ new_keys tm fm).
Proof.
  intros Ht Hf. apply NoDup_app. split; [done|]. unfold new_keys. split.
  - intros k Hk Hin. apply list_elem_of_In, List.filter_In in Hin as [_ Hin]. by rewrite bool_decide_true in Hin.
  - apply NoDup_ListNoDup, List.NoDup_filter, NoDup_ListNoDup, Hf.
Qed.

Lemma deep_merge_leaf target f : (forall m, f <> JObject m) -> deep_merge target f = f.
Proof. destruct f; try done. intros H. by destruct (H entries). Qed.

Lemma deep_merge_onto_leaf target m : (forall m', target <> JObject m') -> deep_merge target (JObject m) = JObject m.
Proof. destruct target; try done. intros H. by destruct (H entries). Qed.

Lemma is_object v : (exists m, v = JObject m) \/ (forall m, v <> JObject m).
Proof. destruct v; eauto; by right. Qed.

(** ** What a merge leaves *)

(** Merging onto an absent value. *)
Definition merge_onto (t : option Json) (f : Json) : Json :=
  match t with Some x => deep_merge x f | None => f end.

Definition object_entries (t : option Json) : Entries := match t with Some (JObject m) => m | _ => [] end.

Lemma merge_value_at_some t f : merge_value_at t (Some f) = Some (merge_onto t f).
Proof. by destruct t. Qed.

Lemma merge_entries_nil m : NoDup (keys m) -> merge_entries m [] = m.
Proof.
  intros Hd. apply entries_ext.
  - rewrite merge_entries_keys by done. by apply new_keys_nodup; [constructor|].
  - rewrite merge_entries_keys by done. unfold new_keys. cbn [app keys map]. fold (keys m).
    generalize (keys m). intros l. induction l as [|x l IH]; [done|]. cbn.
    rewrite bool_decide_false by (by apply not_elem_of_nil). cbn. by rewrite IH.
  - intros k _. rewrite merge_entries_get by done. cbn. by destruct (get k m).
Qed.

Lemma merge_onto_object t m : NoDup (keys m) -> merge_onto t (JObject m) = JObject (merge_entries m (object_entries t)).
Proof.
  intros Hd. destruct t as [x|]; cbn [merge_onto object_entries]; [|by rewrite merge_entries_nil].
  destruct (is_object x) as [[tm ->]|Hx]; [done|]. rewrite deep_merge_onto_leaf by done.
  destruct x; cbn [object_entries]; try by rewrite merge_entries_nil. by destruct (Hx entries).
Qed.

Lemma object_entries_wf t : (forall x, t = Some x -> well_formed x = true) ->
  NoDup (keys (object_entries t)) /\ Forall (fun e => well_formed (snd e) = true) (object_entries t).
Proof.
  intros H. destruct t as [[| | | | |m]|]; cbn; try (by split; constructor).
  apply well_formed_object. by apply H.
Qed.

Lemma new_keys_known R m : (forall k, k ∈ keys m -> k ∈ keys R) -> new_keys R m = [].
Proof.
  unfold new_keys. intros H. induction (keys m) as [|k l IH]; [done|]. cbn.
  rewrite bool_decide_true by (apply H; by left). apply IH. intros j Hj. apply H. by right.
Qed.

(** Merging onto an empty object is taking the fragment. *)
Lemma merge_onto_fresh f : well_formed f = true -> deep_merge (JObject []) f = f.
Proof.
  intros Hf. destruct (is_object f) as [[m ->]|Hl]; [|by apply deep_merge_leaf].
  apply well_formed_object in Hf as [Hd _]. by rewrite deep_merge_objects, merge_entries_nil.
Qed.

(** A merge that changes no entry changes nothing. *)
Lemma merge_entries_fixed R m : NoDup (keys R) -> NoDup (keys m) ->
  (forall k y, get k m = Some y -> exists x, get k R = Some x /\ deep_merge x y = x) -> merge_entries m R = R.
Proof.
  intros HR Hm H.
  assert (Hk : new_keys R m = []).
  { apply new_keys_known. intros k [y Hy]%get_keys. destruct (H k y Hy) as (x & Hx & _). apply get_keys. eauto. }
  apply entries_ext; rewrite ?merge_entries_keys, Hk, ?app_nil_r by done; [done|done|].
  intros k _. rewrite merge_entries_get by done. destruct (get k m) as [y|] eqn:Ey; [|by destruct (get k R)].
  destruct (H k y Ey) as (x & -> & Hx). cbn. by rewrite Hx.
Qed.

Lemma merge_entries_wf fm tm : NoDup (keys tm) -> NoDup (keys fm) -> NoDup (keys (merge_entries fm tm)).
Proof. intros Ht Hf. rewrite merge_entries_keys by done. by apply new_keys_nodup. Qed.

(** Merging a fragment again changes nothing, key order included. *)
Lemma merge_onto_idempotent f : forall t, well_formed f = true -> (forall x, t = Some x -> well_formed x = true) ->
  deep_merge (merge_onto t f) f = merge_onto t f.
Proof.
  induction f as [| | | | |m IH] using Json_nested_ind; intros t Hf Ht; try by destruct t.
  apply well_formed_object in Hf as [Hd Hw]. pose proof (object_entries_wf t Ht) as [Hd0 Hw0].
  rewrite merge_onto_object by done. rewrite deep_merge_objects. f_equal.
  apply merge_entries_fixed; [by apply merge_entries_wf|done|]. intros k y Hy.
  rewrite merge_entries_get, Hy, merge_value_at_some by done. eexists. split; [done|].
  apply (proj1 (Forall_forall _ _) IH (k, y) (get_entry _ _ _ Hy)); [apply (get_test _ _ _ _ Hw Hy)|].
  intros x Hx. apply (get_test _ _ _ _ Hw0 Hx).
Qed.

(** Merging two fragments, one after the other, twice is merging them once. *)
Lemma merge_two_idempotent f1 : forall f2 t, well_formed f1 = true -> well_formed f2 = true -> (forall x, t = Some x -> well_formed x = true) ->
  let r := deep_merge (merge_onto t f1) f2 in deep_merge (deep_merge r f1) f2 = r.
Proof.
  induction f1 as [| | | | |m1 IH] using Json_nested_ind; intros f2 t H1 H2 Ht r; try (by subst r; destruct t).
  destruct (is_object f2) as [[m2 ->]|H]; [|subst r; by rewrite !(deep_merge_leaf _ f2)].
  apply well_formed_object in H1 as [Hd1 Hw1]. apply well_formed_object in H2 as [Hd2 Hw2].
  pose proof (object_entries_wf t Ht) as [Hd0 Hw0]. subst r. rewrite merge_onto_object by done.
  set (t0 := object_entries t) in *. rewrite !deep_merge_objects. f_equal.
  set (R := merge_entries m2 (merge_entries m1 t0)).
  assert (HR : NoDup (keys R)) by (by repeat apply merge_entries_wf).
  assert (HgR : forall k, get k R = merge_value_at (merge_value_at (get k t0) (get k m1)) (get k m2)).
  { intros k. unfold R. by rewrite !merge_entries_get. }
  assert (Hk1 : new_keys R m1 = []).
  { apply new_keys_known. intros k [y Hy]%get_keys. apply get_keys. rewrite HgR, Hy, merge_value_at_some.
    destruct (get k m2); cbn; eauto. }
  assert (Hk2 : new_keys (merge_entries m1 R) m2 = []).
  { apply new_keys_known. intros k [y Hy]%get_keys. apply get_keys. rewrite merge_entries_get, HgR, Hy by done.
    rewrite merge_value_at_some. destruct (get k m1); cbn; eauto. }
  apply entries_ext; rewrite ?merge_entries_keys, Hk2, app_nil_r, ?merge_entries_keys, Hk1, ?app_nil_r by done; [done|done|].
  intros k _. rewrite !merge_entries_get, HgR by done.
  destruct (get k m1) as [a|] eqn:Ea; destruct (get k m2) as [b|] eqn:Eb; rewrite ?merge_value_at_some; cbn [merge_value_at merge_onto].
  - f_equal. apply (proj1 (Forall_forall _ _) IH (k, a) (get_entry _ _ _ Ea));
      [apply (get_test _ _ _ _ Hw1 Ea)|apply (get_test _ _ _ _ Hw2 Eb)|]. intros x Hx. apply (get_test _ _ _ _ Hw0 Hx).
  - f_equal. apply merge_onto_idempotent; [apply (get_test _ _ _ _ Hw1 Ea)|]. intros x Hx. apply (get_test _ _ _ _ Hw0 Hx).
  - destruct (get k t0) as [c|] eqn:Ec; cbn; f_equal;
      [apply (merge_onto_idempotent b (Some c))|apply (merge_onto_idempotent b None)];
      try apply (get_test _ _ _ _ Hw2 Eb); intros x [= <-]. apply (get_test _ _ _ _ Hw0 Ec).
  - by destruct (get k t0).
Qed.

(** A property of every merged value. *)
Lemma merge_entries_forall (P : Json -> Prop) m tm : NoDup (keys tm) -> NoDup (keys m) ->
  Forall (fun e => P (snd e)) tm -> (forall k y, get k m = Some y -> P (merge_onto (get k tm) y)) ->
  Forall (fun e => P (snd e)) (merge_entries m tm).
Proof.
  intros Ht Hm Htm H. apply Forall_forall. intros [k v] Hin. cbn.
  apply entry_get in Hin; [|by apply merge_entries_wf]. rewrite merge_entries_get in Hin by done.
  destruct (get k m) as [y|] eqn:Ey.
  - rewrite merge_value_at_some in Hin. injection Hin as <-. by apply H.
  - destruct (get k tm) as [x|] eqn:Ex; [|done]. injection Hin as <-. exact (get_forall _ _ _ Htm Ex).
Qed.

(** Merging keeps values as the parser makes them. *)
Lemma deep_merge_well_formed f : forall t, well_formed f = true -> (forall x, t = Some x -> well_formed x = true) ->
  well_formed (merge_onto t f) = true.
Proof.
  induction f as [| | | | |m IH] using Json_nested_ind; intros t Hf Ht; try by destruct t.
  apply well_formed_object in Hf as [Hd Hw]. pose proof (object_entries_wf t Ht) as [Hd0 Hw0].
  rewrite merge_onto_object by done. apply well_formed_object. split; [by apply merge_entries_wf|].
  apply (merge_entries_forall (fun v => well_formed v = true)); [done..|]. intros k y Hy.
  apply (proj1 (Forall_forall _ _) IH (k, y) (get_entry _ _ _ Hy)); [apply (get_test _ _ _ _ Hw Hy)|].
  intros x Hx. apply (get_test _ _ _ _ Hw0 Hx).
Qed.

(** Merging nests no deeper than its parts and makes no number. *)
Lemma deep_merge_tame f : forall d t, well_formed f = true -> tame d f = true ->
  (forall x, t = Some x -> well_formed x = true /\ tame d x = true) -> tame d (merge_onto t f) = true.
Proof.
  induction f as [| | | | |m IH] using Json_nested_ind; intros d t Hf Hd Ht; try by destruct t.
  apply well_formed_object in Hf as [Hk Hw].
  destruct (object_entries_wf t) as [Hk0 Hw0]; [intros x Hx; by apply Ht|].
  rewrite merge_onto_object by done. destruct d as [|d]; [done|]. cbn [tame] in *. apply forallb_entries in Hd. apply forallb_entries.
  assert (Hd0 : Forall (fun e => tame d (snd e) = true) (object_entries t)).
  { destruct t as [[| | | | |tm]|]; cbn [object_entries]; try constructor. destruct (Ht _ eq_refl) as [_ H].
    by apply forallb_entries. }
  apply (merge_entries_forall (fun v => tame d v = true)); [done..|]. intros k y Hy.
  apply (proj1 (Forall_forall _ _) IH (k, y) (get_entry _ _ _ Hy)); [apply (get_test _ _ _ _ Hw Hy)|apply (get_test _ _ _ _ Hd Hy)|].
  intros x Hx. split; [apply (get_test _ _ _ _ Hw0 Hx)|apply (get_test _ _ _ _ Hd0 Hx)].
Qed.

(** A merge of objects keeps the target's keys in place, appends the others in
    the fragment's order, and merges value by value. *)
Theorem merge_is_pointwise tm fm key : NoDup (keys fm) ->
  exists m, deep_merge (JObject tm) (JObject fm) = JObject m /\
    keys m = keys tm ++ new_keys tm fm /\ get key m = merge_value_at (get key tm) (get key fm).
Proof. intros Hd. eexists. split; [apply deep_merge_objects|]. split; [by apply merge_entries_keys|by apply merge_entries_get]. Qed.

(** ** Values are countable *)

Fixpoint to_tree (v : Json) : gen_tree (Z + string) :=
  match v with
  | JNull => GenNode 0 []
  | JBool b => GenNode (if b then 1 else 2) []
  | JNumber (Int n) => GenLeaf (inl n)
  | JNumber (Float s) => GenNode 3 [GenLeaf (inr s)]
  | JString s => GenLeaf (inr s)
  | JArray l => GenNode 4 (map to_tree l)
  | JObject m => GenNode 5 (map (fun e => GenNode 6 [GenLeaf (inr (fst e)); to_tree (snd e)]) m)
  end.

Fixpoint of_tree (t : gen_tree (Z + string)) : Json :=
  match t with
  | GenLeaf (inl n) => JNumber (Int n)
  | GenLeaf (inr s) => JString s
  | GenNode 1 _ => JBool true
  | GenNode 2 _ => JBool false
  | GenNode 3 [GenLeaf (inr s)] => JNumber (Float s)
  | GenNode 4 l => JArray (map of_tree l)
  | GenNode 5 l =>
      JObject (map (fun e => match e with GenNode _ [GenLeaf (inr k); v] => (k, of_tree v) | _ => (EmptyString, JNull) end) l)
  | _ => JNull
  end.

Lemma of_to_tree v : of_tree (to_tree v) = v.
Proof.
  induction v as [|[]|[]| |l IH|m IH] using Json_nested_ind; [done..| |]; cbn [to_tree of_tree]; f_equal; rewrite List.map_map;
    (induction IH as [|x l Hx _ IHl]; [done|]; cbn; rewrite Hx, IHl; by try destruct x).
Qed.

#[export] Instance Json_eq_dec : EqDecision Json.
Proof. refine (fun x y => cast_if (decide (to_tree x = to_tree y))); [rewrite <- (of_to_tree x), <- (of_to_tree y)|]; congruence. Defined.

#[export] Instance Json_countable : Countable Json := inj_countable' to_tree of_tree of_to_tree.
