(* ===== verification/Serde.v ===== *)
(** * The derived shapes of records

    What the derive of serde makes of the attributes in willie-core and
    willie-proto, over the value tree of serde_json: fields by name, with their
    defaults and what is left out; unknown fields; enums by tag; a flattened
    enum beside other fields; an array read as a record's fields in order.  The
    laws say that a record reads back from any object that holds its fields,
    whatever else is in it.  [Shapes] has the records themselves. *)

From S2P Require Import Prelude Json.

Local Open Scope string_scope.
Local Open Scope list_scope.

(** ** Values with a shape

    [fits] is what the Rust type bounds and the model's does not. *)

Class Shape (A : Type) : Type := {
  to_value : A -> Json;
  from_value : Json -> option A;
  fits : A -> bool
}.

Class Reads (A : Type) `{Shape A} : Prop := from_to : forall a : A, fits a = true -> from_value (to_value a) = Some a.

#[export] Hint Mode Shape ! : typeclass_instances.
#[export] Hint Mode Reads ! - : typeclass_instances.

#[export] Instance bool_shape : Shape bool := {| to_value := JBool; from_value := as_bool; fits _ := true |}.

#[export] Instance unit_shape : Shape unit :=
  {| to_value _ := JNull; from_value v := match v with JNull => Some tt | _ => None end; fits _ := true |}.

#[export] Instance string_shape : Shape string := {| to_value := JString; from_value := as_str; fits _ := true |}.

#[export] Instance json_shape : Shape Json := {| to_value := id; from_value := Some; fits _ := true |}.

(** An integer type by its bounds. *)
Definition int_shape (lo hi : Z) : Shape Z :=
  {| to_value n := JNumber (Int n);
     from_value v := match v with JNumber (Int n) => if in_range lo hi n then Some n else None | _ => None end;
     fits := in_range lo hi |}.

(** A null is [None], whatever the inner shape. *)
#[export] Instance option_shape {A} `{Shape A} : Shape (option A) :=
  {| to_value o := match o with Some a => to_value a | None => JNull end;
     from_value v := match v with JNull => Some None | _ => Some <$> from_value v end;
     fits o := match o with Some a => fits a && match to_value a with JNull => false | _ => true end | None => true end |}.

#[export] Instance list_shape {A} `{Shape A} : Shape (list A) :=
  {| to_value l := JArray (map to_value l);
     from_value v := match v with JArray l => mapM from_value l | _ => None end;
     fits l := forallb fits l |}.

#[export] Instance bool_reads : Reads bool.
Proof. by intros b _. Qed.

#[export] Instance unit_reads : Reads unit.
Proof. by intros []. Qed.

#[export] Instance string_reads : Reads string.
Proof. by intros s _. Qed.

#[export] Instance json_reads : Reads Json.
Proof. by intros v _. Qed.

Lemma int_reads lo hi : Reads (H := int_shape lo hi) Z.
Proof. intros n Hn. cbn in *. by rewrite Hn. Qed.

#[export] Instance option_reads {A} `{Shape A} `{!Reads A} : Reads (option A).
Proof.
  intros [a|] Ha; [|done]. cbn in *. apply andb_true_iff in Ha as [Ha Hn]. rewrite (from_to a Ha). by destruct (to_value a).
Qed.

#[export] Instance list_reads {A} `{Shape A} `{!Reads A} : Reads (list A).
Proof.
  intros l Hl. cbn in *. induction l as [|a l IH]; [done|]. cbn in *. apply andb_true_iff in Hl as [Ha Hl].
  by rewrite (from_to a Ha), (IH Hl).
Qed.

(** ** Fields

    What a record writes of its fields, and how it reads them: by name, or in
    order from an array, which gives what is left of it. *)

Record Layout (A : Type) : Type := mk_layout {
  names : list string;
  put : A -> Entries;
  named : Entries -> option A;
  positional : list Json -> option (A * list Json);
  holds : A -> bool
}.
#[global] Arguments mk_layout {A}. #[global] Arguments names {A}. #[global] Arguments put {A}.
#[global] Arguments named {A}. #[global] Arguments positional {A}. #[global] Arguments holds {A}.

(** An object agrees with another on some names. *)
Definition agree (ks : list string) (m m' : Entries) : Prop := forall k, k ∈ ks -> get k m = get k m'.

(** A layout writes under its names only, and reads back what it wrote from any
    object that agrees on them. *)
Class Lawful {A} (L : Layout A) : Prop := {
  put_names : forall a k, k ∈ keys (put L a) -> k ∈ names L;
  named_put : forall a m, holds L a = true -> agree (names L) m (put L a) -> named L m = Some a
}.

Section fields.
  Context {A : Type} `{Shape A}.

Definition first_of (l : list Json) : option (A * list Json) :=
  match l with v :: l => (fun a => (a, l)) <$> from_value v | [] => None end.

(** A field that must be there. *)
Definition required (key : string) : Layout A :=
  mk_layout [key] (fun a => [(key, to_value a)]) (fun m => get key m ≫= from_value) first_of fits.

(** [#[serde(default)]]. *)
Definition defaulted (key : string) (d : A) : Layout A :=
  mk_layout [key] (fun a => [(key, to_value a)])
    (fun m => match get key m with Some v => from_value v | None => Some d end)
    (fun l => match l with [] => Some (d, []) | _ => first_of l end) fits.

(** [#[serde(default, skip_serializing_if = ...)]]. *)
Definition skipped (key : string) (d : A) (skip : A -> bool) : Layout A :=
  mk_layout [key] (fun a => if skip a then [] else [(key, to_value a)])
    (fun m => match get key m with Some v => from_value v | None => Some d end)
    (fun l => match l with [] => Some (d, []) | _ => first_of l end)
    fits.

Lemma get_one key v : get key [(key, v)] = Some v.
Proof. cbn. by rewrite bool_decide_true. Qed.

#[export] Instance required_lawful `{!Reads A} key : Lawful (required key).
Proof.
  split; cbn; [done|]. intros a m Ha Hm. rewrite (Hm key), get_one by (by left). by apply from_to.
Qed.

#[export] Instance defaulted_lawful `{!Reads A} key d : Lawful (defaulted key d).
Proof.
  split; cbn; [done|]. intros a m Ha Hm. rewrite (Hm key), get_one by (by left). by apply from_to.
Qed.

Lemma skipped_lawful `{!Reads A} key d skip (Hs : forall a, skip a = true -> a = d) : Lawful (skipped key d skip).
Proof.
  split; cbn.
  - intros a k. destruct (skip a); [by intros ?%elem_of_nil|done].
  - intros a m Ha Hm. rewrite (Hm key) by (by left). destruct (skip a) eqn:E; [by rewrite (Hs a E)|].
    rewrite get_one. by apply from_to.
Qed.
End fields.

(** An [Option] that is left out when it is [None]; one that is not reads a
    missing field all the same, but by name only. *)
Definition optional {A} `{Shape A} (key : string) : Layout (option A) :=
  skipped key None (fun o => match o with None => true | Some _ => false end).

Definition nullable {A} `{Shape A} (key : string) : Layout (option A) :=
  mk_layout [key] (fun a => [(key, to_value a)])
    (fun m => match get key m with Some v => from_value v | None => Some None end) first_of fits.

#[export] Instance optional_lawful {A} `{Shape A} `{!Reads A} key : Lawful (optional (A := A) key).
Proof. apply skipped_lawful. by intros [a|]. Qed.

#[export] Instance nullable_lawful {A} `{Shape A} `{!Reads A} key : Lawful (nullable (A := A) key).
Proof.
  split; cbn; [done|]. intros a m Ha Hm. rewrite (Hm key), get_one by (by left). exact (from_to (A := option A) a Ha).
Qed.

(** *** Several fields *)

Definition disjoint_names (a b : list string) : bool := forallb (fun k => negb (bool_decide (k ∈ b))) a.

Definition no_fields : Layout unit := mk_layout [] (fun _ => []) (fun _ => Some tt) (fun l => Some (tt, l)) (fun _ => true).

Definition both {A B} (L1 : Layout A) (L2 : Layout B) : Layout (A * B) :=
  mk_layout (names L1 ++ names L2) (fun p => put L1 (fst p) ++ put L2 (snd p))
    (fun m => a ← named L1 m; b ← named L2 m; Some (a, b))
    (fun l => '(a, l) ← positional L1 l; '(b, l) ← positional L2 l; Some (a, b, l))
    (fun p => holds L1 (fst p) && holds L2 (snd p)).

Declare Scope serde_scope.
Infix "&&&" := both (at level 40, left associativity) : serde_scope.

(** The same fields as another type. *)
Definition as_type {A B} (L : Layout A) (f : A -> B) (g : B -> A) : Layout B :=
  mk_layout (names L) (fun b => put L (g b)) (fun m => f <$> named L m)
    (fun l => (fun x => (f (fst x), snd x)) <$> positional L l) (fun b => holds L (g b)).

#[export] Instance no_fields_lawful : Lawful no_fields.
Proof. split; [done|]. by intros [] m _ _. Qed.

Lemma get_app_in k a b : k ∈ keys a -> get k (a ++ b) = get k a.
Proof.
  induction a as [|[k' v] a IH]; cbn; [by intros ?%elem_of_nil|]. intros [->|Hk]%elem_of_cons; [by rewrite !bool_decide_true|].
  case_bool_decide; [done|by apply IH].
Qed.

Lemma get_app_out k a b : k ∉ keys a -> get k (a ++ b) = get k b.
Proof.
  induction a as [|[k' v] a IH]; cbn; [done|]. intros [Hk Hn]%not_elem_of_cons. rewrite bool_decide_false by congruence. by apply IH.
Qed.

Lemma get_no_key k m : k ∉ keys m -> get k m = None.
Proof. intros Hk. rewrite <- (app_nil_r m). by rewrite get_app_out. Qed.

Lemma disjoint_names_out a b : disjoint_names a b = true -> forall k, k ∈ a -> k ∉ b.
Proof.
  unfold disjoint_names. rewrite forallb_forall. intros Hd k Hk.
  by apply (bool_decide_eq_false (k ∈ b)), negb_true_iff, Hd, list_elem_of_In.
Qed.

Lemma both_lawful {A B} (L1 : Layout A) (L2 : Layout B) : Lawful L1 -> Lawful L2 ->
  disjoint_names (names L1) (names L2) = true -> Lawful (both L1 L2).
Proof.
  intros W1 W2 Hd. pose proof (disjoint_names_out _ _ Hd) as Hne.
  split; cbn.
  - intros [a b] k. unfold keys. rewrite map_app, !elem_of_app. intros [Hk|Hk]; [left|right]; by eapply put_names.
  - intros [a b] m [Ha Hb]%andb_true_iff Hm. cbn in *. rewrite (named_put a), (named_put b); [done|done| |done|].
    + intros k Hk. rewrite Hm by (apply elem_of_app; by right). apply get_app_out. intros Hi%put_names. by apply (Hne k).
    + intros k Hk. rewrite Hm by (apply elem_of_app; by left). destruct (decide (k ∈ keys (put L1 a))) as [Hi|Hi]; [by apply get_app_in|].
      rewrite get_app_out, (get_no_key k (put L1 a)) by done. apply get_no_key. intros Hi2%put_names. by apply (Hne k).
Qed.

Lemma as_type_lawful {A B} (L : Layout A) (f : A -> B) (g : B -> A) : Lawful L -> (forall b, f (g b) = b) -> Lawful (as_type L f g).
Proof.
  intros Hl Hfg. split; cbn; [intros b k; apply put_names|]. intros b m Hb Hm. rewrite (named_put (g b) m Hb Hm). cbn. by rewrite Hfg.
Qed.

#[export] Hint Extern 2 (Lawful (both _ _)) => apply both_lawful; [..|vm_compute; reflexivity] : typeclass_instances.
#[export] Hint Extern 2 (Lawful (as_type _ _ _)) => apply as_type_lawful; [|by intros []] : typeclass_instances.

(** ** Records *)

(** [Deserialize] of a struct: by name, or in order and to the last value. *)
Definition struct_shape {A} (L : Layout A) : Shape A :=
  {| to_value a := JObject (put L a);
     from_value v :=
       match v with
       | JObject m => named L m
       | JArray l => match positional L l with Some (a, []) => Some a | _ => None end
       | _ => None
       end;
     fits := holds L |}.

(** With a flattened field, by name only. *)
Definition flat_shape {A} (L : Layout A) : Shape A :=
  {| to_value a := JObject (put L a);
     from_value v := match v with JObject m => named L m | _ => None end;
     fits := holds L |}.

(** [#[serde(deny_unknown_fields)]]. *)
Definition strict_shape {A} (L : Layout A) : Shape A :=
  {| to_value a := JObject (put L a);
     from_value v :=
       match v with
       | JObject m => if forallb (fun k => bool_decide (k ∈ names L)) (keys m) then named L m else None
       | JArray l => match positional L l with Some (a, []) => Some a | _ => None end
       | _ => None
       end;
     fits := holds L |}.

Section structs.
  Context {A : Type} (L : Layout A) `{!Lawful L}.

Lemma struct_reads : Reads (H := struct_shape L) A.
Proof. intros a Ha. cbn in *. by apply named_put. Qed.

Lemma flat_reads : Reads (H := flat_shape L) A.
Proof. intros a Ha. cbn in *. by apply named_put. Qed.

Lemma strict_reads : Reads (H := strict_shape L) A.
Proof.
  intros a Ha. cbn in *. rewrite (proj2 (forallb_forall _ _)); [by apply named_put|]. intros k Hk%list_elem_of_In.
  apply bool_decide_eq_true. by eapply put_names.
Qed.

(** What a later version adds does not matter to this one. *)
Lemma named_among a more : holds L a = true -> disjoint_names (keys more) (names L) = true ->
  named L (put L a ++ more) = Some a.
Proof.
  intros Ha Hd. pose proof (disjoint_names_out _ _ Hd) as Hm. apply named_put; [done|]. intros k Hk. destruct (decide (k ∈ keys (put L a))) as [Hi|Hi]; [by apply get_app_in|].
  rewrite get_app_out, (get_no_key k (put L a)) by done. apply get_no_key. intros Hi2. by apply (Hm k).
Qed.

Lemma strict_refuses m k : k ∈ keys m -> k ∉ names L -> from_value (Shape := strict_shape L) (JObject m) = None.
Proof.
  intros Hk Hn. cbn. destruct (forallb _ _) eqn:E; [|done]. rewrite forallb_forall in E.
  specialize (E k (proj1 (list_elem_of_In _ _) Hk)). by apply bool_decide_eq_true in E.
Qed.
End structs.

(** ** Enums *)

(** Without data, by the variant's name; [{"name": null}] is the same. *)
Definition enum_shape {A} (name : A -> string) (all : list A) : Shape A :=
  {| to_value a := JString (name a);
     from_value v :=
       match v with
       | JString s | JObject [(s, JNull)] => List.find (fun a => bool_decide (name a = s)) all
       | _ => None
       end;
     fits _ := true |}.

Lemma enum_reads {A} (name : A -> string) all : (forall a, List.find (fun b => bool_decide (name b = name a)) all = Some a) ->
  Reads (H := enum_shape name all) A.
Proof. intros Ha a _. apply Ha. Qed.

(** *** By a field of the variant's name: [#[serde(tag = ...)]] *)

Record Variant (B : Type) : Type := mk_variant { v_name : string; v_arg : Type; v_layout : Layout v_arg; v_make : v_arg -> B }.
#[global] Arguments mk_variant {B} v_name {v_arg}. #[global] Arguments v_name {B}. #[global] Arguments v_arg {B}.
#[global] Arguments v_layout {B}. #[global] Arguments v_make {B}.

(** A value as a variant and its data. *)
Definition Case (B : Type) : Type := { v : Variant B & v_arg v }.

Definition unit_variant {B} (name : string) (b : B) : Variant B := mk_variant name no_fields (fun _ => b).

Section tagged.
  Context {B : Type} (tag : string) (variants : list (Variant B)) (case : B -> Case B).

Definition variant_of (s : string) : option (Variant B) := List.find (fun v => bool_decide (v_name v = s)) variants.

Definition tagged : Layout B :=
  mk_layout (tag :: concat (map (fun v => names (v_layout v)) variants))
    (fun b => let (v, x) := case b in (tag, JString (v_name v)) :: put (v_layout v) x)
    (fun m => s ← get tag m ≫= as_str; v ← variant_of s; v_make v <$> named (v_layout v) m)
    (fun l =>
       match l with
       | JString s :: l => v ← variant_of s; (fun x => (v_make v (fst x), snd x)) <$> positional (v_layout v) l
       | _ => None
       end)
    (fun b => let (v, x) := case b in holds (v_layout v) x).

(** What each value's variant is to be. *)
Definition proper (b : B) : Prop :=
  let (v, x) := case b in variant_of (v_name v) = Some v /\ v_make v x = b /\ Lawful (v_layout v)
  /\ bool_decide (tag ∈ names (v_layout v)) = false.

Lemma tagged_lawful : (forall b, proper b) -> Lawful tagged.
Proof.
  intros Hp. split; cbn.
  - intros b k. specialize (Hp b). unfold proper in Hp. destruct (case b) as [v x]. destruct Hp as (Hv & _ & Hl & _).
    cbn. intros [->|Hk]%elem_of_cons; [by left|]. right. apply put_names in Hk. unfold variant_of in Hv. apply List.find_some in Hv as [Hv _].
    apply list_elem_of_In, in_concat. exists (names (v_layout v)). split; [|by apply list_elem_of_In].
    apply in_map_iff. by exists v.
  - intros b m. specialize (Hp b). unfold proper in Hp. destruct (case b) as [v x]. destruct Hp as (Hv & Hb & Hl & Ht%bool_decide_eq_false).
    intros Hh Hm. assert (forall k, k ∈ names (v_layout v) -> get k m = get k (put (v_layout v) x)) as Hin.
    { intros k Hk. rewrite Hm.
      - cbn. rewrite bool_decide_false; [done|]. by intros ->.
      - right. unfold variant_of in Hv. apply List.find_some in Hv as [Hv _]. apply list_elem_of_In, in_concat.
        exists (names (v_layout v)). split; [|by apply list_elem_of_In]. apply in_map_iff. by exists v. }
    rewrite (Hm tag) by (by left). cbn. rewrite bool_decide_true by done. cbn. rewrite Hv. cbn.
    rewrite (named_put x m Hh Hin). cbn. by rewrite Hb.
Qed.
End tagged.
