(* ===== verification/Rpc.v ===== *)
(** * The protocol's envelopes

    crates/willie-proto/src/rpc.rs: requests, responses and notifications, one
    per line of JSON; serde reads and prints them. *)

From S2P Require Import Prelude Json.

(** The revision of the protocol. *)
Definition PROTOCOL_VERSION : Z := 1.

Record RpcError : Type := mk_rpc { x_code : string; x_message : string; x_remediation : option string }.

Record RpcRequest : Type := mk_rpc_request { q_id : Z; q_method : string; q_params : Json }.

Record Response : Type := mk_response { a_id : Z; a_result : option Json; a_error : option RpcError }.

Record Notification : Type := mk_notification { n_method : string; n_params : Json }.

Definition with_remediation (hint : string) (e : RpcError) : RpcError := mk_rpc (x_code e) (x_message e) (Some hint).

Definition response_err (id : Z) (e : RpcError) : Response := mk_response id None (Some e).

(** [into_result]: an error wins, and nothing at all is a null. *)
Definition a_outcome (r : Response) : result Json RpcError :=
  match a_result r, a_error r with
  | _, Some e => Err e
  | Some v, None => Ok v
  | None, None => Ok JNull
  end.

(** The response the daemon makes of a handler's outcome. *)
Definition respond (id : Z) (r : result Json RpcError) : Response :=
  match r with Ok v => mk_response id (Some v) None | Err e => response_err id e end.

Lemma respond_outcome id r : a_id (respond id r) = id /\ a_outcome (respond id r) = r.
Proof. by destruct r. Qed.
