(* ===== verification/Logs.v ===== *)
(** * A harness's session logs

    What the usage plugin (crates/willie-plugins/usage) and the session titles
    (crates/willied/src/session_title.rs) share: a directory of JSONL files
    another process writes, its file names and times, and the records of a
    text, each line on its own. *)

From S2P Require Import Prelude Text Utf8 Json.

Local Open Scope string_scope.
Local Open Scope list_scope.

(** ** Files *)

(** An entry of a directory: its name's bytes, and its modification time in
    seconds since the epoch where the metadata gives one. *)
Record DirEntry : Type := mk_dir_entry { file_name : string; modified : option Z }.

(** An open file: its length where the metadata gives one, and what reading
    from an offset, up to a limit or to the end, gives. *)
Record File : Type := mk_file { len : option nat; read_at : nat -> option nat -> option string }.

Definition limited (limit : option nat) (s : string) : string := match limit with Some n => str_take n s | None => s end.

(** A file nothing fails on. *)
Definition file_of (content : string) : File :=
  mk_file (Some (String.length content)) (fun start limit => Some (limited limit (str_drop start content))).

(** [Path::extension] of a file name: what follows its last dot, unless that
    dot leads it. *)
Definition extension (name : string) : option string :=
  let pieces := split "." name in
  if bool_decide (name = "..") || is_empty (join "." (removelast pieces)) then None else last pieces.

Definition is_jsonl (e : DirEntry) : bool := bool_decide (extension (file_name e) ≫= to_str = Some "jsonl").

(** ** Records *)

Section records.
  (** [serde_json::from_str]. *)
  Context (from_str : string -> result Json string).

(** The object a line holds. *)
Definition record_of (line : string) : option Entries :=
  let line := trim line in
  if is_empty line then None
  else match from_str line with Ok value => as_object value | Err _ => None end.

Definition records (text : string) : list Entries := omap record_of (lines text).

End records.

(** ** Lemmas *)

Lemma end_lines_app l1 l2 : l2 <> [] -> end_lines (l1 ++ l2) = map drop_return l1 ++ end_lines l2.
Proof.
  intros H. induction l1 as [|x l1 IH]; [done|]. cbn [app map end_lines]. rewrite <- IH.
  destruct (l1 ++ l2) eqn:E; [|done]. destruct l1; [by destruct l2|done].
Qed.

(** A text is read line by line. *)
Lemma lines_app a b : lines (a +:+ String newline b) = lines (a +:+ String newline EmptyString) ++ lines b.
Proof.
  unfold lines. rewrite !split_app, !end_lines_app by (try done; apply split_nonempty). cbn. by rewrite app_nil_r.
Qed.

Lemma records_app from_str a b :
  records from_str (a +:+ String newline b) = records from_str (a +:+ String newline EmptyString) ++ records from_str b.
Proof. unfold records. by rewrite lines_app, omap_app. Qed.
