(* ===== verification/PluginApi.v ===== *)
(** * The contract between the daemon and its plugins

    crates/willie-plugin-api/src/lib.rs: what a plugin says of itself, what the
    host hands it, and what it answers. *)

From S2P Require Import Prelude Text Json.

Local Open Scope string_scope.

Inductive Scope : Type := Global | PerProject.

Record PluginManifest : Type := mk_manifest { m_id : string; m_name : string; m_scope : Scope }.

Inductive PluginError : Type :=
| Internal (message : string)
| BadRequest (message : string)
| Coded (code message remediation : string).

Definition coded (code message remediation : string) : PluginError := Coded code message remediation.

Definition code (e : PluginError) : string :=
  match e with
  | Internal _ => "plugin_internal"
  | BadRequest _ => "plugin_bad_request"
  | Coded code _ _ => code
  end.

Definition remediation (e : PluginError) : string :=
  match e with
  | Internal _ => "retry; if it repeats, check the daemon log"
  | BadRequest _ => "check the request's method and parameters and retry"
  | Coded _ _ remediation => remediation
  end.

(** [Display]. *)
Definition display (e : PluginError) : string :=
  match e with
  | Internal m => "internal plugin error: " +:+ m
  | BadRequest m => "bad request: " +:+ m
  | Coded _ m _ => m
  end.

Record PluginRequest : Type := mk_request { method : string; params : Json }.

(** A response is its JSON value. *)
Inductive PluginResponse : Type := JsonResponse (v : Json).

Definition into_value (r : PluginResponse) : Json := let 'JsonResponse v := r in v.

Inductive CoreEvent : Type :=
| SessionStarted (session_id project_id : N)
| SessionExited (session_id : N)
| ProjectRegistered (project_id : N)
| Tick.

Record PluginEmission : Type := mk_emission { kind : string; payload : Json }.
