(* ===== verification/Profiles.v ===== *)
(** * Configuration profiles: the fragments and their merge

    Models crates/willie-plugins/profiles/src/model.rs and apply.rs, which are
    pure.  JSON parsing and printing are [serde_json]'s, hence parameters. *)

From S2P Require Import Prelude Text Json.

Local Open Scope string_scope.
Local Open Scope list_scope.
Local Open Scope willie_scope.

(** ** model.rs *)

Inductive SettingsScope : Type := ScopeProject | ScopeGlobal.

Record Fragments : Type := mk_fragments {
  settings : bool; settings_scope : SettingsScope; instructions : bool;
  rules : list string; hooks : list string; mcp : bool
}.

Definition default_fragments : Fragments := mk_fragments false ScopeProject false [] [] false.

Record Profile : Type := mk_profile { name : string; fragments : Fragments }.

Record ProfileSummary : Type := mk_summary { s_name : string; fragments_active : list string }.

Definition active_names (f : Fragments) : list string :=
  (if settings f then ["settings"] else []) ++ (if instructions f then ["instructions"] else []) ++
  (if mcp f then ["mcp"] else []) ++ map (fun n => "rules/" +:+ n) (rules f) ++ map (fun n => "hooks/" +:+ n) (hooks f).

Definition scaffold (name : string) : Profile := mk_profile name default_fragments.

Definition summary_of (p : Profile) : ProfileSummary := mk_summary (name p) (active_names (fragments p)).

Inductive Fragment : Type := Settings | Instructions | Mcp | Rule (f : string) | Hook (f : string).

Definition starts_with_drive_letter (s : string) : bool :=
  match s with String a (String b _) => is_ascii_alphabetic a && bool_decide (b = ":"%char) | _ => false end.

Definition is_safe_file_name (f : string) : bool :=
  negb (is_empty f) && negb (contains_char "/" f) && negb (contains_char "\" f) && negb (bool_decide (f = "."))
  && negb (bool_decide (f = "..")) && negb (starts_with_drive_letter f).

Definition is_valid_profile_name (name : string) : bool := is_safe_file_name name.

Definition parse_fragment_name (s : string) : option Fragment :=
  if bool_decide (s = "settings") then Some Settings
  else if bool_decide (s = "instructions") then Some Instructions
  else if bool_decide (s = "mcp") then Some Mcp
  else match strip_prefix "rules/" s with
       | Some f => if is_safe_file_name f then Some (Rule f) else None
       | None =>
           match strip_prefix "hooks/" s with
           | Some f => if is_safe_file_name f then Some (Hook f) else None
           | None => None
           end
       end.

Definition relative_path (f : Fragment) : string :=
  match f with
  | Settings => "settings.json"
  | Instructions => "CLAUDE.md"
  | Mcp => "mcp.json"
  | Rule f => "rules/" +:+ f
  | Hook f => "hooks/" +:+ f
  end.

Definition push_once (list : list string) (item : string) : Datatypes.list string :=
  if existsb (fun e => bool_decide (e = item)) list then list else list ++ [item].

Definition mark_active (f : Fragment) (x : Fragments) : Fragments :=
  match f with
  | Settings => mk_fragments true (settings_scope x) (instructions x) (rules x) (hooks x) (mcp x)
  | Instructions => mk_fragments (settings x) (settings_scope x) true (rules x) (hooks x) (mcp x)
  | Mcp => mk_fragments (settings x) (settings_scope x) (instructions x) (rules x) (hooks x) true
  | Rule f => mk_fragments (settings x) (settings_scope x) (instructions x) (push_once (rules x) f) (hooks x) (mcp x)
  | Hook f => mk_fragments (settings x) (settings_scope x) (instructions x) (rules x) (push_once (hooks x) f) (mcp x)
  end.

(** ** apply.rs *)

Record ApplyError : Type := mk_apply_error { a_code : string; a_message : string }.

Record FragmentContent : Type := mk_content { fragment : string; existing : option string }.

Record Targets : Type := mk_targets {
  t_settings : option FragmentContent; t_mcp : option FragmentContent; t_instructions : option FragmentContent;
  t_rules : gmap string FragmentContent; t_hooks : gmap string FragmentContent
}.

Inductive ChangeKind : Type := Create | Merge | Overwrite.

Record Change : Type := mk_change { path : string; kind : ChangeKind; after : string }.

Definition MARKER_BEGIN : string := "<!-- willie:begin -->".
Definition MARKER_END : string := "<!-- willie:end -->".

Definition nl : string := String newline EmptyString.

(** *** Markdown *)

Definition marker_block (fragment : string) : string :=
  MARKER_BEGIN +:+ (nl +:+ (trim_matches newline fragment +:+ (nl +:+ MARKER_END))).

Definition markers_malformed : ApplyError :=
  mk_apply_error "profile_markers_malformed" ("the willie-managed block is missing its closing " +:+
    "<!-- willie:end --> marker; fix or remove the stray <!-- willie:begin --> marker, then apply again").

Definition marker_span (target : string) : result (option (nat * nat)) ApplyError :=
  match find MARKER_BEGIN target with
  | None => Ok None
  | Some start =>
      let after_begin := start + String.length MARKER_BEGIN in
      match find MARKER_END (str_drop after_begin target) with
      | None => Err markers_malformed
      | Some end_rel => Ok (Some (start, after_begin + end_rel + String.length MARKER_END))
      end
  end.

Definition append_block (target block : string) : string :=
  if is_empty target then block +:+ nl
  else (if ends_with_char newline target then target else target +:+ nl) +:+ (nl +:+ (block +:+ nl)).

Definition merge_markdown (target fragment : string) : result string ApplyError :=
  let block := marker_block fragment in
  let? span := marker_span target in
  match span with
  | Some (start, end_) => Ok (str_take start target +:+ (block +:+ str_drop end_ target))
  | None => Ok (append_block target block)
  end.

(** *** JSON *)

Section apply.
  (** [serde_json::from_str] and [to_string_pretty]. *)
  Context (from_str : string -> result Json string) (to_string_pretty : Json -> result string string).

Definition parse_json (text which : string) : result Json ApplyError :=
  map_err (fun e => mk_apply_error "profile_fragment_invalid" ("the " +:+ which +:+ " is not valid JSON: " +:+ e))
    (from_str text).

Definition serialize_pretty (value : Json) : result string ApplyError :=
  let? out := map_err (fun e => mk_apply_error "profile_fragment_invalid" ("cannot serialise the merged JSON: " +:+ e))
    (to_string_pretty value) in
  Ok (out +:+ nl).

(** [entry(key).or_insert_with(..)], then the merge into the slot. *)
Definition merge_slot (key : string) (fragment : Json) (target_map : Entries) : Entries :=
  let target_map := match get key target_map with Some _ => target_map | None => insert_entry key (JObject []) target_map end in
  alter_entry (fun slot => deep_merge slot fragment) key target_map.

Definition merge_value (target fragment : string) (under : option string) : result string ApplyError :=
  let? target_value := parse_json target "target" in
  let? fragment_value := parse_json fragment "fragment" in
  match under with
  | None => serialize_pretty (deep_merge target_value fragment_value)
  | Some key =>
      match target_value with
      | JObject target_map => serialize_pretty (JObject (merge_slot key fragment_value target_map))
      | _ => Err (mk_apply_error "profile_fragment_invalid" "the target is not a JSON object")
      end
  end.

Definition merge_json (target fragment : string) : result string ApplyError := merge_value target fragment None.

Definition merge_under (target key fragment : string) : result string ApplyError := merge_value target fragment (Some key).

(** *** The plan *)

Definition missing_target (fragment : string) : ApplyError :=
  mk_apply_error "profile_fragment_missing"
    ("the `" +:+ fragment +:+ "` fragment is active but no target content was supplied").

Definition or_else {A} (a b : option A) : option A := match a with Some _ => a | None => b end.

Definition merged_kind (existing : option string) : ChangeKind := match existing with Some _ => Merge | None => Create end.

Definition plan_settings (f : Fragments) (t : Targets) : result (option Change) ApplyError :=
  if negb (settings f) && negb (mcp f) then Ok None
  else
    let old := or_else (t_settings t ≫= existing) (t_mcp t ≫= existing) in
    let current := default "{}" old in
    let? current :=
      (if settings f then
         let? content := ok_or (missing_target "settings") (t_settings t) in merge_json current (fragment content)
       else Ok current) in
    let? current :=
      (if mcp f then
         let? content := ok_or (missing_target "mcp") (t_mcp t) in merge_under current "mcpServers" (fragment content)
       else Ok current) in
    Ok (Some (mk_change ".claude/settings.json" (merged_kind old) current)).

Definition plan_instructions (t : Targets) : result Change ApplyError :=
  let? content := ok_or (missing_target "instructions") (t_instructions t) in
  let? after := merge_markdown (default EmptyString (existing content)) (fragment content) in
  Ok (mk_change "CLAUDE.md" (merged_kind (existing content)) after).

Fixpoint plan_files (names : list string) (inputs : gmap string FragmentContent) (dest_dir : string) :
    result (list Change) ApplyError :=
  match names with
  | [] => Ok []
  | name :: names =>
      let? content := ok_or (missing_target name) (inputs !! name) in
      let? changes := plan_files names inputs dest_dir in
      Ok (mk_change (dest_dir +:+ "/" +:+ name) (match existing content with Some _ => Overwrite | None => Create end)
            (fragment content) :: changes)
  end.

Definition plan_changes (p : Profile) (t : Targets) : result (list Change) ApplyError :=
  let f := fragments p in
  let? s := plan_settings f t in
  let? i := (if instructions f then let? c := plan_instructions t in Ok [c] else Ok []) in
  let? r := plan_files (rules f) (t_rules t) ".claude/rules" in
  let? h := plan_files (hooks f) (t_hooks t) ".claude/hooks" in
  Ok (option_list s ++ i ++ r ++ h).
End apply.

(** ** The markers *)

Lemma marker_span_none t : find MARKER_BEGIN t = None -> marker_span t = Ok None.
Proof. unfold marker_span. by intros ->. Qed.

Lemma drop_past a p b : str_drop (String.length a + String.length p) (a +:+ (p +:+ b)) = b.
Proof. rewrite <- str_length_app, str_app_assoc. apply str_drop_app. Qed.

Lemma marker_span_open a b : find MARKER_BEGIN (a +:+ (MARKER_BEGIN +:+ b)) = Some (String.length a) ->
  marker_span (a +:+ (MARKER_BEGIN +:+ b)) =
  match find MARKER_END b with
  | None => Err markers_malformed
  | Some n => Ok (Some (String.length a, String.length a + String.length MARKER_BEGIN + n + String.length MARKER_END))
  end.
Proof. intros H. unfold marker_span. rewrite H, drop_past. by destruct (find MARKER_END b). Qed.

(** A region is replaced where it stands. *)
Lemma merge_region a x c f : find MARKER_BEGIN (a +:+ (MARKER_BEGIN +:+ (x +:+ (MARKER_END +:+ c)))) = Some (String.length a) ->
  find MARKER_END (x +:+ (MARKER_END +:+ c)) = Some (String.length x) ->
  merge_markdown (a +:+ (MARKER_BEGIN +:+ (x +:+ (MARKER_END +:+ c)))) f = Ok (a +:+ (marker_block f +:+ c)).
Proof.
  intros Hb He. unfold merge_markdown. rewrite marker_span_open, He by done. do 2 f_equal; [apply str_take_app|]. f_equal.
  replace (_ + _ + _ + _) with (String.length (a +:+ (MARKER_BEGIN +:+ x)) + String.length MARKER_END)
    by (rewrite !str_length_app; lia).
  replace (a +:+ (MARKER_BEGIN +:+ (x +:+ (MARKER_END +:+ c)))) with ((a +:+ (MARKER_BEGIN +:+ x)) +:+ (MARKER_END +:+ c))
    by (by rewrite <- !str_app_assoc).
  apply drop_past.
Qed.

(** What a merge answers, on every branch. *)
Lemma merge_markdown_cases t f :
  (contains MARKER_BEGIN t = false /\ merge_markdown t f = Ok (append_block t (marker_block f))) \/
  (exists a b, t = a +:+ (MARKER_BEGIN +:+ b) /\ find MARKER_BEGIN t = Some (String.length a) /\
    ((contains MARKER_END b = false /\ merge_markdown t f = Err markers_malformed) \/
     exists x c, b = x +:+ (MARKER_END +:+ c) /\ find MARKER_END b = Some (String.length x) /\
       merge_markdown t f = Ok (a +:+ (marker_block f +:+ c)))).
Proof.
  unfold contains. destruct (find MARKER_BEGIN t) as [n|] eqn:Eb.
  - right. destruct (find_some _ _ _ Eb) as (a & b & -> & <-). exists a, b. split; [done|]. split; [done|].
    destruct (find MARKER_END b) as [m|] eqn:Ee.
    + right. destruct (find_some _ _ _ Ee) as (x & c & -> & <-). exists x, c. do 2 (split; [done|]). by apply merge_region.
    + left. split; [done|]. unfold merge_markdown. by rewrite marker_span_open, Ee.
  - left. split; [done|]. unfold merge_markdown. by rewrite marker_span_none.
Qed.

(** The separators an appended block follows. *)
Definition separators : list string := [EmptyString; nl; nl +:+ nl].

Lemma append_block_shape t block : exists sep, sep ∈ separators /\ append_block t block = t +:+ (sep +:+ (block +:+ nl)) /\
  (t +:+ sep = EmptyString \/ exists t', t +:+ sep = t' +:+ nl /\ (t' = t \/ t' = t +:+ nl)).
Proof.
  unfold append_block. destruct t as [|x t]; cbn [is_empty].
  - exists EmptyString. split; [in_list|]. split; [done|by left].
  - destruct (ends_with_char _ _).
    + exists nl. split; [in_list|]. split; [done|right]. eexists. split; [done|by left].
    + exists (nl +:+ nl). split; [in_list|]. split; [by rewrite <- !str_app_assoc|right].
      exists (String x t +:+ nl). split; [by rewrite <- !str_app_assoc|by right].
Qed.

(** Where a merged text has its region. *)
Lemma merged_region t f r : merge_markdown t f = Ok r ->
  exists a c, r = a +:+ (MARKER_BEGIN +:+ (nl +:+ (trim_matches newline f +:+ (nl +:+ (MARKER_END +:+ c))))) /\
    find MARKER_BEGIN r = Some (String.length a).
Proof.
  assert (Eblock : forall a c, a +:+ (marker_block f +:+ c) =
    a +:+ (MARKER_BEGIN +:+ (nl +:+ (trim_matches newline f +:+ (nl +:+ (MARKER_END +:+ c)))))).
  { intros a c. unfold marker_block. by rewrite <- !str_app_assoc. }
  destruct (merge_markdown_cases t f) as [[Hn ->]|(a & b & -> & Hb & [[_ ->]|(x & c & -> & He & ->)])].
  - intros E. injection E as <-. destruct (append_block_shape t (marker_block f)) as (sep & _ & -> & Hs).
    exists (t +:+ sep), nl. rewrite <- Eblock. split; [by rewrite <- str_app_assoc|]. rewrite str_app_assoc, Eblock.
    destruct Hs as [Hs|(t' & Hs & Ht')].
    + rewrite Hs, str_app_nil_l. apply find_here.
    + rewrite Hs, <- str_app_assoc. unfold nl at 1. rewrite str_app_cons, str_app_nil_l, find_after; [|done|done|].
      * rewrite str_length_app. cbn. f_equal. lia.
      * destruct Ht' as [->| ->]; [done|]. by rewrite (contains_snoc _ newline).
  - discriminate.
  - intros E. injection E as <-. exists a, c. rewrite Eblock. split; [done|]. by eapply find_stable.
Qed.

(** A text without the end marker has its region end at its own. *)
Lemma region_end f c : contains MARKER_END (trim_matches newline f) = false ->
  find MARKER_END (nl +:+ (trim_matches newline f +:+ (nl +:+ (MARKER_END +:+ c)))) =
  Some (String.length (nl +:+ (trim_matches newline f +:+ nl))).
Proof.
  intros H. rewrite !str_length_app. unfold nl at 1. rewrite str_app_cons, str_app_nil_l, find_cons.
  assert (Hs : forall v, starts_with MARKER_END (String newline v) = false).
  { intros v. exact (starts_with_stop MARKER_END newline eq_refl EmptyString v). }
  rewrite Hs.
  unfold nl at 1. rewrite str_app_cons, str_app_nil_l, find_after by done. cbn. f_equal. lia.
Qed.

(** A merge into [CLAUDE.md] keeps the person's prose: a file without a
    begin marker keeps all its bytes ahead of the block; a file with one loses
    only what is between the first begin marker and the first end marker after
    it; a begin marker without an end marker refuses the merge. *)
Theorem merge_markdown_keeps_prose t f :
  match merge_markdown t f with
  | Ok r =>
      (contains MARKER_BEGIN t = false /\ exists sep, sep ∈ separators /\ r = t +:+ (sep +:+ (marker_block f +:+ nl))) \/
      (exists a x c, t = a +:+ (MARKER_BEGIN +:+ (x +:+ (MARKER_END +:+ c))) /\ r = a +:+ (marker_block f +:+ c) /\
        find MARKER_BEGIN t = Some (String.length a) /\ find MARKER_END (x +:+ (MARKER_END +:+ c)) = Some (String.length x))
  | Err e => e = markers_malformed /\
      exists a b, t = a +:+ (MARKER_BEGIN +:+ b) /\ find MARKER_BEGIN t = Some (String.length a) /\ contains MARKER_END b = false
  end.
Proof.
  destruct (merge_markdown_cases t f) as [[Hn ->]|(a & b & -> & Hb & [[He ->]|(x & c & -> & He & ->)])].
  - left. split; [done|]. destruct (append_block_shape t (marker_block f)) as (sep & Hs & -> & _). eauto.
  - eauto 6.
  - right. exists a, x, c. done.
Qed.

(** Applying instructions converges exactly when they do not contain the
    end marker: a merge of a text without it changes nothing when repeated,
    and a merge of a text with it makes the file longer every time. *)
Theorem merge_markdown_converges t f r : merge_markdown t f = Ok r ->
  if contains MARKER_END (trim_matches newline f)
  then exists r', merge_markdown r f = Ok r' /\ String.length r < String.length r'
  else merge_markdown r f = Ok r.
Proof.
  intros H. destruct (merged_region t f r H) as (a & c & -> & Hb).
  destruct (contains MARKER_END (trim_matches newline f)) eqn:Ef.
  - set (after := nl +:+ (trim_matches newline f +:+ (nl +:+ (MARKER_END +:+ c)))) in *.
    assert (Hn : exists x c', after = x +:+ (MARKER_END +:+ c') /\ find MARKER_END after = Some (String.length x) /\
      String.length c < String.length c').
    { unfold contains in Ef. destruct (find MARKER_END (trim_matches newline f)) as [n|] eqn:En; [|done].
      apply find_some in En as (u & v & Eu & _).
      assert (Ea : after = (nl +:+ u) +:+ (MARKER_END +:+ (v +:+ (nl +:+ (MARKER_END +:+ c))))).
      { unfold after. rewrite Eu, <- !str_app_assoc. done. }
      destruct (find_bound MARKER_END (nl +:+ u) (v +:+ (nl +:+ (MARKER_END +:+ c)))) as (m & Hm & Hl). rewrite <- Ea in Hm.
      destruct (find_some _ _ _ Hm) as (x & c' & Ex & Hx). exists x, c'. split; [done|]. rewrite Hx. split; [done|].
      apply (f_equal String.length) in Ea. rewrite Ex in Ea. rewrite !str_length_app in Ea. rewrite str_length_app in Hl.
      change (String.length nl) with 1 in *. lia. }
    destruct Hn as (x & c' & Ex & He & Hl). rewrite Ex in *. eexists. split; [by apply merge_region|].
    apply (f_equal String.length) in Ex. unfold after, marker_block in *. rewrite !str_length_app in *. lia.
  - pose proof (region_end f c Ef) as He.
    replace (nl +:+ (trim_matches newline f +:+ (nl +:+ (MARKER_END +:+ c))))
      with ((nl +:+ (trim_matches newline f +:+ nl)) +:+ (MARKER_END +:+ c)) in * by (by rewrite <- !str_app_assoc).
    rewrite merge_region by done. f_equal. unfold marker_block. by rewrite <- !str_app_assoc.
Qed.

Definition prose : string := "Mine." +:+ nl.

Lemma merge_markdown_converges_witness : exists r, merge_markdown prose "Use tabs." = Ok r /\ merge_markdown r "Use tabs." = Ok r.
Proof.
  eexists. split; [vm_compute; reflexivity|].
  exact (merge_markdown_converges prose "Use tabs." _ eq_refl).
Defined.

Example marked_instructions_grow :
  let f := "Markers end with <!-- willie:end --> lines." in
  String.length <$> [default EmptyString (match merge_markdown prose f with Ok r => Some r | Err _ => None end);
    match merge_markdown prose f with Ok r => match merge_markdown r f with Ok r => r | Err _ => EmptyString end | Err _ => EmptyString end]
  = [93; 120].
Proof. vm_compute. reflexivity. Qed.

(** ** The settings file *)

(** Merging under a key is merging the fragment bound to that key. *)
Lemma merge_slot_is_merge key v m : well_formed v = true ->
  JObject (merge_slot key v m) = deep_merge (JObject m) (JObject [(key, v)]).
Proof.
  intros Hv. rewrite deep_merge_objects. f_equal. unfold merge_slot. cbn [merge_entries].
  destruct (get key m) as [x|] eqn:Ex; [done|]. unfold insert_entry. rewrite Ex.
  assert (He : deep_merge (JObject []) v = v).
  { exact (merge_onto_fresh v Hv). }
  clear Hv. induction m as [|[k y] m IH]; cbn in *; [by rewrite bool_decide_true, He|].
  case_bool_decide; [done|]. by rewrite IH.
Qed.

Section settings.
  Context (from_str : string -> result Json string) (to_string_pretty : Json -> result string string).
  (** What [serde_json] documents: no duplicate keys, values always print, and
      a value without floats, at most 127 deep, reads back as it was. *)
  Hypothesis parsed_well_formed : forall s v, from_str s = Ok v -> well_formed v = true.
  Hypothesis printed_reads_back : forall v, well_formed v = true -> tame 127 v = true ->
    exists out, to_string_pretty v = Ok out /\ from_str (out +:+ nl) = Ok v.

Definition reads_tame (depth : nat) (s : string) : Prop := forall v, from_str s = Ok v -> tame depth v = true.

Definition good (v : Json) : Prop := well_formed v = true /\ tame 127 v = true.

Lemma merge_good t f : good t -> good f -> good (deep_merge t f).
Proof.
  intros [Ht Htt] [Hf Hft].
  split; [apply (deep_merge_well_formed f (Some t))|apply (deep_merge_tame f 127 (Some t))]; try done; by intros x [= <-].
Qed.

Lemma serialized v s : good v -> serialize_pretty to_string_pretty v = Ok s -> from_str s = Ok v.
Proof.
  intros [Hw Ht] H. destruct (printed_reads_back v Hw Ht) as (out & Ho & Hr). unfold serialize_pretty in H.
  rewrite Ho in H. injection H as <-. exact Hr.
Qed.

Lemma serializes v : good v -> exists s, serialize_pretty to_string_pretty v = Ok s.
Proof. intros [Hw Ht]. destruct (printed_reads_back v Hw Ht) as (out & Ho & _). unfold serialize_pretty. rewrite Ho. eauto. Qed.

(** A merge of texts, as a merge of their values. *)
Definition as_fragment (under : option string) (v : Json) : Json :=
  match under with Some key => JObject [(key, v)] | None => v end.

Definition accepts (under : option string) (t : Json) : Prop := match under with Some _ => exists m, t = JObject m | None => True end.

Lemma merge_value_ok t f under s : merge_value from_str to_string_pretty t f under = Ok s ->
  exists vt vf, from_str t = Ok vt /\ from_str f = Ok vf /\ accepts under vt /\
    serialize_pretty to_string_pretty (deep_merge vt (as_fragment under vf)) = Ok s.
Proof.
  unfold merge_value, parse_json. destruct (from_str t) as [vt|] eqn:Et; [|done]. cbn [map_err].
  destruct (from_str f) as [vf|] eqn:Ef; [|done]. cbn [map_err]. intros H. exists vt, vf. do 2 (split; [done|]).
  destruct under as [key|]; [|done]. destruct vt; try discriminate. split; [by eexists|]. cbn [as_fragment].
  rewrite <- merge_slot_is_merge by (by eapply parsed_well_formed). exact H.
Qed.

Lemma merge_value_runs t f under vt vf : from_str t = Ok vt -> from_str f = Ok vf -> accepts under vt ->
  good (deep_merge vt (as_fragment under vf)) ->
  exists s, merge_value from_str to_string_pretty t f under = Ok s /\ from_str s = Ok (deep_merge vt (as_fragment under vf)) /\
    serialize_pretty to_string_pretty (deep_merge vt (as_fragment under vf)) = Ok s.
Proof.
  intros Ht Hf Ha Hg. destruct (serializes _ Hg) as [s Hs]. exists s. split; [|split; [by apply serialized|done]].
  unfold merge_value, parse_json. rewrite Ht, Hf. cbn [map_err]. destruct under as [key|]; [|done].
  destruct Ha as [m ->]. rewrite merge_slot_is_merge; [exact Hs|by eapply parsed_well_formed].
Qed.

Lemma fragment_good under f v : from_str f = Ok v -> reads_tame (match under with Some _ => 126 | None => 127 end) f ->
  good (as_fragment under v).
Proof.
  intros Hv Ht. pose proof (parsed_well_formed _ _ Hv) as Hw. specialize (Ht v Hv). destruct under as [key|]; [|done].
  split; cbn [as_fragment]; [apply well_formed_object; split; [apply NoDup_singleton|by repeat constructor]|].
  exact (eq_trans (tame_entry 126 key v) Ht).
Qed.

Lemma stays_object m key v : exists m', deep_merge (JObject m) (JObject [(key, v)]) = JObject m'.
Proof. eexists. apply deep_merge_objects. Qed.

(** Settings that made an object of the file make one of it again. *)
Lemma remerge_object vt v1 key v2 : accepts (Some key) (deep_merge vt v1) ->
  accepts (Some key) (deep_merge (deep_merge (deep_merge vt v1) (JObject [(key, v2)])) v1).
Proof.
  intros [m1 Hm1]. rewrite Hm1. destruct (stays_object m1 key v2) as [m2 ->].
  destruct (is_object v1) as [[m3 ->]|Hl]; [by eexists|]. rewrite deep_merge_leaf by done.
  rewrite deep_merge_leaf in Hm1 by done. by exists m1.
Qed.

(** The text after both merges, in one equation per active fragment. *)
Definition apply_settings (f : Fragments) (sf mf : string) (t : string) : result string ApplyError :=
  let? t := (if settings f then merge_json from_str to_string_pretty t sf else Ok t) in
  if mcp f then merge_under from_str to_string_pretty t "mcpServers" mf else Ok t.

Lemma apply_settings_again f sf mf t s : settings f || mcp f = true ->
  (settings f = true -> reads_tame 127 sf) -> (mcp f = true -> reads_tame 126 mf) -> reads_tame 127 t ->
  apply_settings f sf mf t = Ok s -> apply_settings f sf mf s = Ok s.
Proof.
  intros Hsome Hs Hm Ht. unfold apply_settings, merge_json, merge_under.
  destruct (settings f) eqn:Es; [|destruct (mcp f) eqn:Em; [|done]].
  - destruct (merge_value from_str to_string_pretty t sf None) as [t1|] eqn:E1; [|done].
    destruct (merge_value_ok _ _ _ _ E1) as (vt & v1 & Hvt & Hv1 & _ & Ho1). cbn [as_fragment] in Ho1.
    assert (Gt : good vt) by (split; [by eapply parsed_well_formed|by apply Ht]).
    pose proof (fragment_good None sf v1 Hv1 (Hs eq_refl)) as G1. cbn [as_fragment] in G1.
    pose proof (merge_good vt v1 Gt G1) as Gr1. pose proof (serialized _ _ Gr1 Ho1) as Hr1.
    destruct (mcp f) eqn:Em.
    + intros E2. destruct (merge_value_ok _ _ _ _ E2) as (vt1 & v2 & Hvt1 & Hv2 & Ha & Ho2).
      rewrite Hr1 in Hvt1. injection Hvt1 as <-. pose proof (fragment_good (Some "mcpServers") mf v2 Hv2 (Hm eq_refl)) as G2.
      cbn [as_fragment] in *. pose proof (merge_good _ _ Gr1 G2) as Gr2. pose proof (serialized _ _ Gr2 Ho2) as Hr2.
      destruct (merge_value_runs s sf None _ v1 Hr2 Hv1 I (merge_good _ _ Gr2 G1)) as (s1 & -> & Hs1 & _).
      cbn [as_fragment] in Hs1.
      pose proof (merge_two_idempotent v1 _ (Some vt) (proj1 G1) (proj1 G2) ltac:(intros x [= <-]; apply Gt)) as Hid.
      cbn [merge_onto] in Hid. cbv zeta in Hid.
      destruct (merge_value_runs s1 mf (Some "mcpServers") _ v2 Hs1 Hv2) as (s2 & -> & _ & Ho); cbn [as_fragment] in *.
      * by apply remerge_object.
      * by rewrite Hid.
      * rewrite Hid in Ho. congruence.
    + intros E. injection E as <-.
      pose proof (merge_onto_idempotent v1 (Some vt) (proj1 G1) ltac:(intros x [= <-]; apply Gt)) as Hid. cbn [merge_onto] in Hid.
      destruct (merge_value_runs t1 sf None _ v1 Hr1 Hv1 I (merge_good _ _ Gr1 G1)) as (s2 & -> & _ & Ho).
      cbn [as_fragment] in Ho. rewrite Hid in Ho. congruence.
  - intros E2. destruct (merge_value_ok _ _ _ _ E2) as (vt & v2 & Hvt & Hv2 & [m0 ->] & Ho2).
    assert (Gt : good (JObject m0)) by (split; [by eapply parsed_well_formed|by apply Ht]).
    pose proof (fragment_good (Some "mcpServers") mf v2 Hv2 (Hm eq_refl)) as G2. cbn [as_fragment] in *.
    pose proof (merge_good _ _ Gt G2) as Gr2. pose proof (serialized _ _ Gr2 Ho2) as Hr2.
    pose proof (merge_onto_idempotent _ (Some (JObject m0)) (proj1 G2) ltac:(intros x [= <-]; apply Gt)) as Hid. cbn [merge_onto] in Hid.
    destruct (merge_value_runs s mf (Some "mcpServers") _ v2 Hr2 Hv2) as (s2 & -> & _ & Ho);
      [apply stays_object|cbn [as_fragment]; by rewrite Hid|]. cbn [as_fragment] in Ho. rewrite Hid in Ho. congruence.
Qed.
(** The inputs read again once the settings file holds [s]. *)
Definition reread (s : string) (t : Targets) : Targets :=
  let again x := mk_content (fragment x) (Some s) in
  mk_targets (again <$> t_settings t) (again <$> t_mcp t) (t_instructions t) (t_rules t) (t_hooks t).

Definition text_of (o : option FragmentContent) : string := match o with Some x => fragment x | None => EmptyString end.

Definition old_settings (t : Targets) : string := default "{}" (or_else (t_settings t ≫= existing) (t_mcp t ≫= existing)).

Definition supplied (f : Fragments) (t : Targets) : bool :=
  (negb (settings f) || is_ok (ok_or tt (t_settings t))) && (negb (mcp f) || is_ok (ok_or tt (t_mcp t))).

Lemma plan_settings_applies f t c : settings f || mcp f = true ->
  plan_settings from_str to_string_pretty f t = Ok (Some c) <->
  supplied f t = true /\ exists s, apply_settings f (text_of (t_settings t)) (text_of (t_mcp t)) (old_settings t) = Ok s /\
    c = mk_change ".claude/settings.json" (merged_kind (or_else (t_settings t ≫= existing) (t_mcp t ≫= existing))) s.
Proof.
  intros H. unfold plan_settings, apply_settings, supplied, old_settings.
  destruct (settings f) eqn:Es, (mcp f) eqn:Em; try discriminate H; cbn [negb andb orb];
    destruct (t_settings t) as [x|], (t_mcp t) as [y|]; cbn [ok_or is_ok andb text_of];
    try (split; [intros ?; discriminate|intros [? _]; discriminate]).
  all: try (destruct (merge_json _ _ _ _) as [s1|]); try (destruct (merge_under _ _ _ _ _) as [s2|]).
  all: split; [intros E; try discriminate; injection E as <-; eauto|].
  all: intros (Hsup & s & E & ->); try discriminate Hsup; try discriminate E; injection E as E; by subst.
Qed.

(** C33. Applying a profile's settings and MCP servers converges: planned again
    on the file it wrote, the merge of [.claude/settings.json] gives the same
    text byte for byte, whatever the two fragments share, even when one
    replaces by a scalar what the other merges into.  This is for texts that hold
    no floating-point number and nest no deeper than serde_json reads back (127
    levels for the file and the settings, 126 for the servers, which go one level
    down); beyond them a number may be printed otherwise than it was read, and
    the file that was written may not parse. *)
Theorem settings_converge f t c : plan_settings from_str to_string_pretty f t = Ok (Some c) ->
  reads_tame 127 (old_settings t) -> reads_tame 127 (text_of (t_settings t)) -> reads_tame 126 (text_of (t_mcp t)) ->
  plan_settings from_str to_string_pretty f (reread (after c) t) = Ok (Some (mk_change ".claude/settings.json" Merge (after c))).
Proof.
  intros H Ho Hs Hm.
  assert (Hf : settings f || mcp f = true).
  { destruct (settings f) eqn:Es, (mcp f) eqn:Em; try done. unfold plan_settings in H. by rewrite Es, Em in H. }
  apply plan_settings_applies in H as [Hsup (s & Hs1 & ->)]; [|done]. cbn [after].
  apply apply_settings_again in Hs1; [|done..].
  assert (Hold : or_else (t_settings (reread s t) ≫= existing) (t_mcp (reread s t) ≫= existing) = Some s).
  { clear - Hf Hsup. unfold reread, supplied in *. destruct (t_settings t), (t_mcp t), (settings f), (mcp f); cbn in *; done. }
  apply plan_settings_applies; [done|]. rewrite Hold. unfold supplied, reread in *. cbn [t_settings t_mcp] in *.
  split; [by destruct (t_settings t), (t_mcp t)|]. exists s. split; [|done]. unfold old_settings. cbn [t_settings t_mcp] in *.
  rewrite Hold. cbn [default]. destruct (t_settings t), (t_mcp t); exact Hs1.
Qed.
End settings.

(** ** The plan *)

(** Every active fragment has its inputs. *)
Record populated (f : Fragments) (t : Targets) : Prop := {
  has_settings : settings f = true -> is_Some (t_settings t);
  has_mcp : mcp f = true -> is_Some (t_mcp t);
  has_instructions : instructions f = true -> is_Some (t_instructions t);
  has_rules : forall n, n ∈ rules f -> is_Some (t_rules t !! n);
  has_hooks : forall n, n ∈ hooks f -> is_Some (t_hooks t !! n)
}.

Definition content_errors : list string := ["profile_fragment_invalid"; "profile_markers_malformed"].

Section plan.
  Context (from_str : string -> result Json string) (to_string_pretty : Json -> result string string).

Lemma merge_value_errors t f under e : merge_value from_str to_string_pretty t f under = Err e -> a_code e ∈ content_errors.
Proof.
  unfold merge_value, parse_json, serialize_pretty.
  destruct (from_str t); cbn; [|intros [= <-]; in_list]. destruct (from_str f); cbn; [|intros [= <-]; in_list].
  destruct under as [key|]; [destruct a; try (intros [= <-]; in_list)|];
    (destruct (to_string_pretty _); cbn; [discriminate|intros [= <-]; in_list]).
Qed.

Lemma plan_settings_errors f t e : (settings f = true -> is_Some (t_settings t)) -> (mcp f = true -> is_Some (t_mcp t)) ->
  plan_settings from_str to_string_pretty f t = Err e -> a_code e ∈ content_errors.
Proof.
  intros Hs Hm. unfold plan_settings, merge_json, merge_under.
  destruct (settings f), (mcp f); cbn [negb andb]; try discriminate;
    try destruct (Hs eq_refl) as [x ->]; try destruct (Hm eq_refl) as [y ->]; cbn [ok_or]; intros E.
  all: match type of E with context [merge_value ?a ?b ?c ?d ?u] => destruct (merge_value a b c d u) eqn:E1 end;
    [|injection E as <-; by eapply merge_value_errors]; try discriminate E.
  match type of E with context [merge_value ?a ?b ?c ?d ?u] => destruct (merge_value a b c d u) eqn:E2 end;
    [discriminate E|injection E as <-; by eapply merge_value_errors].
Qed.

Lemma merge_markdown_errors t f e : merge_markdown t f = Err e -> a_code e ∈ content_errors.
Proof.
  intros H. pose proof (merge_markdown_cases t f) as [[_ E]|(a & b & _ & _ & [[_ E]|(x & c & _ & _ & E)])]; rewrite H in E; try done.
  injection E as ->. in_list.
Qed.

Lemma plan_files_errors names inputs dir e : (forall n, n ∈ names -> is_Some (inputs !! n)) -> plan_files names inputs dir <> Err e.
Proof.
  induction names as [|n names IH]; intros H; cbn; [done|].
  destruct (H n ltac:(by left)) as [c ->]. cbn. destruct (plan_files names inputs dir) eqn:E; [done|].
  intros [= ->]. by apply IH; [intros k Hk; apply H; right|].
Qed.

(** With every input supplied, planning fails only on what the texts hold. *)
Lemma plan_changes_errors p t e : populated (fragments p) t -> plan_changes from_str to_string_pretty p t = Err e ->
  a_code e ∈ content_errors.
Proof.
  intros [Hs Hm Hi Hr Hh]. unfold plan_changes.
  destruct (plan_settings _ _ _ _) as [s|] eqn:E; [|intros [= <-]; by eapply plan_settings_errors].
  destruct (instructions (fragments p)) eqn:Ei.
  - destruct (Hi eq_refl) as [x Hx]. unfold plan_instructions. rewrite Hx. cbn [ok_or].
    destruct (merge_markdown _ _) as [r|] eqn:Em; [|intros [= <-]; by eapply merge_markdown_errors].
    destruct (plan_files (rules _) _ _) eqn:Er; [|by apply plan_files_errors in Er].
    destruct (plan_files (hooks _) _ _) eqn:Eh; [done|by apply plan_files_errors in Eh].
  - destruct (plan_files (rules _) _ _) eqn:Er; [|by apply plan_files_errors in Er].
    destruct (plan_files (hooks _) _ _) eqn:Eh; [done|by apply plan_files_errors in Eh].
Qed.

(** The files a profile can touch, from the names it lists. *)
Definition planned_paths (f : Fragments) : list string :=
  ".claude/settings.json" :: "CLAUDE.md" ::
  map (fun n => ".claude/rules/" +:+ n) (rules f) ++ map (fun n => ".claude/hooks/" +:+ n) (hooks f).

Lemma plan_files_paths names inputs dir : forall cs, plan_files names inputs dir = Ok cs ->
  map path cs = map (fun n => dir +:+ "/" +:+ n) names.
Proof.
  induction names as [|n names IH]; cbn; intros cs; [by intros [= <-]|]. destruct (inputs !! n); cbn; [|done].
  destruct (plan_files names inputs dir); [|done]. intros [= <-]. cbn. by rewrite IH.
Qed.

Lemma plan_changes_paths p t cs : plan_changes from_str to_string_pretty p t = Ok cs ->
  Forall (fun c => path c ∈ planned_paths (fragments p)) cs.
Proof.
  unfold plan_changes. destruct (plan_settings _ _ _ _) as [s|] eqn:E; [|done].
  destruct (if instructions _ then _ else _) as [i|] eqn:Ei; [|done].
  destruct (plan_files (rules _) _ _) as [r|] eqn:Er; [|done]. destruct (plan_files (hooks _) _ _) as [h|] eqn:Eh; [|done].
  intros [= <-]. apply plan_files_paths in Er, Eh.
  rewrite !Forall_app. repeat split.
  - destruct s as [c|]; [|constructor]. unfold plan_settings in E. destruct (negb _ && _); [done|].
    repeat match type of E with (match ?x with _ => _ end) = _ => destruct x; try discriminate E end.
    injection E as <-. repeat constructor.
  - destruct (instructions _); [|injection Ei as <-; constructor]. unfold plan_instructions in Ei.
    destruct (t_instructions t) as [x|]; [|done]. cbn in Ei. destruct (merge_markdown _ _); [|done]. injection Ei as <-.
    repeat constructor.
  - apply Forall_forall. intros c Hc. apply (list_elem_of_fmap_2 path) in Hc. change (path <$> r) with (map path r) in Hc.
    rewrite Er in Hc. unfold planned_paths. do 2 right. rewrite elem_of_app. by left.
  - apply Forall_forall. intros c Hc. apply (list_elem_of_fmap_2 path) in Hc. change (path <$> h) with (map path h) in Hc.
    rewrite Eh in Hc. unfold planned_paths. do 2 right. rewrite elem_of_app. by right.
Qed.
End plan.

(** ** A concrete reader and printer *)

Definition sample_from_str (s : string) : result Json string :=
  match parse_countable s with Some v => if well_formed v then Ok v else Err "duplicate" | None => Err "unreadable" end.

Definition sample_to_string (v : Json) : result string string := Ok (print_countable v).

Lemma sample_well_formed s v : sample_from_str s = Ok v -> well_formed v = true.
Proof. unfold sample_from_str. destruct (parse_countable s) as [x|]; [|done]. destruct (well_formed x) eqn:E; [|done]. by intros [= <-]. Qed.

Lemma sample_reads_back v : well_formed v = true -> tame 127 v = true ->
  exists out, sample_to_string v = Ok out /\ sample_from_str (out +:+ nl) = Ok v.
Proof.
  intros Hw _. exists (print_countable v). split; [done|]. unfold sample_from_str.
  by rewrite parse_print_countable, Hw.
Qed.

(** Settings and servers that share a key, one by a scalar. *)
Definition shared_fragments : Fragments := mk_fragments true ScopeProject false [] [] true.

Definition shared_targets : Targets :=
  mk_targets (Some (mk_content (print_countable (JObject [("m", JBool true); ("mcpServers", JNull)])) (Some (print_countable (JObject [])))))
    (Some (mk_content (print_countable (JObject [("s", JNull)])) None)) None ∅ ∅.

Lemma settings_converge_witness : exists c,
  plan_settings sample_from_str sample_to_string shared_fragments shared_targets = Ok (Some c) /\
  plan_settings sample_from_str sample_to_string shared_fragments (reread (after c) shared_targets)
    = Ok (Some (mk_change ".claude/settings.json" Merge (after c))).
Proof.
  eexists. split; [vm_compute; reflexivity|].
  apply (settings_converge sample_from_str sample_to_string sample_well_formed sample_reads_back shared_fragments shared_targets).
  - vm_compute. reflexivity.
  - intros v H. vm_compute in H. injection H as <-. vm_compute. reflexivity.
  - intros v H. vm_compute in H. injection H as <-. vm_compute. reflexivity.
  - intros v H. vm_compute in H. injection H as <-. vm_compute. reflexivity.
Defined.
