(* ===== verification/ProfileStore.v ===== *)
(** * Configuration profiles: the plugin

    Models crates/willie-plugins/profiles/src/lib.rs and git.rs: the methods of
    the plugin over the file system, the git binary, the clock, TOML, JSON and
    the decoding of parameters, all of them outside the source.  Every effect
    is recorded in order ([Effects]); other processes may touch the files
    between any two of them. *)

From S2P Require Import Prelude Text Ascii Json Effects Git PluginApi Profiles.

Local Open Scope string_scope.
Local Open Scope list_scope.
Local Open Scope willie_scope.

(** ** Data *)

Inductive ReadAnswer : Type := Contents (s : string) | NotFound | Failed (e : string).

(** An entry is its path and whether it is a directory. *)
Inductive DirAnswer : Type := NoDir | DirFailed (e : string) | Listing (entries : list (result (string * bool) string)).

(** An effect of the plugin, with its answer. *)
Inductive call : Type :=
| FRead (path : string) (a : ReadAnswer)
| FIsDir (path : string) (b : bool)
| FIsFile (path : string) (b : bool)
| FExists (path : string) (b : bool)
| FList (path : string) (a : DirAnswer)
| FWrite (path content : string) (e : option string)
| FMakeDirs (path : string) (e : option string)
| FMode (source dest : string)
| FGit (repo : string) (args : list string) (out : Output)
| FClock (now : N * N).

Record ReadFragmentParams : Type := mk_read_params { r_name : string; r_fragment : string }.
Record WriteFragmentParams : Type := mk_write_params { w_name : string; w_fragment : string; w_content : string }.
Record ApplyParams : Type := mk_apply_params { p_name : string; workspace : string; harness_settings : option string }.
Record SetRemoteParams : Type := mk_remote_params { u_name : string; url : string }.

(** [serde_json::from_value] at each of the parameter types; [CheckParams] has
    the shape of [ApplyParams], and the others only a name. *)
Record Decoders : Type := {
  from_name : Json -> result string string;
  from_read : Json -> result ReadFragmentParams string;
  from_write : Json -> result WriteFragmentParams string;
  from_apply : Json -> result ApplyParams string;
  from_remote : Json -> result SetRemoteParams string
}.

Definition manifest : PluginManifest := mk_manifest "profile" "Configuration profiles" PerProject.

(** ** Errors *)

Definition io_fault (path e : string) : PluginError := Internal ("cannot access " +:+ path +:+ ": " +:+ e).

Definition git_fault (e : GitError) : PluginError := Internal ("git " +:+ g_code e +:+ ": " +:+ g_message e).

Definition invalid_name (name : string) : PluginError :=
  coded "profile_name_invalid" ("`" +:+ name +:+ "` is not a valid profile name")
    "use a name with no path separators, and not `.` or `..`".

Definition not_found (name : string) : PluginError :=
  coded "profile_not_found" ("no profile named `" +:+ name +:+ "`")
    "check profile.list for the available profile names".

Definition sync_conflict (name : string) : PluginError :=
  coded "profile_sync_conflict" ("profile `" +:+ name +:+ "` has diverged from its remote and cannot be fast-forwarded")
    "resolve it in a terminal inside the distribution, then pull again".

Definition target_missing (workspace : string) : PluginError :=
  coded "profile_target_missing" ("the project workspace " +:+ workspace +:+ " does not exist")
    "the project's ext4 workspace is gone; re-add the project before checking or applying a profile".

Definition apply_error_to_plugin (e : ApplyError) : PluginError :=
  coded (a_code e) (a_message e)
    (if bool_decide (a_code e = "profile_fragment_invalid") then
       "fix the fragment's or the target's content so it parses as JSON, then check or apply again"
     else if bool_decide (a_code e = "profile_markers_malformed") then
       "fix or remove the stray <!-- willie:begin --> marker in the target file, then apply again"
     else if bool_decide (a_code e = "profile_fragment_missing") then
       "this is a wiring bug in Willie, not something to fix in the profile; check the daemon log"
     else "check the daemon log for details").

Definition parse_fragment (s : string) : result Fragment PluginError :=
  ok_or (coded "profile_fragment_unknown" ("`" +:+ s +:+ "` is not a known fragment")
    "use one of settings, instructions, mcp, rules/<file>, hooks/<file>") (parse_fragment_name s).

(** ** Paths *)

Definition is_contained (store dir : string) : bool := path_starts_with dir store.

Definition resolve_dest (workspace path : string) : string := if is_absolute path then path else path_join workspace path.

Definition backup_relative_path (path : string) : string := if is_absolute path then "harness-settings.json" else path.

(** [{}{:09}]. *)
Definition pad9 (n : N) : string :=
  let s := pretty n in String.concat EmptyString (repeat "0" (9 - String.length s)) +:+ s.

Definition backup_timestamp (now : N * N) : string := pretty (fst now) +:+ pad9 (snd now).

(** ** Responses *)

Definition summary_json (s : ProfileSummary) : Json :=
  JObject [("name", JString (s_name s)); ("fragments_active", JArray (map JString (fragments_active s)))].

Definition kind_json (k : ChangeKind) : Json :=
  JString (match k with Create => "create" | Merge => "merge" | Overwrite => "overwrite" end).

Definition change_json (c : Change) : Json :=
  JObject [("path", JString (path c)); ("kind", kind_json (Profiles.kind c)); ("after", JString (after c))].

(** [sort_by] on the name, stable. *)
Fixpoint insert_summary (s : ProfileSummary) (l : list ProfileSummary) : list ProfileSummary :=
  match l with
  | [] => [s]
  | x :: l' => match String.compare (s_name x) (s_name s) with Gt => s :: l | _ => x :: insert_summary s l' end
  end.

Definition sort_summaries (l : list ProfileSummary) : list ProfileSummary := foldl (fun l s => insert_summary s l) [] l.

(** ** Effects *)

Section store.
  Context {FS : Type} (others : nat -> FS -> FS).
  Context (read_to_string read_bytes : string -> FS -> ReadAnswer).
  Context (is_dir is_file exists_path : string -> FS -> bool) (read_dir : string -> FS -> DirAnswer).
  Context (write_file : string -> string -> FS -> option string * FS) (create_dirs : string -> FS -> option string * FS).
  Context (copy_mode : string -> string -> FS -> FS) (git : string -> list string -> FS -> Output * FS).
  Context (clock : FS -> N * N).
  Context (parse_toml : string -> result Profile string) (print_toml : Profile -> result string string).
  Context (from_str : string -> result Json string) (to_string_pretty : Json -> result string string).
  Context (decoders : Decoders) (to_lowercase : string -> string) (store_dir : string).

Definition P (A : Type) : Type := M FS call (result A PluginError).

Definition ask {A} (record : A -> call) (f : FS -> A) : M FS call A :=
  perform others (fun a => [record a]) (fun s => (f s, s)).

Definition act {A} (record : A -> call) (f : FS -> A * FS) : M FS call A := perform others (fun a => [record a]) f.

Definition read_text (path : string) : M FS call ReadAnswer := ask (FRead path) (read_to_string path).

Definition fs_read (path : string) : M FS call ReadAnswer := ask (FRead path) (read_bytes path).

Definition dir_there (path : string) : M FS call bool := ask (FIsDir path) (is_dir path).

Definition file_there (path : string) : M FS call bool := ask (FIsFile path) (is_file path).

Definition there (path : string) : M FS call bool := ask (FExists path) (exists_path path).

Definition entries_of (path : string) : M FS call DirAnswer := ask (FList path) (read_dir path).

(** A write or a directory, with [io_fault] on [shown]. *)
Definition or_fault (shown : string) (m : M FS call (option string)) : P unit :=
  let* e := m in ret (match e with Some e => Err (io_fault shown e) | None => Ok tt end).

Definition write (path content : string) : M FS call (option string) := act (FWrite path content) (write_file path content).

Definition create_dir_all (path : string) : M FS call (option string) := act (FMakeDirs path) (create_dirs path).

Definition copy_hook_mode (source dest : string) : M FS call unit :=
  act (fun _ => FMode source dest) (fun s => (tt, copy_mode source dest s)).

Definition now : M FS call (N * N) := ask FClock clock.

(** [if let Some(parent) = path.parent()]. *)
Definition create_parent (path : string) : P unit :=
  match parent path with Some p => or_fault p (create_dir_all p) | None => ret (Ok tt) end.

Definition done_ : P unit := ret (Ok tt).

Definition refuse {A} (e : PluginError) : P A := ret (Err e).

(** ** git *)

Definition G (A : Type) : Type := M FS call (result A GitError).

Definition run (repo : string) (args : list string) : G string :=
  let* out := act (FGit repo args) (git repo args) in ret (run_result out).

Definition init (repo : string) : G unit :=
  let* e := create_dir_all repo in
  let! _ := ret (match e with Some e => Err (mk_git_error "git_failed" e) | None => Ok tt end) in
  let! _ := run repo ["init"; "-q"; "-b"; "main"] in
  let! _ := run repo ["config"; "user.name"; "Willie"] in
  let! _ := run repo ["config"; "user.email"; "willie@localhost"] in
  ret (Ok tt).

Definition commit_all (repo message : string) : G unit :=
  let! _ := run repo ["add"; "-A"] in
  let! status := run repo ["status"; "--porcelain"] in
  if is_empty (trim status) then ret (Ok tt)
  else let! _ := run repo ["commit"; "-q"; "-m"; message] in ret (Ok tt).

Definition git_set_remote (repo url : string) : G unit :=
  let! existing := run repo ["remote"] in
  let verb := if existsb (fun l => bool_decide (trim l = "origin")) (lines existing) then "set-url" else "add" in
  let! _ := run repo ["remote"; verb; "origin"; url] in
  ret (Ok tt).

Definition git_push (repo : string) : G unit :=
  let! _ := run repo ["push"; "-u"; "origin"; "HEAD"] in ret (Ok tt).

Definition is_pull_conflict (message : string) : bool :=
  let lower := to_lowercase message in
  contains "not possible to fast-forward" lower || contains "non-fast-forward" lower
  || contains "would be overwritten by merge" lower.

Definition git_pull (repo : string) : G unit :=
  let* r := run repo ["pull"; "--ff-only"] in
  ret (match r with
       | Ok _ => Ok tt
       | Err e => Err (if is_pull_conflict (g_message e) then mk_git_error "pull_conflict" (g_message e) else e)
       end).

Definition or_git_fault {A} (m : G A) : P A := let* r := m in ret (map_err git_fault r).

(** ** Profiles on disk *)

Definition profile_dir (name : string) : result string PluginError :=
  if negb (is_valid_profile_name name) then Err (invalid_name name)
  else
    let dir := path_join store_dir name in
    if negb (is_contained store_dir dir) then Err (invalid_name name) else Ok dir.

Definition existing_profile_dir (name : string) : P string :=
  let! dir := ret (profile_dir name) in
  let* there := file_there (path_join dir "profile.toml") in
  if there then ret (Ok dir) else refuse (not_found name).

Definition try_read_profile (dir : string) : M FS call (option Profile) :=
  let* a := read_text (path_join dir "profile.toml") in
  ret (match a with Contents text => match parse_toml text with Ok p => Some p | Err _ => None end | _ => None end).

(** The text of an [io::Error] of kind [NotFound]. *)
Definition enoent : string := "No such file or directory (os error 2)".

Definition read_profile_toml (dir : string) : P Profile :=
  let file := path_join dir "profile.toml" in
  let* a := read_text file in
  ret (match a with
       | Contents text => map_err (fun e => Internal ("cannot parse " +:+ file +:+ ": " +:+ e)) (parse_toml text)
       | NotFound => Err (io_fault file enoent)
       | Failed e => Err (io_fault file e)
       end).

Definition write_profile_toml (dir : string) (p : Profile) : P unit :=
  let file := path_join dir "profile.toml" in
  let! text := ret (map_err (fun e => Internal ("cannot encode profile.toml: " +:+ e)) (print_toml p)) in
  or_fault file (write file text).

Definition read_required (path : string) : P string :=
  let* a := read_text path in
  ret (match a with Contents s => Ok s | NotFound => Ok EmptyString | Failed e => Err (io_fault path e) end).

Definition read_optional (path : string) : P (option string) :=
  let* a := read_text path in
  ret (match a with Contents s => Ok (Some s) | NotFound => Ok None | Failed e => Err (io_fault path e) end).

(** ** The plan *)

Definition read_fragment_pair (profile_dir workspace fragment_file target_rel : string) (active : bool) :
    P (option FragmentContent) :=
  if negb active then ret (Ok None)
  else
    let! fragment := read_required (path_join profile_dir fragment_file) in
    let! existing := read_optional (path_join workspace target_rel) in
    ret (Ok (Some (mk_content fragment existing))).

Fixpoint read_file_family (profile_dir workspace family : string) (names : list string)
    (map : gmap string FragmentContent) : P (gmap string FragmentContent) :=
  match names with
  | [] => ret (Ok map)
  | name :: names =>
      let! fragment := read_required (path_join (path_join profile_dir family) name) in
      let! existing := read_optional (path_join (path_join (path_join workspace ".claude") family) name) in
      read_file_family profile_dir workspace family names (<[name := mk_content fragment existing]> map)
  end.

Definition plan_of (p : Profile) (t : Targets) : result (list Change) PluginError :=
  map_err apply_error_to_plugin (plan_changes from_str to_string_pretty p t).

Definition with_existing (existing : option string) (c : FragmentContent) : FragmentContent :=
  mk_content (fragment c) existing.

Definition plan_harness_settings_change (p : Profile) (settings_content mcp_content : option FragmentContent)
    (harness_path : string) : P (option Change) :=
  let! existing := read_optional harness_path in
  let f := fragments p in
  let masked := mk_profile (name p) (mk_fragments (settings f) (settings_scope f) false [] [] (mcp f)) in
  let targets := mk_targets (with_existing existing <$> settings_content) (with_existing existing <$> mcp_content) None ∅ ∅ in
  let! changes := ret (plan_of masked targets) in
  ret (Ok (match last changes with
           | Some c => Some (mk_change harness_path (Profiles.kind c) (after c))
           | None => None
           end)).

Definition scope_is_global (s : SettingsScope) : bool := match s with ScopeGlobal => true | ScopeProject => false end.

Definition plan_project_changes (profile_dir : string) (p : Profile) (workspace : string) (harness_settings : option string) :
    P (list Change) :=
  let f := fragments p in
  let* there := dir_there workspace in
  if negb there then refuse (target_missing workspace)
  else
    let! settings_content := read_fragment_pair profile_dir workspace "settings.json" ".claude/settings.json" (settings f) in
    let! mcp_content := read_fragment_pair profile_dir workspace "mcp.json" ".claude/settings.json" (mcp f) in
    let! instructions_content := read_fragment_pair profile_dir workspace "CLAUDE.md" "CLAUDE.md" (instructions f) in
    let! rules := read_file_family profile_dir workspace "rules" (rules f) ∅ in
    let! hooks := read_file_family profile_dir workspace "hooks" (hooks f) ∅ in
    let! changes := ret (plan_of p (mk_targets settings_content mcp_content instructions_content rules hooks)) in
    match (if settings f && scope_is_global (settings_scope f) then harness_settings else None) with
    | None => ret (Ok changes)
    | Some harness_path =>
        let! change := plan_harness_settings_change p settings_content mcp_content harness_path in
        ret (Ok (changes ++ option_list change))
    end.

(** ** The writes *)

Definition is_create (k : ChangeKind) : bool := match k with Create => true | _ => false end.

Definition backup_one (workspace root : string) (c : Change) : P unit :=
  if is_create (Profiles.kind c) then done_
  else
    let dest := resolve_dest workspace (path c) in
    let backup_dest := path_join root (backup_relative_path (path c)) in
    let! _ := create_parent backup_dest in
    let* a := fs_read dest in
    match a with
    | Contents bytes => or_fault backup_dest (write backup_dest bytes)
    | NotFound => done_
    | Failed e => refuse (io_fault dest e)
    end.

Definition backup_root (workspace : string) (t : N * N) : string :=
  path_join (path_join workspace ".willie-bak") (backup_timestamp t).

Definition backup_changes (workspace : string) (changes : list Change) : P string :=
  let* t := now in
  let! _ := each (backup_one workspace (backup_root workspace t)) changes in
  ret (Ok (backup_root workspace t)).

Definition write_one (profile_dir workspace : string) (c : Change) : P unit :=
  let dest := resolve_dest workspace (path c) in
  let! _ := create_parent dest in
  let! _ := or_fault dest (write dest (after c)) in
  let* _ := match strip_prefix ".claude/hooks/" (path c) with
            | Some name => copy_hook_mode (path_join (path_join profile_dir "hooks") name) dest
            | None => ret tt
            end in
  done_.

Definition write_changes (profile_dir workspace : string) (changes : list Change) : P unit :=
  each (write_one profile_dir workspace) changes.

(** ** The methods *)

Definition parse_params {A} (from_value : Json -> result A string) (v : Json) : P A :=
  ret (map_err (fun e => BadRequest ("bad params: " +:+ e)) (from_value v)).

(** [json_response]: a [Value] always encodes. *)
Definition json_response (v : Json) : P PluginResponse := ret (Ok (JsonResponse v)).

Fixpoint summarise (store : string) (entries : list (result (string * bool) string)) (acc : list ProfileSummary) :
    P (list ProfileSummary) :=
  match entries with
  | [] => ret (Ok acc)
  | Err e :: _ => refuse (Internal ("cannot read " +:+ store +:+ ": " +:+ e))
  | Ok (path, is_directory) :: entries =>
      if negb is_directory then summarise store entries acc
      else
        let* p := try_read_profile path in
        summarise store entries (acc ++ option_list (summary_of <$> p))
  end.

Definition list_profiles : P PluginResponse :=
  let* a := entries_of store_dir in
  match a with
  | NoDir => json_response (JArray [])
  | DirFailed e => refuse (Internal ("cannot read " +:+ store_dir +:+ ": " +:+ e))
  | Listing entries =>
      let! summaries := summarise store_dir entries [] in
      json_response (JArray (map summary_json (sort_summaries summaries)))
  end.

Definition create (v : Json) : P PluginResponse :=
  let! name := parse_params (from_name decoders) v in
  let! dir := ret (profile_dir name) in
  let* taken := there dir in
  if taken then refuse (coded "profile_exists" ("a profile named `" +:+ name +:+ "` already exists")
    "pick a different name, or edit the existing profile")
  else
    let profile := scaffold name in
    let! _ := or_fault dir (create_dir_all (path_join dir "rules")) in
    let! _ := or_fault dir (create_dir_all (path_join dir "hooks")) in
    let! _ := write_profile_toml dir profile in
    let! _ := or_fault dir (write (path_join dir "settings.json") ("{}" +:+ nl)) in
    let! _ := or_fault dir (write (path_join dir "CLAUDE.md") EmptyString) in
    let! _ := or_git_fault (init dir) in
    let! _ := or_git_fault (commit_all dir "profile: scaffold") in
    json_response (summary_json (summary_of profile)).

Definition content_json (content : string) : Json := JObject [("content", JString content)].

Definition read_fragment (v : Json) : P PluginResponse :=
  let! q := parse_params (from_read decoders) v in
  let! dir := existing_profile_dir (r_name q) in
  let! frag := ret (parse_fragment (r_fragment q)) in
  let! content := read_required (path_join dir (relative_path frag)) in
  json_response (content_json content).

Definition write_fragment (v : Json) : P PluginResponse :=
  let! q := parse_params (from_write decoders) v in
  let! dir := existing_profile_dir (w_name q) in
  let! frag := ret (parse_fragment (w_fragment q)) in
  let file := path_join dir (relative_path frag) in
  let! _ := create_parent file in
  let! _ := or_fault file (write file (w_content q)) in
  let! profile := read_profile_toml dir in
  let! _ := write_profile_toml dir (mk_profile (name profile) (mark_active frag (fragments profile))) in
  let! _ := or_git_fault (commit_all dir ("profile: write " +:+ w_fragment q)) in
  json_response (content_json (w_content q)).

Definition changes_json (changes : list Change) : string * Json := ("changes", JArray (map change_json changes)).

Definition check (v : Json) : P PluginResponse :=
  let! q := parse_params (from_apply decoders) v in
  let! dir := existing_profile_dir (p_name q) in
  let! profile := read_profile_toml dir in
  let! changes := plan_project_changes dir profile (workspace q) (harness_settings q) in
  json_response (JObject [changes_json changes]).

Definition apply_to_project (v : Json) : P PluginResponse :=
  let! q := parse_params (from_apply decoders) v in
  let! dir := existing_profile_dir (p_name q) in
  let! profile := read_profile_toml dir in
  let! changes := plan_project_changes dir profile (workspace q) (harness_settings q) in
  let! backup_dir := backup_changes (workspace q) changes in
  let! _ := write_changes dir (workspace q) changes in
  json_response (JObject [changes_json changes; ("backup_path", JString backup_dir)]).

Definition set_remote (v : Json) : P PluginResponse :=
  let! q := parse_params (from_remote decoders) v in
  let! dir := existing_profile_dir (u_name q) in
  let! _ := or_git_fault (git_set_remote dir (url q)) in
  json_response (JObject []).

Definition push (v : Json) : P PluginResponse :=
  let! name := parse_params (from_name decoders) v in
  let! dir := existing_profile_dir name in
  let! _ := or_git_fault (git_push dir) in
  json_response (JObject []).

Definition pull (v : Json) : P PluginResponse :=
  let! name := parse_params (from_name decoders) v in
  let! dir := existing_profile_dir name in
  let* r := git_pull dir in
  match r with
  | Ok _ => json_response (JObject [])
  | Err e => if bool_decide (g_code e = "pull_conflict") then refuse (sync_conflict name) else refuse (git_fault e)
  end.

Definition handle (req : PluginRequest) : P PluginResponse :=
  let m := method req in
  if bool_decide (m = "profile.list") then list_profiles
  else if bool_decide (m = "profile.create") then create (params req)
  else if bool_decide (m = "profile.read_fragment") then read_fragment (params req)
  else if bool_decide (m = "profile.write_fragment") then write_fragment (params req)
  else if bool_decide (m = "profile.check") then check (params req)
  else if bool_decide (m = "profile.apply") then apply_to_project (params req)
  else if bool_decide (m = "profile.set_remote") then set_remote (params req)
  else if bool_decide (m = "profile.push") then push (params req)
  else if bool_decide (m = "profile.pull") then pull (params req)
  else refuse (BadRequest ("unknown method `" +:+ m +:+ "`")).
(** ** What the methods do *)

Definition reading (c : call) : Prop :=
  match c with FRead _ _ | FIsDir _ _ | FIsFile _ _ | FExists _ _ | FList _ _ => True | _ => False end.

Ltac open_effects :=
  unfold read_fragment_pair, read_required, read_optional, existing_profile_dir, try_read_profile, read_profile_toml,
    write_profile_toml, create_parent, parse_params, json_response, or_git_fault, init, commit_all, git_set_remote,
    git_push, git_pull, run, or_fault, read_text, fs_read, dir_there, file_there, there, entries_of, write,
    create_dir_all, copy_hook_mode, now, ask, act, refuse, done_, bind_result.

Ltac walk := open_effects; repeat walk1.

(** The cases of an answer the last test did not split. *)
Ltac split_answers :=
  repeat match goal with o : option string |- _ => destruct o; try discriminate end.

(** A computation that only reads, with what its result satisfies. *)
Definition surveys {A} (m : P A) (Q : result A PluginError -> Prop) : Prop := does m (fun r l => Forall reading l /\ Q r).

Lemma surveys_ret {A} (r : result A PluginError) (Q : result A PluginError -> Prop) : Q r -> surveys (ret r) Q.
Proof. intros H. apply does_ret. by split; [constructor|]. Qed.

Lemma surveys_bind {A B} (m : P A) (k : A -> P B) (Q : result A PluginError -> Prop) R :
  surveys m Q -> (forall e, Q (Err e) -> R (Err e)) -> (forall a, Q (Ok a) -> surveys (k a) R) -> surveys (bind_result m k) R.
Proof.
  intros Hm He Hk. apply (does_bind _ _ _ _ Hm). intros [a|e] l [Hl Hq].
  - apply (does_conseq _ _ _ (Hk a Hq)). intros r l' [Hl' Hr]. split; [by apply Forall_app|done].
  - apply does_ret. rewrite app_nil_r. split; [done|by apply He].
Qed.

(** Reading faults are the plugin's own, and give what was asked for. *)
Definition internal_or {A} (Q : A -> Prop) (r : result A PluginError) : Prop :=
  match r with Ok a => Q a | Err e => code e = "plugin_internal" end.

Lemma required_surveys file : surveys (read_required file) (internal_or (fun _ => True)).
Proof. unfold surveys. walk. split; [by repeat constructor|]. by destruct a. Qed.

Lemma optional_surveys file : surveys (read_optional file) (internal_or (fun _ => True)).
Proof. unfold surveys. walk. split; [by repeat constructor|]. by destruct a. Qed.

Lemma pair_surveys dir ws file rel active :
  surveys (read_fragment_pair dir ws file rel active) (internal_or (fun o => active = true -> is_Some o)).
Proof.
  unfold read_fragment_pair. destruct active; cbn [negb]; [|by apply surveys_ret].
  eapply surveys_bind; [apply required_surveys|done|intros s _].
  eapply surveys_bind; [apply optional_surveys|done|intros o _]. apply surveys_ret. cbn. eauto.
Qed.

Lemma family_surveys dir ws family names : forall m,
  surveys (read_file_family dir ws family names m)
    (internal_or (fun m' => (forall n, n ∈ names -> is_Some (m' !! n)) /\ forall n, is_Some (m !! n) -> is_Some (m' !! n))).
Proof.
  induction names as [|n names IH]; intros m; cbn [read_file_family].
  { apply surveys_ret. cbn. split; [by intros n ?%elem_of_nil|done]. }
  eapply surveys_bind; [apply required_surveys|done|intros s _].
  eapply surveys_bind; [apply optional_surveys|done|intros o _].
  apply (does_conseq _ _ _ (IH _)). intros [m'|e] l [Hl Hr]; (split; [done|]); cbn in *; [|done].
  destruct Hr as [Hr1 Hr2]. split.
  - intros k [->|Hk]%elem_of_cons; [apply Hr2; rewrite lookup_insert_eq; eauto|auto].
  - intros k Hk. apply Hr2. destruct (decide (n = k)) as [->|Hne]; [rewrite lookup_insert_eq; eauto|by rewrite lookup_insert_ne].
Qed.
Definition planning_errors : list string := "profile_target_missing" :: "plugin_internal" :: content_errors.

(** A change is to a file the profile names or to the harness's own. *)
Definition destined (f : Fragments) (harness_settings : option string) (c : Change) : Prop :=
  path c ∈ planned_paths f \/
  (settings f = true /\ settings_scope f = ScopeGlobal /\ harness_settings = Some (path c)).

Definition planned (p : Profile) (harness_settings : option string) (r : result (list Change) PluginError) : Prop :=
  match r with
  | Ok cs => Forall (destined (fragments p) harness_settings) cs
  | Err e => code e ∈ planning_errors
  end.

Lemma plan_of_errors p t e : populated (fragments p) t -> plan_of p t = Err e -> code e ∈ planning_errors.
Proof.
  intros Hp. unfold plan_of. destruct (plan_changes _ _ p t) as [|x] eqn:E; [done|]. intros [= <-]. cbn.
  do 2 apply list_elem_of_further. by eapply plan_changes_errors.
Qed.

Lemma harness_surveys p s m path hs : (settings (fragments p) = true -> is_Some s) -> (mcp (fragments p) = true -> is_Some m) ->
  settings (fragments p) = true -> settings_scope (fragments p) = ScopeGlobal -> hs = Some path ->
  surveys (plan_harness_settings_change p s m path)
    (fun r => match r with Ok c => Forall (destined (fragments p) hs) (option_list c) | Err e => code e ∈ planning_errors end).
Proof.
  intros Hs Hm Hf Hg ->. unfold plan_harness_settings_change.
  eapply surveys_bind; [apply optional_surveys|intros e He; cbn in He; rewrite He; in_list|intros o _].
  destruct (plan_of _ _) as [cs|e] eqn:E; (apply does_ret_bind; apply surveys_ret).
  - destruct (last cs) as [c|]; cbn; [|constructor]. constructor; [by right|constructor].
  - refine (plan_of_errors _ _ _ _ E). split; cbn; try done.
    + intros H. destruct (Hs H) as [x ->]. eauto.
    + intros H. destruct (Hm H) as [x ->]. eauto.
    + by intros n ?%elem_of_nil.
    + by intros n ?%elem_of_nil.
Qed.

Lemma internal_planning e : code e = "plugin_internal" -> code e ∈ planning_errors.
Proof. intros ->. in_list. Qed.

Lemma project_surveys dir p ws hs : surveys (plan_project_changes dir p ws hs) (planned p hs).
Proof.
  unfold plan_project_changes, dir_there, ask. apply does_perform. intros [|]; cbn [negb].
  2: { apply does_ret. split; [by repeat constructor|]. cbn. in_list. }
  apply (does_conseq _ (fun r l => Forall reading l /\ planned p hs r)); [|intros r l [Hl Hr]; split; [by constructor|exact Hr]].
  eapply surveys_bind; [apply pair_surveys|apply internal_planning|intros s Hs].
  eapply surveys_bind; [apply pair_surveys|apply internal_planning|intros m Hm].
  eapply surveys_bind; [apply pair_surveys|apply internal_planning|intros i Hi].
  eapply surveys_bind; [apply family_surveys|apply internal_planning|intros rs [Hrs _]].
  eapply surveys_bind; [apply family_surveys|apply internal_planning|intros hks [Hhks _]].
  destruct (plan_of _ _) as [cs|e] eqn:E; apply does_ret_bind.
  2: { apply surveys_ret. refine (plan_of_errors _ _ _ _ E). by split. }
  unfold plan_of in E. destruct (plan_changes _ _ _ _) as [cs'|] eqn:Ep; [|done]. injection E as ->.
  assert (Hcs : Forall (destined (fragments p) hs) cs).
  { apply plan_changes_paths in Ep. eapply Forall_impl; [exact Ep|]. intros c Hc. by left. }
  destruct (if _ && _ then hs else None) as [hp|] eqn:Eh; [|by apply surveys_ret].
  destruct (settings (fragments p)) eqn:Es; [|done]. destruct (settings_scope (fragments p)) eqn:Eg; [done|]. cbn in Eh.
  eapply surveys_bind; [apply (harness_surveys p s m hp hs); rewrite ?Es; done|done|intros c Hc].
  apply surveys_ret. cbn. by apply Forall_app.
Qed.
(** *** Backing up and writing *)

(** Where the copy of a change's file is to be: under the time-stamped
    directory at the file's own path in the project, and the harness's settings,
    whose path is absolute, under a name of their own. *)
Definition copied_to (root : string) (c : Change) (copy : string) : Prop :=
  copy = path_join root (if is_absolute (path c) then "harness-settings.json" else path c).

(** Backing up reads the destination and writes its copy. *)
Definition backing_up (ws root : string) (c : Change) (x : call) : Prop :=
  is_create (Profiles.kind c) = false /\
  match x with
  | FRead p _ => p = resolve_dest ws (path c)
  | FMakeDirs p _ => exists copy, copied_to root c copy /\ parent copy = Some p
  | FWrite p _ _ => copied_to root c p
  | _ => False
  end.

(** The file was there and a copy of it is on disk, or it was gone. *)
Definition backed_up (ws root : string) (c : Change) (l : list call) : Prop :=
  is_create (Profiles.kind c) = true \/
  (exists bytes copy, copied_to root c copy /\ FRead (resolve_dest ws (path c)) (Contents bytes) ∈ l /\ FWrite copy bytes None ∈ l) \/
  FRead (resolve_dest ws (path c)) NotFound ∈ l.

Definition writing (ws : string) (c : Change) (x : call) : Prop :=
  match x with
  | FMakeDirs p _ => parent (resolve_dest ws (path c)) = Some p
  | FWrite p content _ => p = resolve_dest ws (path c) /\ content = after c
  | FMode _ p => p = resolve_dest ws (path c)
  | _ => False
  end.

Definition written (ws : string) (c : Change) (l : list call) : Prop := FWrite (resolve_dest ws (path c)) (after c) None ∈ l.

Lemma in_middle {A} (x : A) l1 l2 l3 : x ∈ l2 -> x ∈ l1 ++ l2 ++ l3.
Proof. rewrite !elem_of_app. auto. Qed.

Lemma backed_up_mono ws root c l1 l2 l3 : backed_up ws root c l2 -> backed_up ws root c (l1 ++ l2 ++ l3).
Proof.
  intros [H|[(b & p & Hp & H1 & H2)|H]]; [by left|right; left; exists b, p; eauto using in_middle|right; right; eauto using in_middle].
Qed.

Lemma create_parent_does p (R : call -> Prop) : (forall d e, parent p = Some d -> R (FMakeDirs d e)) ->
  does (create_parent p) (fun r l => Forall R l).
Proof. intros H. unfold create_parent. walk; repeat constructor; by apply H. Qed.

Lemma backup_copies root c : copied_to root c (path_join root (backup_relative_path (path c))).
Proof. unfold copied_to, backup_relative_path. by destruct (is_absolute (path c)). Qed.

Lemma backup_does ws root c : does (backup_one ws root c) (fun r l =>
  Forall (backing_up ws root c) l /\ (is_ok r = true -> backed_up ws root c l)).
Proof.
  unfold backup_one. destruct (is_create (Profiles.kind c)) eqn:Ec; [apply does_ret; by repeat constructor|]. unfold bind_result at 1.
  pose proof (backup_copies root c) as Hp.
  eapply does_bind; [apply (create_parent_does _ (backing_up ws root c)); split; eauto|]. intros [u|e] l Hl; cbn beta in Hl.
  - walk; split_answers; (split; [apply Forall_app; split; [done|]; by repeat (constructor; [by split|])|intros H; try discriminate H]); right.
    + left. eexists _, _. split; [exact Hp|]. rewrite !elem_of_app. split; right; in_list.
    + right. rewrite elem_of_app. right. in_list.
  - apply does_ret. by rewrite app_nil_r.
Qed.

Lemma write_does dir ws c : does (write_one dir ws c) (fun r l => Forall (writing ws c) l /\ (is_ok r = true -> written ws c l)).
Proof.
  unfold write_one, written. unfold bind_result at 1.
  eapply does_bind; [by apply (create_parent_does _ (writing ws c))|]. intros [u|e] l Hl; cbn beta in Hl.
  - walk; split_answers; (split; [apply Forall_app; by repeat constructor|intros H; try discriminate H]); rewrite elem_of_app; right; in_list.
  - apply does_ret. by rewrite app_nil_r.
Qed.
(** *** Names below a directory *)

Definition plain_name (x : string) : Prop := is_name x = true /\ x <> "..".

(** Below [base] by names only: none of them leads up. *)
Definition inside (base p : string) : Prop := exists names, below base names p /\ Forall plain_name names.

Lemma inside_refl base : inside base base.
Proof. exists []. split; [apply below_refl|constructor]. Qed.

Lemma inside_join base p x : inside base p -> plain_name x -> inside base (path_join p x).
Proof.
  intros (names & Hb & Hn) Hx. exists (names ++ [x]). split; [apply below_join; [done|apply Hx]|].
  apply Forall_app. split; [done|]. by apply Forall_singleton.
Qed.

Lemma plain_relative x : plain_name x -> is_absolute x = false.
Proof. intros [(_ & _ & Hc)%is_name_spec _]. by apply is_name_relative. Qed.

Lemma safe_plain f : is_safe_file_name f = true -> plain_name f.
Proof.
  unfold is_safe_file_name. rewrite !andb_true_iff, !negb_true_iff, !bool_decide_eq_false.
  intros [[[[[He Hs] _] Hd] Hdd] _]. split; [|done]. apply is_name_spec. split; [|done]. by destruct f.
Qed.

Lemma joined_nonempty p x : is_name x = true -> path_join p x <> EmptyString.
Proof.
  intros (He & _ & Hc)%is_name_spec. unfold path_join. rewrite (is_name_relative x Hc).
  destruct (last (list_ascii_of_string p)) as [a|] eqn:E; [|done]. destruct p as [|y p]; [done|].
  by case_bool_decide; rewrite str_app_cons.
Qed.

(** What [write_fragment] checks of the names it lists. *)
Definition safe_names (f : Fragments) : Prop := Forall (fun n => is_safe_file_name n = true) (rules f ++ hooks f).

(** A path of the plan leads below any base by names only, and first to one of
    two. *)
Lemma planned_below base f x : base <> EmptyString -> safe_names f -> x ∈ planned_paths f ->
  is_absolute x = false /\ exists n names, below base (n :: names) (path_join base x) /\ Forall plain_name (n :: names) /\ n ∈ [".claude"; "CLAUDE.md"].
Proof.
  intros Hb Hs Hx. unfold planned_paths in Hx. rewrite !elem_of_cons, elem_of_app in Hx. apply Forall_app in Hs as [Hr Hh].
  assert (Hfam : forall family n, plain_name family -> is_safe_file_name n = true -> 
    is_absolute (".claude/" +:+ (family +:+ String "/" n)) = false /\
    exists m names, below base (m :: names) (path_join base (".claude/" +:+ (family +:+ String "/" n))) /\ Forall plain_name (m :: names) /\ m ∈ [".claude"; "CLAUDE.md"]).
  { intros family n Hf Hn%safe_plain. split; [done|]. exists ".claude", [family; n]. split; [|split; [by repeat (apply Forall_cons; split; [done|]); apply Forall_nil|in_list]].
    change (".claude/" +:+ ?y) with (".claude" +:+ String "/" y).
    rewrite path_join_cons; [|done..|]. 2: { rewrite is_absolute_app; [by apply plain_relative|]. destruct Hf as [Hf _]. by apply is_name_spec in Hf as [Hf _]. }
    rewrite path_join_cons; [|by apply joined_nonempty|apply Hf|by apply plain_relative].
    apply (below_join _ [".claude"; family]); [|apply Hn]. apply (below_join _ [".claude"]); [|apply Hf].
    apply (below_join _ []); [apply below_refl|done]. }
  destruct Hx as [->|[->|[Hx|Hx]]].
  - split; [done|]. exists ".claude", ["settings.json"]. split; [|split; [by repeat (apply Forall_cons; split; [done|]); apply Forall_nil|in_list]].
    change ".claude/settings.json" with (".claude" +:+ String "/" "settings.json"). rewrite path_join_cons by done.
    apply (below_join _ [".claude"]); [|done]. apply (below_join _ []); [apply below_refl|done].
  - split; [done|]. exists "CLAUDE.md", []. split; [|split; [by repeat (apply Forall_cons; split; [done|]); apply Forall_nil|in_list]].
    apply (below_join _ []); [apply below_refl|done].
  - apply list_elem_of_fmap in Hx as (n & -> & Hn). apply (Hfam "rules" n); [done|]. by eapply Forall_forall in Hr.
  - apply list_elem_of_fmap in Hx as (n & -> & Hn). apply (Hfam "hooks" n); [done|]. by eapply Forall_forall in Hh.
Qed.

Lemma digits_name x : x <> EmptyString -> str_forallb is_ascii_digit x = true -> is_name x = true.
Proof.
  intros He Hd. apply is_name_spec. split; [done|].
  assert (Hc : forall c, is_ascii_digit c = false -> contains_char c x = false).
  { intros c Hc. clear He. induction x as [|y x IH]; [done|]. cbn in *. apply andb_prop in Hd as [Hy Hd].
    destruct (decide (y = c)) as [->|]; [congruence|auto]. }
  split; [|by apply Hc]. intros ->. done.
Qed.

Lemma stamp_name t : is_name (backup_timestamp t) = true.
Proof.
  assert (Hp : forall n : N, str_forallb is_ascii_digit (pretty n) = true).
  { intros n. unfold pretty, pretty_N. case_decide; [done|]. by apply pretty_digits. }
  assert (Ha : forall a b, str_forallb is_ascii_digit (a +:+ b) = str_forallb is_ascii_digit a && str_forallb is_ascii_digit b).
  { induction a as [|c a IH]; intros b; [done|]. rewrite str_app_cons. cbn. by rewrite IH, andb_assoc. }
  unfold backup_timestamp, pad9. apply digits_name.
  - intros H. apply (f_equal String.length) in H. rewrite !str_length_app in H.
    assert (Hn : String.length (pretty (fst t)) <> 0); [|cbn in H; lia]. unfold pretty, pretty_N. case_decide; [done|].
    rewrite pretty_N_go_step by lia. intros Hz.
    assert (Hl : forall x s, String.length (pretty_N_go x s) >= String.length s).
    { intros x. induction (N.lt_wf_0 x) as [x _ IH]. intros s. destruct (decide (0 < x)%N) as [Hx|Hx].
      - rewrite pretty_N_go_step by done. specialize (IH (x / 10)%N ltac:(apply N.div_lt; lia) (String (pretty_N_char (x mod 10)) s)). cbn [String.length] in IH. lia.
      - assert (x = 0%N) as -> by lia. rewrite pretty_N_go_0. lia. }
    specialize (Hl (fst t / 10)%N (String (pretty_N_char (fst t mod 10)) EmptyString)). cbn [String.length] in Hl. lia.
  - rewrite !Ha, !Hp. cbn. rewrite andb_true_r. generalize (9 - String.length (pretty (snd t)))%nat. intros k.
    induction k as [|[|k] IH]; done.
Qed.

(** With the names [write_fragment] accepts, the copies go below the backup
    directory, where no file of the project that the plan writes is. *)
Lemma copies_stay ws t f hs c : ws <> EmptyString -> safe_names f -> (forall h, hs = Some h -> is_absolute h = true) -> destined f hs c ->
  (forall copy, copied_to (backup_root ws t) c copy -> inside (backup_root ws t) copy) /\
  (is_absolute (path c) = false -> ~ inside (backup_root ws t) (resolve_dest ws (path c))).
Proof.
  intros Hws Hs Habs Hd. set (root := backup_root ws t).
  assert (Hroot : below ws [".willie-bak"; backup_timestamp t] root).
  { apply (below_join _ [".willie-bak"]); [|apply stamp_name]. apply (below_join _ []); [apply below_refl|done]. }
  assert (Hne : root <> EmptyString) by apply joined_nonempty, stamp_name.
  unfold copied_to, resolve_dest. destruct Hd as [Hd|(_ & _ & Hh)].
  - destruct (planned_below root f (path c)) as (Ha & n & names & Hb & Hn & _); [done..|]. rewrite Ha. split.
    + intros copy ->. by exists (n :: names).
    + intros _ (names' & Hin & _). destruct (planned_below ws f (path c)) as (_ & m & l & Hb' & _ & Hm); [done..|].
      unfold below in *. rewrite Hb', Hroot in Hin. cbn [fst snd] in Hin. injection Hin as Hin.
      rewrite <- app_assoc in Hin. apply app_inv_head in Hin. cbn [app] in Hin. injection Hin as -> _.
      rewrite !elem_of_cons, elem_of_nil in Hm. naive_solver.
  - rewrite (Habs _ Hh). split; [|done]. intros copy ->. apply (inside_join _ _ "harness-settings.json"); [apply inside_refl|done].
Qed.

(** *** Applying *)

Lemma existing_surveys name : surveys (existing_profile_dir name) (fun r =>
  match r with Ok dir => profile_dir name = Ok dir | Err e => code e ∈ ["profile_name_invalid"; "profile_not_found"] end).
Proof.
  unfold surveys, existing_profile_dir. unfold bind_result at 1. apply does_ret_bind.
  destruct (profile_dir name) as [dir|e] eqn:E.
  - walk; (split; [by repeat constructor|]); [done|cbn; in_list].
  - apply does_ret. split; [by constructor|]. unfold profile_dir in E.
    destruct (negb _); [injection E as <-; cbn; in_list|]. destruct (negb _); [injection E as <-; cbn; in_list|done].
Qed.

Definition parsed_profile (dir : string) (p : Profile) (l : list call) : Prop :=
  exists text, FRead (path_join dir "profile.toml") (Contents text) ∈ l /\ parse_toml text = Ok p.

Lemma toml_does dir : does (read_profile_toml dir) (fun r l => Forall reading l /\
  match r with Ok p => parsed_profile dir p l | Err e => code e = "plugin_internal" end).
Proof.
  walk. split; [by repeat constructor|]. destruct a as [text| |e]; cbn; [|done|done].
  destruct (parse_toml text) eqn:E; cbn; [|done]. exists text. split; [in_list|done].
Qed.

(** What both methods do first: the parameters, the profile and its plan. *)
Definition prepared (v : Json) (plan : list call) (q : ApplyParams) (dir : string) (p : Profile) (changes : list Change) : Prop :=
  from_apply decoders v = Ok q /\ profile_dir (p_name q) = Ok dir /\ parsed_profile dir p plan /\
  Forall (destined (fragments p) (harness_settings q)) changes.

Definition check_errors : list string :=
  "plugin_bad_request" :: "profile_name_invalid" :: "profile_not_found" :: planning_errors.

Lemma prepare_does {B} v (k : ApplyParams -> string -> list Change -> P B) (R : result B PluginError -> list call -> Prop) :
  (forall e l, Forall reading l -> code e ∈ check_errors -> R (Err e) l) ->
  (forall q dir p changes plan, Forall reading plan -> prepared v plan q dir p changes ->
     does (k q dir changes) (fun r l => R r (plan ++ l))) ->
  does (let! q := parse_params (from_apply decoders) v in
        let! dir := existing_profile_dir (p_name q) in
        let! profile := read_profile_toml dir in
        let! changes := plan_project_changes dir profile (workspace q) (harness_settings q) in
        k q dir changes) R.
Proof.
  intros He Hk. unfold parse_params, bind_result at 1. apply does_ret_bind.
  destruct (from_apply decoders v) as [q|e] eqn:Eq; cbn [map_err]; [|apply does_ret; apply He; [by constructor|in_list]].
  unfold bind_result at 1. eapply does_bind; [apply existing_surveys|]. intros [dir|e] l1 [Hl1 Hd].
  2: { apply does_ret. rewrite app_nil_r. apply He; [done|]. unfold check_errors. set_solver. }
  unfold bind_result at 1. eapply does_bind; [apply toml_does|]. intros [p|e] l2 [Hl2 Hp]; cbn in Hp.
  2: { apply does_ret. rewrite app_nil_r. apply He; [by apply Forall_app|]. rewrite Hp. in_list. }
  unfold bind_result at 1. eapply does_bind; [apply project_surveys|]. intros [cs|e] l3 [Hl3 Hc]; cbn in Hc.
  2: { apply does_ret. rewrite app_nil_r. apply He; [rewrite !Forall_app; done|]. do 3 apply list_elem_of_further. exact Hc. }
  eapply does_conseq; [apply (Hk q dir p cs (l1 ++ l2 ++ l3))|].
  - by rewrite !Forall_app.
  - split; [done|]. split; [done|]. split; [|done]. destruct Hp as (text & Ht & Hpt). exists text. split; [by apply in_middle|done].
  - cbn beta. intros r l. by rewrite <- !app_assoc.
Qed.

(** Checking a profile against a project reads files and writes nothing,
    and it fails only with the codes PROTOCOL.md lists for it: an active
    fragment never lacks its inputs ([profile_fragment_missing]). *)
Theorem check_only_reads v : does (check v) (fun r l =>
  Forall reading l /\ match r with Ok _ => True | Err e => code e ∈ check_errors end).
Proof.
  unfold check. apply prepare_does; [done|]. intros q dir p cs plan Hplan _. apply does_ret. rewrite app_nil_r. done.
Qed.

(** The same for the backups of a plan. *)
Lemma backups_stay ws t f hs changes backups : Forall (destined f hs) changes ->
  Forall (fun x => exists c, c ∈ changes /\ backing_up ws (backup_root ws t) c x) backups ->
  ws <> EmptyString -> safe_names f -> (forall h, hs = Some h -> is_absolute h = true) ->
  (forall g b e, FWrite g b e ∈ backups -> inside (backup_root ws t) g) /\
  Forall (fun c => is_absolute (path c) = false -> ~ inside (backup_root ws t) (resolve_dest ws (path c))) changes.
Proof.
  intros Hd Hb Hws Hs Ha. pose proof (proj1 (Forall_forall _ _) Hd) as Hd1. pose proof (proj1 (Forall_forall _ _) Hb) as Hb1. cbv beta in Hb1. split.
  - intros g b e (c & Hc & _ & Hg)%Hb1. by eapply copies_stay; [..|apply Hd1|].
  - apply Forall_forall. intros c Hc. eapply copies_stay; [done..|by apply Hd1].
Qed.

(** C32. Applying a profile reads, then backs up, then writes.  Nothing is
    written unless the whole plan stood.  The backups read only files the plan
    merges into or overwrites and write only their copies, each at its own path
    under the time-stamped directory, the harness's settings as
    [harness-settings.json]; when the profile's listed names are ones
    [write_fragment] accepts and the harness's settings are given by an absolute
    path, every copy goes below that directory, where no file of the project
    that the plan writes is.  No destination is written before every file the
    plan merges into or overwrites was copied as it then was, or was gone; the
    writes are the plan's, and all of them when the answer is a success. *)
Theorem apply_backs_up_before_writing v : does (apply_to_project v) (fun r l =>
  (Forall reading l /\ exists e, r = Err e /\ code e ∈ check_errors) \/
  exists plan backups writes q dir p changes t, l = plan ++ FClock t :: backups ++ writes /\
    let ws := workspace q in let root := backup_root ws t in
    Forall reading plan /\ prepared v plan q dir p changes /\
    Forall (fun x => exists c, c ∈ changes /\ backing_up ws root c x) backups /\
    (ws <> EmptyString -> safe_names (fragments p) -> (forall h, harness_settings q = Some h -> is_absolute h = true) ->
       (forall f b e, FWrite f b e ∈ backups -> inside root f) /\
       Forall (fun c => is_absolute (path c) = false -> ~ inside root (resolve_dest ws (path c))) changes) /\
    (writes = [] \/ Forall (fun c => backed_up ws root c backups) changes) /\
    Forall (fun x => exists c, c ∈ changes /\ writing ws c x) writes /\
    (is_ok r = true -> Forall (fun c => written ws c writes) changes)).
Proof.
  unfold apply_to_project. apply prepare_does; [left; eauto|]. intros q dir p cs plan Hplan Hprep.
  unfold backup_changes, now, ask, bind_result at 1. apply does_assoc, does_perform. intros t. apply does_assoc.
  eapply does_bind; [apply (each_does _ (backing_up (workspace q) (backup_root (workspace q) t))
    (backed_up (workspace q) (backup_root (workspace q) t))); intros; [by apply backed_up_mono|apply backup_does]|].
  intros [u|e] backups [Hb Hbu]; apply does_ret_bind.
  2: { apply does_ret. right. exists plan, backups, [], q, dir, p, cs, t. rewrite !app_nil_r. do 4 (split; [done|]).
       split; [by eapply backups_stay; [apply Hprep|]|]. split; [by left|]. done. }
  unfold bind_result at 1. eapply does_bind; [apply (each_does _ (writing (workspace q)) (written (workspace q)));
    intros; [by apply in_middle|apply write_does]|].
  intros [u'|e] writes [Hw Hwr]; apply does_ret; right; exists plan, backups, writes, q, dir, p, cs, t;
    rewrite app_nil_r; do 4 (split; [done|]); (split; [by eapply backups_stay; [apply Hprep|]|]); (split; [right; by apply Hbu|]);
    (split; [done|]); [|done]. intros _. by apply Hwr.
Qed.
(** *** Where the other methods write *)

Lemma profile_dir_ok name dir : profile_dir name = Ok dir <-> is_valid_profile_name name = true /\ dir = path_join store_dir name.
Proof.
  unfold profile_dir. destruct (is_valid_profile_name name) eqn:E; cbn [negb]; [|split; [done|by intros [? _]]].
  destruct (safe_plain _ E) as [Hn _].
  assert (Hc : is_contained store_dir (path_join store_dir name) = true).
  { eapply below_starts_with, (below_join _ []); [apply below_refl|done]. }
  rewrite Hc. cbn. split; [by intros [= <-]|by intros [_ ->]].
Qed.

Definition tidy (c : call) : Prop :=
  match c with FWrite p _ _ => inside store_dir p | FMode _ _ => False | _ => True end.

Lemma reading_tidy l : Forall reading l -> Forall tidy l.
Proof. intros H. eapply Forall_impl; [exact H|]. by intros []. Qed.

Lemma dir_file name dir x : profile_dir name = Ok dir -> plain_name x -> inside store_dir (path_join dir x).
Proof.
  intros [Hn ->]%profile_dir_ok Hx. apply inside_join; [|done]. apply inside_join; [apply inside_refl|by apply safe_plain].
Qed.

Lemma parse_fragment_inside name dir s f : profile_dir name = Ok dir -> parse_fragment_name s = Some f ->
  inside store_dir (path_join dir (relative_path f)).
Proof.
  intros Hd Hf.
  assert (H2 : forall x y, plain_name x -> plain_name y -> inside store_dir (path_join dir (x +:+ String "/" y))).
  { intros x y Hx Hy. rewrite path_join_cons; [|by apply profile_dir_ok in Hd as [Hn ->];
      apply joined_nonempty, safe_plain|apply Hx|by apply plain_relative]. apply inside_join; [|done]. by eapply dir_file. }
  unfold parse_fragment_name in Hf.
  repeat (case_bool_decide; [injection Hf as <-; by eapply dir_file|]).
  destruct (strip_prefix "rules/" s) as [x|].
  { destruct (is_safe_file_name x) eqn:Ex; [|done]. injection Hf as <-. apply (H2 "rules" x); [done|by apply safe_plain]. }
  destruct (strip_prefix "hooks/" s) as [x|]; [|done].
  destruct (is_safe_file_name x) eqn:Ex; [|done]. injection Hf as <-. apply (H2 "hooks" x); [done|by apply safe_plain].
Qed.

Lemma fragment_inside name dir s f : profile_dir name = Ok dir -> parse_fragment s = Ok f ->
  inside store_dir (path_join dir (relative_path f)).
Proof.
  unfold parse_fragment. destruct (parse_fragment_name s) eqn:E; cbn; [|done]. intros Hd [= <-]. by eapply parse_fragment_inside.
Qed.

Lemma summarise_tidy store entries : forall acc, does (summarise store entries acc) (fun r l => Forall tidy l).
Proof.
  induction entries as [|[[p d]|e] entries IH]; intros acc; cbn [summarise]; [by apply does_ret| |by apply does_ret].
  destruct d; cbn [negb]; [|apply IH]. unfold try_read_profile, read_text, ask. walk1. apply does_perform. intros a.
  apply does_ret_bind. eapply does_conseq; [apply IH|]. intros r l Hl. by constructor.
Qed.

Ltac tidy_list :=
  repeat constructor; cbn [tidy]; try (by eapply dir_file);
  try (eapply fragment_inside; eassumption).

Lemma list_tidy : does list_profiles (fun r l => Forall tidy l).
Proof.
  unfold list_profiles, entries_of, ask. apply does_perform. intros [|e|entries].
  - apply does_ret. by repeat constructor.
  - apply does_ret. by repeat constructor.
  - unfold bind_result. eapply does_bind; [apply summarise_tidy|]. intros [s|e] l Hl; cbn beta in Hl; apply does_ret;
      rewrite app_nil_r; by constructor.
Qed.

Lemma create_tidy v : does (create v) (fun r l => Forall tidy l).
Proof. unfold create. walk; tidy_list. Qed.

Lemma read_tidy v : does (read_fragment v) (fun r l => Forall tidy l).
Proof. unfold read_fragment. walk; tidy_list. Qed.

Lemma write_tidy v : does (write_fragment v) (fun r l => Forall tidy l).
Proof.
  unfold write_fragment. walk; tidy_list.
Qed.

Lemma sync_tidy v : does (set_remote v) (fun r l => Forall tidy l) /\ does (push v) (fun r l => Forall tidy l) /\
  does (pull v) (fun r l => Forall tidy l).
Proof. split; [|split]; [unfold set_remote|unfold push|unfold pull]; walk; tidy_list. Qed.

(** But for [profile.apply], every method writes only below the plugin's
    store, in the directory of a profile or its [rules] and [hooks], whatever
    the names in the request: no name leads up or elsewhere. *)
Theorem methods_stay_in_the_store req : method req <> "profile.apply" -> does (handle req) (fun r l => Forall tidy l).
Proof.
  intros Hm. unfold handle.
  repeat (case_bool_decide; [first [exact list_tidy|apply create_tidy|apply read_tidy|apply write_tidy|done|apply sync_tidy|idtac]|]).
  - unfold check. apply prepare_does; [intros e l Hl _; by apply reading_tidy|]. intros q dir p cs plan Hplan _.
    apply does_ret. rewrite app_nil_r. by apply reading_tidy.
  - apply does_ret. constructor.
Qed.
(** *** Where applying writes *)

(** A profile whose listed files have the names [write_fragment] accepts
    changes nothing outside the project, but for the harness's settings it
    was given. *)
Theorem safe_names_stay_in_the_workspace ws f hs c : ws <> EmptyString -> safe_names f -> destined f hs c ->
  inside ws (resolve_dest ws (path c)) \/ (settings_scope f = ScopeGlobal /\ hs = Some (path c)).
Proof.
  intros Hws Hs [Hc|(_ & Hg & Hh)]; [left|by right]. destruct (planned_below ws f (path c)) as (Ha & n & names & Hb & Hn & _); [done..|].
  unfold resolve_dest. rewrite Ha. by exists (n :: names).
Qed.
End store.

(** ** At concrete inputs *)

Lemma safe_names_stay_in_the_workspace_witness :
  inside "/w/app" (resolve_dest "/w/app" ".claude/rules/tabs.md") \/ (ScopeProject = ScopeGlobal /\ @None string = Some ".claude/rules/tabs.md").
Proof.
  apply (safe_names_stay_in_the_workspace "/w/app" (mk_fragments false ScopeProject false ["tabs.md"] [] false) None
    (mk_change ".claude/rules/tabs.md" Overwrite EmptyString)); [done|by repeat constructor|].
  left. by_deciding.
Defined.

Lemma methods_stay_in_the_store_witness : exists l : list call, Forall (tidy "/p") l.
Proof.
  destruct (methods_stay_in_the_store (fun _ (s : unit) => s) (fun _ _ => NotFound) (fun _ _ => NotFound) (fun _ _ => true)
    (fun _ _ => true) (fun _ _ => true) (fun _ _ => Listing []) (fun _ _ s => (None, s)) (fun _ s => (None, s))
    (fun _ _ s => s) (fun _ _ s => (Ended true EmptyString EmptyString, s)) (fun _ => (0%N, 0%N)) (fun _ => Err EmptyString)
    (fun _ => Ok EmptyString) (fun _ => Err EmptyString) (fun _ => Err EmptyString)
    (Build_Decoders (fun _ => Ok "p") (fun _ => Err EmptyString) (fun _ => Err EmptyString) (fun _ => Err EmptyString)
       (fun _ => Err EmptyString)) (fun s => s) "/p" (mk_request "profile.create" JNull) ltac:(discriminate)
    (mk_world tt 0 [])) as (l & _ & Hl).
  exists l. exact Hl.
Defined.

(** A profile pulled from a remote that lists a rule by a path leading up. *)
Definition pulled : Profile :=
  mk_profile "team" (mk_fragments false ScopeProject false ["../../../../home/willie/.bashrc"] [] false).

Definition pulled_params : ApplyParams := mk_apply_params "team" "/w/app" None.

Definition sample_apply : result PluginResponse PluginError * World unit call :=
  apply_to_project (fun _ s => s) (fun p _ => if bool_decide (p = "/p/team/profile.toml") then Contents EmptyString
      else if bool_decide (p = "/p/team/rules/../../../../home/willie/.bashrc") then Contents "rm -r" else Contents "mine")
    (fun _ _ => Contents "mine") (fun _ _ => true) (fun _ _ => true)
    (fun _ _ s => (None, s)) (fun _ s => (None, s)) (fun _ _ s => s) (fun _ => (1%N, 0%N))
    (fun _ => Ok pulled) (fun _ => Err EmptyString) (fun _ => Err EmptyString)
    (Build_Decoders (fun _ => Err EmptyString) (fun _ => Err EmptyString) (fun _ => Err EmptyString) (fun _ => Ok pulled_params)
       (fun _ => Err EmptyString)) "/p" JNull (mk_world tt 0 []).

(** The names a profile lists are checked when [write_fragment] adds one and
    not when it is applied: a [profile.toml] edited by hand or pulled from a
    remote that lists a path leading up makes [profile.apply] overwrite a file
    outside the project, and back it up outside the backup directory. *)
Theorem listed_names_are_trusted :
  is_ok (fst sample_apply) = true /\
  FWrite "/w/app/.claude/rules/../../../../home/willie/.bashrc" "rm -r" None ∈ calls (snd sample_apply) /\
  FWrite "/w/app/.willie-bak/1000000000/.claude/rules/../../../../home/willie/.bashrc" "mine" None ∈ calls (snd sample_apply) /\
  existsb (negb ∘ is_safe_file_name) (rules (fragments pulled)) = true.
Proof. split; [vm_compute; reflexivity|]. split; [vm_compute; in_list|]. split; [vm_compute; in_list|vm_compute; reflexivity]. Qed.
