(* ===== verification/Plugins.v ===== *)
(** * The plugin host

    Models crates/willied/src/plugins.rs: the registry, which plugins are
    enabled where, routing, and the panic boundary.  A plugin is whatever its
    methods do to the world [W] they can reach, its own state included; a call
    ends with its answer or by panicking. *)

From S2P Require Import Prelude Text Json Sessions PluginApi.

Local Open Scope string_scope.
Local Open Scope list_scope.
Local Open Scope willie_scope.

(** ** Data *)

(** A call into a plugin: what it emitted, and its answer unless it panicked. *)
Record Call (A : Type) : Type := mk_call { emitted : list PluginEmission; outcome : option (result A PluginError) }.
Arguments mk_call {A}.
Arguments emitted {A}.
Arguments outcome {A}.

Record Plugin (W : Type) : Type := mk_plugin {
  p_manifest : PluginManifest;
  p_on_enable : Scope -> W -> Call unit * W;
  p_on_disable : Scope -> W -> Call unit * W;
  p_handle : PluginRequest -> W -> Call PluginResponse * W;
  p_on_event : CoreEvent -> W -> Call unit * W
}.
Arguments mk_plugin {W}.
Arguments p_manifest {W}.
Arguments p_on_enable {W}.
Arguments p_on_disable {W}.
Arguments p_handle {W}.
Arguments p_on_event {W}.

Record EnabledEntry : Type := mk_entry { global : option bool; projects : list N }.

Definition default_entry : EnabledEntry := mk_entry None [].

Inductive Enablement : Type := EnabledGlobally (b : bool) | EnabledIn (projects : list N).

Record PluginStatus : Type := mk_status {
  st_id : string; st_name : string; st_scope : Scope; st_enabled : Enablement; st_degraded : bool
}.

Record EnableParams : Type := mk_enable { e_id : string; e_project : option N }.

(** ** Errors *)

Definition not_found (id : string) : OpError :=
  mk_op "plugin_not_found" ("no plugin with id `" +:+ id +:+ "`") "check plugin.list for the available plugin ids".

Definition disabled (id : string) : OpError :=
  mk_op "plugin_disabled" ("the `" +:+ id +:+ "` plugin is disabled")
    "enable it with plugin.enable before calling its methods".

Definition panicked (id : string) : OpError :=
  mk_op "plugin_panicked" ("the `" +:+ id +:+ "` plugin panicked and was marked degraded")
    "check the daemon log; the plugin stays degraded until it is re-enabled".

Definition scope_mismatch (id : string) (scope : Scope) : OpError :=
  match scope with
  | Global => mk_op "plugin_scope_mismatch"
      ("the `" +:+ id +:+ "` plugin is global and cannot be enabled for a single project")
      "enable it globally, with no project id"
  | PerProject => mk_op "plugin_scope_mismatch"
      ("the `" +:+ id +:+ "` plugin is per-project and cannot be enabled globally")
      "enable it for a project by passing its project id"
  end.

Definition is_fault (e : PluginError) : bool := match e with Internal _ => true | _ => false end.

Definition plugin_error_to_op (e : PluginError) : OpError :=
  mk_op (PluginApi.code e) (display e) (PluginApi.remediation e).

(** [split_once('.')], or the whole method. *)
Fixpoint namespace (method : string) : string :=
  match method with
  | EmptyString => EmptyString
  | String a s => if bool_decide (a = "."%char) then EmptyString else String a (namespace s)
  end.

(** ** The host *)

Section host.
  Context {W : Type}.
  (** The file system, as [enabled.toml] and the stores need it, and TOML. *)
  Context (read_file : string -> W -> option string) (create_dirs : string -> W -> bool * W)
    (write_file : string -> string -> W -> bool * W).
  Context (parse_enabled : string -> result (gmap string EnabledEntry) string) (print_enabled : gmap string EnabledEntry -> result string string).

Definition plugins_dir (state_dir : string) : string := path_join state_dir "plugins".
Definition enabled_path (state_dir : string) : string := path_join (plugins_dir state_dir) "enabled.toml".
Definition store_dir_for (state_dir id : string) : string := path_join (plugins_dir state_dir) id.

Definition load (path : string) (w : W) : gmap string EnabledEntry :=
  match read_file path w with
  | Some text => match parse_enabled text with Ok plugins => plugins | Err _ => ∅ end
  | None => ∅
  end.

(** Every failure is logged and dropped. *)
Definition save (path : string) (enabled : gmap string EnabledEntry) (w : W) : W :=
  let '(made, w) := match parent path with Some p => create_dirs p w | None => (true, w) end in
  if negb made then w
  else match print_enabled enabled with
       | Ok text => snd (write_file path text w)
       | Err _ => w
       end.

Record PluginHost : Type := mk_host {
  plugins : list (Plugin W); enabled : gmap string EnabledEntry; degraded : gset string; state_dir : string
}.

Definition with_registry (dir : string) (plugins : list (Plugin W)) (w : W) : PluginHost :=
  mk_host plugins (load (enabled_path dir) w) ∅ dir.

Definition set_degraded (d : gset string) (h : PluginHost) : PluginHost :=
  mk_host (plugins h) (enabled h) d (state_dir h).

Definition set_entries (e : gmap string EnabledEntry) (h : PluginHost) : PluginHost :=
  mk_host (plugins h) e (degraded h) (state_dir h).

Definition id_of (p : Plugin W) : string := m_id (p_manifest p).

Definition index_of (id : string) (h : PluginHost) : option (Plugin W) :=
  List.find (fun p => bool_decide (id_of p = id)) (plugins h).

Definition is_enabled (h : PluginHost) (p : Plugin W) : bool :=
  let entry := enabled h !! id_of p in
  match m_scope (p_manifest p) with
  | Global => default false (entry ≫= global)
  | PerProject => match entry with Some e => negb (bool_decide (projects e = [])) | None => false end
  end.

Definition status_of (h : PluginHost) (p : Plugin W) : PluginStatus :=
  let entry := enabled h !! id_of p in
  mk_status (id_of p) (m_name (p_manifest p)) (m_scope (p_manifest p))
    (match m_scope (p_manifest p) with
     | Global => EnabledGlobally (default false (entry ≫= global))
     | PerProject => EnabledIn (match entry with Some e => projects e | None => [] end)
     end)
    (bool_decide (id_of p ∈ degraded h)).

Definition list_plugins (h : PluginHost) : list PluginStatus := map (status_of h) (plugins h).

(** The store is made, best effort, and the call runs inside the boundary; the
    host's [emit] drops what the plugin emits. *)
Definition guarded {A} (call : W -> Call A * W) (id dir : string) (w : W) : option (result A PluginError) * W :=
  let '(_, w) := create_dirs (store_dir_for dir id) w in
  let '(c, w) := call w in
  (outcome c, w).

Definition mark (id : string) (h : PluginHost) : PluginHost := set_degraded ({[id]} ∪ degraded h) h.

Definition clear (id : string) (h : PluginHost) : PluginHost := set_degraded (degraded h ∖ {[id]}) h.

(** What the end of a call makes of the host, and its error. *)
Definition settle {A} (id : string) (o : option (result A PluginError)) (h : PluginHost) : result A OpError * PluginHost :=
  match o with
  | None => (Err (panicked id), mark id h)
  | Some (Err e) => (Err (plugin_error_to_op e), if is_fault e then mark id h else h)
  | Some (Ok a) => (Ok a, clear id h)
  end.

Definition toggle (project : option N) (on : bool) (e : EnabledEntry) : EnabledEntry :=
  match project with
  | None => mk_entry (Some on) (projects e)
  | Some p =>
      mk_entry (global e)
        (if on then if bool_decide (p ∈ projects e) then projects e else projects e ++ [p]
         else List.filter (fun q => negb (bool_decide (q = p))) (projects e))
  end.

Definition scope_fits (scope : Scope) (project : option N) : bool :=
  match scope, project with Global, None | PerProject, Some _ => true | _, _ => false end.

Definition set_enabled (params : EnableParams) (on : bool) (h : PluginHost) (w : W) :
    result PluginStatus OpError * PluginHost * W :=
  let id := e_id params in
  match index_of id h with
  | None => (Err (not_found id), h, w)
  | Some p =>
      let scope := m_scope (p_manifest p) in
      if negb (scope_fits scope (e_project params)) then (Err (scope_mismatch id scope), h, w)
      else
        let '(fired, w) := guarded (if on then p_on_enable p scope else p_on_disable p scope) id (state_dir h) w in
        let '(r, h) := settle id fired h in
        match r with
        | Err e => (Err e, h, w)
        | Ok _ =>
            let entry := toggle (e_project params) on (default default_entry (enabled h !! id)) in
            let h := set_entries (<[id := entry]> (enabled h)) h in
            (Ok (status_of h p), h, save (enabled_path (state_dir h)) (enabled h) w)
        end
  end.

Definition enable (params : EnableParams) := set_enabled params true.

Definition disable (params : EnableParams) := set_enabled params false.

Definition handle (method : string) (params : Json) (h : PluginHost) (w : W) : result Json OpError * PluginHost * W :=
  let id := namespace method in
  match index_of id h with
  | None => (Err (not_found id), h, w)
  | Some p =>
      if negb (is_enabled h p) then (Err (disabled id), h, w)
      else
        let '(called, w) := guarded (p_handle p (mk_request method params)) id (state_dir h) w in
        let '(r, h) := settle id called h in
        (match r with Ok response => Ok (into_value response) | Err e => Err e end, h, w)
  end.

(** A success leaves the flag as it is. *)
Definition notify (ev : CoreEvent) (p : Plugin W) (x : PluginHost * W) : PluginHost * W :=
  let '(h, w) := x in
  if negb (is_enabled h p) then (h, w)
  else
    let '(fired, w) := guarded (p_on_event p ev) (id_of p) (state_dir h) w in
    (match fired with None => mark (id_of p) h | Some _ => h end, w).

Definition on_event (ev : CoreEvent) (h : PluginHost) (w : W) : PluginHost * W :=
  foldl (fun x p => notify ev p x) (h, w) (plugins h).

(** ** Runs *)

Inductive Request : Type :=
| REnable (params : EnableParams)
| RDisable (params : EnableParams)
| RHandle (method : string) (params : Json)
| REvent (ev : CoreEvent).

Definition step (x : PluginHost * W) (r : Request) : PluginHost * W :=
  let '(h, w) := x in
  match r with
  | REnable params => let '(_, h, w) := enable params h w in (h, w)
  | RDisable params => let '(_, h, w) := disable params h w in (h, w)
  | RHandle m params => let '(_, h, w) := handle m params h w in (h, w)
  | REvent ev => on_event ev h w
  end.

Definition run (x : PluginHost * W) (rs : list Request) : PluginHost * W := foldl step x rs.
(** ** The degraded flag *)

(** What the end of a call tells of its plugin, if anything. *)
Inductive Verdict : Type := Faulted | Fine.

Definition telling {A} (id : string) (o : option (result A PluginError)) : list (string * Verdict) :=
  match o with
  | None => [(id, Faulted)]
  | Some (Err e) => if is_fault e then [(id, Faulted)] else []
  | Some (Ok _) => [(id, Fine)]
  end.

Definition hook (p : Plugin W) (on : bool) : W -> Call unit * W :=
  let scope := m_scope (p_manifest p) in if on then p_on_enable p scope else p_on_disable p scope.

Definition set_verdicts (params : EnableParams) (on : bool) (h : PluginHost) (w : W) : list (string * Verdict) :=
  match index_of (e_id params) h with
  | Some p =>
      if scope_fits (m_scope (p_manifest p)) (e_project params)
      then telling (e_id params) (fst (guarded (hook p on) (e_id params) (state_dir h) w)) else []
  | None => []
  end.

Definition handle_verdicts (method : string) (params : Json) (h : PluginHost) (w : W) : list (string * Verdict) :=
  match index_of (namespace method) h with
  | Some p =>
      if is_enabled h p
      then telling (namespace method) (fst (guarded (p_handle p (mk_request method params)) (namespace method) (state_dir h) w))
      else []
  | None => []
  end.

(** Of an event only a panic tells. *)
Definition event_verdict (ev : CoreEvent) (p : Plugin W) (h : PluginHost) (w : W) : list (string * Verdict) :=
  if is_enabled h p
  then match fst (guarded (p_on_event p ev) (id_of p) (state_dir h) w) with None => [(id_of p, Faulted)] | Some _ => [] end
  else [].

Fixpoint event_verdicts (ev : CoreEvent) (ps : list (Plugin W)) (x : PluginHost * W) : list (string * Verdict) :=
  match ps with
  | [] => []
  | p :: ps => event_verdict ev p (fst x) (snd x) ++ event_verdicts ev ps (notify ev p x)
  end.

Definition verdicts (x : PluginHost * W) (r : Request) : list (string * Verdict) :=
  match r with
  | REnable params => set_verdicts params true (fst x) (snd x)
  | RDisable params => set_verdicts params false (fst x) (snd x)
  | RHandle m params => handle_verdicts m params (fst x) (snd x)
  | REvent ev => event_verdicts ev (plugins (fst x)) x
  end.

Fixpoint run_verdicts (x : PluginHost * W) (rs : list Request) : list (string * Verdict) :=
  match rs with
  | [] => []
  | r :: rs => verdicts x r ++ run_verdicts (step x r) rs
  end.

Definition flag (d : gset string) (v : string * Verdict) : gset string :=
  match snd v with Faulted => {[fst v]} ∪ d | Fine => d ∖ {[fst v]} end.

Lemma settle_flags {A} id (o : option (result A PluginError)) h :
  degraded (snd (settle id o h)) = foldl flag (degraded h) (telling id o).
Proof. destruct o as [[a|e]|]; [done| |done]. cbn. by destruct (is_fault e). Qed.

Lemma settle_rest {A} id (o : option (result A PluginError)) h :
  plugins (snd (settle id o h)) = plugins h /\ enabled (snd (settle id o h)) = enabled h /\
  state_dir (snd (settle id o h)) = state_dir h.
Proof. destruct o as [[a|e]|]; [done| |done]. cbn. by destruct (is_fault e). Qed.

Lemma set_flags params on h w :
  degraded (snd (fst (set_enabled params on h w))) = foldl flag (degraded h) (set_verdicts params on h w).
Proof.
  unfold set_enabled, set_verdicts, hook. destruct (index_of _ h) as [p|]; [|done].
  destruct (scope_fits _ _); [cbn [negb]|done].
  destruct (guarded (if on then _ else _) _ _ w) as [o w'] eqn:E. cbn [fst].
  pose proof (settle_flags (e_id params) o h) as Hs. destruct (settle _ o h) as [[u|e] h']; exact Hs.
Qed.

Lemma handle_flags m params h w :
  degraded (snd (fst (handle m params h w))) = foldl flag (degraded h) (handle_verdicts m params h w).
Proof.
  unfold handle, handle_verdicts. destruct (index_of _ h) as [p|]; [|done].
  destruct (is_enabled h p); [cbn [negb]|done].
  destruct (guarded (p_handle p _) _ _ w) as [o w'] eqn:E. cbn [fst].
  pose proof (settle_flags (namespace m) o h) as Hs. destruct (settle _ o h) as [[u|e] h']; exact Hs.
Qed.

Lemma event_flags ev ps : forall x,
  degraded (fst (foldl (fun x p => notify ev p x) x ps)) = foldl flag (degraded (fst x)) (event_verdicts ev ps x).
Proof.
  induction ps as [|p ps IH]; intros [h w]; [done|]. cbn [foldl event_verdicts]. rewrite IH, foldl_app. f_equal.
  unfold notify, event_verdict. cbn [fst snd]. destruct (is_enabled h p); [cbn [negb]|done].
  destruct (guarded _ _ _ w) as [[o|] w']; done.
Qed.

Lemma run_flags rs : forall x, degraded (fst (run x rs)) = foldl flag (degraded (fst x)) (run_verdicts x rs).
Proof.
  induction rs as [|r rs IH]; intros [h w]; [done|]. cbn [run foldl run_verdicts]. unfold run in IH. rewrite IH, foldl_app. f_equal.
  destruct r as [q|q|m q|ev]; cbn [step verdicts fst snd].
  - rewrite <- set_flags. unfold enable. by destruct (set_enabled q true h w) as [[r h'] w'].
  - rewrite <- set_flags. unfold disable. by destruct (set_enabled q false h w) as [[r h'] w'].
  - rewrite <- handle_flags. by destruct (handle m q h w) as [[r h'] w'].
  - apply event_flags.
Qed.

(** The last verdict on [id]. *)
Definition last_verdict (id : string) (l : list (string * Verdict)) : option Verdict :=
  snd <$> last (List.filter (fun v => bool_decide (fst v = id)) l).

Lemma flagged id l : forall d, id ∈ foldl flag d l <-> match last_verdict id l with Some v => v = Faulted | None => id ∈ d end.
Proof.
  unfold last_verdict. induction l as [|[k v] l IH] using rev_ind; intros d; [done|].
  rewrite foldl_app, List.filter_app. cbn [foldl List.filter fst]. case_bool_decide as E.
  - subst. rewrite last_snoc. cbn. unfold flag. destruct v; cbn; set_solver.
  - rewrite app_nil_r. unfold flag at 1. cbn [fst snd]. rewrite <- IH. destruct v; set_solver.
Qed.

(** From a fresh start, a plugin is shown degraded exactly when the last
    call into it that told was a panic or an internal fault: a refusal and an
    event without a panic tell nothing, and any call that succeeds, not only
    enabling it again, clears the flag. *)
Theorem degraded_tells_the_last_call dir ps w rs p : p ∈ ps ->
  let h := fst (run (with_registry dir ps w, w) rs) in
  st_degraded (status_of h p) = true <->
  last_verdict (id_of p) (run_verdicts (with_registry dir ps w, w) rs) = Some Faulted.
Proof.
  intros _ h. cbn [status_of st_degraded]. rewrite bool_decide_eq_true. subst h. rewrite run_flags, flagged. cbn [fst degraded with_registry].
  destruct (last_verdict _ _) as [v|]; [by split; [intros ->|intros [= ->]]|]. split; [set_solver|done].
Qed.

(** ** Nothing enabled *)

Definition only_calls (r : Request) : bool := match r with RHandle _ _ | REvent _ => true | _ => false end.

Lemma nothing_is_enabled h p : enabled h = ∅ -> is_enabled h p = false.
Proof. intros H. unfold is_enabled. rewrite H, lookup_empty. by destruct (m_scope _). Qed.

(** A missing or unreadable [enabled.toml] is nothing enabled, and then no
    request and no event runs any plugin: the host and the world stay as they
    are. *)
Theorem unreadable_enablement_runs_nothing dir ps w rs :
  (forall text, read_file (enabled_path dir) w = Some text -> is_ok (parse_enabled text) = false) ->
  forallb only_calls rs = true -> run (with_registry dir ps w, w) rs = (with_registry dir ps w, w).
Proof.
  intros Hf.
  assert (He : enabled (with_registry dir ps w) = ∅).
  { cbn. unfold load. destruct (read_file _ w) as [text|] eqn:E; [|done]. specialize (Hf text eq_refl).
    by destruct (parse_enabled text). }
  generalize (with_registry dir ps w) He. clear. intros h He. induction rs as [|r rs IH]; [done|].
  cbn [forallb]. intros [Hr Hrs]%andb_prop. cbn [run foldl]. unfold run in IH.
  assert (Hs : step (h, w) r = (h, w)).
  { destruct r as [| |m q|ev]; try done; cbn [step].
    - unfold handle. destruct (index_of _ h) as [p|]; [|done]. by rewrite nothing_is_enabled.
    - unfold on_event. generalize (plugins h). intros ps. induction ps as [|p ps IHp]; [done|]. cbn [foldl].
      unfold notify at 2. by rewrite nothing_is_enabled. }
  rewrite Hs. by apply IH.
Qed.

(** ** Enablement *)

Definition well_scoped_entry (scope : Scope) (e : EnabledEntry) : Prop :=
  match scope with Global => projects e = [] | PerProject => global e = None /\ NoDup (projects e) end.

(** Every entry has the shape of its plugin's scope. *)
Definition well_scoped (h : PluginHost) : Prop :=
  forall p e, p ∈ plugins h -> enabled h !! id_of p = Some e -> well_scoped_entry (m_scope (p_manifest p)) e.

Lemma toggle_scoped scope project on e : scope_fits scope project = true -> well_scoped_entry scope e ->
  well_scoped_entry scope (toggle project on e).
Proof.
  destruct scope, project as [q|]; try done; cbn [scope_fits well_scoped_entry toggle projects global].
  intros _ [Hg Hd]. split; [done|]. destruct on.
  - case_bool_decide as Hin; [done|]. apply NoDup_app. split; [done|]. split; [|apply NoDup_singleton].
    intros x Hx Hq%list_elem_of_singleton. by subst.
  - by apply NoDup_ListNoDup, List.NoDup_filter, NoDup_ListNoDup.
Qed.

Lemma index_of_some id h p : index_of id h = Some p -> p ∈ plugins h /\ id_of p = id.
Proof. intros H. apply List.find_some in H as [Hp He%bool_decide_eq_true]. by rewrite <- list_elem_of_In in Hp. Qed.

Lemma same_plugin (ps : list (Plugin W)) p q : NoDup (map id_of ps) -> p ∈ ps -> q ∈ ps -> id_of p = id_of q -> p = q.
Proof.
  induction ps as [|x ps IH]; [by intros _ ?%elem_of_nil|]. cbn [map]. intros [Hx Hd]%NoDup_cons.
  intros [->|Hp]%elem_of_cons [->|Hq]%elem_of_cons E; [done| | |by apply IH].
  - destruct Hx. rewrite E. by apply (list_elem_of_fmap_2 id_of).
  - destruct Hx. rewrite <- E. by apply (list_elem_of_fmap_2 id_of).
Qed.

Definition sound (h : PluginHost) : Prop := NoDup (map id_of (plugins h)) /\ well_scoped h.

Lemma set_sound params on h w : sound h -> sound (snd (fst (set_enabled params on h w))).
Proof.
  intros [Hd Hw]. unfold set_enabled. destruct (index_of _ h) as [p|] eqn:Ei; [|done].
  destruct (scope_fits _ _) eqn:Ef; [cbn [negb]|done]. destruct (guarded _ _ _ w) as [o w'].
  pose proof (settle_rest (e_id params) o h) as (Hp & He & _). destruct (settle _ o h) as [[u|e] h']; cbn [fst snd] in *.
  2: { split; [by rewrite Hp|]. intros q e'. rewrite Hp, He. apply Hw. }
  destruct (index_of_some _ _ _ Ei) as [Hin Hid]. split; [cbn; by rewrite Hp|]. intros q e. cbn [set_entries plugins enabled].
  rewrite Hp, He. intros Hq. destruct (decide (id_of q = e_id params)) as [E|Hne].
  - assert (q = p) as -> by (apply (same_plugin (plugins h)); congruence). rewrite E, lookup_insert_eq. intros [= <-].
    apply toggle_scoped; [done|]. destruct (enabled h !! e_id params) as [x|] eqn:Ex; cbn.
    + apply (Hw p); [done|]. by rewrite Hid.
    + destruct (m_scope _); [done|]. split; [done|constructor].
  - rewrite lookup_insert_ne by done. by apply Hw.
Qed.

Lemma handle_sound m params h w : sound h -> sound (snd (fst (handle m params h w))).
Proof.
  intros Hs. unfold handle. destruct (index_of _ h) as [p|]; [|done]. destruct (is_enabled h p); [cbn [negb]|done].
  destruct (guarded _ _ _ w) as [o w']. pose proof (settle_rest (namespace m) o h) as (Hp & He & _).
  unfold sound, well_scoped in *. destruct (settle _ o h) as [[u|e] h']; cbn [fst snd] in *; by rewrite Hp, He.
Qed.

Lemma event_sound ev ps : forall x, sound (fst x) -> sound (fst (foldl (fun x p => notify ev p x) x ps)).
Proof.
  induction ps as [|p ps IH]; intros [h w] Hs; [done|]. cbn [foldl]. apply IH. unfold notify.
  destruct (is_enabled h p); [cbn [negb]|done]. by destruct (guarded _ _ _ w) as [[o|] w'].
Qed.

(** Enablement keeps its type: whatever is enabled, disabled, called or
    signalled, a global plugin's entry names no project and a per-project
    plugin's has no global flag and each project once. *)
Theorem enablement_keeps_its_scope x rs : sound (fst x) -> sound (fst (run x rs)).
Proof.
  revert x. induction rs as [|r rs IH]; intros [h w] Hs; [done|]. cbn [run foldl]. apply IH.
  destruct r as [q|q|m q|ev]; cbn [step].
  - pose proof (set_sound q true h w Hs) as H. unfold enable. by destruct (set_enabled q true h w) as [[r h'] w'].
  - pose proof (set_sound q false h w Hs) as H. unfold disable. by destruct (set_enabled q false h w) as [[r h'] w'].
  - pose proof (handle_sound m q h w Hs) as H. by destruct (handle m q h w) as [[r h'] w'].
  - by apply event_sound.
Qed.

(** Enabling a plugin in another scope, an unknown one, or one whose hook
    fails records nothing; when it is answered, the plugin's own entry alone
    changed, and a restart of the daemon on a disk that works shows the same
    enablement. *)
Theorem enablement_survives_a_restart params on h w :
  (forall e, exists text, print_enabled e = Ok text /\ parse_enabled text = Ok e) ->
  (forall d w, fst (create_dirs d w) = true) ->
  (forall f text w, read_file f (snd (write_file f text w)) = Some text) ->
  let '(r, h', w') := set_enabled params on h w in
  match r with
  | Ok st =>
      enabled (with_registry (state_dir h) (plugins h) w') = enabled h' /\
      (forall id, id <> e_id params -> enabled h' !! id = enabled h !! id) /\
      (exists p, index_of (e_id params) h = Some p /\ scope_fits (m_scope (p_manifest p)) (e_project params) = true /\
        enabled h' !! e_id params = Some (toggle (e_project params) on (default default_entry (enabled h !! e_id params))))
  | Err _ => enabled h' = enabled h
  end.
Proof.
  intros Ht Hc Hw. unfold set_enabled. destruct (index_of _ h) as [p|] eqn:Ei; [|done].
  destruct (scope_fits _ _) eqn:Ef; [cbn [negb]|done]. destruct (guarded _ _ _ w) as [o w'].
  pose proof (settle_rest (e_id params) o h) as (Hp & He & Hs). destruct (settle _ o h) as [[u|e] h']; cbn [fst snd] in *; [|done].
  cbn [set_entries with_registry enabled state_dir]. rewrite ?Hs, ?He. split; [|split].
  - unfold load, save.
    destruct (Ht (<[e_id params:=toggle (e_project params) on (default default_entry (enabled h !! e_id params))]> (enabled h))) as (text & Hpr & Hpa).
    destruct (parent _) as [d|]; [pose proof (Hc d w') as Hc'; destruct (create_dirs d w') as [b w2]; cbn in Hc'; subst b; cbn [negb]|cbn [negb]];
      by rewrite Hpr, Hw, Hpa.
  - intros id Hid. by rewrite lookup_insert_ne.
  - exists p. split; [done|]. split; [done|]. by rewrite lookup_insert_eq.
Qed.
End host.

(** ** At concrete inputs *)

#[export] Instance EnabledEntry_eq_dec : EqDecision EnabledEntry.
Proof. solve_decision. Defined.

#[export] Instance EnabledEntry_countable : Countable EnabledEntry :=
  inj_countable' (fun e => (global e, projects e)) (fun x => mk_entry (fst x) (snd x)) (fun e => match e with mk_entry _ _ => eq_refl end).

(** A world of files, and a plugin that answers and one that faults. *)
Definition files : Type := gmap string string.

Definition sample_print (e : gmap string EnabledEntry) : result string string := Ok (print_countable e).
Definition sample_parse (s : string) : result (gmap string EnabledEntry) string := ok_or EmptyString (parse_countable s).
Definition sample_write (f text : string) (w : files) : bool * files := (true, <[f := text]> w).
Definition sample_dirs (_ : string) (w : files) : bool * files := (true, w).

Definition sample_plugin (id : string) (scope : Scope) : Plugin files :=
  mk_plugin (mk_manifest id id scope) (fun _ w => (mk_call [] (Some (Ok tt)), w)) (fun _ w => (mk_call [] (Some (Ok tt)), w))
    (fun q w => (mk_call [] (Some (if bool_decide (method q = id +:+ ".fail") then Err (Internal "no") else Ok (JsonResponse JNull))), w))
    (fun _ w => (mk_call [] None, w)).

Definition sample_registry : list (Plugin files) := [sample_plugin "profile" PerProject; sample_plugin "usage" Global].

Definition sample_host : PluginHost :=
  with_registry (fun f (w : files) => w !! f) sample_parse "/s" sample_registry ∅.

Definition sample_requests : list Request :=
  [REnable (mk_enable "profile" (Some 1%N)); RHandle "profile.fail" JNull; RHandle "profile.list" JNull; REvent Tick].

Lemma degraded_tells_the_last_call_witness :
  st_degraded (status_of (fst (run sample_dirs sample_write sample_print (sample_host, ∅) sample_requests))
    (sample_plugin "profile" PerProject)) = true.
Proof.
  apply (degraded_tells_the_last_call (fun f (w : files) => w !! f) sample_dirs sample_write sample_parse sample_print "/s"
    sample_registry ∅ sample_requests (sample_plugin "profile" PerProject)); [in_list|vm_compute; reflexivity].
Defined.

(** The flag is cleared by a call, without enabling the plugin again. *)
Example a_call_clears_the_flag :
  map (fun n => st_degraded (status_of (fst (run sample_dirs sample_write sample_print (sample_host, ∅) (take n sample_requests)))
    (sample_plugin "profile" PerProject))) [1; 2; 3] = [false; true; false].
Proof. vm_compute. reflexivity. Qed.

Lemma unreadable_enablement_runs_nothing_witness :
  run sample_dirs sample_write sample_print (sample_host, ∅) [RHandle "profile.fail" JNull; REvent Tick] = (sample_host, ∅).
Proof.
  apply (unreadable_enablement_runs_nothing (fun f (w : files) => w !! f) sample_dirs sample_write sample_parse sample_print "/s"
    sample_registry ∅ [RHandle "profile.fail" JNull; REvent Tick]); [intros text H; discriminate H|reflexivity].
Defined.

Lemma enablement_keeps_its_scope_witness :
  sound (fst (run sample_dirs sample_write sample_print (sample_host, ∅) sample_requests)).
Proof.
  apply (enablement_keeps_its_scope sample_dirs sample_write sample_print (sample_host, ∅) sample_requests).
  split; [by_deciding|]. intros p e _ H. discriminate H.
Defined.

Lemma enablement_survives_a_restart_witness :
  enabled (with_registry (fun f (w : files) => w !! f) sample_parse "/s" sample_registry
    (snd (set_enabled sample_dirs sample_write sample_print (mk_enable "usage" None) true sample_host ∅))) !! "usage"
  = Some (mk_entry (Some true) []).
Proof.
  pose proof (enablement_survives_a_restart (fun f (w : files) => w !! f) sample_dirs sample_write sample_parse sample_print
    (mk_enable "usage" None) true sample_host ∅) as H.
  destruct (set_enabled _ _ _ _ _ _ _) as [[r h'] w'] eqn:E. cbn [snd].
  assert (Hr : exists st, r = Ok st) by (apply (f_equal (fun x => fst (fst x))) in E; cbn in E; subst r; vm_compute; eauto).
  destruct Hr as [st ->]. destruct H as (H & _ & (p & Hi & _ & Hg)).
  - intros e. exists (print_countable e). split; [done|]. unfold sample_parse.
    by rewrite <- (str_app_nil (print_countable e)), parse_print_countable.
  - done.
  - intros f text w. apply lookup_insert_eq.
  - change sample_registry with (plugins sample_host). change "/s" with (state_dir sample_host). rewrite H. cbn [e_id] in Hg. rewrite Hg. reflexivity.
Defined.
