(* ===== verification/Usage.v ===== *)
(** * Usage of the sessions

    Models crates/willie-plugins/usage/src/read.rs and lib.rs: the token counts
    of a session log's newest usage record, the log chosen for a session, and
    the snapshot summed by project.  Sums saturate at 64 bits and the percentage
    is computed at 128. *)

From S2P Require Import Prelude Text Utf8 Harness Json BTree Logs PluginApi Plugins.

Local Open Scope string_scope.
Local Open Scope list_scope.
Local Open Scope Z_scope.

(** ** Data *)

Record SessionReading : Type := mk_reading { tokens : Z; context_pct : option Z }.

Record TokenCounts : Type := mk_counts { input : Z; cache_creation : Z; cache_read : Z; output : Z; model : option string }.

Record SessionParam : Type := mk_session_param { sp_id : N; sp_project : N; sp_workspace : string; sp_window : Z * option Z }.

Record SnapshotParams : Type := mk_snapshot_params { sn_home : string; sn_sessions : list SessionParam }.

Definition default_params : SnapshotParams := mk_snapshot_params EmptyString [].

Record SessionUsage : Type := mk_session_usage { su_id : N; su_tokens : Z; su_pct : option Z }.

Record UsageSnapshot : Type := mk_usage { us_sessions : list SessionUsage; us_projects : btree N Z; fetched_at : string }.

(** Bytes of a log's tail that are read. *)
Definition TAIL_BYTES : nat := N.to_nat (64 * 1024).

Definition NO_DATA : SessionReading := mk_reading 0 None.

(** ** Reading a log *)

Definition context_window_for (model : option string) : option Z :=
  match model with
  | Some name => if starts_with "claude-" name then Some 200000 else None
  | None => None
  end.

(** The usage block, at the top or in the message. *)
Definition usage_block (record : Entries) : option Entries :=
  match Json.get "usage" record with
  | Some u => as_object u
  | None => (Json.get "message" record ≫= value_get "usage") ≫= as_object
  end.

Definition model_of (record : Entries) : option string :=
  match Json.get "message" record ≫= value_get "model" with
  | Some m => as_str m
  | None => Json.get "model" record ≫= as_str
  end.

(** What a record counts, unless it is a side chain's or has no usage. *)
Definition counts_of (record : Entries) : option TokenCounts :=
  if bool_decide (Json.get "isSidechain" record ≫= as_bool = Some true) then None
  else
    match usage_block record with
    | None => None
    | Some usage =>
        let field key := default 0 (Json.get key usage ≫= as_u64) in
        Some (mk_counts (field "input_tokens") (field "cache_creation_input_tokens") (field "cache_read_input_tokens")
          (field "output_tokens") (model_of record))
    end.

(** The last record that counts. *)
Definition newest (records : list Entries) : option TokenCounts :=
  foldl (fun n record => match counts_of record with Some c => Some c | None => n end) None records.

Definition context_side (c : TokenCounts) : Z := sat_add64 (sat_add64 (input c) (cache_creation c)) (cache_read c).

(** The cast to [u8] of a value at most 100. *)
Definition percentage (side window : Z) : Z := Z.min 100 (side * 100 / window) mod 256.

Definition reading_of (c : TokenCounts) (context_window : option Z) : SessionReading :=
  let window := match context_window_for (model c) with Some w => Some w | None => context_window end in
  mk_reading (sat_add64 (context_side c) (output c))
    (match window with
     | Some w => if 0 <? w then Some (percentage (context_side c) w) else None
     | None => None
     end).

Definition project_session (from_str : string -> result Json string) (jsonl_tail : string) (context_window : option Z) : SessionReading :=
  match newest (records from_str jsonl_tail) with
  | None => NO_DATA
  | Some c => reading_of c context_window
  end.

Definition pick_log (dir_listing : list (string * Z)) (window : Z * Z) : option string :=
  fst <$> List.find (fun e => (fst window <=? snd e) && (snd e <=? snd window)) dir_listing.

(** ** The plugin *)

Section usage.
  Context {W : Type}.
  (** The directory of a path and the file at one, the clock, and serde. *)
  Context (read_dir : string -> W -> option (list DirEntry)) (open : string -> W -> option File) (now_secs : W -> Z).
  Context (from_str : string -> result Json string) (params_of : Json -> result SnapshotParams string)
    (snapshot_json : UsageSnapshot -> result Json string).

(** An entry that is a log with a name the listing can hold. *)
Definition listed (e : DirEntry) : option (string * Z) :=
  if is_jsonl e then (fun name => (name, default 0 (modified e))) <$> to_str (file_name e) else None.

Definition list_jsonl (dir : string) (w : W) : list (string * Z) :=
  match read_dir dir w with None => [] | Some entries => omap listed entries end.

Definition read_tail (path : string) (max_bytes : nat) (w : W) : string :=
  match open path w with
  | None => EmptyString
  | Some file =>
      let start := (default 0%nat (len file) - max_bytes)%nat in
      match read_at file start None with
      | None => EmptyString
      | Some bytes => from_utf8_lossy bytes
      end
  end.

Definition resolve_harness (home : string) : option Harness :=
  List.find (fun h => bool_decide (is_Some (session_logs_dir h home))) registry.

Definition read_session (home workspace : string) (window : Z * Z) (w : W) : SessionReading :=
  match resolve_harness home with
  | None => NO_DATA
  | Some harness =>
      match session_logs_dir harness home with
      | None => NO_DATA
      | Some projects_dir =>
          let logdir := path_join projects_dir (escape_workspace harness workspace) in
          match pick_log (list_jsonl logdir w) window with
          | None => NO_DATA
          | Some file_name => project_session from_str (read_tail (path_join logdir file_name) TAIL_BYTES w) None
          end
      end
  end.

(** A live session's window ends now. *)
Definition read_param (home : string) (now : Z) (w : W) (s : SessionParam) : SessionReading :=
  read_session home (sp_workspace s) (fst (sp_window s), default now (snd (sp_window s))) w.

Definition add_session (home : string) (now : Z) (w : W) (acc : list SessionUsage * btree N Z) (s : SessionParam) :
    list SessionUsage * btree N Z :=
  let r := read_param home now w s in
  let entry := default 0 (get (sp_project s) (snd acc)) in
  (fst acc ++ [mk_session_usage (sp_id s) (tokens r) (context_pct r)], put (sp_project s) (sat_add64 entry (tokens r)) (snd acc)).

Definition take_snapshot (p : SnapshotParams) (w : W) : UsageSnapshot :=
  let now := now_secs w in
  let '(usages, totals) := foldl (add_session (sn_home p) now w) ([], []) (sn_sessions p) in
  mk_usage usages totals (pretty now).

(** Parameters of another shape are no sessions. *)
Definition snapshot (params : Json) (w : W) : result PluginResponse PluginError :=
  let p := match params_of params with Ok p => p | Err _ => default_params end in
  match snapshot_json (take_snapshot p w) with
  | Ok v => Ok (JsonResponse v)
  | Err e => Err (Internal ("cannot encode response: " +:+ e))
  end.

Definition manifest : PluginManifest := mk_manifest "usage" "Usage, cost and context" Global.

Definition handle (r : PluginRequest) (w : W) : Call PluginResponse * W :=
  (mk_call [] (Some (if bool_decide (method r = "usage.snapshot") then snapshot (params r) w
                     else Err (BadRequest ("unknown method `" +:+ method r +:+ "`")))), w).

Definition on_event (ev : CoreEvent) (w : W) : Call unit * W :=
  (mk_call (match ev with
            | SessionStarted _ _ | SessionExited _ => [mk_emission "usage.updated" (JObject [])]
            | ProjectRegistered _ | Tick => []
            end) (Some (Ok tt)), w).

Definition plugin : Plugin W :=
  let hook _ w := (mk_call [] (Some (Ok tt)), w) in
  mk_plugin manifest hook hook handle on_event.

End usage.

(** ** Lemmas *)

(** A record's own reading wins over every earlier one's. *)
Lemma newest_app l1 l2 : newest (l1 ++ l2) = match newest l2 with Some c => Some c | None => newest l1 end.
Proof.
  unfold newest. rewrite foldl_app. generalize (foldl (fun n record => match counts_of record with Some c => Some c | None => n end) None l1).
  induction l2 as [|r l2 IH] using rev_ind; intros n; [done|]. rewrite !foldl_app. cbn. destruct (counts_of r); [done|apply IH].
Qed.

Lemma newest_in l c : newest l = Some c -> exists r, r ∈ l /\ counts_of r = Some c.
Proof.
  induction l as [|r l IH] using rev_ind; [done|]. rewrite newest_app. unfold newest at 1. cbn.
  destruct (counts_of r) as [c'|] eqn:E.
  - intros [= ->]. exists r. split; [apply elem_of_app; right; by apply list_elem_of_singleton|done].
  - intros H. destruct (IH H) as (r' & Hr & Hc). exists r'. split; [by apply elem_of_app; left|done].
Qed.

Definition u64 (z : Z) : Prop := 0 <= z <= u64_max.

Lemma as_u64_range v n : as_u64 v = Some n -> u64 n.
Proof.
  unfold as_u64, u64. destruct v as [| |[i|f]| | |]; try done. destruct (in_range 0 u64_max i) eqn:E; [|done].
  intros [= <-]. unfold in_range in E. lia.
Qed.

Lemma counts_range r c : counts_of r = Some c -> u64 (input c) /\ u64 (cache_creation c) /\ u64 (cache_read c) /\ u64 (output c).
Proof.
  unfold counts_of. destruct (bool_decide _); [done|]. destruct (usage_block r) as [u|]; [|done]. intros [= <-]. cbn.
  assert (H : forall key, u64 (default 0 (Json.get key u ≫= as_u64))).
  { intros key. destruct (Json.get key u ≫= as_u64) as [n|] eqn:E; [|unfold u64, u64_max; cbn; lia].
    destruct (Json.get key u) as [v|]; [|done]. apply (as_u64_range v n E). }
  repeat split; apply H.
Qed.

Lemma sat_add64_min a b c : 0 <= b -> 0 <= c -> a = Z.min u64_max b -> sat_add64 a c = Z.min u64_max (b + c).
Proof. unfold sat_add64. lia. Qed.

Lemma context_side_sum c : u64 (input c) -> u64 (cache_creation c) -> u64 (cache_read c) ->
  context_side c = Z.min u64_max (input c + cache_creation c + cache_read c).
Proof. unfold u64, context_side. intros H1 H2 H3. apply (sat_add64_min _ (input c + cache_creation c)); unfold sat_add64; lia. Qed.

Lemma percentage_range side w : 0 <= side <= u64_max -> 0 < w ->
  percentage side w = Z.min 100 (side * 100 / w) /\ 0 <= percentage side w <= 100 /\ side * 100 < 2 ^ 128.
Proof.
  intros Hs Hw. assert (H : 0 <= side * 100 / w) by (apply Z.div_pos; lia). unfold percentage.
  rewrite Z.mod_small by lia. split; [done|]. split; [lia|]. unfold u64_max in Hs. lia.
Qed.

(** ** A log's reading *)

(** A reading is exact and inside its integers: the tokens are the four fields
    of one record, the last that counts, summed and cut at 64 bits; the
    percentage is of the input side of the same record, at most 100, against
    its own model's window and else the caller's, and the product it is computed
    from fits 128 bits; without such a record there is nothing to report. *)
Theorem reading_exact from_str text context_window :
  match newest (records from_str text) with
  | None => project_session from_str text context_window = mk_reading 0 None
  | Some c =>
      (exists r, r ∈ records from_str text /\ counts_of r = Some c) /\
      let side := Z.min u64_max (input c + cache_creation c + cache_read c) in
      let r := project_session from_str text context_window in
      tokens r = Z.min u64_max (input c + cache_creation c + cache_read c + output c) /\
      side * 100 < 2 ^ 128 /\
      match match context_window_for (model c) with Some w => Some w | None => context_window end with
      | Some w => context_pct r = (if 0 <? w then Some (Z.min 100 (side * 100 / w)) else None)
      | None => context_pct r = None
      end /\
      0 <= tokens r <= u64_max /\ match context_pct r with Some pct => 0 <= pct <= 100 | None => True end
  end.
Proof.
  unfold project_session. destruct (newest _) as [c|] eqn:E; [|done]. apply newest_in in E. split; [done|].
  destruct E as (rec & _ & Hc). apply counts_range in Hc as (H1 & H2 & H3 & H4). cbn zeta.
  pose proof (context_side_sum c H1 H2 H3) as Hs. unfold u64 in *.
  assert (Ht : sat_add64 (context_side c) (output c) = Z.min u64_max (input c + cache_creation c + cache_read c + output c))
    by (apply (sat_add64_min _ (input c + cache_creation c + cache_read c)); lia).
  unfold reading_of. cbn [tokens context_pct]. rewrite Ht, <- Hs. split; [done|].
  split; [rewrite Hs; unfold u64_max; lia|].
  destruct (match context_window_for (model c) with Some w => Some w | None => context_window end) as [w|]; [|repeat split; lia].
  destruct (0 <? w) eqn:Ew; [|repeat split; lia].
  destruct (percentage_range (context_side c) w) as (Hp & Hr & _); [lia|lia|]. rewrite <- Hp. repeat split; lia.
Qed.

Lemma project_session_recent from_str a b context_window : newest (records from_str b) <> None ->
  project_session from_str (a +:+ String newline b) context_window = project_session from_str b context_window.
Proof. intros H. unfold project_session. rewrite records_app, newest_app. by destruct (newest (records from_str b)). Qed.

Section snapshot.
  Context {W : Type} (read_dir : string -> W -> option (list DirEntry)) (open : string -> W -> option File) (now_secs : W -> Z)
    (from_str : string -> result Json string).

(** The tail is enough: a log of any size is read as if it were read whole,
    when the newest record that counts starts in its last 64 KiB; neither the
    line the cut goes through nor a character it splits matters. *)
Theorem tail_reads_like_the_whole path w older recent context_window :
  open path w = Some (file_of (older +:+ String newline recent)) -> (String.length recent < TAIL_BYTES)%nat ->
  newest (records from_str (from_utf8_lossy recent)) <> None ->
  project_session from_str (read_tail open path TAIL_BYTES w) context_window =
  project_session from_str (from_utf8_lossy (older +:+ String newline recent)) context_window.
Proof.
  generalize TAIL_BYTES as cap. intros cap Ho Hl Hn. unfold read_tail. rewrite Ho. cbn [len file_of default read_at limited].
  rewrite str_length_app. cbn [String.length].
  unfold id. rewrite str_drop_app_le by lia. rewrite !(lossy_line newline) by apply newline_ascii.
  by rewrite !project_session_recent.
Qed.

(** *** The sums *)

Lemma read_param_range home now w s : u64 (tokens (read_param read_dir open from_str home now w s)).
Proof.
  assert (H0 : u64 (tokens NO_DATA)) by (unfold u64, u64_max; cbn; lia).
  unfold read_param, read_session. destruct (resolve_harness home) as [h|]; [|done].
  destruct (session_logs_dir h home) as [dir|]; [|done]. destruct (pick_log _ _) as [f|]; [|done].
  generalize (read_tail open (path_join (path_join dir (escape_workspace h (sp_workspace s))) f) TAIL_BYTES w). intros text.
  pose proof (reading_exact from_str text None) as H. destruct (newest _); [|by rewrite H].
  destruct H as (_ & _ & _ & _ & H & _). exact H.
Qed.

(** The tokens of a project's sessions, if it has any. *)
Definition spent (reads : SessionParam -> SessionReading) (id : N) (l : list SessionParam) : option Z :=
  match List.filter (fun s => bool_decide (sp_project s = id)) l with
  | [] => None
  | own => Some (foldr (fun s t => tokens (reads s) + t) 0 own)
  end.

Lemma spent_snoc reads id l s : spent reads id (l ++ [s]) =
  if bool_decide (sp_project s = id) then Some (default 0 (spent reads id l) + tokens (reads s)) else spent reads id l.
Proof.
  unfold spent. rewrite List.filter_app. cbn [List.filter]. destruct (bool_decide _); [|by rewrite app_nil_r].
  assert (H : forall own, foldr (fun s t => tokens (reads s) + t) 0 (own ++ [s]) =
    foldr (fun s t => tokens (reads s) + t) 0 own + tokens (reads s)).
  { induction own as [|x own IH]; cbn; [lia|]. rewrite IH. lia. }
  destruct (List.filter _ l) as [|x own]; [cbn; f_equal; lia|]. cbn [app default]. f_equal. apply (H (x :: own)).
Qed.

Lemma spent_nonneg reads id l : (forall s, u64 (tokens (reads s))) -> 0 <= default 0 (spent reads id l).
Proof.
  intros H. unfold spent. destruct (List.filter _ l) as [|x own]; [done|]. cbn [default Datatypes.id]. unfold Datatypes.id.
  induction (x :: own) as [|y l' IH]; cbn [foldr]; [done|]. specialize (H y). unfold u64 in H. lia.
Qed.

Lemma add_sessions home now w l : let acc := foldl (add_session read_dir open from_str home now w) ([], []) l in
  let reads := read_param read_dir open from_str home now w in
  fst acc = map (fun s => mk_session_usage (sp_id s) (tokens (reads s)) (context_pct (reads s))) l /\ ordered (snd acc) /\
  forall id, get id (snd acc) = Z.min u64_max <$> spent reads id l.
Proof.
  cbn zeta. induction l as [|s l IH] using rev_ind; [repeat split; done|]. rewrite foldl_app. cbn [foldl].
  destruct IH as (Hf & Ho & Hg). unfold add_session at 1 3 5. cbn [fst snd]. rewrite Hf, map_app.
  split; [done|]. split; [by apply put_ordered|]. intros id. rewrite spent_snoc. destruct (bool_decide_reflect (sp_project s = id)) as [<-|Hne].
  - rewrite get_put, Hg. cbn [fmap option_fmap option_map]. f_equal.
    pose proof (read_param_range home now w s) as Hr. pose proof (spent_nonneg (read_param read_dir open from_str home now w) (sp_project s) l
      (read_param_range home now w)) as Hs. unfold u64 in Hr.
    apply sat_add64_min; [lia|lia|]. destruct (spent _ _ l); cbn; [done|]. unfold u64_max. lia.
  - by rewrite get_put_ne.
Qed.

(** The snapshot accounts for every session once: one entry each, in the order
    the daemon named them, with its log's reading up to its end or to now; and
    a project is listed exactly when one of its sessions is, with the sum of its
    sessions' tokens cut at 64 bits. *)
Theorem snapshot_accounts p w :
  let reads := read_param read_dir open from_str (sn_home p) (now_secs w) w in
  let s := take_snapshot read_dir open now_secs from_str p w in
  us_sessions s = map (fun x => mk_session_usage (sp_id x) (tokens (reads x)) (context_pct (reads x))) (sn_sessions p) /\
  ordered (us_projects s) /\
  forall id, get id (us_projects s) = Z.min u64_max <$> spent reads id (sn_sessions p).
Proof.
  cbn zeta. unfold take_snapshot. pose proof (add_sessions (sn_home p) (now_secs w) w (sn_sessions p)) as H. cbn zeta in H.
  by destruct (foldl _ _ _) as [usages totals].
Qed.

End snapshot.

(** ** Witnesses *)

(** A parser of three lines. *)
Definition sample_parse (s : string) : result Json string :=
  if bool_decide (s = "record") then
    Ok (JObject [("message", JObject [("model", JString "claude-x"); ("usage", JObject [("input_tokens", JNumber (Int 50000)); ("output_tokens", JNumber (Int 7))])])])
  else if bool_decide (s = "side") then
    Ok (JObject [("isSidechain", JBool true); ("usage", JObject [("input_tokens", JNumber (Int 9))])])
  else Err "not JSON".

Definition sample_recent : string := "record" +:+ String newline ("side" +:+ String newline "{torn").

Definition sample_logs : gmap string string := {["/h/log.jsonl" := "start of the log" +:+ String newline sample_recent]}.

Definition sample_open (path : string) (w : gmap string string) : option File := file_of <$> w !! path.

Example the_newest_record_counts :
  project_session sample_parse sample_recent None = mk_reading 50007 (Some 25).
Proof. vm_compute. reflexivity. Qed.

Lemma tail_reads_like_the_whole_witness :
  project_session sample_parse (read_tail sample_open "/h/log.jsonl" TAIL_BYTES sample_logs) (Some 1000) =
  project_session sample_parse (from_utf8_lossy ("start of the log" +:+ String newline sample_recent)) (Some 1000).
Proof.
  apply (tail_reads_like_the_whole sample_open sample_parse "/h/log.jsonl" sample_logs "start of the log" sample_recent (Some 1000)).
  - vm_compute. reflexivity.
  - apply Nat.ltb_lt. vm_compute. reflexivity.
  - vm_compute. discriminate.
Defined.

(** Two live sessions in one workspace read the same log, the first the
    directory lists in both windows: their project is charged twice. *)
Example one_log_counts_twice :
  let dir := "/h/.willie/agent-state/claude/dot-claude/projects/-w" in
  let read_dir d (_ : gmap string string) := if bool_decide (d = dir) then Some [mk_dir_entry "log.jsonl" (Some 90)] else None in
  let w := {[dir +:+ "/log.jsonl" := sample_recent]} in
  let p := mk_snapshot_params "/h" [mk_session_param 1 7 "/w" (10, None); mk_session_param 2 7 "/w" (80, None)] in
  us_projects (take_snapshot read_dir sample_open (fun _ => 100) sample_parse p w) = [(7%N, 100014)].
Proof. vm_compute. reflexivity. Qed.
