(* ===== verification/SessionTitle.v ===== *)
(** * Titles of the sessions

    Models crates/willied/src/session_title.rs: the first prompt of a
    harness's log, cut to a title, and the log chosen for a session; and, over
    the sessions' index, the pass of crates/willied/src/sessions.rs that gives
    untitled sessions their titles. *)

From S2P Require Import Prelude Text Utf8 Harness Json Logs BTree Session DaemonState Sessions.

Local Open Scope string_scope.
Local Open Scope list_scope.

(** ** The first prompt *)

Definition TITLE_LIMIT : nat := 80.

Definition HEAD_BYTES : nat := N.to_nat (64 * 1024).

Definition is_user_record (record : Entries) : bool :=
  bool_decide (Json.get "type" record ≫= as_str = Some "user")
  || bool_decide ((Json.get "message" record ≫= value_get "role") ≫= as_str = Some "user").

Definition is_text_item (item : Json) : bool := bool_decide (value_get "type" item ≫= as_str = Some "text").

(** The message's text, else its first text item's, else the record's own. *)
Definition extract_text (record : Entries) : option string :=
  let content := Json.get "message" record ≫= value_get "content" in
  match content ≫= as_str with
  | Some s => Some s
  | None =>
      match content ≫= as_array with
      | Some items =>
          match (List.find is_text_item items ≫= value_get "text") ≫= as_str with
          | Some t => Some t
          | None => Json.get "content" record ≫= as_str
          end
      | None => Json.get "content" record ≫= as_str
      end
  end.

Definition ellipsis : string :=
  String (ascii_of_nat 226) (String (ascii_of_nat 128) (String (ascii_of_nat 166) EmptyString)).

Definition normalize (text : string) : option string :=
  let collapsed := join " " (split_whitespace text) in
  let trimmed := trim collapsed in
  if is_empty trimmed then None
  else if (TITLE_LIMIT <? length (char_list trimmed))%nat then
    Some (concat_str (map snd (take TITLE_LIMIT (char_list trimmed))) +:+ ellipsis)
  else Some trimmed.

Definition title_of (record : Entries) : option string :=
  if is_user_record record then extract_text record ≫= normalize else None.

Fixpoint find_map {A B} (f : A -> option B) (l : list A) : option B :=
  match l with
  | [] => None
  | x :: l => match f x with Some y => Some y | None => find_map f l end
  end.

Definition first_prompt (from_str : string -> result Json string) (jsonl_head : string) : option string :=
  find_map title_of (records from_str jsonl_head).

(** ** The log *)

Section logs.
  Context {W : Type} (read_dir : string -> W -> option (list DirEntry)) (open : string -> W -> option File)
    (from_str : string -> result Json string).

(** A log modified since the session started. *)
Definition qualifies (dir : string) (started_at_secs : Z) (e : DirEntry) : option (string * Z) :=
  if is_jsonl e then
    match modified e with
    | Some secs => if (started_at_secs <=? secs)%Z then Some (path_join dir (file_name e), secs) else None
    | None => None
    end
  else None.

(** [max_by_key]: of equal keys the last. *)
Definition max_by_key {A} (key : A -> Z) (l : list A) : option A :=
  foldl (fun best x => match best with Some b => if (key b <=? key x)%Z then Some x else best | None => Some x end) None l.

Definition pick_log_for (dir : string) (started_at_secs : Z) (w : W) : option string :=
  match read_dir dir w with
  | None => None
  | Some entries => fst <$> max_by_key snd (omap (qualifies dir started_at_secs) entries)
  end.

Definition read_head (path : string) (w : W) : option string :=
  match open path w with
  | None => None
  | Some file => from_utf8_lossy <$> read_at file 0 (Some HEAD_BYTES)
  end.

Definition title_in (home workspace : string) (started_at_secs : Z) (w : W) (h : Harness) : option string :=
  match session_logs_dir h home with
  | None => None
  | Some dir =>
      match pick_log_for (path_join dir (escape_workspace h workspace)) started_at_secs w with
      | None => None
      | Some path => match read_head path w with None => None | Some head => first_prompt from_str head end
      end
  end.

Definition first_prompt_for (home workspace : string) (started_at_secs : Z) (w : W) : option string :=
  find_map (title_in home workspace started_at_secs w) registry.

(** When a session's log may start. *)
Definition started_secs (s : Session) : Z :=
  default 0%Z (parse_unsigned u64_max (default (created_at s) (started_at s))).

Definition session_title (home : string) (w : W) (s : Session) : option string :=
  first_prompt_for home (workspace s) (started_secs s) w.

End logs.

(** ** Lemmas *)

Lemma find_map_some {A B} (f : A -> option B) l y : find_map f l = Some y <->
  exists before x after, l = before ++ x :: after /\ Forall (fun z => f z = None) before /\ f x = Some y.
Proof.
  induction l as [|z l IH]; cbn.
  - split; [done|]. intros (before & x & after & H & _). by destruct before.
  - destruct (f z) as [y'|] eqn:E.
    + split; [intros [= ->]; exists [], z, l; by repeat constructor|].
      intros (before & x & after & H & Hb & Hx). destruct before as [|z' before]; injection H as -> ->; [congruence|].
      inversion Hb; congruence.
    + rewrite IH. split.
      * intros (before & x & after & -> & Hb & Hx). exists (z :: before), x, after. repeat split; [|done]. by constructor.
      * intros (before & x & after & H & Hb & Hx). destruct before as [|z' before]; injection H as -> ->; [congruence|].
        exists before, x, after. by inversion Hb.
Qed.

Lemma find_map_none {A B} (f : A -> option B) l : find_map f l = None <-> Forall (fun x => f x = None) l.
Proof.
  induction l as [|x l IH]; cbn; [split; [constructor|done]|]. rewrite Forall_cons. destruct (f x) as [y|]; [|by rewrite IH; split; [|intros []]].
  split; [done|]. by intros [? _].
Qed.

Lemma find_map_app {A B} (f : A -> option B) l1 l2 : find_map f (l1 ++ l2) = match find_map f l1 with Some y => Some y | None => find_map f l2 end.
Proof. induction l1 as [|x l1 IH]; [done|]. cbn. by destruct (f x). Qed.

Definition space : Z * string := (32%Z, " ").

Lemma space_char : is_char space.
Proof. split; [done|]. reflexivity. Qed.

Definition single_spaced (l : list (Z * string)) : Prop := Forall (fun c => is_whitespace (fst c) = true -> c = space) l.

(** Words joined by spaces. *)
Lemma join_words ws : Forall word ws -> Forall (Forall is_char) ws ->
  exists l, join " " (map (fun w => concat_str (map snd w)) ws) = concat_str (map snd l) /\ Forall is_char l /\ single_spaced l /\
    (Forall (fun c => is_whitespace (fst c) = true) l -> ws = []).
Proof.
  intros Hw Hc. induction ws as [|w ws IH]; [exists []; repeat constructor|].
  inversion Hw as [|? ? [Hne Hw1] Hw']; subst. inversion Hc as [|? ? Hc1 Hc']; subst. destruct (IH Hw' Hc') as (l & El & Hl & Hs & _). clear IH.
  assert (Hws : single_spaced w) by (eapply Forall_impl; [exact Hw1|]; cbn; congruence).
  assert (Hno : forall r, Forall (fun c => is_whitespace (fst c) = true) (w ++ r) -> w :: ws = []).
  { intros r [H _]%Forall_app. destruct w as [|c w]; [done|]. inversion H; inversion Hw1; congruence. }
  destruct ws as [|w2 ws].
  - exists w. repeat split; try done. intros H. apply (Hno []). by rewrite app_nil_r.
  - exists (w ++ space :: l). split; [|split; [|split; [|apply Hno]]].
    + rewrite map_app, concat_str_app. change (map snd (space :: l)) with (" " :: map snd l). cbn [concat_str]. by rewrite <- El.
    + apply Forall_app_2; [done|]. by constructor; [apply space_char|].
    + apply Forall_app_2; [done|]. by constructor.
Qed.

Lemma ellipsis_char : is_char (8230%Z, ellipsis).
Proof. pose proof (char_list_chars ellipsis) as H. change (char_list ellipsis) with [(8230%Z, ellipsis)] in H. by inversion H. Qed.

(** A title is short and single-spaced; a text of no words has none. *)
Lemma normalize_spec text : match normalize text with
  | Some t => 1 <= length (char_list t) <= S TITLE_LIMIT /\ single_spaced (char_list t)
  | None => split_whitespace text = []
  end.
Proof.
  unfold normalize. destruct (split_whitespace_words text) as (ws & -> & Hw & Hc).
  destruct (join_words ws Hw Hc) as (l & -> & Hl & Hs & Hno). set (s := concat_str (map snd l)).
  assert (Es : char_list s = l) by (by apply char_list_concat).
  destruct (is_empty (trim s)) eqn:Et.
  { apply trim_empty in Et. rewrite Es in Et. by rewrite (Hno Et). }
  destruct (char_list_trim s) as (l1 & l2 & E). rewrite Es in E. rewrite E in Hs. apply Forall_app in Hs as [_ [Hs _]%Forall_app].
  pose proof (char_list_chars (trim s)) as Ht. destruct (TITLE_LIMIT <? _)%nat eqn:En.
  - rewrite char_list_concat_app by (by apply Forall_take). rewrite length_app, length_take.
    change (char_list ellipsis) with [(8230%Z, ellipsis)]. split; [cbn [length]; lia|].
    apply Forall_app_2; [by apply Forall_take|]. constructor; [|constructor]. intros H. discriminate H.
  - split; [|done]. split; [|lia]. rewrite <- (trim_chars s) in Et. destruct (char_list (trim s)); [done|cbn; lia].
Qed.

(** ** The title of a log *)

(** The title is that of the first prompt: of the first record a user wrote
    with any word in its text, no earlier one having any; it is between one
    character and eighty and the ellipsis, and its only whitespace is single
    characters of space.  Without a title no user record has a word. *)
Theorem first_prompt_titles from_str text :
  match first_prompt from_str text with
  | Some t =>
      (exists before record after p, records from_str text = before ++ record :: after /\
         Forall (fun r => is_user_record r = true -> forall q, extract_text r = Some q -> split_whitespace q = []) before /\
         is_user_record record = true /\ extract_text record = Some p /\ normalize p = Some t) /\
      1 <= length (char_list t) <= S TITLE_LIMIT /\ single_spaced (char_list t)
  | None =>
      Forall (fun r => is_user_record r = true -> forall q, extract_text r = Some q -> split_whitespace q = []) (records from_str text)
  end.
Proof.
  assert (Hnone : forall r, title_of r = None -> is_user_record r = true -> forall q, extract_text r = Some q -> split_whitespace q = []).
  { intros r. unfold title_of. intros H Hu q Hq. rewrite Hu, Hq in H. cbn in H. pose proof (normalize_spec q) as Hs. by rewrite H in Hs. }
  unfold first_prompt. destruct (find_map _ _) as [t|] eqn:E.
  - apply find_map_some in E as (before & record & after & E & Hb & Hr). unfold title_of in Hr.
    destruct (is_user_record record) eqn:Eu; [|done]. destruct (extract_text record) as [p|] eqn:Ep; [|done]. cbn in Hr.
    split; [|pose proof (normalize_spec p) as Hs; by rewrite Hr in Hs].
    exists before, record, after, p. split; [done|]. split; [|done]. eapply Forall_impl; [exact Hb|]. cbn. apply Hnone.
  - apply find_map_none in E. eapply Forall_impl; [exact E|]. cbn. apply Hnone.
Qed.

Section pass.
  Context {W : Type} (read_dir : string -> W -> option (list DirEntry)) (open : string -> W -> option File)
    (from_str : string -> result Json string).

(** A title never changes as its log grows: found in the lines the first
    64 KiB hold whole, it is the title of the whole log. *)
Theorem title_outlives_its_log path w first rest t :
  open path w = Some (file_of (first +:+ String newline rest)) -> (String.length first < HEAD_BYTES)%nat ->
  first_prompt from_str (from_utf8_lossy (first +:+ String newline EmptyString)) = Some t ->
  (exists head, read_head open path w = Some head /\ first_prompt from_str head = Some t) /\
  first_prompt from_str (from_utf8_lossy (first +:+ String newline rest)) = Some t.
Proof.
  unfold read_head. generalize HEAD_BYTES as cap. intros cap Ho Hl Ht. rewrite (lossy_line newline) in Ht by apply newline_ascii.
  change (from_utf8_lossy EmptyString) with EmptyString in Ht.
  assert (Hall : forall r, first_prompt from_str (from_utf8_lossy first +:+ String newline r) = Some t).
  { intros r. unfold first_prompt in *. by rewrite records_app, find_map_app, Ht. }
  split; [|rewrite (lossy_line newline) by apply newline_ascii; apply Hall].
  rewrite Ho. cbn [read_at file_of limited str_drop fmap option_fmap option_map]. eexists. split; [reflexivity|].
  rewrite str_take_app_ge by lia. destruct (cap - String.length first) as [|n] eqn:En; [lia|]. cbn [str_take].
  rewrite (lossy_line newline) by apply newline_ascii. apply Hall.
Qed.

(** *** The newest log *)

Lemma max_by_key_spec {A} (key : A -> Z) l :
  match max_by_key key l with
  | Some x => x ∈ l /\ Forall (fun y => (key y <= key x)%Z) l
  | None => l = []
  end.
Proof.
  induction l as [|y l IH] using rev_ind; [done|]. unfold max_by_key in *. rewrite foldl_app. cbn [foldl].
  destruct (foldl _ None l) as [b|].
  - destruct IH as [Hb Hm]. destruct (key b <=? key y)%Z eqn:E.
    + split; [apply elem_of_app; right; by apply list_elem_of_singleton|]. apply Forall_app_2; [|by repeat constructor].
      eapply Forall_impl; [exact Hm|]. cbn. lia.
    + split; [by apply elem_of_app; left|]. apply Forall_app_2; [done|]. repeat constructor. lia.
  - subst. split; [by apply list_elem_of_singleton|by repeat constructor].
Qed.

Definition log_of (started : Z) (e : DirEntry) (secs : Z) : Prop := is_jsonl e = true /\ modified e = Some secs /\ (started <= secs)%Z.

Lemma qualifies_spec dir started e p secs : qualifies dir started e = Some (p, secs) <-> p = path_join dir (file_name e) /\ log_of started e secs.
Proof.
  unfold qualifies, log_of. destruct (is_jsonl e); [|naive_solver]. destruct (modified e) as [m|]; [|naive_solver].
  destruct (started <=? m)%Z eqn:E; naive_solver lia.
Qed.

(** The log a title is read from is the directory's newest JSONL file changed
    since the session started; there is none only if no such file is listed. *)
Theorem title_log_is_the_newest dir started w :
  match pick_log_for read_dir dir started w with
  | Some p =>
      exists entries e secs, read_dir dir w = Some entries /\ e ∈ entries /\ p = path_join dir (file_name e) /\ log_of started e secs /\
        forall e' secs', e' ∈ entries -> log_of started e' secs' -> (secs' <= secs)%Z
  | None => forall entries, read_dir dir w = Some entries -> forall e secs, e ∈ entries -> ~ log_of started e secs
  end.
Proof.
  unfold pick_log_for. destruct (read_dir dir w) as [entries|]; [|done].
  pose proof (max_by_key_spec snd (omap (qualifies dir started) entries)) as H.
  destruct (max_by_key _ _) as [[p secs]|]; cbn.
  - destruct H as [Hin Hmax]. apply list_elem_of_omap in Hin as (e & He & Hq). apply qualifies_spec in Hq as [Hp Hq].
    exists entries, e, secs. do 4 (split; [done|]). intros e' secs' He' Hq'. rewrite Forall_forall in Hmax.
    apply (Hmax (path_join dir (file_name e'), secs')). apply list_elem_of_omap. exists e'. split; [done|]. by apply qualifies_spec.
  - intros ? [= <-] e secs He Hq. assert (Hin : (path_join dir (file_name e), secs) ∈ omap (qualifies dir started) entries).
    { apply list_elem_of_omap. exists e. split; [done|]. by apply qualifies_spec. }
    rewrite H in Hin. by apply not_elem_of_nil in Hin.
Qed.

End pass.

(** ** The pass over the index *)

Section titling.
  Variable first_prompt : Session -> option string.

Definition titled (s : Session) : Session :=
  match first_prompt s with Some t => set_title (Some t) s | None => s end.

Definition given_up_on (s : Session) : Prop := first_prompt s = None /\ is_terminal (Session.state s) = true.

Lemma title_one_spec w s : get (Session.id s) (index w) = Some s -> let w' := title_one first_prompt w s in
  (forall id, get id (index w') = if (id =? Session.id s)%N then Some (titled s) else get id (index w)) /\
  (forall id, id ∈ untitled w' <-> id ∈ untitled w \/ (id = Session.id s /\ given_up_on s)).
Proof.
  intros Hg. cbn zeta. unfold title_one, titled, given_up_on. destruct (first_prompt s) as [t|].
  - split; [|intros id; cbn; naive_solver]. intros id. rewrite index_emit. unfold current. rewrite Hg. cbn [default].
    change (Session.id (set_title (Some t) s)) with (Session.id s). destruct (N.eqb_spec id (Session.id s)) as [->|Hne];
      [by rewrite get_put|by rewrite get_put_ne].
  - assert (Hi : forall id, get id (index w) = if (id =? Session.id s)%N then Some s else get id (index w)).
    { intros id. by destruct (N.eqb_spec id (Session.id s)) as [->|]. }
    destruct (is_terminal _); split; try exact Hi; intros id; cbn; [|naive_solver]. set_solver.
Qed.

Lemma title_fold l : forall w, NoDup (map Session.id l) -> Forall (fun s => get (Session.id s) (index w) = Some s) l ->
  let w' := foldl (title_one first_prompt) w l in
  (forall id, get id (index w') =
     match List.find (fun s => (id =? Session.id s)%N) l with Some s => Some (titled s) | None => get id (index w) end) /\
  (forall id, id ∈ untitled w' <-> id ∈ untitled w \/ exists s, s ∈ l /\ id = Session.id s /\ given_up_on s).
Proof.
  induction l as [|s l IH]; intros w Hd Hl; cbn zeta; [split; [done|]; intros id; cbn; set_solver|].
  inversion Hd as [|? ? Hni Hd']; subst. inversion Hl as [|? ? Hs Hl']; subst. cbn [foldl].
  destruct (title_one_spec w s Hs) as [H1 H2]. destruct (IH (title_one first_prompt w s)) as [H3 H4]; [done| |].
  { apply Forall_forall. intros x Hx. rewrite H1. rewrite Forall_forall in Hl'. destruct (N.eqb_spec (Session.id x) (Session.id s)) as [E|_]; [|by apply Hl'].
    exfalso. apply Hni. rewrite <- E. apply list_elem_of_In, in_map, list_elem_of_In, Hx. }
  split; intros id.
  - rewrite H3, H1. cbn [List.find]. destruct (N.eqb_spec id (Session.id s)) as [->|Hne]; [|done].
    destruct (List.find _ l) as [x|] eqn:E; [|done]. apply List.find_some in E as [Hx E%N.eqb_eq]. exfalso. apply Hni.
    rewrite E. by apply list_elem_of_In, in_map.
  - rewrite H4, H2. set_solver.
Qed.

(** A titling pass gives a title to the sessions that lack one and to no other:
    an agent's session that is live or over, has no title and was not given up
    keeps everything else and gains its first prompt, if its log has one; a
    finished one without is given up for good; every other session stays as it
    was, its title included. *)
Theorem pass_titles_the_untitled w : ordered (index w) -> keyed Session.id (index w) ->
  let w' := title_untitled first_prompt w in
  (forall id, get id (index w') =
     (fun s => if candidate_for_title (untitled w) s then titled s else s) <$> get id (index w)) /\
  (forall id, id ∈ untitled w' <-> id ∈ untitled w \/
     exists s, get id (index w) = Some s /\ candidate_for_title (untitled w) s = true /\ given_up_on s).
Proof.
  intros Ho Hk. cbn zeta. unfold title_untitled. set (l := List.filter _ _).
  assert (Hv : forall s, s ∈ values (index w) -> get (Session.id s) (index w) = Some s).
  { intros s Hs. apply list_elem_of_In, in_map_iff in Hs as ([k x] & <- & Hin). apply list_elem_of_In in Hin. cbn [snd].
    unfold keyed in Hk. rewrite Forall_forall in Hk. specialize (Hk _ Hin). cbn in Hk. subst k. by apply elem_get. }
  assert (Hl : forall s, s ∈ l <-> s ∈ values (index w) /\ candidate_for_title (untitled w) s = true)
    by (intros s; unfold l; rewrite !list_elem_of_In; apply List.filter_In).
  assert (Hid : forall id s, get id (index w) = Some s -> Session.id s = id /\ s ∈ values (index w)).
  { intros id s Hs. apply get_elem in Hs. unfold keyed in Hk. rewrite Forall_forall in Hk. specialize (Hk _ Hs). cbn in Hk. split; [done|].
    apply list_elem_of_In, in_map_iff. exists (id, s). by rewrite <- list_elem_of_In. }
  destruct (title_fold l w) as [H1 H2].
  - assert (Hd : NoDup (map Session.id (values (index w)))).
    { apply ordered_nodup in Ho. unfold values. rewrite map_map. erewrite map_ext_in; [exact Ho|]. intros e He.
      unfold keyed in Hk. rewrite Forall_forall in Hk. symmetry. apply Hk. by apply list_elem_of_In. }
    unfold l. clear -Hd. induction (values (index w)) as [|s v IH]; [constructor|]. inversion Hd as [|? ? Hn Hd']; subst. cbn [List.filter].
    destruct (candidate_for_title _ s); [|by apply IH]. cbn [map]. constructor; [|by apply IH]. intros Hin. apply Hn.
    apply list_elem_of_In, in_map_iff in Hin as (x & <- & [Hx _]%List.filter_In). by apply list_elem_of_In, in_map.
  - apply Forall_forall. intros s Hs. apply Hv. by apply Hl.
  - split; intros id.
    + rewrite H1. destruct (List.find _ l) as [s|] eqn:E.
      * apply List.find_some in E as [Hs ->%N.eqb_eq]. apply list_elem_of_In, Hl in Hs as [Hs Hc]. rewrite (Hv s Hs). cbn. by rewrite Hc.
      * destruct (get id (index w)) as [s|] eqn:Es; [|done]. cbn. destruct (candidate_for_title _ s) eqn:Ec; [|done].
        exfalso. apply Hid in Es as [<- Hs]. assert (Hin : In s l) by (by apply list_elem_of_In, Hl).
        apply (List.find_none _ _ E) in Hin. by rewrite N.eqb_refl in Hin.
    + rewrite H2. split; (intros [H|H]; [by left|right]).
      * destruct H as (s & Hs & -> & Hg). apply Hl in Hs as [Hs Hc]. exists s. by rewrite (Hv s Hs).
      * destruct H as (s & Hs & Hc & Hg). apply Hid in Hs as [<- Hs]. exists s. by rewrite Hl.
Qed.
End titling.

(** ** Witnesses *)

(** A parser of a log's lines: what a user says is its own title. *)
Definition sample_parse (s : string) : result Json string :=
  match strip_prefix "user: " s with
  | Some text => Ok (JObject [("type", JString "user"); ("message", JObject [("role", JString "user"); ("content", JString text)])])
  | None => if bool_decide (s = "{") then Err "not JSON" else Ok (JObject [("type", JString "summary")])
  end.

Definition sample_first : string := "summary" +:+ String newline "user:   fix   the login bug ".

Definition sample_log : string := sample_first +:+ String newline ("user: and the next" +:+ String newline "{").

Definition sample_dir : string := "/h/.willie/agent-state/claude/dot-claude/projects/-w".

Definition sample_open (path : string) (_ : unit) : option File :=
  if bool_decide (path = sample_dir +:+ "/b.jsonl") then Some (file_of sample_log) else None.

Definition sample_list (dir : string) (_ : unit) : option (list DirEntry) :=
  if bool_decide (dir = sample_dir) then
    Some [mk_dir_entry "a.jsonl" (Some 5%Z); mk_dir_entry "b.jsonl" (Some 9%Z); mk_dir_entry "c.txt" (Some 12%Z); mk_dir_entry "d.jsonl" None]
  else None.

Lemma title_outlives_its_log_witness :
  (exists head, read_head sample_open (sample_dir +:+ "/b.jsonl") tt = Some head /\ first_prompt sample_parse head = Some "fix the login bug") /\
  first_prompt sample_parse (from_utf8_lossy sample_log) = Some "fix the login bug".
Proof.
  apply (title_outlives_its_log sample_open sample_parse (sample_dir +:+ "/b.jsonl") tt sample_first
    ("user: and the next" +:+ String newline "{") "fix the login bug").
  - reflexivity.
  - apply Nat.ltb_lt. vm_compute. reflexivity.
  - vm_compute. reflexivity.
Defined.

Definition sample_session (id : N) (kind : SessionKind) (state : SessionState) (created : string) : Session :=
  mk_session id 7 "claude-code" "/w" kind state created None None None 0 None None None sandbox_default.

(** One to title, a shell, one whose logs are all older, and one given up. *)
Definition sample_world : Sessions.World :=
  Sessions.mk_world (mk_state [] []
    [(1%N, sample_session 1 Agent Running "6"); (2%N, sample_session 2 Shell Running "6");
     (3%N, sample_session 3 Agent (Exited (Some 0%Z) None) "10"); (4%N, sample_session 4 Agent (Exited (Some 0%Z) None) "6")] 0, [])
    [] {[4%N]} [].

Definition sample_title : Session -> option string := fun s => session_title sample_list sample_open sample_parse "/h" tt s.

Lemma pass_titles_the_untitled_witness :
  map (fun e => (fst e, title (snd e))) (index (title_untitled sample_title sample_world)) =
    [(1%N, Some "fix the login bug"); (2%N, None); (3%N, None); (4%N, None)] /\
  3%N ∈ untitled (title_untitled sample_title sample_world).
Proof.
  destruct (pass_titles_the_untitled sample_title sample_world) as [H1 H2].
  - vm_compute. repeat constructor.
  - repeat constructor.
  - split; [vm_compute; reflexivity|]. apply H2. right. exists (sample_session 3 Agent (Exited (Some 0%Z) None) "10").
    split; [reflexivity|]. split; [vm_compute; reflexivity|]. split; vm_compute; reflexivity.
Defined.
