(* ===== verification/SessionLog.v ===== *)
(** * The session directories

    Models crates/willied/src/session_store.rs and crates/willie-sess/src/events.rs:
    a directory per session with its spec and its event log, which the daemon
    and the session's supervisor both append to.  serde_json is a parameter
    with the laws of a printer and its parser; a write answers how much of its
    bytes reached the file. *)

From S2P Require Import Prelude Text Utf8 Logs BTree Sandbox Session Sessions.

Local Open Scope string_scope.
Local Open Scope list_scope.

(** ** What serde_json promises *)

(** The text of a value is UTF-8, reads back, and is not readable cut short
    (it is an object). *)
Class Prints {A} (to_text : A -> result string string) (of_text : string -> option A) : Prop := {
  prints_utf8 x t : to_text x = Ok t -> is_utf8 t = true;
  prints_back x t : to_text x = Ok t -> of_text t = Some x;
  prints_whole x t n : to_text x = Ok t -> (n < String.length t)%nat -> of_text (str_take n t) = None
}.

(** The compact form is one line. *)
Class PrintsLine {A} (to_text : A -> result string string) : Prop :=
  prints_line x t : to_text x = Ok t -> contains_char newline t = false /\ drop_return t = t /\ is_empty t = false.

(** ** Files *)

Record Dir : Type := mk_dir { spec_json : option string; events_jsonl : option string }.

(** What is below <state>/sessions, by name. *)
Abbreviation Files := (gmap string Dir).

(** How one write of a text ends: nothing of it, a part, or all. *)
Inductive Written : Type :=
| Unopened (e : string)
| Cut (n : nat) (e : string)
| Whole.

Definition part (w : Written) (text : string) : string :=
  match w with Unopened _ => EmptyString | Cut n _ => str_take n text | Whole => text end.

Definition outcome (w : Written) : result unit string := match w with Unopened e | Cut _ e => Err e | Whole => Ok tt end.

Definition NOT_FOUND : string := "No such file or directory (os error 2)".

Section files.
  Context (show : N -> string) (spec_text : SessionSpec -> result string string) (spec_of : string -> option SessionSpec)
    (event_text : SessionEvent -> result string string) (event_of : string -> option SessionEvent).

Definition fresh_dir : Dir := mk_dir None None.

Definition set_spec (t : string) (d : Dir) : Dir := mk_dir (Some t) (events_jsonl d).

Definition add_events (t : string) (d : Dir) : Dir := mk_dir (spec_json d) (Some (default EmptyString (events_jsonl d) +:+ t)).

(** [write_spec]: [made] is the error of [create_dir_all]. *)
Definition write_spec (made : option string) (w : Written) (spec : SessionSpec) (fs : Files) : result string string * Files :=
  let name := show (s_id spec) in
  match made with
  | Some e => (Err e, fs)
  | None =>
      let fs := match fs !! name with Some _ => fs | None => <[name := fresh_dir]> fs end in
      match spec_text spec with
      | Err e => (Err e, fs)
      | Ok text =>
          match w with
          | Unopened e => (Err e, fs)
          | Cut n e => (Err e, alter (set_spec (str_take n text)) name fs)
          | Whole => (Ok name, alter (set_spec text) name fs)
          end
      end
  end.

(** [append_event]: the line and its end in one write. *)
Definition append_event (w : Written) (id : N) (ev : SessionEvent) (fs : Files) : result unit string * Files :=
  match event_text ev with
  | Err e => (Err e, fs)
  | Ok line =>
      match fs !! show id, w with
      | _, Unopened e => (Err e, fs)
      | None, _ => (Err NOT_FOUND, fs)
      | Some d, w => (outcome w, <[show id := add_events (part w (line +:+ String newline EmptyString)) d]> fs)
      end
  end.

Definition read_events (file : option string) : list SessionEvent :=
  match file ≫= to_str with None => [] | Some text => omap event_of (lines text) end.

Definition load_one (fs : Files) (name : string) : option (SessionSpec * list SessionEvent) :=
  d ← fs !! name;
  text ← spec_json d ≫= to_str;
  spec ← spec_of text;
  Some (spec, read_events (events_jsonl d)).

(** [load_all]: [listing] is what [read_dir] gives. *)
Definition load_all (listing : option (list string)) (fs : Files) : list (SessionSpec * list SessionEvent) :=
  match listing with None => [] | Some names => omap (load_one fs) names end.

(** ** The supervisor's side *)

(** [epoch_secs]: zero for a clock before the epoch. *)
Definition epoch_secs (since_epoch : option Z) : string := pretty (default 0%Z since_epoch).

(** [EventLog::append] to a file that is open: the line and its end are two
    writes, the second only after the first.  The event is returned whatever
    they answer. *)
Definition append (now : string) (w1 w2 : Written) (kind : SessionEventKind) (text : string) : SessionEvent * string :=
  let event := mk_event now kind in
  match event_text event with
  | Err _ => (event, text)
  | Ok line =>
      let text := text +:+ part w1 line in
      (event, match outcome w1 with Ok _ => text +:+ part w2 (String newline EmptyString) | Err _ => text end)
  end.

(** [read_all]: a line that cannot be read ends it. *)
Fixpoint read_all (lines : list (result string string)) : result (list SessionEvent) string :=
  match lines with
  | [] => Ok []
  | Err e :: _ => Err e
  | Ok l :: lines =>
      match read_all lines with
      | Err e => Err e
      | Ok evs => Ok (option_list (event_of l) ++ evs)
      end
  end.

(** Both writers on one log: [midway] is between the supervisor's two writes,
    which its lock keeps to one thread. *)
Record Log : Type := mk_log { text : string; midway : bool }.

Inductive Move : Type :=
| Line (e : SessionEvent)      (* the supervisor's line *)
| LineEnd                      (* and its end *)
| Appended (e : SessionEvent). (* the daemon's *)

Definition step (m : Move) (l : Log) : option Log :=
  match m with
  | Line e =>
      if midway l then None
      else match event_text e with Ok line => Some (mk_log (text l +:+ line) true) | Err _ => Some l end
  | LineEnd => if midway l then Some (mk_log (text l +:+ String newline EmptyString) false) else None
  | Appended e =>
      match event_text e with
      | Ok line => Some (mk_log (text l +:+ (line +:+ String newline EmptyString)) (midway l))
      | Err _ => Some l
      end
  end.

Fixpoint run (ms : list Move) (l : Log) : option Log :=
  match ms with
  | [] => Some l
  | m :: ms => step m l ≫= run ms
  end.

(** ** Reading lines back *)

(** Ends where a line ends. *)
Definition rested (t : string) : Prop := t = EmptyString \/ exists a, t = a +:+ String newline EmptyString.

Lemma rested_line t a : rested (t +:+ (a +:+ String newline EmptyString)).
Proof. right. exists (t +:+ a). by rewrite str_app_assoc. Qed.

Lemma lines_rested t b : rested t -> lines (t +:+ b) = lines t ++ lines b.
Proof.
  intros [->|[a ->]]; [done|]. rewrite <- str_app_assoc. rewrite str_app_cons, str_app_nil_l. apply lines_app.
Qed.

Lemma utf8_rested t b : rested t -> is_utf8 (t +:+ b) = is_utf8 t && is_utf8 b.
Proof.
  intros [->|[a ->]]; [done|]. rewrite <- str_app_assoc, str_app_cons, str_app_nil_l. unfold is_utf8.
  rewrite !(chunks_line newline _ newline_ascii _ a (le_n _)), !forallb_app. cbn [forallb snd]. by rewrite !andb_true_r, andb_true_l.
Qed.

Lemma lines_one l : contains_char newline l = false -> drop_return l = l -> is_empty l = false ->
  lines l = [l] /\ lines (l +:+ String newline EmptyString) = [l].
Proof.
  intros Hc Hd He. unfold lines. rewrite split_none, split_cons by done. cbn [split end_lines is_empty]. by rewrite Hd, He.
Qed.

Lemma read_events_none : read_events None = [].
Proof. done. Qed.

Lemma read_events_text t : is_utf8 t = true -> read_events (Some t) = omap event_of (lines t).
Proof. intros H. unfold read_events, to_str. cbn [mbind option_bind]. by rewrite H. Qed.

Lemma read_events_app t b : rested t -> is_utf8 t = true -> is_utf8 b = true ->
  read_events (Some (t +:+ b)) = read_events (Some t) ++ omap event_of (lines b).
Proof.
  intros Hr Ht Hb. rewrite !read_events_text, lines_rested, omap_app; try done. by rewrite utf8_rested, Ht, Hb.
Qed.

Context `{!Prints event_text event_of, !PrintsLine event_text}.

Lemma read_line e l : event_text e = Ok l -> omap event_of (lines l) = [e] /\ omap event_of (lines (l +:+ String newline EmptyString)) = [e].
Proof.
  intros H. destruct (prints_line e l H) as (Hc & Hd & He). destruct (lines_one l Hc Hd He) as [-> ->].
  cbn. by rewrite (prints_back e l H).
Qed.

Lemma log_line_utf8 e l : event_text e = Ok l -> is_utf8 (l +:+ String newline EmptyString) = true.
Proof.
  intros H. unfold is_utf8. rewrite (chunks_line newline _ newline_ascii _ l (le_n _)), forallb_app.
  pose proof (prints_utf8 e l H) as Hu. unfold is_utf8 in Hu. by rewrite Hu.
Qed.

(** A whole line is read after what there was, its end written or not. *)
Lemma read_events_line t e l : rested t -> is_utf8 t = true -> event_text e = Ok l ->
  read_events (Some (t +:+ l)) = read_events (Some t) ++ [e]
  /\ read_events (Some (t +:+ (l +:+ String newline EmptyString))) = read_events (Some t) ++ [e].
Proof.
  intros Hr Ht H. destruct (read_line e l H) as [H1 H2]. pose proof (prints_utf8 e l H). pose proof (log_line_utf8 e l H).
  split; rewrite read_events_app by done; by rewrite ?H1, ?H2.
Qed.

Lemma contains_char_take c n s : contains_char c s = false -> contains_char c (str_take n s) = false.
Proof.
  revert n. induction s as [|a s IH]; intros [|n]; cbn; try done. destruct (decide (a = c)); [done|]. apply IH.
Qed.

(** A torn line hides nothing before it, unless a character of it is torn:
    then the whole log reads as empty. *)
Lemma read_events_torn t e l n : rested t -> is_utf8 t = true -> event_text e = Ok l -> (n < String.length l)%nat ->
  read_events (Some (t +:+ str_take n l)) = (if is_utf8 (str_take n l) then read_events (Some t) else []).
Proof.
  intros Hr Ht H Hn. destruct (is_utf8 (str_take n l)) eqn:Eu.
  - rewrite read_events_app by done. destruct (prints_line e l H) as (Hc & _ & _). apply (contains_char_take _ n) in Hc.
    unfold lines. rewrite split_none by done. cbn [end_lines]. destruct (is_empty _); cbn [omap list_omap]; [by rewrite app_nil_r|].
    by rewrite (prints_whole e l n H Hn), app_nil_r.
  - unfold read_events, to_str. cbn [mbind option_bind]. by rewrite utf8_rested, Ht, Eu.
Qed.

(** ** Two writers *)

Definition logged (ms : list Move) : list SessionEvent :=
  omap (fun m => match m with Line e | Appended e => match event_text e with Ok _ => Some e | Err _ => None end | LineEnd => None end) ms.

(** No line of the daemon's comes between the supervisor's line and its end. *)
Fixpoint apart (midway : bool) (ms : list Move) : bool :=
  match ms with
  | [] => true
  | Line e :: ms => apart (match event_text e with Ok _ => true | Err _ => false end) ms
  | LineEnd :: ms => apart false ms
  | Appended _ :: ms => negb midway && apart midway ms
  end.

Definition sound (l : Log) : Prop :=
  is_utf8 (text l) = true /\
  if midway l then exists t e line, rested t /\ is_utf8 t = true /\ event_text e = Ok line /\ text l = t +:+ line else rested (text l).

Lemma run_reads ms : forall l l', sound l -> apart (midway l) ms = true -> run ms l = Some l' ->
  sound l' /\ read_events (Some (text l')) = read_events (Some (text l)) ++ logged ms.
Proof.
  induction ms as [|m ms IH]; intros l l' Hs Ha Hr; [injection Hr as <-; by rewrite app_nil_r|].
  cbn [run] in Hr. destruct (step m l) as [l1|] eqn:Em; [|done]. cbn [mbind option_bind] in Hr.
  assert (Hgo : sound l1 -> apart (midway l1) ms = true ->
    read_events (Some (text l1)) = read_events (Some (text l)) ++ logged [m] ->
    sound l' /\ read_events (Some (text l')) = read_events (Some (text l)) ++ logged (m :: ms)).
  { intros H1 H2 H3. destruct (IH l1 l' H1 H2 Hr) as [H4 ->]. split; [done|]. rewrite H3, <- app_assoc. f_equal.
    unfold logged. by rewrite <- omap_app. }
  destruct l as [t mid]. destruct Hs as [Hu Hs]. cbn [text midway] in *.
  destruct m as [e| |e]; cbn [step apart text midway] in *.
  - destruct mid; [done|]. destruct (event_text e) as [line|] eqn:Ee; injection Em as <-.
    + destruct (read_events_line t e line) as [H1 _]; [done..|]. apply Hgo; cbn [text midway]; [|done|].
      * split; [cbn [text]; rewrite utf8_rested, Hu by done; exact (prints_utf8 e line Ee)|]. by exists t, e, line.
      * rewrite H1. unfold logged. cbn [omap list_omap]. by rewrite Ee.
    + apply Hgo; [by split|done|]. unfold logged. cbn. by rewrite Ee, app_nil_r.
  - destruct mid; [|done]. injection Em as <-. destruct Hs as (t0 & e & line & Hr0 & Hu0 & He & ->).
    destruct (read_events_line t0 e line) as [H1 H2]; [done..|]. apply Hgo; cbn [text midway]; [|done|].
    + rewrite <- str_app_assoc. split; [|apply rested_line]. cbn [text]. rewrite utf8_rested, Hu0 by done. by eapply log_line_utf8.
    + by rewrite <- str_app_assoc, H2, H1, app_nil_r.
  - apply andb_true_iff in Ha as [Hm Ha]. destruct mid; [done|]. destruct (event_text e) as [line|] eqn:Ee; injection Em as <-.
    + destruct (read_events_line t e line) as [_ H2]; [done..|]. apply Hgo; cbn [text midway]; [|done|].
      * split; [|apply rested_line]. cbn [text]. rewrite utf8_rested, Hu by done. by eapply log_line_utf8.
      * rewrite H2. unfold logged. cbn [omap list_omap]. by rewrite Ee.
    + apply Hgo; [by split|done|]. unfold logged. cbn. by rewrite Ee, app_nil_r.
Qed.

(** C23. The supervisor and the daemon append to one log.  As long as the
    daemon's line never comes between the supervisor's line and its end, the
    log reads as exactly the events both have appended, in their order, at
    every moment: a line whose end is not written yet counts. *)
Theorem two_writers_share_the_log ms l : run ms (mk_log EmptyString false) = Some l -> apart false ms = true ->
  read_events (Some (text l)) = logged ms.
Proof.
  intros Hr Ha. destruct (run_reads ms (mk_log EmptyString false) l) as [_ H]; [|done..|by rewrite H].
  split; [done|]. by left.
Qed.

(** The supervisor's append is its two moves when nothing fails. *)
Lemma append_moves now kind t line : event_text (mk_event now kind) = Ok line ->
  run [Line (mk_event now kind); LineEnd] (mk_log t false) = Some (mk_log (snd (append now Whole Whole kind t)) false).
Proof. intros H. cbn [run step midway mbind option_bind]. rewrite H. cbn [mbind option_bind]. unfold append. rewrite H. by cbn. Qed.

(** ** The directories hold the store *)

Context `{!Prints spec_text spec_of} `{!Inj (=) (=) show}.

Definition name_of (x : SessionSpec * list SessionEvent) : string := show (s_id (fst x)).

(** A directory that loads is a stored session under its own name, and every
    stored session has one. *)
Definition holds (fs : Files) (st : list (SessionSpec * list SessionEvent)) : Prop :=
  NoDup (map (fun x => s_id (fst x)) st) /\ forall name x, load_one fs name = Some x <-> x ∈ st /\ name = name_of x.

Lemma load_one_insert fs name d name' : load_one (<[name := d]> fs) name' = if decide (name' = name) then load_one {[name := d]} name else load_one fs name'.
Proof.
  unfold load_one. destruct (decide (name' = name)) as [->|Hn]; [by rewrite lookup_insert_eq, lookup_singleton_eq|by rewrite lookup_insert_ne].
Qed.

Lemma load_all_holds fs st names : holds fs st -> NoDup names -> (forall name, is_Some (fs !! name) <-> name ∈ names) ->
  load_all (Some names) fs ≡ₚ st.
Proof.
  intros [Hd Hl] Hn Hm. apply NoDup_Permutation.
  - clear Hm. induction Hn as [|name names Hin Hn IH]; [constructor|]. cbn [load_all omap list_omap].
    destruct (load_one fs name) as [x|] eqn:E; [|done]. constructor; [|done]. intros Hx.
    apply list_elem_of_omap in Hx as (name' & Hin' & E'). apply Hl in E as [_ ->], E' as [_ ->]. done.
  - eapply NoDup_fmap_1. exact Hd.
  - intros x. cbn [load_all]. rewrite list_elem_of_omap. split.
    + intros (name & _ & H). by apply Hl in H as [H _].
    + intros Hx. exists (name_of x). assert (H : load_one fs (name_of x) = Some x) by by apply Hl. split; [|done].
      apply Hm. unfold load_one in H. by destruct (fs !! name_of x).
Qed.

Lemma fresh_unheld fs st spec : holds fs st -> s_id spec ∉ map (fun x => s_id (fst x)) st -> load_one fs (show (s_id spec)) = None.
Proof.
  intros [_ Hl] Hf. destruct (load_one fs (show (s_id spec))) as [x|] eqn:E; [|done]. apply Hl in E as [Hx Hn].
  destruct Hf. apply Inj0 in Hn. rewrite Hn. apply list_elem_of_In, in_map_iff. exists x. split; [done|by apply list_elem_of_In].
Qed.

(** A directory without a readable spec is as none. *)
Lemma holds_unreadable fs st name d : holds fs st -> load_one fs name = None -> load_one {[name := d]} name = None -> holds (<[name := d]> fs) st.
Proof.
  intros [Hd Hl] Hn Hs. split; [done|]. intros name' x. rewrite load_one_insert. destruct (decide (name' = name)) as [->|]; [|apply Hl].
  rewrite Hs, <- Hl, Hn. done.
Qed.

Lemma holds_new fs st spec text : holds fs st -> s_id spec ∉ map (fun x => s_id (fst x)) st -> spec_text spec = Ok text ->
  holds (<[show (s_id spec) := mk_dir (Some text) None]> fs) (st ++ [(spec, [])]).
Proof.
  intros H Hf Ht. pose proof (fresh_unheld fs st spec H Hf) as Hu. destruct H as [Hd Hl]. split.
  - rewrite map_app. apply NoDup_app. split; [done|]. split; [|by apply NoDup_singleton]. intros x Hx ->%list_elem_of_singleton. done.
  - intros name x. rewrite load_one_insert, elem_of_app, list_elem_of_singleton. destruct (decide (name = show (s_id spec))) as [->|Hn].
    + unfold load_one. rewrite lookup_singleton_eq. cbn [mbind option_bind spec_json]. unfold to_str.
      rewrite (prints_utf8 spec text Ht). cbn [mbind option_bind]. rewrite (prints_back spec text Ht). cbn [mbind option_bind events_jsonl]. split.
      * intros [= <-]. split; [by right|done].
      * intros [[Hx| ->] Hn]; [|done]. pose proof (proj2 (Hl (show (s_id spec)) x) (conj Hx Hn)). congruence.
    + rewrite Hl. split; [naive_solver|]. intros [[Hx| ->] ->]; [done|]. by destruct Hn.
Qed.

(** A session's log rewritten, in the store. *)
Definition relog (id : N) (f : list SessionEvent -> list SessionEvent) (st : list (SessionSpec * list SessionEvent)) :=
  map (fun x => if (s_id (fst x) =? id)%N then (fst x, f (snd x)) else x) st.

(** What is written at the end of a session's log changes that log alone, by
    what the whole then reads as. *)
Lemma holds_log fs st id d b f : holds fs st -> id ∈ map (fun x => s_id (fst x)) st -> fs !! show id = Some d ->
  read_events (Some (default EmptyString (events_jsonl d) +:+ b)) = f (read_events (events_jsonl d)) ->
  holds (<[show id := add_events b d]> fs) (relog id f st).
Proof.
  intros [Hd Hl] Hin Hs Hr. unfold relog. split.
  - rewrite map_map. erewrite map_ext; [exact Hd|]. intros x. by case_match.
  - assert (Hload : forall x, load_one fs (show id) = Some x -> load_one {[show id := add_events b d]} (show id) = Some (fst x, f (snd x))).
    { intros x. unfold load_one. rewrite lookup_singleton_eq, Hs. cbn [mbind option_bind add_events spec_json events_jsonl].
      destruct (spec_json d ≫= to_str) as [t|]; [|done]. cbn [mbind option_bind]. destruct (spec_of t) as [spec|]; [|done].
      cbn [mbind option_bind]. intros [= <-]. cbn [fst snd]. by rewrite Hr. }
    intros name x. rewrite load_one_insert, list_elem_of_In, in_map_iff. destruct (decide (name = show id)) as [->|Hn].
    + apply list_elem_of_In, in_map_iff in Hin as ([spec evs] & Hid & Hin). apply list_elem_of_In in Hin. cbn [fst] in Hid. subst id.
      rewrite (Hload (spec, evs)) by by apply Hl. cbn [fst snd]. split.
      * intros [= <-]. split; [|done]. exists (spec, evs). cbn [fst snd]. rewrite N.eqb_refl. split; [done|by apply list_elem_of_In].
      * intros ((y & <- & Hy) & Hn). apply list_elem_of_In in Hy. assert (Hy' : load_one fs (show (s_id spec)) = Some y).
        { apply Hl. split; [done|]. rewrite Hn. unfold name_of. by destruct (_ =? _)%N. }
        assert (Hz : load_one fs (show (s_id spec)) = Some (spec, evs)) by by apply Hl. rewrite Hz in Hy'. injection Hy' as <-.
        cbn [fst snd]. by rewrite N.eqb_refl.
    + rewrite Hl. split.
      * intros [Hx ->]. split; [|done]. exists x. split; [|by apply list_elem_of_In]. destruct (s_id (fst x) =? id)%N eqn:E; [|done].
        apply N.eqb_eq in E. destruct Hn. unfold name_of. by rewrite E.
      * intros ((y & <- & Hy) & ->). apply list_elem_of_In in Hy. destruct (s_id (fst y) =? id)%N eqn:E; [|done].
        apply N.eqb_eq in E. destruct Hn. unfold name_of. cbn [fst]. by rewrite E.
Qed.

(** What did not change a reading changes nothing. *)
Lemma holds_same fs st name d : holds fs st -> load_one {[name := d]} name = load_one fs name -> holds (<[name := d]> fs) st.
Proof.
  intros [Hd Hl] He. split; [done|]. intros name' x. rewrite load_one_insert. destruct (decide (name' = name)) as [->|]; [|done].
  by rewrite He.
Qed.

(** A write that is cut short writes a proper part of its text. *)
Definition proper_part (w : Written) (text : result string string) : Prop :=
  match w, text with Cut n _, Ok t => (n < String.length t)%nat | _, _ => True end.

Definition event_line (e : SessionEvent) : result string string :=
  match event_text e with Ok line => Ok (line +:+ String newline EmptyString) | Err x => Err x end.

(** What a session's log reads as after an append: the event at its end when
    all of its line was written, the newline or not; what it was when less of
    it was; and nothing at all when the write was cut inside a character. *)
Definition appended (w : Written) (e : SessionEvent) (evs : list SessionEvent) : list SessionEvent :=
  match event_text e, w with
  | Ok _, Whole => evs ++ [e]
  | Ok line, Cut n _ =>
      if (n =? String.length line)%nat then evs ++ [e] else if is_utf8 (str_take n line) then evs else []
  | _, _ => evs
  end.

Lemma appended_reads w e d line : event_text e = Ok line -> rested (default EmptyString (events_jsonl d)) ->
  is_utf8 (default EmptyString (events_jsonl d)) = true -> proper_part w (event_line e) ->
  (forall x, w <> Unopened x) ->
  read_events (Some (default EmptyString (events_jsonl d) +:+ part w (line +:+ String newline EmptyString)))
  = appended w e (read_events (events_jsonl d)).
Proof.
  intros He Hr Hu Hp Hw. unfold appended, event_line, proper_part in *. rewrite He in *.
  assert (Hd : read_events (Some (default EmptyString (events_jsonl d))) = read_events (events_jsonl d)) by by destruct (events_jsonl d).
  destruct (read_events_line _ e line Hr Hu He) as [H1 H2]. destruct w as [x|n x|]; cbn [part]; [by destruct (Hw x)| |by rewrite H2, Hd].
  rewrite str_length_app in Hp. cbn [String.length] in Hp. destruct (Nat.eqb_spec n (String.length line)) as [->|Hn].
  - by rewrite str_take_app_le, str_take_all, H1, Hd by done.
  - rewrite str_take_app_le by lia. rewrite (read_events_torn _ e line n Hr Hu He) by lia. by rewrite Hd.
Qed.

(** C22. The session directories are the store of the daemon's sessions, for a
    session whose log so far is text that ends with a line's end.  A new spec, in
    a directory that was not there, adds its session with an empty log, and one
    that fails adds none; an event
    goes to the end of its session's log and of no other.  An append that fails
    changes no other session and leaves its own log as it was, but for two
    ways of being cut: after the whole line, where the event is read though the
    caller was told it failed, and inside a character, where that log no longer
    reads at all.  The scan reads exactly the stored sessions with their logs,
    whatever the order of the listing. *)
Theorem files_refine_the_store fs st : holds fs st ->
  (forall made w spec, s_id spec ∉ map (fun x => s_id (fst x)) st -> fs !! show (s_id spec) = None -> proper_part w (spec_text spec) ->
     let '(r, fs') := write_spec made w spec fs in
     match r with Ok name => name = show (s_id spec) /\ holds fs' (st ++ [(spec, [])]) | Err _ => holds fs' st end)
  /\ (forall w id e d, id ∈ map (fun x => s_id (fst x)) st -> fs !! show id = Some d -> rested (default EmptyString (events_jsonl d)) ->
     is_utf8 (default EmptyString (events_jsonl d)) = true -> proper_part w (event_line e) ->
     let '(r, fs') := append_event w id e fs in
     match r with
     | Ok _ => w = Whole /\ holds fs' (Sessions.append_event id e st)
     | Err _ => w <> Whole \/ is_ok (event_text e) = false
     end /\ holds fs' (relog id (appended w e) st))
  /\ (forall names, NoDup names -> (forall name, is_Some (fs !! name) <-> name ∈ names) -> load_all (Some names) fs ≡ₚ st).
Proof.
  intros H. split; [|split].
  - intros made w spec Hf Hn Ht. unfold write_spec. destruct made; [done|]. rewrite Hn.
    pose proof (fresh_unheld fs st spec H Hf) as Hu.
    destruct (spec_text spec) as [t|x] eqn:Es; [|by apply holds_unreadable; try done; unfold load_one; rewrite lookup_singleton_eq].
    destruct w as [x|n x|]; rewrite ?alter_insert_eq; cbn [set_spec fresh_dir events_jsonl].
    + apply holds_unreadable; [done..|]. unfold load_one. by rewrite lookup_singleton_eq.
    + apply holds_unreadable; [done..|]. unfold load_one. rewrite lookup_singleton_eq.
      cbn [set_spec spec_json mbind option_bind]. unfold to_str. destruct (is_utf8 _); [|done].
      cbn [mbind option_bind]. by rewrite (prints_whole spec t n Es Ht).
    + split; [done|]. by apply holds_new.
  - intros w id e d Hin Hs Hr Hu Ht. unfold append_event, outcome.
    assert (Hsame : (forall evs, appended w e evs = evs) -> holds fs (relog id (appended w e) st)).
    { intros Ha. replace (relog id (appended w e) st) with st; [done|]. unfold relog. symmetry. rewrite <- (map_id st) at 2.
      apply map_ext. intros [spec evs]. cbn [fst snd]. rewrite Ha. by case_match. }
    destruct (event_text e) as [line|x] eqn:Ee.
    2: { split; [by right|]. apply Hsame. intros evs. unfold appended. by rewrite Ee. }
    rewrite Hs.
    assert (Hput : (forall x, w <> Unopened x) ->
      holds (<[show id := add_events (part w (line +:+ String newline EmptyString)) d]> fs) (relog id (appended w e) st)).
    { intros Hw. apply holds_log; [done..|]. by apply appended_reads. }
    destruct w as [x|n x|].
    + split; [by left|]. apply Hsame. intros evs. unfold appended. by rewrite Ee.
    + split; [by left|by apply Hput].
    + split; [|by apply Hput]. split; [done|]. replace (Sessions.append_event id e st) with (relog id (appended Whole e) st); [by apply Hput|].
      unfold relog, Sessions.append_event, appended. rewrite Ee. apply map_ext. intros [spec evs]. by case_match.
  - intros names. by apply load_all_holds.
Qed.

End files.

(** ** Examples *)

#[local] Instance SessionEventKind_eq_dec : EqDecision SessionEventKind.
Proof. solve_decision. Defined.

#[local] Instance SessionEvent_eq_dec : EqDecision SessionEvent.
Proof. solve_decision. Defined.

(** Two events and a spec with texts of their own. *)
Definition sample_first : SessionEvent := mk_event "1" Created.
Definition sample_second : SessionEvent := mk_event "2" (Renamed (Some "café")).

Definition sample_event_text (e : SessionEvent) : result string string :=
  if decide (e = sample_first) then Ok "{1}" else if decide (e = sample_second) then Ok "{café}" else Err "no text".

Definition sample_event_of (t : string) : option SessionEvent :=
  if decide (t = "{1}") then Some sample_first else if decide (t = "{café}") then Some sample_second else None.

#[local] Instance SessionSpec_eq_dec : EqDecision SessionSpec.
Proof. solve_decision. Defined.

Definition sample_spec_text (s : SessionSpec) : result string string := if decide (s = sample_spec 4) then Ok "{4}" else Err "no text".

Definition sample_spec_of (t : string) : option SessionSpec := if decide (t = "{4}") then Some (sample_spec 4) else None.

Lemma cut_refused {A} (of_text : string -> option A) (t : string) (m : nat) : String.length t = m ->
  forallb (fun n => match of_text (str_take n t) with None => true | Some _ => false end) (seq 0 m) = true ->
  forall n, (n < String.length t)%nat -> of_text (str_take n t) = None.
Proof.
  intros <- H n Hn. rewrite forallb_forall in H. specialize (H n). rewrite in_seq in H. destruct (of_text (str_take n t)); [|done].
  discriminate H. lia.
Qed.

#[export] Instance sample_events_print : Prints sample_event_text sample_event_of.
Proof.
  split; unfold sample_event_text.
  1, 2: intros x t; repeat case_decide; subst; intros [= <-]; reflexivity.
  intros x t n H. repeat case_decide; subst; try discriminate H; injection H as <-; eapply cut_refused; reflexivity.
Qed.

#[export] Instance sample_lines_print : PrintsLine sample_event_text.
Proof. unfold sample_event_text. intros x t. repeat case_decide; subst; intros [= <-]; by vm_compute. Qed.

#[export] Instance sample_specs_print : Prints sample_spec_text sample_spec_of.
Proof.
  split; unfold sample_spec_text.
  1, 2: intros x t; repeat case_decide; subst; intros [= <-]; reflexivity.
  intros x t n H. case_decide; subst; try discriminate H. injection H as <-. eapply cut_refused; reflexivity.
Qed.

Definition sample_moves : list Move := [Line sample_first; LineEnd; Appended sample_second; Line sample_first].

Lemma two_writers_share_the_log_witness :
  read_events sample_event_of (Some (text (default (mk_log EmptyString false) (run sample_event_text sample_moves (mk_log EmptyString false)))))
  = [sample_first; sample_second; sample_first].
Proof. apply (two_writers_share_the_log sample_event_text sample_event_of sample_moves); reflexivity. Defined.

Definition sample_files : gmap string Dir := snd (write_spec pretty sample_spec_text None Whole (sample_spec 4) ∅).

Lemma files_refine_the_store_witness :
  holds pretty sample_spec_of sample_event_of sample_files [(sample_spec 4, [])]
  /\ load_all sample_spec_of sample_event_of (Some ["4"]) sample_files ≡ₚ [(sample_spec 4, [])].
Proof.
  assert (H : holds pretty sample_spec_of sample_event_of ∅ []).
  { split; [constructor|]. intros name x. unfold load_one. rewrite lookup_empty. cbn. split; [done|]. intros [Hx _]. by apply elem_of_nil in Hx. }
  assert (H1 : holds pretty sample_spec_of sample_event_of sample_files [(sample_spec 4, [])]).
  { refine (proj2 (proj1 (files_refine_the_store pretty sample_spec_text sample_spec_of sample_event_text sample_event_of ∅ [] H)
      None Whole (sample_spec 4) _ _ I)); [by apply not_elem_of_nil|by rewrite lookup_empty]. }
  split; [exact H1|].
  apply (proj2 (proj2 (files_refine_the_store pretty sample_spec_text sample_spec_of sample_event_text sample_event_of _ _ H1))).
  - apply NoDup_singleton.
  - intros name. rewrite list_elem_of_singleton. unfold sample_files, write_spec. rewrite lookup_empty. cbn [snd]. unfold sample_spec_text.
    rewrite decide_True by done. rewrite alter_insert_eq. cbn [snd]. split.
    + intros [x Hx]. apply lookup_insert_Some in Hx as [[<- _]|[_ Hx]]; [reflexivity|by rewrite lookup_empty in Hx].
    + intros ->. change "4" with (pretty (s_id (sample_spec 4))). rewrite lookup_insert_eq. by eexists.
Defined.

(** A line of the daemon's between the supervisor's line and its end: both
    events are gone. *)
Example an_append_between_writes_loses_both :
  (fun l => read_events sample_event_of (Some (text l))) <$>
    run sample_event_text [Line sample_first; Appended sample_second; LineEnd] (mk_log EmptyString false) = Some [].
Proof. reflexivity. Qed.

(** A torn line hides the rest when it is torn inside a character. *)
Example a_torn_character_hides_the_log :
  read_events sample_event_of (Some (snd (append sample_event_text "2" (Cut 5 "killed") Whole (Renamed (Some "café")) ("{1}" +:+ String newline EmptyString)))) = []
  /\ read_events sample_event_of (Some (snd (append sample_event_text "2" (Cut 4 "killed") Whole (Renamed (Some "café")) ("{1}" +:+ String newline EmptyString)))) = [sample_first].
Proof. split; reflexivity. Qed.
