(* ===== verification/Workspace.v ===== *)
(** * Reading a project's workspace

    Models crates/willied/src/workspace.rs: the one check that a path is inside
    the workspace, the flags of [git status], a directory level, and the
    capped read of a file.  The file system is a parameter. *)

From Stdlib Require Import Sorting.Sorted.
From S2P Require Import Prelude Text Utf8.

Local Open Scope string_scope.
Local Open Scope list_scope.
Local Open Scope willie_scope.

(** ** Data *)

Definition READ_CAP : nat := N.to_nat (512 * 1024).
Definition SNIFF_LEN : nat := N.to_nat (8 * 1024).

Inductive WsError : Type := Outside | NotText | Io (e : string).

Definition code (e : WsError) : string :=
  match e with
  | Outside => "path_outside_workspace"
  | NotText => "file_not_text"
  | Io _ => "workspace_read_failed"
  end.

Definition message (e : WsError) : string :=
  match e with
  | Outside => "the path is outside the project's workspace"
  | NotText => "the file is not text"
  | Io e => e
  end.

Definition remediation (e : WsError) : string :=
  match e with
  | Outside => "name a path inside the project's workspace"
  | NotText => "this file is binary; open it in VS Code instead"
  | Io _ => "check the workspace and try again"
  end.

Inductive EntryKind : Type := Dir | File.

Record TreeEntry : Type := mk_entry { name : string; kind : EntryKind; git : option string }.

(** What [fs::metadata] and [File::open] tell of a path. *)
Inductive Metadata : Type := Regular | Other | NoMetadata (e : string).

(** ** git status *)

(** [str::is_char_boundary]. *)
Fixpoint is_char_boundary (s : string) (i : nat) : bool :=
  match i, s with
  | O, EmptyString => true
  | O, String a _ => negb (continuation a)
  | S i, String _ s => is_char_boundary s i
  | S _, EmptyString => false
  end.

(** [get(..i)] and [get(i..)]. *)
Definition get_to (i : nat) (s : string) : option string := if is_char_boundary s i then Some (str_take i s) else None.
Definition get_from (i : nat) (s : string) : option string := if is_char_boundary s i then Some (str_drop i s) else None.

(** [split_once(sep)]. *)
Definition split_once (sep s : string) : option (string * string) :=
  match find sep s with
  | Some i => Some (str_take i s, str_drop (i + String.length sep) s)
  | None => None
  end.

Definition first_flag (xy : string) : string :=
  match List.find (fun c => negb (fst c =? 32)%Z) (char_list xy) with Some c => snd c | None => "M" end.

(** The path of a line and its flag. *)
Definition porcelain_line (line : string) : option (string * string) :=
  match get_to 2 line, get_from 3 line with
  | Some xy, Some rest =>
      if bool_decide (xy = "??") then Some (rest, "?")
      else if starts_with "R" xy || ends_with_char "R" xy then
        Some (match split_once " -> " rest with Some (_, new) => new | None => rest end, "R")
      else Some (rest, first_flag xy)
  | _, _ => None
  end.

Definition parse_porcelain (v1_output : string) : gmap string string :=
  foldl (fun flags line => match porcelain_line line with Some (path, flag) => <[path := flag]> flags | None => flags end)
    ∅ (lines v1_output).

(** ** A directory level *)

Section workspace.
  Context {FS : Type}.
  Context (canonicalize : string -> FS -> result string string).
  (** The entries that could be read: a name, and whether it is a directory
      when that could be told. *)
  Context (read_dir : string -> FS -> option (list (string * option bool))).
  Context (metadata : string -> FS -> Metadata) (open : string -> FS -> result string string).
  Context (to_lowercase : string -> string).

Definition resolve_within (workspace rel : string) (fs : FS) : result string WsError :=
  if is_absolute rel then Err Outside
  else if existsb (fun c => bool_decide (c = "..")) (snd (components rel)) then Err Outside
  else
    let joined := path_join workspace rel in
    let? canonical_workspace := map_err Io (canonicalize workspace fs) in
    let? canonical_target := map_err Io (canonicalize joined fs) in
    guard? path_starts_with canonical_target canonical_workspace else Outside in
    Ok canonical_target.

Definition dir_flag (flags : gmap string string) (rel : string) : option string :=
  if existsb (fun p => starts_with (rel +:+ "/") p) (map fst (map_to_list flags)) then Some "M" else None.

Definition relative (rel_prefix name : string) : string :=
  if is_empty rel_prefix then name else rel_prefix +:+ "/" +:+ name.

(** A directory's entry, a file's, or none. *)
Definition entry_of (flags : gmap string string) (rel_prefix : string) (e : string * option bool) : option TreeEntry :=
  let '(name, is_dir) := e in
  if bool_decide (name = ".git") then None
  else match is_dir with
       | None => None
       | Some true => Some (mk_entry name Dir (dir_flag flags (relative rel_prefix name)))
       | Some false => Some (mk_entry name File (flags !! relative rel_prefix name))
       end.

Definition is_dir (e : TreeEntry) : bool := match kind e with Dir => true | File => false end.

(** [sort_by_key], stable. *)
Fixpoint insert_by {A} (key : A -> string) (x : A) (l : list A) : list A :=
  match l with
  | [] => [x]
  | y :: l' => match String.compare (key x) (key y) with Lt | Eq => x :: l | Gt => y :: insert_by key x l' end
  end.

Definition sort_by_key {A} (key : A -> string) (l : list A) : list A := foldr (insert_by key) [] l.

Definition lower_name (e : TreeEntry) : string := to_lowercase (name e).

Definition list_dir (dir : string) (flags : gmap string string) (rel_prefix : string) (fs : FS) : list TreeEntry :=
  match read_dir dir fs with
  | None => []
  | Some read =>
      let entries := omap (entry_of flags rel_prefix) read in
      sort_by_key lower_name (List.filter is_dir entries) ++
      sort_by_key lower_name (List.filter (fun e => negb (is_dir e)) entries)
  end.

(** ** A file *)

(** The two reads of an open file. *)
Definition read_text (path : string) (fs : FS) : result (string * bool) WsError :=
  match metadata path fs with
  | NoMetadata e => Err (Io e)
  | Other => Err NotText
  | Regular =>
      let? file := map_err Io (open path fs) in
      let buf := str_take SNIFF_LEN file in
      if contains_char zero buf then Err NotText
      else
        let remaining := (READ_CAP - String.length buf + 1)%nat in
        let buf := buf +:+ str_take remaining (str_drop (String.length buf) file) in
        Ok (from_utf8_lossy (str_take READ_CAP buf), (READ_CAP <? String.length buf)%nat)
  end.

(** ** Containment *)

Lemma path_starts_with_spec p w : path_starts_with p w = true <->
  fst (components p) = fst (components w) /\ snd (components w) `prefix_of` snd (components p).
Proof.
  unfold path_starts_with. rewrite andb_true_iff, eqb_true_iff. split; intros [H1 H2]; (split; [done|]).
  - by apply list_prefix_spec.
  - destruct H2 as [l ->]. apply list_prefix_app.
Qed.

(** C39. A path is resolved only inside the workspace.  An absolute path and
    one with a parent component are refused as outside whatever the disk would
    answer, a failing one included; any other is answered by the disk: the
    answer is the canonical form of the joined path and is at or below the
    canonical workspace, whatever links the path goes through, it is outside
    exactly where the two canonical paths say so, and an error is the disk's
    own, the workspace's first. *)
Theorem resolve_within_contains workspace rel fs :
  if is_absolute rel || bool_decide (".." ∈ snd (components rel))
  then resolve_within workspace rel fs = Err Outside
  else match resolve_within workspace rel fs with
  | Ok p =>
      canonicalize (path_join workspace rel) fs = Ok p /\
      exists w names, canonicalize workspace fs = Ok w /\ fst (components p) = fst (components w) /\
        snd (components p) = snd (components w) ++ names
  | Err Outside =>
      exists w p, canonicalize workspace fs = Ok w /\ canonicalize (path_join workspace rel) fs = Ok p /\
        ~ (fst (components p) = fst (components w) /\ snd (components w) `prefix_of` snd (components p))
  | Err NotText => False
  | Err (Io e) =>
      canonicalize workspace fs = Err e \/
      exists w, canonicalize workspace fs = Ok w /\ canonicalize (path_join workspace rel) fs = Err e
  end.
Proof.
  unfold resolve_within.
  assert (He : existsb (fun c => bool_decide (c = "..")) (snd (components rel)) = bool_decide (".." ∈ snd (components rel))).
  { apply eq_true_iff_eq. rewrite existsb_exists, bool_decide_eq_true, list_elem_of_In. split.
    - by intros (x & Hx & ->%bool_decide_eq_true).
    - intros H. exists "..". by rewrite bool_decide_true. }
  rewrite He. destruct (is_absolute rel); [done|]. destruct (bool_decide _); [done|]. cbn [orb].
  destruct (canonicalize workspace fs) as [w|e] eqn:Ew; cbn [map_err]; [|by left].
  destruct (canonicalize (path_join workspace rel) fs) as [p|e] eqn:Ep; cbn [map_err]; [|right; eauto].
  pose proof (path_starts_with_spec p w) as Hs. destruct (path_starts_with p w).
  - destruct (proj1 Hs eq_refl) as [Hr [names Hn]]. split; [done|]. by exists w, names.
  - exists w, p. split; [done|]. split; [done|]. intros H. by apply Hs in H.
Qed.

(** ** Bounds *)

Lemma sniff_le_cap : SNIFF_LEN <= READ_CAP.
Proof. unfold SNIFF_LEN, READ_CAP. lia. Qed.

#[local] Opaque READ_CAP SNIFF_LEN.

(** The two reads together give the head of the file, one byte past the cap. *)
Lemma both_reads file : let buf := str_take SNIFF_LEN file in
  buf +:+ str_take (READ_CAP - String.length buf + 1) (str_drop (String.length buf) file) = str_take (READ_CAP + 1) file.
Proof.
  cbv zeta. pose proof sniff_le_cap. rewrite str_take_length. destruct (decide (SNIFF_LEN <= String.length file)).
  - rewrite Nat.min_l by done. rewrite str_take_more.
    by replace (SNIFF_LEN + (READ_CAP - SNIFF_LEN + 1)) with (READ_CAP + 1) by lia.
  - rewrite Nat.min_r by lia. rewrite (str_take_all SNIFF_LEN), (str_drop_all _ file), (str_take_all (READ_CAP + 1)) by lia.
    replace (str_take _ EmptyString) with EmptyString; [apply str_app_nil|]. by destruct (READ_CAP - String.length file + 1).
Qed.

(** Reading a file gives at most [READ_CAP] bytes of it, from its start:
    all of it when it is not marked truncated, exactly the cap when it is; what
    it answers is UTF-8, and those very bytes when they are; a NUL in its first [SNIFF_LEN] bytes refuses it, and anything
    but a regular file is refused without being opened. *)
Theorem read_text_bounded path fs :
  match read_text path fs with
  | Ok (content, truncated) =>
      exists file buf rest, metadata path fs = Regular /\ open path fs = Ok file /\ contains_char zero (str_take SNIFF_LEN file) = false /\
        file = buf +:+ rest /\ is_utf8 content = true /\ (is_utf8 buf = true -> content = buf) /\
        (if truncated then String.length buf = READ_CAP /\ rest <> EmptyString
         else String.length buf <= READ_CAP /\ rest = EmptyString)
  | Err NotText =>
      metadata path fs = Other \/
      exists file, metadata path fs = Regular /\ open path fs = Ok file /\ contains_char zero (str_take SNIFF_LEN file) = true
  | Err (Io e) => metadata path fs = NoMetadata e \/ (metadata path fs = Regular /\ open path fs = Err e)
  | Err Outside => False
  end.
Proof.
  unfold read_text. destruct (metadata path fs) as [| |e]; [|by left|by left].
  destruct (open path fs) as [file|e]; cbn [map_err]; [|by right]. cbv zeta.
  destruct (contains_char zero (str_take SNIFF_LEN file)) eqn:Ez; [right; eauto|].
  rewrite both_reads, str_take_take, Nat.min_l by lia. rewrite str_take_length.
  exists file, (str_take READ_CAP file), (str_drop READ_CAP file). do 3 (split; [done|]).
  split; [by rewrite str_take_drop|]. split; [apply lossy_utf8|]. split; [apply lossy_same|]. rewrite str_take_length.
  destruct (Nat.ltb_spec READ_CAP (Nat.min (READ_CAP + 1) (String.length file))) as [Hl|Hl].
  - split; [lia|]. intros He. apply (f_equal String.length) in He. rewrite str_drop_length in He. cbn in He. lia.
  - split; [lia|]. apply str_drop_all. lia.
Qed.

(** ** Listing *)

Definition sorted_by {A} (key : A -> string) : list A -> Prop :=
  Sorted (fun x y => String.compare (key x) (key y) <> Gt).

Lemma insert_by_perm {A} (key : A -> string) x l : insert_by key x l ≡ₚ x :: l.
Proof. induction l as [|y l IH]; cbn; [done|]. destruct (String.compare _ _); [done..|]. rewrite IH. apply Permutation_swap. Qed.

Lemma insert_by_sorted {A} (key : A -> string) x l : sorted_by key l -> sorted_by key (insert_by key x l).
Proof.
  induction 1 as [|y l Hs IH Hh]; cbn; [by repeat constructor|].
  destruct (String.compare (key x) (key y)) eqn:E; try (constructor; [by constructor|constructor; by rewrite E]).
  constructor; [done|]. destruct Hh as [|z l Hz]; cbn.
  - constructor. rewrite String.compare_antisym, E. done.
  - destruct (String.compare (key x) (key z)); constructor; try done; rewrite String.compare_antisym, E; done.
Qed.

Lemma sort_by_key_spec {A} (key : A -> string) l : sort_by_key key l ≡ₚ l /\ sorted_by key (sort_by_key key l).
Proof.
  induction l as [|x l [Hp Hs]]; [by repeat constructor|]. cbn. split; [by rewrite insert_by_perm, Hp|by apply insert_by_sorted].
Qed.

Lemma filter_split {A} (p : A -> bool) l : List.filter p l ++ List.filter (fun x => negb (p x)) l ≡ₚ l.
Proof. induction l as [|x l IH]; [done|]. cbn. destruct (p x); cbn; [by rewrite IH|]. by rewrite <- Permutation_middle, IH. Qed.

(** A directory level lists every entry that could be told, but [.git], once
    and with its own flag: the directories first, then the rest, each part in
    order of the lower-cased names. *)
Theorem list_dir_complete dir flags rel_prefix fs read : read_dir dir fs = Some read ->
  list_dir dir flags rel_prefix fs ≡ₚ omap (entry_of flags rel_prefix) read /\
  exists ds rest, list_dir dir flags rel_prefix fs = ds ++ rest /\
    Forall (fun e => is_dir e = true) ds /\ Forall (fun e => is_dir e = false) rest /\
    sorted_by lower_name ds /\ sorted_by lower_name rest.
Proof.
  intros Hr. unfold list_dir. rewrite Hr. set (es := omap _ read).
  destruct (sort_by_key_spec lower_name (List.filter is_dir es)) as [Hp1 Hs1].
  destruct (sort_by_key_spec lower_name (List.filter (fun e => negb (is_dir e)) es)) as [Hp2 Hs2].
  split; [by rewrite Hp1, Hp2, filter_split|]. do 2 eexists. split; [done|].
  split; [rewrite Hp1; apply Forall_forall; intros e He%list_elem_of_In%List.filter_In; apply He|].
  split; [rewrite Hp2; apply Forall_forall; intros e [_ He]%list_elem_of_In%List.filter_In; by apply negb_true_iff|done].
Qed.
End workspace.

(** ** At concrete inputs *)

Definition sample_status : string :=
  join (String newline EmptyString)
    [" M src/modified.rs"; "A  src/added.rs"; "D  src/deleted.rs"; "R  src/old.rs -> src/new.rs"; "?? src/new_file.rs"; EmptyString].

Example porcelain_flags :
  map (fun p => parse_porcelain sample_status !! p)
    ["src/modified.rs"; "src/added.rs"; "src/deleted.rs"; "src/new.rs"; "src/old.rs"; "src/new_file.rs"]
  = [Some "M"; Some "A"; Some "D"; Some "R"; None; Some "?"].
Proof. vm_compute. reflexivity. Qed.

Definition sample_entries : list (string * option bool) :=
  [(".git", Some true); ("b.rs", Some false); ("z", Some true); ("A.rs", Some false); ("odd", None)].

Lemma list_dir_complete_witness :
  Permutation (list_dir (fun _ (_ : unit) => Some sample_entries) (str_map to_ascii_lowercase) "/w" ∅ EmptyString tt)
    [mk_entry "b.rs" File None; mk_entry "z" Dir None; mk_entry "A.rs" File None].
Proof.
  destruct (list_dir_complete (fun _ (_ : unit) => Some sample_entries) (str_map to_ascii_lowercase) "/w" ∅ EmptyString tt
    sample_entries eq_refl) as [H _]. exact H.
Defined.

(** A directory is flagged [M] whatever changed below it, even one new file. *)
Example new_file_flags_its_directory :
  dir_flag (parse_porcelain "?? src/new_file.rs") "src" = Some "M".
Proof. vm_compute. reflexivity. Qed.
