(* ===== verification/Console.v ===== *)
(** * Text of the Windows console

    Models crates/willie-engine/src/text.rs and the line reader of process.rs:
    [wsl.exe] writes its own messages as UTF-16LE on the pipe the daemon writes
    UTF-8 to, and the reader takes lines of either. *)

From S2P Require Import Prelude Text Utf8.

Local Open Scope string_scope.
Local Open Scope list_scope.

(** ** UTF-16 *)

(** The code units of a little-endian text; an odd byte at the end is left. *)
Fixpoint units (s : string) : list Z :=
  match s with
  | String a (String b s) => (byte a + 256 * byte b)%Z :: units s
  | _ => []
  end.

(** [char::decode_utf16] with U+FFFD for a surrogate alone. *)
Fixpoint decode_utf16 (us : list Z) : list Z :=
  match us with
  | [] => []
  | u :: us =>
      if in_range 55296 56319 u then
        match us with
        | u2 :: us2 =>
            if in_range 56320 57343 u2 then (65536 + (u - 55296) * 1024 + (u2 - 56320))%Z :: decode_utf16 us2
            else 65533%Z :: decode_utf16 us
        | [] => [65533%Z]
        end
      else if in_range 56320 57343 u then 65533%Z :: decode_utf16 us
      else u :: decode_utf16 us
  end.

Definition of_byte (b : Z) : ascii := ascii_of_N (Z.to_N b).

(** [char::encode_utf8]. *)
Definition encode_utf8 (c : Z) : string :=
  let low k := of_byte (128 + (c / k) mod 64) in
  (if c <? 128 then String (of_byte c) EmptyString
   else if c <? 2048 then String (of_byte (192 + c / 64)) (String (low 1) EmptyString)
   else if c <? 65536 then String (of_byte (224 + c / 4096)) (String (low 64) (String (low 1) EmptyString))
   else String (of_byte (240 + c / 262144)) (String (low 4096) (String (low 64) (String (low 1) EmptyString))))%Z.

Definition BOM : Z := 65279.

Definition bom_bytes : string := String (ascii_of_nat 255) (String (ascii_of_nat 254) EmptyString).

(** The zero bytes at odd positions. *)
Fixpoint high_zeroes (s : string) : nat :=
  match s with
  | String _ (String b s) => (if bool_decide (b = zero) then 1 else 0) + high_zeroes s
  | _ => 0
  end.

Definition looks_utf16 (bytes : string) : bool :=
  starts_with bom_bytes bytes
  || (4 <=? String.length bytes)%nat && (String.length bytes / 4 <? high_zeroes bytes)%nat.

Definition decode_wsl_output (bytes : string) : string :=
  if looks_utf16 bytes then
    concat_str (map encode_utf8 (drop_while (fun c => (c =? BOM)%Z) (decode_utf16 (units bytes))))
  else from_utf8_lossy bytes.

(** ** Lines *)

Definition line_end (a : ascii) : bool := bool_decide (a = newline) || bool_decide (a = return_) || bool_decide (a = zero).

(** [trim_matches] of the three ASCII characters. *)
Definition trim_ends (s : string) : string :=
  string_of_list_ascii (rev (drop_while line_end (rev (drop_while line_end (list_ascii_of_string s))))).

(** One read, up to and with its newline. *)
Definition read_line (buf : string) : string := trim_ends (decode_wsl_output (trim_start_matches zero buf)).

(** [read_until]: every piece with its newline, and the rest if any. *)
Fixpoint reads (pieces : list string) : list string :=
  match pieces with
  | [] => []
  | [last] => if is_empty last then [] else [last]
  | p :: pieces => (p +:+ String newline EmptyString) :: reads pieces
  end.

Definition read_lines (stream : string) : list string := map read_line (reads (split newline stream)).

(** ** Specification *)

Definition ascii_utf16 (s : string) : string :=
  concat_str (map (fun a => String a (String zero EmptyString)) (list_ascii_of_string s)).

(** What a peer puts in one line: no byte that ends or pads one. *)
Definition plain (s : string) : bool := str_forallb (fun a => negb (line_end a)) s.

Definition plain_ascii (s : string) : bool := str_forallb (fun a => negb (line_end a) && (byte a <? 128)%Z) s.

Example console_message :
  read_lines (bom_bytes +:+ ascii_utf16 ("no" +:+ String return_ (String newline "such"))) = ["no"; "such"].
Proof. vm_compute. reflexivity. Qed.

(** ** Lemmas *)

Lemma trim_ends_app l e : plain l = true -> str_forallb line_end e = true -> trim_ends (l +:+ e) = l.
Proof.
  intros Hl He. assert (H : forall l e : list ascii, forallb (fun a => negb (line_end a)) l = true -> forallb line_end e = true ->
    rev (drop_while line_end (rev (drop_while line_end (l ++ e)))) = l).
  { clear. intros l e Hl He.
    assert (Hd : forall e l, forallb line_end e = true -> drop_while line_end (e ++ l) = drop_while line_end l).
    { clear. intros e l He. induction e as [|a e IH]; [done|]. cbn in *. apply andb_prop in He as [-> He]. by apply IH. }
    assert (Hk : forall l, forallb (fun a => negb (line_end a)) l = true -> drop_while line_end l = l).
    { clear. intros [|a l] H; [done|]. cbn in *. apply andb_prop in H as [H%negb_true_iff _]. by rewrite H. }
    destruct l as [|a l].
    - rewrite <- (app_nil_r ([] ++ e)). cbn [app]. by rewrite Hd.
    - assert (Ha : line_end a = false) by (cbn in Hl; apply andb_prop in Hl as [H _]; by apply negb_true_iff).
      cbn [app drop_while]. rewrite Ha. change (a :: l ++ e) with ((a :: l) ++ e). rewrite rev_app_distr, Hd, Hk.
      + by rewrite rev_involutive.
      + rewrite <- Hl. apply eq_true_iff_eq. rewrite !forallb_forall. split; intros H x Hx; apply H; [by apply -> in_rev|by apply in_rev].
      + rewrite <- He. apply eq_true_iff_eq. rewrite !forallb_forall. split; intros H x Hx; apply H; [by apply -> in_rev|by apply in_rev]. }
  assert (Hs : forall p s, str_forallb p s = forallb p (list_ascii_of_string s)) by (clear; intros p s; induction s as [|a s IH]; [done|]; cbn; by rewrite IH).
  assert (Ha : list_ascii_of_string (l +:+ e) = list_ascii_of_string l ++ list_ascii_of_string e).
  { clear. induction l as [|a l IH]; [done|]. rewrite str_app_cons. cbn. by rewrite IH. }
  unfold trim_ends. rewrite Ha, H.
  - apply string_of_list_ascii_of_string.
  - unfold plain in Hl. by rewrite Hs in Hl.
  - by rewrite Hs in He.
Qed.

Lemma trim_start_keep a s : a <> zero -> trim_start_matches zero (String a s) = String a s.
Proof. intros H. cbn. by rewrite decide_False. Qed.

Lemma plain_cons a s : plain (String a s) = negb (line_end a) && plain s.
Proof. done. Qed.

Lemma not_end a : line_end a = false -> a <> newline /\ a <> return_ /\ a <> zero.
Proof.
  unfold line_end. rewrite !orb_false_iff, !bool_decide_eq_false. tauto.
Qed.

Lemma plain_line l : plain l = true -> contains_char newline l = false.
Proof.
  induction l as [|a l IH]; [done|]. rewrite plain_cons. intros [Ha%negb_true_iff Hl]%andb_prop.
  apply contains_char_false_cons. split; [apply not_end in Ha; tauto|by apply IH].
Qed.

Lemma no_high_zeroes l : plain l = true -> high_zeroes (l +:+ String newline EmptyString) = 0 /\ high_zeroes l = 0.
Proof.
  remember (String.length l) as n eqn:En. assert (Hn : String.length l <= n) by lia. clear En. revert l Hn.
  induction n as [|n IH]; intros [|a [|b l]] Hn Hl; cbn [String.length] in Hn; try lia; try done.
  rewrite !plain_cons in Hl. apply andb_prop in Hl as [_ Hl]. apply andb_prop in Hl as [Hb%negb_true_iff Hl].
  rewrite !str_app_cons. cbn [high_zeroes]. apply not_end in Hb as (_ & _ & Hb). rewrite bool_decide_false by done.
  apply IH; [lia|done].
Qed.

Lemma utf8_no_bom l : is_utf8 l = true -> starts_with bom_bytes l = false.
Proof.
  intros H. destruct (starts_with bom_bytes l) eqn:E; [|done]. apply starts_with_spec in E as [r ->]. unfold is_utf8, bom_bytes in H.
  rewrite str_app_cons, utf8_chunks_cons in H. discriminate H.
Qed.

Lemma utf8_line l : is_utf8 l = true -> is_utf8 (l +:+ String newline EmptyString) = true.
Proof.
  intros H. unfold is_utf8 in *. rewrite (chunks_line newline EmptyString newline_ascii _ l (le_n _)), forallb_app, H. done.
Qed.

(** A line of UTF-8 is itself. *)
Lemma read_line_utf8 l : is_utf8 l = true -> plain l = true -> read_line (l +:+ String newline EmptyString) = l.
Proof.
  intros Hu Hp. unfold read_line.
  assert (Ht : trim_start_matches zero (l +:+ String newline EmptyString) = l +:+ String newline EmptyString).
  { destruct l as [|a l]; [done|]. rewrite str_app_cons. apply trim_start_keep. rewrite plain_cons in Hp.
    apply andb_prop in Hp as [Ha%negb_true_iff _]. apply not_end in Ha. tauto. }
  rewrite Ht. unfold decode_wsl_output, looks_utf16. pose proof (utf8_line l Hu) as Hu'.
  rewrite (utf8_no_bom _ Hu'), (proj1 (no_high_zeroes l Hp)).
  assert (H0 : forall n, (n <? 0)%nat = false) by (intros n; apply Nat.ltb_ge; lia). rewrite H0, andb_false_r. cbn [orb]. clear H0.
  rewrite (lossy_same _ Hu'). by apply trim_ends_app.
Qed.

Lemma reads_snoc ps last : reads (ps ++ [last]) = map (fun p => p +:+ String newline EmptyString) ps ++ (if is_empty last then [] else [last]).
Proof.
  induction ps as [|p ps IH]; [done|]. cbn [app map reads]. rewrite <- IH. by destruct (ps ++ [last]) eqn:E; [destruct ps|].
Qed.

(** ** The two encodings *)

(** Whatever the daemon prints arrives: lines of UTF-8 without a zero byte are
    read as they were written, in order, whatever else they hold. *)
Theorem daemon_lines_pass ls : Forall (fun l => is_utf8 l = true /\ plain l = true) ls ->
  read_lines (concat_str (map (fun l => l +:+ String newline EmptyString) ls)) = ls.
Proof.
  intros H. unfold read_lines.
  assert (Hs : split newline (concat_str (map (fun l => l +:+ String newline EmptyString) ls)) = ls ++ [EmptyString]).
  { induction H as [|l ls [_ Hp] _ IH]; [done|]. cbn [map concat_str app]. rewrite <- str_app_assoc, str_app_cons, str_app_nil_l.
    rewrite split_cons by (by apply plain_line). by rewrite IH. }
  rewrite Hs, reads_snoc. cbn [is_empty]. rewrite app_nil_r, map_map. clear Hs.
  induction H as [|l ls [Hu Hp] _ IH]; [done|]. cbn [map]. by rewrite read_line_utf8, IH.
Qed.

(** *** Latin text in UTF-16 *)

Lemma ascii_utf16_cons a s : ascii_utf16 (String a s) = String a (String zero (ascii_utf16 s)).
Proof. done. Qed.

Lemma ascii_utf16_app a b : ascii_utf16 (a +:+ b) = ascii_utf16 a +:+ ascii_utf16 b.
Proof. induction a as [|x a IH]; [done|]. by rewrite str_app_cons, !ascii_utf16_cons, IH, !str_app_cons. Qed.

Lemma units_ascii l r : units (ascii_utf16 l +:+ r) = map byte (list_ascii_of_string l) ++ units r.
Proof.
  induction l as [|a l IH]; [done|]. rewrite ascii_utf16_cons, !str_app_cons. cbn [units list_ascii_of_string map app].
  rewrite IH. f_equal. change (byte zero) with 0%Z. lia.
Qed.

Lemma high_zeroes_ascii l r : high_zeroes (ascii_utf16 l +:+ r) = String.length l + high_zeroes r.
Proof.
  induction l as [|a l IH]; [done|]. rewrite ascii_utf16_cons, !str_app_cons. cbn [high_zeroes String.length].
  rewrite bool_decide_true by done. rewrite IH. lia.
Qed.

Lemma ascii_utf16_length l : String.length (ascii_utf16 l) = 2 * String.length l.
Proof. induction l as [|a l IH]; [done|]. rewrite ascii_utf16_cons. cbn [String.length]. rewrite IH. lia. Qed.

Lemma byte_nonneg a : (0 <= byte a)%Z.
Proof. unfold byte. lia. Qed.

Lemma decode_utf16_ascii us : Forall (fun u => u < 128)%Z us -> decode_utf16 us = us.
Proof.
  induction 1 as [|u us Hu _ IH]; [done|]. cbn [decode_utf16]. test_bool (in_range 55296 56319 u) false.
  test_bool (in_range 56320 57343 u) false. by rewrite IH.
Qed.

Lemma encode_ascii a : (byte a < 128)%Z -> encode_utf8 (byte a) = String a EmptyString.
Proof.
  intros H. unfold encode_utf8. test_bool (byte a <? 128)%Z true. f_equal. unfold of_byte, byte.
  rewrite N2Z.id. apply ascii_N_embedding.
Qed.

Lemma encode_ascii_list l : Forall (fun a => byte a < 128)%Z l -> concat_str (map encode_utf8 (map byte l)) = string_of_list_ascii l.
Proof. induction 1 as [|a l Ha _ IH]; [done|]. cbn [map concat_str string_of_list_ascii]. by rewrite encode_ascii, IH by done. Qed.

Lemma plain_ascii_spec l : plain_ascii l = true -> plain l = true /\ Forall (fun a => byte a < 128)%Z (list_ascii_of_string l).
Proof.
  induction l as [|a l IH]; [done|]. unfold plain_ascii. cbn [str_forallb]. intros [[H1 H2]%andb_prop H]%andb_prop.
  destruct (IH H) as [H3 H4]. rewrite plain_cons, H1, H3. split; [done|]. cbn. constructor; [lia|done].
Qed.

(** A line as the console writes it, without its last byte. *)
Definition console_line (l : string) : string := ascii_utf16 l +:+ String return_ (String zero EmptyString).

Lemma console_line_plain l : plain_ascii l = true -> contains_char newline (console_line l) = false.
Proof.
  intros [Hp _]%plain_ascii_spec. unfold console_line. induction l as [|a l IH]; [done|]. rewrite plain_cons in Hp.
  apply andb_prop in Hp as [Ha%negb_true_iff Hp]. rewrite ascii_utf16_cons, !str_app_cons.
  apply contains_char_false_cons. split; [apply not_end in Ha; tauto|]. apply contains_char_false_cons. split; [done|by apply IH].
Qed.

Lemma read_console_line l z : plain_ascii l = true -> str_forallb (fun a => bool_decide (a = zero)) z = true ->
  read_line (z +:+ (console_line l +:+ String newline EmptyString)) = l.
Proof.
  intros Hl Hz. destruct (plain_ascii_spec l Hl) as [Hp Ha]. unfold read_line.
  assert (Ht : trim_start_matches zero (z +:+ (console_line l +:+ String newline EmptyString)) = console_line l +:+ String newline EmptyString).
  { induction z as [|a z IH]; [|cbn in Hz; apply andb_prop in Hz as [->%bool_decide_eq_true Hz]; rewrite str_app_cons; cbn; by apply IH].
    rewrite str_app_nil_l. destruct l as [|a l]; [done|]. unfold console_line. rewrite ascii_utf16_cons, !str_app_cons. apply trim_start_keep.
    rewrite plain_cons in Hp. apply andb_prop in Hp as [H%negb_true_iff _]. apply not_end in H. tauto. }
  rewrite Ht. clear Ht. unfold console_line. rewrite <- str_app_assoc, !str_app_cons, str_app_nil_l.
  set (e := String return_ (String zero (String newline EmptyString))). unfold decode_wsl_output, looks_utf16.
  rewrite high_zeroes_ascii, str_length_app, ascii_utf16_length. cbn [String.length high_zeroes e].
  destruct l as [|a l]; [reflexivity|].
  assert (Hn : (2 * String.length (String a l) + 3) / 4 < String.length (String a l) + 1).
  { apply Nat.Div0.div_lt_upper_bound. cbn [String.length]. lia. }
  rewrite (proj2 (Nat.leb_le 4 _)) by (cbn [String.length]; lia). change (if bool_decide (zero = zero) then 1 else 0) with 1.
  rewrite (proj2 (Nat.ltb_lt _ _)) by (cbn [String.length] in *; lia). rewrite orb_true_r.
  rewrite units_ascii. cbn [units e]. change (byte return_ + 256 * byte zero)%Z with (byte return_).
  change ([byte return_]) with (map byte [return_]). rewrite <- map_app.
  assert (Hall : Forall (fun a => byte a < 128)%Z (list_ascii_of_string (String a l) ++ [return_])) by (apply Forall_app_2; [done|by repeat constructor]).
  rewrite decode_utf16_ascii by (apply Forall_map; exact Hall).
  assert (Hd : forall us, Forall (fun u => u < 128)%Z us -> drop_while (fun c => (c =? BOM)%Z) us = us).
  { intros us H. destruct H as [|u us Hu _]; [done|]. cbn. unfold BOM. by test_bool (u =? 65279)%Z false. }
  rewrite Hd by (apply Forall_map; exact Hall). rewrite encode_ascii_list by done.
  assert (Hs : forall x y, string_of_list_ascii (list_ascii_of_string x ++ y) = x +:+ string_of_list_ascii y).
  { clear. intros x y. induction x as [|b x IH]; [done|]. cbn [list_ascii_of_string app string_of_list_ascii]. by rewrite IH, str_app_cons. }
  rewrite Hs. by apply trim_ends_app.
Qed.

(** What [wsl.exe] says is read too: its messages in UTF-16LE, split at the
    byte of a newline in the middle of a code unit, come out line by line, and
    one empty line after the last. *)
Theorem console_lines_pass l ls : Forall (fun l => plain_ascii l = true) (l :: ls) ->
  read_lines (ascii_utf16 (concat_str (map (fun l => l +:+ String return_ (String newline EmptyString)) (l :: ls)))) = (l :: ls) ++ [EmptyString].
Proof.
  intros H. set (next := fun l => String zero (console_line l)).
  assert (Hs : forall ls z, Forall (fun l => plain_ascii l = true) ls -> contains_char newline z = false ->
    split newline (z +:+ ascii_utf16 (concat_str (map (fun l => l +:+ String return_ (String newline EmptyString)) ls))) =
    match ls with [] => [z] | l :: ls => (z +:+ console_line l) :: map next ls ++ [String zero EmptyString] end).
  { clear. intros ls. induction ls as [|l ls IH]; intros z H Hz; [cbn; rewrite str_app_nil; by apply split_none|].
    inversion H as [|? ? Hl Hls]; subst. cbn [map concat_str]. rewrite !ascii_utf16_app, !ascii_utf16_cons.
    change (ascii_utf16 EmptyString) with EmptyString.
    rewrite <- str_app_assoc, !str_app_cons, str_app_nil_l, str_app_assoc.
    replace ((z +:+ ascii_utf16 l) +:+ String return_ (String zero (String newline (String zero (ascii_utf16 (concat_str (map (fun l => l +:+ String return_ (String newline EmptyString)) ls)))))))
      with ((z +:+ console_line l) +:+ String newline (String zero EmptyString +:+ ascii_utf16 (concat_str (map (fun l => l +:+ String return_ (String newline EmptyString)) ls))))
      by (unfold console_line; rewrite <- !str_app_assoc, !str_app_cons, !str_app_nil_l; reflexivity).
    rewrite split_cons.
    - f_equal. rewrite IH by done. destruct ls as [|l2 ls]; [done|]. cbn [map app]. by rewrite str_app_cons, str_app_nil_l.
    - clear -Hl Hz. induction z as [|b z IH]; [rewrite str_app_nil_l; by apply console_line_plain|]. rewrite str_app_cons.
      apply contains_char_false_cons in Hz as [Hb Hz]. apply contains_char_false_cons. split; [done|by apply IH]. }
  unfold read_lines. specialize (Hs (l :: ls) EmptyString H eq_refl). rewrite !str_app_nil_l in Hs. rewrite Hs. clear Hs.
  change (console_line l :: map next ls ++ [String zero EmptyString]) with ((console_line l :: map next ls) ++ [String zero EmptyString]).
  rewrite reads_snoc, map_app, map_map. inversion H as [|? ? Hl Hls]; subst. cbn [map app is_empty]. f_equal.
  - rewrite <- (str_app_nil_l (console_line l +:+ _)). by apply read_console_line.
  - f_equal. rewrite map_map. clear -Hls. induction Hls as [|x ls Hx _ IH]; [done|]. cbn [map]. rewrite IH. f_equal.
    unfold next. rewrite str_app_cons. change (String zero (console_line x +:+ String newline EmptyString)) with
      (String zero EmptyString +:+ (console_line x +:+ String newline EmptyString)). by apply read_console_line.
Qed.

(** ** Witnesses *)

Lemma daemon_lines_pass_witness : read_lines ("{} " +:+ String newline (String newline EmptyString)) = ["{} "; EmptyString].
Proof. apply (daemon_lines_pass ["{} "; EmptyString]). repeat constructor. Defined.

Lemma console_lines_pass_witness :
  read_lines (ascii_utf16 ("not found" +:+ String return_ (String newline ("try again" +:+ String return_ (String newline EmptyString))))) =
  ["not found"; "try again"; EmptyString].
Proof. apply (console_lines_pass "not found" ["try again"]). repeat constructor. Defined.
