(* ===== verification/EngineRpc.v ===== *)
(** * The engine's end of the wire

    Models crates/willie-engine/src/rpc.rs: one reader thread routes the
    daemon's lines to the call waiting for them, to the subscribers or to the
    stray lines, while one call at a time registers, sends and waits.  The
    two threads interleave as events; a channel is the list it holds. *)

From S2P Require Import Prelude Text Json Rpc.

Local Open Scope string_scope.
Local Open Scope list_scope.

(** ** State *)

Definition STRAY_LINES : nat := 8.

Record Inbox : Type := mk_inbox { waiters : gset Z; closed : bool }.

(** A subscriber's channel: whether its receiver is still there, and what it
    was sent. *)
Record Subscriber : Type := mk_subscriber { listening : bool; heard : list Notification }.

Record RpcClient : Type := mk_client {
  input : bool;
  next_id : Z;
  inbox : Inbox;
  channels : gmap Z (list Response);
  stray : list string;
  subscribers : list Subscriber;
  sent : list string
}.

Definition new_client (input : bool) : RpcClient := mk_client input 1 (mk_inbox ∅ false) ∅ [] [] [].

Definition set_inbox (i : Inbox) (ch : gmap Z (list Response)) (c : RpcClient) : RpcClient :=
  mk_client (input c) (next_id c) i ch (stray c) (subscribers c) (sent c).

Definition set_stray (l : list string) (c : RpcClient) : RpcClient :=
  mk_client (input c) (next_id c) (inbox c) (channels c) l (subscribers c) (sent c).

Definition set_subscribers (l : list Subscriber) (c : RpcClient) : RpcClient :=
  mk_client (input c) (next_id c) (inbox c) (channels c) (stray c) l (sent c).

(** How a call ends before its value is decoded. *)
Inductive Ending : Type := Unencoded (e : string) | Replied (r : Response) | TimedOut | ClosedStdout.

Section rpc.
  (** serde reads a line as a response, or else as a notification. *)
  Context (of_response : string -> option Response) (of_notification : string -> option Notification).

(** ** The reader *)

Definition remember_stray (line : string) (l : list string) : list string :=
  let text := trim line in
  if is_empty text then l
  else (if (length l =? STRAY_LINES)%nat then tail l else l) ++ [text].

(** [retain]: a subscriber whose receiver is gone is dropped. *)
Definition fan_out (n : Notification) (l : list Subscriber) : list Subscriber :=
  map (fun s => mk_subscriber true (heard s ++ [n])) (List.filter listening l).

(** One line of the stream. *)
Definition route_line (line : string) (c : RpcClient) : RpcClient :=
  match of_response line with
  | Some response =>
      let id := a_id response in
      if bool_decide (id ∈ waiters (inbox c)) then
        set_inbox (mk_inbox (waiters (inbox c) ∖ {[id]}) (closed (inbox c)))
          (<[id := default [] (channels c !! id) ++ [response]]> (channels c)) c
      else c
  | None =>
      match of_notification line with
      | Some n => set_subscribers (fan_out n (subscribers c)) c
      | None => set_stray (remember_stray line (stray c)) c
      end
  end.

(** The end of the stream. *)
Definition end_stream (c : RpcClient) : RpcClient := set_inbox (mk_inbox ∅ true) (channels c) c.

(** ** A call *)

(** Number and encode the request, [line] being what serde makes of it; register,
    then send; the number of the call, or its end when nothing can answer it.
    The number is a [u64] that would take 2^64 calls to wrap. *)
Definition begin_call (line : result string string) (c : RpcClient) : RpcClient * (Z + Ending) :=
  let id := next_id c in
  let c := mk_client (input c) (id + 1) (inbox c) (channels c) (stray c) (subscribers c) (sent c) in
  match line with
  | Err e => (c, inr (Unencoded e))
  | Ok line =>
      if negb (input c) then (c, inr ClosedStdout)
      else if closed (inbox c) then (c, inr ClosedStdout)
      else
        let c := set_inbox (mk_inbox ({[id]} ∪ waiters (inbox c)) false) (<[id := []]> (channels c)) c in
        (mk_client (input c) (next_id c) (inbox c) (channels c) (stray c) (subscribers c) (sent c ++ [line]), inl id)
  end.

(** The wait: what came, else that nothing can come, else the time. *)
Definition end_call (id : Z) (expired : bool) (c : RpcClient) : option (RpcClient * Ending) :=
  match channels c !! id with
  | Some (r :: rest) => Some (set_inbox (inbox c) (<[id := rest]> (channels c)) c, Replied r)
  | _ =>
      if negb (bool_decide (id ∈ waiters (inbox c))) then Some (c, ClosedStdout)
      else if expired then Some (set_inbox (mk_inbox (waiters (inbox c) ∖ {[id]}) (closed (inbox c))) (channels c) c, TimedOut)
      else None
  end.

Definition subscribe (c : RpcClient) : RpcClient := set_subscribers (subscribers c ++ [mk_subscriber true []]) c.

Definition close (c : RpcClient) : RpcClient :=
  mk_client false (next_id c) (inbox c) (channels c) (stray c) (subscribers c) (sent c).

(** [stray_text]. *)
Definition stray_text (c : RpcClient) : string := trim (join (String newline EmptyString) (stray c)).

(** ** The reader's events, while a call waits or between calls *)

Inductive Heard : Type := Said (line : string) | Ended.

Definition hear (c : RpcClient) (h : Heard) : RpcClient := match h with Said l => route_line l c | Ended => end_stream c end.

Definition hear_all (c : RpcClient) (hs : list Heard) : RpcClient := foldl hear c hs.

(** The reader stops at the end. *)
Fixpoint stream (hs : list Heard) : Prop := match hs with [] => True | [Ended] => True | Ended :: _ => False | Said _ :: hs => stream hs end.

(** A whole call: what is heard while it waits, and whether its time expires. *)
Definition call (line : result string string) (hs : list Heard) (expired : bool) (c : RpcClient) : option (RpcClient * Ending) :=
  match begin_call line c with
  | (c, inr e) => Some (hear_all c hs, e)
  | (c, inl id) => end_call id expired (hear_all c hs)
  end.

(** ** Specification *)

(** The first response to a call in what is heard. *)
Fixpoint first_reply (id : Z) (hs : list Heard) : option Response :=
  match hs with
  | [] => None
  | Said l :: hs =>
      match of_response l with
      | Some r => if (a_id r =? id)%Z then Some r else first_reply id hs
      | None => first_reply id hs
      end
  | Ended :: hs => first_reply id hs
  end.

Definition ended (hs : list Heard) : bool := existsb (fun h => match h with Ended => true | Said _ => false end) hs.

(** Between calls nobody waits, and no channel of a call to come exists. *)
Definition idle (c : RpcClient) : Prop :=
  waiters (inbox c) = ∅ /\ forall id, (next_id c <= id)%Z -> channels c !! id = None.

(** During the call [id] it alone may wait. *)
Definition waiting (id : Z) (c : RpcClient) (got : option Response) (over : bool) : Prop :=
  channels c !! id = Some (option_list got) /\ closed (inbox c) = over /\
  waiters (inbox c) = (if over then ∅ else match got with Some _ => ∅ | None => {[id]} end) /\
  next_id c = (id + 1)%Z /\ forall id', (id < id')%Z -> channels c !! id' = None.

(** ** Lemmas *)

Lemma first_reply_id id hs r : first_reply id hs = Some r -> a_id r = id.
Proof.
  induction hs as [|[l|] hs IH]; cbn; [done| |exact IH]. destruct (of_response l) as [r'|]; [|exact IH].
  destruct (Z.eqb_spec (a_id r') id); [by intros [= <-]|exact IH].
Qed.

Lemma next_id_hear c h : next_id (hear c h) = next_id c /\ input (hear c h) = input c /\ sent (hear c h) = sent c.
Proof. destruct h as [l|]; [|done]. cbn. unfold route_line. by repeat case_match. Qed.

Lemma next_id_hear_all hs : forall c, next_id (hear_all c hs) = next_id c /\ input (hear_all c hs) = input c /\ sent (hear_all c hs) = sent c.
Proof.
  induction hs as [|h hs IH]; intros c; [done|]. unfold hear_all. cbn [foldl]. fold (hear_all (hear c h) hs).
  destruct (IH (hear c h)) as (-> & -> & ->). apply next_id_hear.
Qed.

(** A line nobody waits for changes no channel. *)
Lemma route_unknown l c : (forall r, of_response l = Some r -> a_id r ∉ waiters (inbox c)) ->
  inbox (route_line l c) = inbox c /\ channels (route_line l c) = channels c.
Proof.
  intros H. unfold route_line. destruct (of_response l) as [r|]; [|by destruct (of_notification l)].
  by rewrite bool_decide_false by (by apply H).
Qed.

Lemma idle_hear_all hs : forall c, idle c -> idle (hear_all c hs).
Proof.
  induction hs as [|[l|] hs IH]; intros c [Hw Hc]; [done| |]; unfold hear_all; cbn [foldl hear]; fold (hear_all); apply IH.
  - destruct (route_unknown l c) as [Hi Hch]; [intros r _; rewrite Hw; apply not_elem_of_empty|]. split; [by rewrite Hi|].
    rewrite Hch. destruct (next_id_hear c (Said l)) as (E & _). cbn [hear] in E. by rewrite E.
  - by split.
Qed.

Lemma waiting_said id c got l : waiting id c got false ->
  waiting id (route_line l c) (match got with
    | Some r => Some r
    | None => match of_response l with Some r => if (a_id r =? id)%Z then Some r else None | None => None end
    end) false.
Proof.
  intros (Hch & Hcl & Hw & Hn & Hnew).
  assert (Hkeep : (forall r, of_response l = Some r -> a_id r ∉ waiters (inbox c)) -> waiting id (route_line l c) got false).
  { intros H. destruct (route_unknown l c H) as [Hi Hc]. unfold waiting. rewrite Hi, Hc.
    destruct (next_id_hear c (Said l)) as (E & _). cbn in E. by rewrite E. }
  destruct got as [r0|]; [apply Hkeep; intros r _; rewrite Hw; apply not_elem_of_empty|].
  destruct (of_response l) as [r|] eqn:El; [|by apply Hkeep].
  destruct (Z.eqb_spec (a_id r) id) as [E|Hne].
  - unfold route_line. rewrite El, E, bool_decide_true by (rewrite Hw; set_solver). unfold waiting. cbn. rewrite Hch, Hw. cbn.
    split; [by rewrite lookup_insert_eq|]. split; [done|]. split; [set_solver|]. split; [done|].
    intros id' Hlt. rewrite lookup_insert_ne by lia. by apply Hnew.
  - apply Hkeep. intros r' [= <-]. rewrite Hw. set_solver.
Qed.

Lemma waiting_hear_all id hs : forall c got, stream hs -> waiting id c got false ->
  waiting id (hear_all c hs) (match got with Some r => Some r | None => first_reply id hs end) (ended hs).
Proof.
  induction hs as [|[l|] hs IH]; intros c got Hs Hw.
  - by destruct got.
  - cbn [hear_all foldl hear ended existsb orb]. apply (waiting_said id c got l) in Hw. apply IH in Hw; [|exact Hs].
    unfold hear_all, ended in Hw. destruct got as [r|]; [exact Hw|]. cbn [first_reply]. destruct (of_response l) as [r|]; [|exact Hw].
    destruct (a_id r =? id)%Z; exact Hw.
  - destruct hs; [|done]. cbn. destruct Hw as (Hch & Hcl & Hw & Hn & Hnew). destruct got; by repeat split.
Qed.

(** ** What a call answers *)

(** C36. A call ends with its own response and no other: the first line of the
    stream that answers its number while it waits, with the end of the stream
    and the clock only where there is none; a response to an earlier call that
    gave up reaches nobody, a call on a closed stream sends nothing, none waits
    once the stream has ended, a request that cannot be encoded sends nothing,
    and in every case the next call starts clean with a number of its own. *)
Theorem a_call_gets_its_own_reply line hs expired c : idle c -> stream hs ->
  let id := next_id c in
  match call line hs expired c with
  | Some (c', ending) =>
      idle c' /\ next_id c' = (id + 1)%Z /\
      match line with
      | Err e => ending = Unencoded e /\ sent c' = sent c
      | Ok line =>
          if negb (input c) || closed (inbox c) then ending = ClosedStdout /\ sent c' = sent c
          else
            sent c' = sent c ++ [line] /\
            ending = match first_reply id hs with
                     | Some r => Replied r
                     | None => if ended hs then ClosedStdout else TimedOut
                     end /\
            (forall r, ending = Replied r -> a_id r = id)
      end
  | None => is_ok line = true /\ input c = true /\ closed (inbox c) = false /\ first_reply id hs = None /\ ended hs = false /\ expired = false
  end.
Proof.
  intros [Hw Hc] Hs. cbn zeta. unfold call, begin_call. destruct line as [line|e].
  2: { match goal with |- context [hear_all ?x hs] => destruct (next_id_hear_all hs x) as (E1 & _ & E3) end.
       split; [|by rewrite E1, E3]. apply idle_hear_all. split; [done|]. cbn. intros id Hid. apply Hc. lia. }
  destruct (input c) eqn:Ei; cbn [negb orb input].
  2: { match goal with |- context [hear_all ?x hs] => destruct (next_id_hear_all hs x) as (E1 & _ & E3) end.
       split; [|by rewrite E1, E3]. apply idle_hear_all. split; [done|]. cbn. intros id Hid. apply Hc. lia. }
  cbn [inbox]. destruct (closed (inbox c)) eqn:Ecl.
  { match goal with |- context [hear_all ?x hs] => destruct (next_id_hear_all hs x) as (E1 & _ & E3) end.
    split; [|by rewrite E1, E3]. apply idle_hear_all. split; [done|]. cbn. intros id Hid. apply Hc. lia. }
  set (c0 := mk_client _ _ _ _ _ _ _).
  assert (H0 : waiting (next_id c) c0 None false).
  { unfold waiting, c0. cbn. rewrite Hw. split; [by rewrite lookup_insert_eq|]. split; [done|]. split; [set_solver|]. split; [done|].
    intros id' Hlt. rewrite lookup_insert_ne by lia. apply Hc. lia. }
  destruct (next_id_hear_all hs c0) as (E1 & _ & E3).
  apply (waiting_hear_all _ hs _ _ Hs) in H0 as (Hch & Hcl & Hwt & Hn & Hnew). set (c1 := hear_all c0 hs) in *. clearbody c1.
  assert (Hidle : forall c2, waiters (inbox c2) = ∅ -> next_id c2 = next_id c1 -> (forall id', (next_id c < id')%Z -> channels c2 !! id' = None) -> idle c2).
  { intros c2 H1 H2 H3. split; [done|]. intros id Hid. apply H3. rewrite H2, Hn in Hid. lia. }
  unfold end_call. rewrite Hch. destruct (first_reply (next_id c) hs) as [r|] eqn:Er; cbn [option_list].
  - cbn. split; [|split; [done|split; [done|split; [done|]]]].
    + apply Hidle; cbn; [by destruct (ended hs)|done|]. intros id' Hlt. rewrite lookup_insert_ne by lia. by apply Hnew.
    + intros r' [= <-]. by apply (first_reply_id _ hs).
  - rewrite Hwt. destruct (ended hs).
    + rewrite bool_decide_false by apply not_elem_of_empty. cbn. split; [by apply Hidle|]. by repeat split.
    + rewrite bool_decide_true by (by apply elem_of_singleton). cbn. destruct expired; [|done].
      split; [|by repeat split]. apply Hidle; cbn; [|done|done]. set_solver.
Qed.

(** ** What the lines become *)

Definition note_of (h : Heard) : option string :=
  match h with
  | Said l =>
      match of_response l, of_notification l with
      | None, None => if is_empty (trim l) then None else Some (trim l)
      | _, _ => None
      end
  | Ended => None
  end.

Definition news_of (h : Heard) : option Notification :=
  match h with
  | Said l => match of_response l with Some _ => None | None => of_notification l end
  | Ended => None
  end.

Lemma remember_spec line l text : trim line = text -> is_empty text = false -> length l <= STRAY_LINES ->
  remember_stray line l = lastn STRAY_LINES (l ++ [text]).
Proof.
  intros Ht He Hl. unfold remember_stray. rewrite Ht, He. destruct (Nat.eqb_spec (length l) STRAY_LINES) as [E|E].
  - unfold lastn. rewrite length_app, E. cbn [length]. replace (STRAY_LINES + 1 - STRAY_LINES) with 1 by lia. by destruct l.
  - rewrite lastn_all; [done|]. rewrite length_app. cbn [length]. lia.
Qed.

Lemma hear_stray c h : length (stray c) <= STRAY_LINES ->
  stray (hear c h) = lastn STRAY_LINES (stray c ++ option_list (note_of h)).
Proof.
  intros Hl. destruct h as [l|]; cbn [hear note_of].
  2: { cbn. rewrite app_nil_r. by rewrite lastn_all. }
  unfold route_line. destruct (of_response l) as [r|].
  { cbn. rewrite app_nil_r, lastn_all by done. by case_match. }
  destruct (of_notification l) as [n|]; cbn; [by rewrite app_nil_r, lastn_all|].
  destruct (is_empty (trim l)) eqn:E; cbn.
  - rewrite app_nil_r, lastn_all by done. unfold remember_stray. by rewrite E.
  - by apply remember_spec.
Qed.

Lemma hear_subscribers c h : subscribers (hear c h) =
  match news_of h with Some n => fan_out n (subscribers c) | None => subscribers c end.
Proof.
  destruct h as [l|]; [|done]. cbn [hear news_of]. unfold route_line. destruct (of_response l); [by case_match|]. by destruct (of_notification l).
Qed.

Lemma fan_out_all n ns l :
  map (fun s => mk_subscriber true (heard s ++ ns)) (List.filter listening (fan_out n l)) =
  map (fun s => mk_subscriber true (heard s ++ n :: ns)) (List.filter listening l).
Proof.
  unfold fan_out. induction l as [|s l IH]; [done|]. cbn. destruct (listening s); [|done]. cbn. by rewrite IH, <- app_assoc.
Qed.

(** Every line of the stream goes to one place: what is no envelope is kept for
    a failure's report, the last eight such lines that are not blank, oldest
    first; every notification reaches, in order, every subscriber still
    listening, and responses reach neither. *)
Theorem lines_are_sorted_out hs c : length (stray c) <= STRAY_LINES ->
  stray (hear_all c hs) = lastn STRAY_LINES (stray c ++ omap note_of hs) /\
  length (stray (hear_all c hs)) <= STRAY_LINES /\
  subscribers (hear_all c hs) =
    match omap news_of hs with
    | [] => subscribers c
    | ns => map (fun s => mk_subscriber true (heard s ++ ns)) (List.filter listening (subscribers c))
    end.
Proof.
  assert (Hlen : forall l : list string, length (lastn STRAY_LINES l) <= STRAY_LINES) by (intros l; rewrite lastn_length; lia).
  revert c. induction hs as [|h hs IH]; intros c Hl.
  - cbn. rewrite app_nil_r, lastn_all by done. done.
  - unfold hear_all. cbn [foldl]. fold (hear_all (hear c h) hs). pose proof (hear_stray c h Hl) as Hs.
    destruct (IH (hear c h)) as (H1 & H2 & H3); [rewrite Hs; apply Hlen|]. rewrite H1, H3, hear_subscribers. split; [|split; [done|]].
    + rewrite Hs, lastn_app_lastn, <- app_assoc. f_equal. f_equal. cbn [omap list_omap]. by destruct (note_of h).
    + cbn [omap list_omap]. destruct (news_of h) as [n|]; [|done]. destruct (omap news_of hs) as [|n' ns].
      * unfold fan_out. done.
      * apply fan_out_all.
Qed.

End rpc.

(** ** Witnesses *)

Definition sample_response (l : string) : option Response :=
  if bool_decide (l = "first") then Some (mk_response 1 (Some JNull) None)
  else if bool_decide (l = "second") then Some (mk_response 2 (Some (JBool true)) None) else None.

Definition sample_notification (l : string) : option Notification :=
  if bool_decide (l = "news") then Some (mk_notification "state.event" JNull) else None.

(** The first call gives up; its late response does not reach the second. *)
Definition after_a_timeout : RpcClient :=
  match call sample_response sample_notification (Ok "one") [] true (new_client true) with Some (c, _) => c | None => new_client true end.

Definition late_stream : list Heard := [Said "first"; Said "news"; Said "second"; Ended].

Lemma a_call_gets_its_own_reply_witness :
  exists c, call sample_response sample_notification (Ok "two") late_stream false after_a_timeout = Some (c, Replied (mk_response 2 (Some (JBool true)) None)) /\
    idle c /\ sent c = ["one"; "two"].
Proof.
  assert (Hi : idle after_a_timeout).
  { split; [vm_compute; reflexivity|]. intros id Hid. change (channels after_a_timeout) with (<[1%Z := []]> ∅ : gmap Z (list Response)).
    change (2 <= id)%Z in Hid. rewrite lookup_insert_ne by lia. apply lookup_empty. }
  pose proof (a_call_gets_its_own_reply sample_response sample_notification (Ok "two") late_stream false after_a_timeout Hi I) as H.
  cbn zeta in H. destruct (call _ _ _ _ _ _) as [[c ending]|]; [|destruct H as (_ & _ & _ & H & _); vm_compute in H; discriminate H].
  destruct H as (Hc & _ & H). change (negb (input after_a_timeout) || closed (inbox after_a_timeout)) with false in H.
  cbv iota in H. destruct H as (Hs & He & _). exists c. split; [|split; [exact Hc|exact Hs]]. rewrite He. vm_compute. reflexivity.
Defined.

Lemma lines_are_sorted_out_witness :
  stray (hear_all sample_response sample_notification (new_client true) [Said " wsl: no "; Said "news"; Said EmptyString; Said "first"; Said "b"]) = ["wsl: no"; "b"].
Proof.
  destruct (lines_are_sorted_out sample_response sample_notification [Said " wsl: no "; Said "news"; Said EmptyString; Said "first"; Said "b"] (new_client true)) as (H & _).
  - apply Nat.leb_le. reflexivity.
  - rewrite H. vm_compute. reflexivity.
Defined.
