(* ===== verification/Wsl.v ===== *)
(** * The distribution, seen from Windows

    Models crates/willie-engine/src/error.rs, wsl.rs, prereqs.rs and distro.rs:
    the engine's errors with their codes and remedies, the command lines of
    [wsl.exe] and what is read of its answers, and installing, replacing and
    removing the distribution. *)

From S2P Require Import Prelude Text Ascii Json Rpc Effects Console.

Local Open Scope string_scope.
Local Open Scope list_scope.
Local Open Scope willie_scope.

(** ** Errors *)

Inductive WslError : Type :=
| NotInstalled
| CommandFailed (args : string) (code : option Z) (stderr : string)
| Unparseable (what text : string)
| WslIo (e : string).

Definition LOGON_TYPE_NOT_GRANTED : string := "0x80070569".

Definition SERVICE_LOGON_RIGHT_CODE : string := "service_logon_right_missing".

Definition quoted (s : string) : string := String (ascii_of_nat 34) (s +:+ String (ascii_of_nat 34) EmptyString).

Definition SERVICE_LOGON_REMEDIATION : string :=
  "this account cannot create the WSL 2 VM: an administrator must grant " +:+ quoted "Log on as a service" +:+ " to "
  +:+ "NT VIRTUAL MACHINE\Virtual Machines (S-1-5-83-0); then sign in again".

Definition wsl_code (e : WslError) : string :=
  match e with
  | NotInstalled => "wsl_not_installed"
  | CommandFailed _ _ stderr => if contains LOGON_TYPE_NOT_GRANTED stderr then SERVICE_LOGON_RIGHT_CODE else "wsl_command_failed"
  | Unparseable _ _ => "wsl_unparseable_output"
  | WslIo _ => "wsl_io"
  end.

Definition option_text (c : option Z) : string := match c with Some c => "Some(" +:+ pretty c +:+ ")" | None => "None" end.

Definition wsl_message (e : WslError) : string :=
  match e with
  | NotInstalled => "wsl.exe is not installed or not on PATH"
  | CommandFailed args code stderr => "`wsl.exe " +:+ args +:+ "` failed with " +:+ option_text code +:+ ": " +:+ stderr
  | Unparseable what text => "cannot parse " +:+ what +:+ " from `" +:+ text +:+ "`"
  | WslIo e => "i/o error talking to wsl.exe: " +:+ e
  end.

Inductive EngineError : Type :=
| EWsl (e : WslError)
| ERpc (e : RpcError)
| ETimeout (method : string)
| ETransport (e : string)
| EDaemonExited (code : option Z) (detail : string)
| EProtocol (e : string)
| EVersionMismatch (engine daemon : string)
| EImageInvalid (path reason : string)
| EImageNotFound
| EDaemonNotRunning
| EDistroNotRegistered
| EPathNotFound (path : string)
| EConfigWrite (path message : string)
| ETerminalLaunch (message attach_hint : string)
| EEmbeddedTerminal (message : string)
| EEmbeddedTerminalNotOpen (id : string)
| EMethodNotServed (method : string).

Definition daemon_exited_message (code : option Z) (detail : string) : string :=
  let code := match code with Some c => pretty c | None => "unknown" end in
  if is_empty (trim detail) then "daemon exited with code " +:+ code +:+ " (no output)"
  else "daemon exited with code " +:+ code +:+ ": " +:+ detail.

Definition engine_code (e : EngineError) : string :=
  match e with
  | EWsl e => wsl_code e
  | ERpc _ => "daemon_error"
  | ETimeout _ => "daemon_timeout"
  | ETransport _ => "daemon_transport"
  | EDaemonExited _ detail => if contains LOGON_TYPE_NOT_GRANTED detail then SERVICE_LOGON_RIGHT_CODE else "daemon_exited"
  | EProtocol _ => "protocol_violation"
  | EVersionMismatch _ _ => "version_mismatch"
  | EImageInvalid _ _ => "image_invalid"
  | EImageNotFound => "image_not_found"
  | EDaemonNotRunning => "daemon_not_running"
  | EDistroNotRegistered => "distro_not_registered"
  | EPathNotFound _ => "path_not_found"
  | EConfigWrite _ _ => "config_write_failed"
  | ETerminalLaunch _ _ => "terminal_launch_failed"
  | EEmbeddedTerminal _ => "embedded_terminal_failed"
  | EEmbeddedTerminalNotOpen _ => "embedded_terminal_not_open"
  | EMethodNotServed _ => "method_not_served"
  end.

Definition engine_message (e : EngineError) : string :=
  match e with
  | EWsl e => wsl_message e
  | ERpc e => "daemon returned `" +:+ x_code e +:+ "`: " +:+ x_message e
  | ETimeout method => "no reply to `" +:+ method +:+ "` within the timeout"
  | ETransport e => "transport failure: " +:+ e
  | EDaemonExited code detail => daemon_exited_message code detail
  | EProtocol e => "protocol violation: " +:+ e
  | EVersionMismatch engine daemon => "engine " +:+ engine +:+ " and daemon " +:+ daemon +:+ " are different Willie versions"
  | EImageInvalid path reason => "distribution image " +:+ path +:+ " is invalid: " +:+ reason
  | EImageNotFound => "no distribution image next to the app"
  | EDaemonNotRunning => "the daemon is not running"
  | EDistroNotRegistered => "the `willie` distribution is not registered"
  | EPathNotFound path => "path `" +:+ path +:+ "` does not exist"
  | EConfigWrite path message => "cannot write " +:+ path +:+ ": " +:+ message
  | ETerminalLaunch message _ => "terminal launch failed: " +:+ message
  | EEmbeddedTerminal message => "embedded terminal failed: " +:+ message
  | EEmbeddedTerminalNotOpen id => "no embedded terminal is open for session " +:+ id
  | EMethodNotServed method => "`" +:+ method +:+ "` is not a plugin method"
  end.

Definition wsl_remediation (e : WslError) : string :=
  match e with
  | NotInstalled => "enable WSL 2.4.4 or newer (administrator) and retry"
  | CommandFailed _ _ _ =>
      "`wsl.exe` refused the command; run it in PowerShell to see the same message, then click Run doctor again"
  | Unparseable _ _ =>
      "unexpected output from `wsl.exe`: run `wsl --version` in PowerShell, update WSL if it is old, then click Run doctor"
  | WslIo _ => "the pipe to `wsl.exe` broke; click Run doctor (it restarts the daemon)"
  end.

Definition daemon_exited_remediation (detail : string) : string :=
  if contains LOGON_TYPE_NOT_GRANTED detail then SERVICE_LOGON_REMEDIATION
  else if contains "WSL_E_DISTRO_NOT_FOUND" detail then
    "the `willie` distribution is not registered: click Install distribution"
  else "click Run doctor again (it restarts the daemon); if it repeats, click Install distribution to reinstall it".

Definition engine_remediation (e : EngineError) : string :=
  match e with
  | EWsl (CommandFailed args code stderr) =>
      if contains LOGON_TYPE_NOT_GRANTED stderr then SERVICE_LOGON_REMEDIATION
      else if starts_with "--import" args then
        "the previous distribution was removed before this import failed; the image is still on disk — retry Install"
      else wsl_remediation (CommandFailed args code stderr)
  | EWsl e => wsl_remediation e
  | ERpc e => default "the daemon rejected the request; the message names the cause — click Run doctor to retry" (x_remediation e)
  | ETimeout _ | ETransport _ => "click Run doctor (it restarts the daemon)"
  | EDaemonExited _ detail => daemon_exited_remediation detail
  | EProtocol _ => "click Run doctor (it restarts the daemon); if it repeats, click Install distribution"
  | EVersionMismatch _ _ =>
      "click Install distribution: it reinstalls the distribution with binaries matching this app"
  | EImageInvalid _ _ => "rebuild the image with `just distro-build`, then click Install distribution again"
  | EImageNotFound => "reinstall Willie; in development run `just distro-build`"
  | EDaemonNotRunning => "click Run doctor (it starts the daemon)"
  | EDistroNotRegistered => "click Install distribution"
  | EPathNotFound _ => "pick a folder that exists on this machine"
  | EConfigWrite _ _ => "check that Willie can write to %LOCALAPPDATA%\Willie\data"
  | ETerminalLaunch _ attach_hint => "open a terminal and run: " +:+ attach_hint
  | EEmbeddedTerminal _ => "open the session in a Windows Terminal tab instead (Open session), or click Run doctor"
  | EEmbeddedTerminalNotOpen _ => "the tab lost its terminal: close it and open the session again"
  | EMethodNotServed _ => "the app calls plugin methods, not daemon methods"
  end.

(** ** Command lines *)

Definition DISTRO_NAME : string := "willie".
Definition DAEMON_USER : string := "willie".
Definition DAEMON_PATH : string := "/opt/willie/bin/willied".

Record WslExec : Type := mk_exec { x_distro : string; x_user : option string; x_program : string; x_args : list string }.

Definition to_args (e : WslExec) : list string :=
  ["-d"; x_distro e] ++ match x_user e with Some user => ["--user"; user] | None => [] end ++ ["--exec"; x_program e] ++ x_args e.

Definition daemon_stdio : WslExec := mk_exec DISTRO_NAME (Some DAEMON_USER) DAEMON_PATH ["--stdio"].

(** ** Versions *)

Record WslVersion : Type := mk_version { major : Z; minor : Z; patch : Z; build : Z }.

Definition MINIMUM : WslVersion := mk_version 2 4 4 0.

(** The derived order, by the fields in turn. *)
Definition version_le (a b : WslVersion) : bool :=
  ((major a <? major b) || (major a =? major b) &&
    ((minor a <? minor b) || (minor a =? minor b) &&
      ((patch a <? patch b) || (patch a =? patch b) && (build a <=? build b))))%Z.

Definition meets_minimum (v : WslVersion) : bool := version_le MINIMUM v.

(** [WslVersion::from_str]: what follows the fourth part is not looked at. *)
Definition version_of (s : string) : result WslVersion WslError :=
  let next i := nth_error (map (parse_unsigned u32_max) (split "." (trim s))) i ≫= id in
  match next 0, next 1, next 2 with
  | Some major, Some minor, Some patch => Ok (mk_version major minor patch (default 0%Z (next 3)))
  | _, _, _ => Err (Unparseable "version" s)
  end.

Fixpoint first_ok {A B E} (f : A -> result B E) (l : list A) : option B :=
  match l with
  | [] => None
  | x :: l => match f x with Ok y => Some y | Err _ => first_ok f l end
  end.

Definition parse_report (report : string) : result WslVersion WslError :=
  let first := default EmptyString (List.find (fun l => negb (is_empty (trim l))) (lines report)) in
  match first_ok version_of (rev (split_whitespace first)) with
  | Some v => Ok v
  | None => Err (Unparseable "wsl --version" first)
  end.

Definition render (v : WslVersion) : string :=
  pretty (major v) +:+ "." +:+ pretty (minor v) +:+ "." +:+ pretty (patch v) +:+ "." +:+ pretty (build v).

Record WslStatus : Type := mk_wsl_status { installed : bool; version : option string; ok_version : bool; minimum : string }.

Definition status_from (v : result WslVersion WslError) (minimum : string) : WslStatus :=
  match v with
  | Ok v => mk_wsl_status true (Some (render v)) (meets_minimum v) minimum
  | Err NotInstalled => mk_wsl_status false None false minimum
  | Err _ => mk_wsl_status true None false minimum
  end.

(** ** Listings *)

Definition parse_name_list (text : string) : list string :=
  List.filter (fun l => negb (is_empty l)) (map (fun l => trim (trim_start_matches "*" (trim l))) (lines text)).

Definition is_no_distributions (text : string) : bool := contains "WSL_E_DEFAULT_DISTRO_NOT_FOUND" text.

Definition eq_ignore_ascii_case (a b : string) : bool := bool_decide (str_map to_ascii_lowercase a = str_map to_ascii_lowercase b).

(** ** Installing *)

(** What one run of [wsl.exe] gives. *)
Inductive CliOutput : Type := CliMissing | CliIo (e : string) | CliEnded (success : bool) (code : option Z) (stdout stderr : string).

Inductive RemoveAnswer : Type := Removed | NoFile | RemoveFailed (e : string).

(** An effect with its answer. *)
Inductive Did : Type :=
| Ran (args : list string) (out : CliOutput)
| Measured (path : string) (len : option Z)
| ReadSidecar (path : string) (text : option string)
| ReadImage (path : string) (bytes : option string)
| MadeDir (path : string) (error : option string)
| RemovedDisk (path : string) (answer : RemoveAnswer).

Record DistroStatus : Type := mk_distro { registered : bool; running : bool; status_dir : string }.

Definition output_of (args : list string) (out : CliOutput) : result string WslError :=
  match out with
  | CliMissing => Err NotInstalled
  | CliIo e => Err (WslIo e)
  | CliEnded true _ stdout _ => Ok (decode_wsl_output stdout)
  | CliEnded false code stdout stderr =>
      let stdout := decode_wsl_output stdout in
      let stderr := decode_wsl_output stderr in
      Err (CommandFailed (join " " args) code (trim (if is_empty (trim stderr) then stdout else stderr)))
  end.

Definition names_of (args : list string) (out : CliOutput) : result (list string) WslError :=
  match output_of args out with
  | Ok text => Ok (parse_name_list text)
  | Err (CommandFailed a c stderr) => if is_no_distributions stderr then Ok [] else Err (CommandFailed a c stderr)
  | Err e => Err e
  end.

(** [Path::join] of a file's name on Windows. *)
Definition win_join (dir name : string) : string :=
  if is_empty dir || ends_with_char "/" dir || ends_with_char (ascii_of_nat 92) dir then dir +:+ name
  else dir +:+ String (ascii_of_nat 92) name.

Section distro.
  Context {S : Type} (others : nat -> S -> S).
  Context (wsl : list string -> S -> CliOutput * S) (file_len : string -> S -> option Z) (read_to_string read_bytes : string -> S -> option string)
    (create_dir : string -> S -> option string * S) (remove_file : string -> S -> RemoveAnswer * S).
  (** The hash of the image's bytes in hexadecimal; the data directory's
      [distro], when [%LOCALAPPDATA%] is set. *)
  Context (hex_sha256 : string -> string) (install_dir : option string).

Definition D (A : Type) : Type := M S Did A.

Definition run (args : list string) : D CliOutput := perform others (fun out => [Ran args out]) (wsl args).

Definition measure (path : string) : D (option Z) := perform others (fun n => [Measured path n]) (fun s => (file_len path s, s)).

Definition sidecar_text (path : string) : D (option string) :=
  perform others (fun t => [ReadSidecar path t]) (fun s => (read_to_string path s, s)).

Definition image_bytes (path : string) : D (option string) :=
  perform others (fun t => [ReadImage path t]) (fun s => (read_bytes path s, s)).

Definition make_dir (path : string) : D (option string) := perform others (fun e => [MadeDir path e]) (create_dir path).

Definition remove (path : string) : D RemoveAnswer := perform others (fun a => [RemovedDisk path a]) (remove_file path).

Definition names (args : list string) : D (result (list string) WslError) :=
  let* out := run args in ret (names_of args out).

Definition list_distros : D (result (list string) WslError) := names ["--list"; "--quiet"].

Definition running_distros : D (result (list string) WslError) := names ["--list"; "--running"; "--quiet"].

Definition run_unit (args : list string) : D (result unit WslError) :=
  let* out := run args in ret (match output_of args out with Ok _ => Ok tt | Err e => Err e end).

Definition import (name location tar : string) : D (result unit WslError) :=
  run_unit ["--import"; name; location; tar; "--version"; "2"].

Definition unregister (name : string) : D (result unit WslError) := run_unit ["--unregister"; name].

Definition terminate (name : string) : D (result unit WslError) := run_unit ["--terminate"; name].

Definition export (name file format : string) : D (result unit WslError) := run_unit ["--export"; name; file; "--format"; format].

Definition wsl_version : D (result WslVersion WslError) :=
  let* out := run ["--version"] in
  ret (match output_of ["--version"] out with Ok text => parse_report text | Err e => Err e end).

Definition wsl_status : D WslStatus :=
  let* v := wsl_version in
  ret (status_from v (pretty (major MINIMUM) +:+ "." +:+ pretty (minor MINIMUM) +:+ "." +:+ pretty (patch MINIMUM))).

Definition is_ours (d : string) : bool := eq_ignore_ascii_case d DISTRO_NAME.

Definition distro_status : D (result DistroStatus WslError) :=
  let! all := list_distros in
  let registered := existsb is_ours all in
  let! running :=
    (if registered then let! up := running_distros in ret (Ok (existsb is_ours up)) else ret (Ok false)) in
  ret (Ok (mk_distro registered running (default EmptyString install_dir))).

(** The first token of the sidecar, if there is one. *)
Definition expected_hash (text : option string) : option string := text ≫= (fun t => head (split_whitespace t)).

Definition validate_image (image : string) : D (result unit EngineError) :=
  let invalid reason := ret (Err (EImageInvalid image reason)) in
  let* len := measure image in
  match len with
  | None => invalid "missing"
  | Some n =>
      if (n =? 0)%Z then invalid "empty"
      else
        let* text := sidecar_text (image +:+ ".sha256") in
        match expected_hash text with
        | None => ret (Ok tt)
        | Some expected =>
            let* bytes := image_bytes image in
            match bytes with
            | None => invalid "unreadable"
            | Some b => if eq_ignore_ascii_case expected (hex_sha256 b) then ret (Ok tt) else invalid "sha256 mismatch"
            end
        end
  end.

Definition remove_orphaned_disk (dir : string) : D (result unit EngineError) :=
  let disk := win_join dir "ext4.vhdx" in
  let* a := remove disk in
  match a with
  | Removed | NoFile => ret (Ok tt)
  | RemoveFailed e => ret (Err (EWsl (WslIo ("cannot remove the orphaned disk " +:+ disk +:+ ": " +:+ e))))
  end.

Definition uninstall : D (result unit WslError) :=
  let! all := list_distros in
  if existsb is_ours all then
    let* _ := terminate DISTRO_NAME in
    unregister DISTRO_NAME
  else ret (Ok tt).

Definition as_engine (m : D (result unit WslError)) : D (result unit EngineError) :=
  let* r := m in ret (map_err EWsl r).

Definition install (image : string) : D (result unit EngineError) :=
  let! _ := validate_image image in
  match install_dir with
  | None => ret (Err (EWsl (Unparseable "LOCALAPPDATA" EmptyString)))
  | Some dir =>
      let* made := make_dir dir in
      match made with
      | Some e => ret (Err (EWsl (WslIo e)))
      | None =>
          let! _ := as_engine uninstall in
          let! _ := remove_orphaned_disk dir in
          as_engine (import DISTRO_NAME dir image)
      end
  end.

(** ** What an installation does *)

Definition LIST : list string := ["--list"; "--quiet"].
Definition UNREGISTER : list string := ["--unregister"; DISTRO_NAME].
Definition IMPORT (dir image : string) : list string := ["--import"; DISTRO_NAME; dir; image; "--version"; "2"].

(** The checks found an image that is there, is not empty, and has the hash its
    sidecar names, if it names one. *)
Definition image_valid (image : string) (l : list Did) : Prop :=
  exists n text, Measured image (Some n) ∈ l /\ n <> 0%Z /\ ReadSidecar (image +:+ ".sha256") text ∈ l /\
    match expected_hash text with
    | None => True
    | Some h => exists b, ReadImage image (Some b) ∈ l /\ eq_ignore_ascii_case h (hex_sha256 b) = true
    end.

Definition looks (d : Did) : bool := match d with Measured _ _ | ReadSidecar _ _ | ReadImage _ _ => true | _ => false end.

Definition went (args : list string) (l : list Did) : Prop := exists out, Ran args out ∈ l /\ is_ok (output_of args out) = true.

Lemma validate_does image : does (validate_image image) (fun r l => forallb looks l = true /\ (r = Ok tt -> image_valid image l)).
Proof.
  unfold validate_image, measure, sidecar_text, image_bytes, image_valid.
  repeat walk1; (split; [reflexivity|]); intros Hr; try discriminate Hr; subst.
  all: eexists _, _; split; [in_list|]; split; [by apply Z.eqb_neq|]; split; [in_list|].
  all: match goal with H : expected_hash _ = _ |- _ => rewrite H end.
  - eexists. split; [in_list|assumption].
  - done.
Qed.

(** The listing that decides, read. *)
Definition listed_ours (b : bool) (l : list Did) : Prop :=
  exists out all, Ran LIST out ∈ l /\ names_of LIST out = Ok all /\ existsb is_ours all = b.

(** After the checks, the commands that ran: only a listed distribution of
    Willie's is removed, and the import comes when none is left. *)
Definition replaces (dir image : string) (r : result unit EngineError) (l : list Did) : Prop :=
  (forall args out, Ran args out ∈ l -> args ∈ [LIST; ["--terminate"; DISTRO_NAME]; UNREGISTER; IMPORT dir image]) /\
  (forall out, Ran UNREGISTER out ∈ l -> listed_ours true l) /\
  (forall out, Ran (IMPORT dir image) out ∈ l -> listed_ours false l \/ went UNREGISTER l) /\
  (is_ok r = true <-> went (IMPORT dir image) l) /\
  forallb looks l = false.

Ltac shown := eexists _, _; split; [in_list|split; eassumption].

Ltac ran_well :=
  eexists; split; [in_list|];
  match goal with
  | H : map_err EWsl (match output_of ?x ?o with _ => _ end) = Ok _ |- is_ok (output_of _ ?o) = true =>
      change (is_ok (output_of x o) = true); destruct (output_of x o); [done|discriminate H]
  | H : is_ok (map_err EWsl (match output_of ?x ?o with _ => _ end)) = true |- is_ok (output_of _ ?o) = true =>
      change (is_ok (output_of x o) = true); destruct (output_of x o); [done|discriminate H]
  end.

Lemma replace_does dir image : does (
    let* made := make_dir dir in
    match made with
    | Some e => ret (Err (EWsl (WslIo e)))
    | None =>
        let! _ := as_engine uninstall in
        let! _ := remove_orphaned_disk dir in
        as_engine (import DISTRO_NAME dir image)
    end) (replaces dir image).
Proof.
  unfold as_engine, import, run_unit, run, make_dir, uninstall, terminate, unregister, list_distros, names, remove_orphaned_disk, remove, bind_result, run_unit, run.
  repeat walk1.
  all: try (match goal with H : map_err _ (Err _) = Ok _ |- _ => discriminate H end).
  all: unfold replaces, listed_ours, went, LIST, UNREGISTER, IMPORT.
  all: split; [intros args out H; in_cases H; in_list|].
  all: split; [intros out H; in_cases H; shown|].
  all: split; [intros out H; in_cases H; first [left; shown|right; ran_well]|].
  all: split; [|reflexivity].
  all: split; [intros H; first [discriminate H|ran_well]|].
  all: intros (out & H & Hok); in_cases H;
    match goal with |- is_ok (map_err _ (match ?t with _ => _ end)) = true => destruct t; [done|discriminate Hok] end.
Qed.

(** An installation is a sequence of effects, whatever it finds. *)
Lemma install_runs image : does (install image) (fun _ _ => True).
Proof.
  unfold install. unfold bind_result at 1. apply (does_bind _ _ _ _ (validate_does image)). intros [u|e] l _; [|by apply does_ret].
  destruct install_dir as [dir|]; [|by apply does_ret]. by apply (does_conseq _ _ _ (replace_does dir image)).
Qed.

(** An installation never costs a working distribution for an image that would
    not do: nothing is run and nothing is made or removed before the image has
    been found there, not empty and, if a hash is beside it, with that hash.
    Then only a distribution the listing calls Willie's is removed, the import
    runs when none is listed or its removal succeeded, and the installation
    succeeds exactly when the import does. *)
Theorem install_spares_a_working_install image : does (install image) (fun r l =>
  exists checks rest, l = checks ++ rest /\ forallb looks checks = true /\ (rest <> [] -> image_valid image checks) /\
    match install_dir with
    | Some dir => rest = [] /\ is_ok r = false \/ replaces dir image r rest
    | None => rest = [] /\ is_ok r = false
    end).
Proof.
  unfold install. unfold bind_result at 1. apply (does_bind _ _ _ _ (validate_does image)). intros [u|e] l [Hl Hv].
  - destruct u. specialize (Hv eq_refl). destruct install_dir as [dir|].
    + apply (does_conseq _ _ _ (replace_does dir image)). intros r l' H. exists l, l'. do 3 (split; [done|]). by right.
    + apply does_ret. exists l, []. done.
  - apply does_ret. exists l, []. do 3 (split; [done|]). by destruct install_dir; [left|].
Qed.
End distro.

(** ** Versions read back *)

Definition u32 (z : Z) : Prop := (0 <= z <= u32_max)%Z.

Definition version_fits (v : WslVersion) : Prop := u32 (major v) /\ u32 (minor v) /\ u32 (patch v) /\ u32 (build v).

Lemma pretty_part z : u32 z -> str_forallb is_ascii_digit (pretty z) = true /\ is_empty (pretty z) = false /\ contains_char "." (pretty z) = false /\
  parse_unsigned u32_max (pretty z) = Some z.
Proof.
  intros Hz. destruct (pretty_number u32_max z Hz) as (Hd & He & Hp). split; [done|]. split; [done|]. split.
  - revert Hd. clear. induction (pretty z) as [|a s IH]; [done|]. cbn [str_forallb]. intros [Ha Hs]%andb_true_iff.
    apply contains_char_false_cons. split; [|by apply IH]. intros ->. discriminate Ha.
  - unfold parse_unsigned. destruct (digits_line _ Hd) as (_ & _ & H). destruct (H He) as (_ & _ & Hs). by rewrite Hs, He.
Qed.

Lemma pretty_solid z : u32 z -> ascii_text (pretty z) /\ starts_solid (pretty z) = true /\ ends_solid (pretty z) = true /\
  contains_char newline (pretty z) = false /\ Forall (fun a => is_whitespace (byte a) = false) (list_ascii_of_string (pretty z)).
Proof.
  intros Hz. destruct (pretty_part z Hz) as (Hd & He & _ & _). destruct (digits_line _ Hd) as (Ha & Hn & H). destruct (H He) as (H1 & H2 & _).
  do 4 (split; [done|]). revert Hd. clear. induction (pretty z) as [|a s IH]; [constructor|]. cbn [str_forallb list_ascii_of_string].
  intros [Hd Hs]%andb_true_iff. constructor; [by apply digit_solid|by apply IH].
Qed.

Definition tail_text (v : WslVersion) : string := pretty (minor v) +:+ "." +:+ pretty (patch v) +:+ "." +:+ pretty (build v).

Lemma list_ascii_app a b : list_ascii_of_string (a +:+ b) = list_ascii_of_string a ++ list_ascii_of_string b.
Proof. induction a as [|x a IH]; [done|]. rewrite str_app_cons. cbn. by rewrite IH. Qed.

(** What a rendered version is as a text. *)
Lemma render_solid v : version_fits v -> ascii_text (render v) /\ starts_solid (render v) = true /\ ends_solid (render v) = true /\
  contains_char newline (render v) = false /\ Forall (fun a => is_whitespace (byte a) = false) (list_ascii_of_string (render v)).
Proof.
  intros (H1 & H2 & H3 & H4).
  assert (Hdot : forall x y, (ascii_text x /\ starts_solid x = true /\ ends_solid x = true /\ contains_char newline x = false /\
      Forall (fun a => is_whitespace (byte a) = false) (list_ascii_of_string x)) ->
    (ascii_text y /\ starts_solid y = true /\ ends_solid y = true /\ contains_char newline y = false /\
      Forall (fun a => is_whitespace (byte a) = false) (list_ascii_of_string y)) ->
    (ascii_text (x +:+ "." +:+ y) /\ starts_solid (x +:+ "." +:+ y) = true /\ ends_solid (x +:+ "." +:+ y) = true /\ contains_char newline (x +:+ "." +:+ y) = false /\
      Forall (fun a => is_whitespace (byte a) = false) (list_ascii_of_string (x +:+ "." +:+ y)))).
  { clear. intros x y (Hx1 & Hx2 & Hx3 & Hx4 & Hx5) (Hy1 & Hy2 & Hy3 & Hy4 & Hy5).
    split; [repeat apply ascii_text_app; done|]. split; [by destruct x|]. split.
    { rewrite !ends_solid_app; [done| |]; by destruct y. }
    split; [repeat apply contains_char_app; done|]. rewrite !list_ascii_app. apply Forall_app_2; [done|]. by constructor. }
  unfold render. apply Hdot; [by apply pretty_solid|]. apply Hdot; [by apply pretty_solid|]. apply Hdot; by apply pretty_solid.
Qed.

Lemma version_of_render v : version_fits v -> version_of (render v) = Ok v.
Proof.
  intros Hf. destruct (render_solid v Hf) as (Ha & Hs & He & _ & _). unfold version_of. rewrite trim_solid by done.
  destruct Hf as (H1 & H2 & H3 & H4). unfold render.
  destruct (pretty_part _ H1) as (_ & _ & D1 & P1), (pretty_part _ H2) as (_ & _ & D2 & P2),
    (pretty_part _ H3) as (_ & _ & D3 & P3), (pretty_part _ H4) as (_ & _ & D4 & P4).
  assert (Hd : forall x y, contains_char "." x = false -> split "." (x +:+ "." +:+ y) = x :: split "." y).
  { clear. intros x y Hx. change ("." +:+ y) with (String "." (EmptyString +:+ y)). rewrite str_app_nil_l. by apply split_cons. }
  rewrite !Hd, split_none by done. cbn [map nth_error mbind option_bind].
  rewrite P1, P2, P3, P4. cbn. by destruct v.
Qed.

(** The version is found at the end of the first line that is not blank,
    whatever the language of the label before it, and is the one [wsl.exe]
    printed: the check against the minimum is made on it. *)
Theorem report_tells_the_version v label rest minimum :
  version_fits v -> Forall is_char label -> contains_char newline (concat_str (map snd label)) = false ->
  let report := concat_str (map snd label) +:+ " " +:+ render v +:+ String return_ (String newline rest) in
  parse_report report = Ok v /\
  status_from (parse_report report) minimum = mk_wsl_status true (Some (render v)) (version_le MINIMUM v) minimum.
Proof.
  intros Hv Hl Hn report. assert (H : parse_report report = Ok v); [|by rewrite H].
  destruct (render_solid v Hv) as (Ha & Hs & He & Hnl & Hw). unfold parse_report.
  set (line := concat_str (map snd label) +:+ " " +:+ render v).
  assert (Ecl : char_list line = label ++ (32%Z, " ") :: map (fun a => (byte a, String a EmptyString)) (list_ascii_of_string (render v))).
  { unfold line. rewrite char_list_concat_app by done. f_equal. rewrite char_list_ascii; [done|]. by apply ascii_text_app. }
  assert (Er : split newline report = (line +:+ String return_ EmptyString) :: split newline rest).
  { unfold report, line. rewrite <- split_cons.
    - by rewrite <- !str_app_assoc, !str_app_cons, !str_app_nil_l.
    - apply contains_char_app; [|done]. apply contains_char_app; [done|]. by apply contains_char_app. }
  assert (Ef : List.find (fun l => negb (is_empty (trim l))) (lines report) = Some line).
  { unfold lines. rewrite Er. cbn [end_lines]. destruct (split newline rest) as [|p ps] eqn:Ep; [by destruct (split_nonempty newline rest)|].
    assert (Edr : drop_return (line +:+ String return_ EmptyString) = line).
    { clear. induction line as [|a s IH]; [done|]. rewrite str_app_cons. destruct s as [|b s]; [done|]. rewrite str_app_cons in *.
      change (String a (drop_return (String b (s +:+ String return_ EmptyString))) = String a (String b s)). by rewrite IH. }
    rewrite Edr. cbn [List.find]. destruct (is_empty (trim line)) eqn:Et; [|done]. exfalso. apply trim_empty in Et. rewrite Ecl in Et.
    apply Forall_app in Et as [_ Et]. inversion Et as [|? ? _ Et']; subst. destruct (render v) as [|a s] eqn:Ev; [done|].
    cbn in Et'. inversion Et' as [|? ? Hw' _]; inversion Hw as [|? ? Hw2 _]; subst. cbn in Hw'. congruence. }
  rewrite Ef. cbn [default]. unfold split_whitespace. unfold Datatypes.id.
  assert (Et : tokens EmptyString (char_list line) = tokens EmptyString label ++ [render v]).
  { rewrite Ecl, tokens_app by done. f_equal. rewrite tokens_solid.
    - rewrite str_app_nil_l, map_map, concat_str_chars. cbn [map snd]. destruct (render v) eqn:E; [done|reflexivity].
    - apply Forall_map. eapply Forall_impl; [exact Hw|]. done. }
  rewrite Et, rev_app_distr. cbn [rev app first_ok]. by rewrite version_of_render.
Qed.

(** What follows the third number is not read as one: a text of more than digits and
    dots is taken for a version. *)
Example version_of_no_number : is_ok (version_of "2.4.4.preview.x") = true.
Proof. reflexivity. Qed.

(** ** Witnesses *)

Lemma report_tells_the_version_witness :
  parse_report ("Versao do WSL:" +:+ " " +:+ "2.6.1.0" +:+ String return_ (String newline "Kernel: 5.15")) = Ok (mk_version 2 6 1 0) /\
  status_from (parse_report ("Versao do WSL:" +:+ " " +:+ "2.6.1.0" +:+ String return_ (String newline "Kernel: 5.15"))) "2.4.4" =
    mk_wsl_status true (Some "2.6.1.0") true "2.4.4".
Proof.
  apply (report_tells_the_version (mk_version 2 6 1 0) (char_list "Versao do WSL:") "Kernel: 5.15" "2.4.4").
  - repeat split; vm_compute; discriminate.
  - apply char_list_chars.
  - vm_compute. reflexivity.
Defined.

(** A machine where [willie] is registered and its image has a hash beside it. *)
Definition sample_wsl (args : list string) (s : list string) : CliOutput * list string :=
  if bool_decide (args = LIST) then (CliEnded true (Some 0%Z) (ascii_utf16 (join (String newline EmptyString) s)) EmptyString, s)
  else if bool_decide (args = UNREGISTER) then (CliEnded true (Some 0%Z) EmptyString EmptyString, List.filter (fun d => negb (is_ours d)) s)
  else if bool_decide (head args = Some "--import") then (CliEnded true (Some 0%Z) EmptyString EmptyString, s ++ [DISTRO_NAME])
  else (CliEnded true (Some 0%Z) EmptyString EmptyString, s).

Definition sample_install (hash : string) : result unit EngineError * World (list string) Did :=
  install (fun _ s => s) sample_wsl (fun _ _ => Some 10%Z) (fun _ _ => Some (hash +:+ "  willie.tar")) (fun _ _ => Some "image")
    (fun _ s => (None, s)) (fun _ s => (NoFile, s)) (fun _ => "ab12") (Some "C:\data\distro") "willie.tar" (mk_world ["Ubuntu"; "Willie"] 0 []).

Example a_good_image_replaces :
  fst (sample_install "AB12") = Ok tt /\ store (snd (sample_install "AB12")) = ["Ubuntu"; "willie"].
Proof. vm_compute. done. Qed.

Example a_bad_image_leaves :
  is_ok (fst (sample_install "ffff")) = false /\ store (snd (sample_install "ffff")) = ["Ubuntu"; "Willie"].
Proof. vm_compute. done. Qed.
