(* ===== verification/Transport.v ===== *)
(** * A program inside the distribution, through pipes

    Models crates/willie-engine/src/process.rs: a child of [wsl.exe] with its
    three pipes, the thread that reads its lines (the lines themselves are
    [Console.read_lines]), the channel they wait in, and the text of its
    standard error, read once and kept.  The threads and the child interleave as
    events. *)

From S2P Require Import Prelude Text Utf8 Console Wsl.

Local Open Scope string_scope.
Local Open Scope list_scope.
Local Open Scope willie_scope.

(** ** State *)

(** The pipe to the child while it is open, what was written to it, the lines
    the reader has not passed on yet, the channel, and whether the reader is
    still there; it ends at the end of the child's output or when nobody
    listens. *)
Record LineTransport : Type := mk_transport {
  input : bool;
  written : list string;
  unread : list string;
  channel : list string;
  reading : bool
}.

(** What the child's pipes were when it was spawned, and all that is read of its
    output: to its end, or to the last whole line before a read fails. *)
Record Child : Type := mk_child { stdin_piped : bool; stdout_piped : bool; stdout : string }.

Definition from_child (c : Child) : result LineTransport string :=
  if negb (stdin_piped c) then Err "stdin not piped"
  else if negb (stdout_piped c) then Err "stdout not piped"
  else Ok (mk_transport true [] (read_lines (stdout c)) [] true).

(** ** Operations *)

(** The pipe may be broken. *)
Definition send_line (line : string) (broken : option string) (t : LineTransport) : result unit string * LineTransport :=
  if input t then
    match broken with
    | Some e => (Err e, t)
    | None => (Ok tt, mk_transport (input t) (written t ++ [line +:+ String newline EmptyString]) (unread t) (channel t) (reading t))
    end
  else (Err "input closed", t).

Definition close_input (t : LineTransport) : LineTransport := mk_transport false (written t) (unread t) (channel t) (reading t).

(** [recv_timeout]: a line, the end ([None]), the time; nothing while it waits. *)
Inductive Received : Type := GotLine (line : string) | Closed | TimedOut.

Definition recv_line (expired : bool) (t : LineTransport) : option (Received * LineTransport) :=
  match channel t with
  | l :: ls => Some (GotLine l, mk_transport (input t) (written t) (unread t) ls (reading t))
  | [] => if negb (reading t) then Some (Closed, t) else if expired then Some (TimedOut, t) else None
  end.

(** A turn of the reader: one line, or the end. *)
Definition reader_turn (t : LineTransport) : LineTransport :=
  if reading t then
    match unread t with
    | l :: ls => mk_transport (input t) (written t) ls (channel t ++ [l]) true
    | [] => mk_transport (input t) (written t) [] (channel t) false
    end
  else t.

(** ** The process *)

Record WslProcess : Type := mk_process { stderr_rx : option string; stderr_cache : option string }.

(** The reader of standard error ends, with everything it read. *)
Definition stderr_ends (bytes : string) (p : WslProcess) : WslProcess := mk_process (Some (decode_wsl_output bytes)) (stderr_cache p).

(** The wait of half a second gives what has come, or nothing; what it gives is
    kept. *)
Definition stderr_text (p : WslProcess) : string * WslProcess :=
  match stderr_cache p with
  | Some text => (text, p)
  | None => let text := default EmptyString (stderr_rx p) in (text, mk_process None (Some text))
  end.

(** The exit code, or -1 for none. *)
Definition exit_code (code : option Z) : Z := default (-1)%Z code.

(** ** The two ends interleaved *)

Inductive Turn : Type := Reader | Recv (expired : bool) | CloseInput.

(** What the receiver is given, in order. *)
Fixpoint run (turns : list Turn) (t : LineTransport) : list Received * LineTransport :=
  match turns with
  | [] => ([], t)
  | Reader :: turns => run turns (reader_turn t)
  | CloseInput :: turns => run turns (close_input t)
  | Recv expired :: turns =>
      match recv_line expired t with
      | None => run turns t
      | Some (r, t) => let '(rs, t) := run turns t in (r :: rs, t)
      end
  end.

Definition lines_of (rs : list Received) : list string := omap (fun r => match r with GotLine l => Some l | _ => None end) rs.

(** Every line is in one place, and a reader that has ended left none. *)
Definition tells (all : list string) (got : list string) (t : LineTransport) : Prop :=
  got ++ channel t ++ unread t = all /\ (reading t = false -> unread t = []).

Lemma reader_tells all got t : tells all got t -> tells all got (reader_turn t).
Proof.
  unfold tells, reader_turn. intros [Ha Hr]. destruct (reading t) eqn:E; [|by rewrite E]. destruct (unread t) as [|l ls]; cbn in *; [done|].
  by rewrite <- Ha, <- !app_assoc.
Qed.

Lemma run_tells all turns : forall got t, tells all got t ->
  let '(rs, t') := run turns t in tells all (got ++ lines_of rs) t'
  /\ (Closed ∈ rs -> channel t' = [] /\ reading t' = false)
  /\ (channel t = [] -> reading t = false -> lines_of rs = [] /\ channel t' = [] /\ reading t' = false).
Proof.
  induction turns as [|turn turns IH]; intros got t Ht; cbn [run].
  { rewrite app_nil_r. split; [done|]. split; [by intros ?%elem_of_nil|done]. }
  destruct turn as [|expired|].
  - specialize (IH got _ (reader_tells _ _ _ Ht)). destruct (run turns _) as [rs t']. destruct IH as (H1 & H2 & H3). split; [done|]. split; [done|].
    intros Hc Hr. apply H3; unfold reader_turn; by rewrite Hr.
  - unfold recv_line. destruct (channel t) as [|l ls] eqn:Ec.
    + destruct (reading t) eqn:Er; cbn [negb].
      * destruct expired; [|specialize (IH got t Ht); destruct (run turns t) as [rs t']; by destruct IH as (H1 & H2 & _)].
        specialize (IH got t Ht). destruct (run turns t) as [rs t']. destruct IH as (H1 & H2 & _). split; [done|]. split; [|done].
        by intros [[=]|Hin]%elem_of_cons; apply H2.
      * specialize (IH got t Ht). destruct (run turns t) as [rs t']. destruct IH as (H1 & H2 & H3). destruct (H3 Ec Er) as (Hl & Hc & Hr).
        split; [done|]. split; [done|]. intros _ _. split; [exact Hl|done].
    + set (t1 := mk_transport _ _ _ ls _). assert (tells all (got ++ [l]) t1) as Ht1.
      { destruct Ht as [Ha Hr]. split; [|done]. cbn. rewrite Ec in Ha. by rewrite <- Ha, <- !app_assoc. }
      specialize (IH _ _ Ht1). destruct (run turns t1) as [rs t']. destruct IH as (H1 & H2 & _). cbn [lines_of omap list_omap].
      split; [by rewrite <- app_assoc in H1|]. split; [|done]. by intros [[=]|Hin]%elem_of_cons; apply H2.
  - specialize (IH got (close_input t) Ht). destruct (run turns _) as [rs t']. exact IH.
Qed.

(** The receiver is given the child's lines in order, none twice and none left
    out, whatever the interleaving and however often it times out; it is told
    of the end only once it has been given them all, and forever after. *)
Theorem lines_come_in_order c t turns : from_child c = Ok t ->
  let '(rs, t') := run turns t in
  lines_of rs `prefix_of` read_lines (stdout c) /\ (Closed ∈ rs -> lines_of rs = read_lines (stdout c)).
Proof.
  unfold from_child. destruct (stdin_piped c); [|done]. destruct (stdout_piped c); [|done]. cbn [negb]. intros [= <-].
  pose proof (run_tells (read_lines (stdout c)) turns [] (mk_transport true [] (read_lines (stdout c)) [] true)) as H.
  destruct (run turns _) as [rs t']. destruct H as ((Ha & Hr) & Hc & _); [by split|]. cbn [app] in Ha. split.
  - eexists. by symmetry.
  - intros Hin. destruct (Hc Hin) as [Hch Hre]. by rewrite Hch, (Hr Hre), !app_nil_r in Ha.
Qed.

(** The text of standard error is the same from the first time it is asked for:
    one asked for before the pipe closes stays empty, though the program says
    something after. *)
Theorem stderr_is_kept p : let '(text, p') := stderr_text p in
  (forall bytes, fst (stderr_text (stderr_ends bytes p')) = text)
  /\ (stderr_cache p = None -> stderr_rx p = None -> text = EmptyString).
Proof.
  unfold stderr_text. destruct (stderr_cache p) as [text|] eqn:E; cbn; rewrite ?E; [by split|]. split; [done|]. by intros _ ->.
Qed.
