(* ===== verification/Dispatch.v ===== *)
(** * Requests to the daemon

    Models crates/willied/src/handlers.rs and server.rs: the table of methods,
    what the daemon injects for the plugins, and the loop that answers one
    line at a time.  An operation of another component is an endpoint: the
    decoding of its parameters, what it does to the world, the encoding of its
    answer. *)

From S2P Require Import Prelude Text Json Rpc Effects Git PluginApi Profiles ProfileStore Plugins Workspace BTree Sandbox Session Project Harness DaemonState Jobs Sessions.

Local Open Scope string_scope.
Local Open Scope list_scope.
Local Open Scope willie_scope.

(** ** Data *)

Inductive Origin : Type := Stdio | Socket.

Inductive ExitReason : Type := Eof | Shutdown.

Inductive Inbound : Type := Line (text : string) (origin : Origin) (replies : bool) | StdinClosed.

Record Hello : Type := mk_hello { client : string; willie_version : string; protocol_version : Z }.

Definition PLUGIN_METHOD_PREFIX : string := "profile.".
Definition USAGE_METHOD_PREFIX : string := "usage.".

(** ** Errors *)

Definition rpc (code message : string) : RpcError := mk_rpc code message None.

Definition internal (e : string) : RpcError := rpc "internal_error" e.

Definition invalid_params (e : string) : RpcError := rpc "invalid_params" e.

Definition op_error (e : OpError) : RpcError := mk_rpc (o_code e) (o_message e) (Some (o_remediation e)).

Definition capability_error (e : CapabilityError) : RpcError := op_error (from_capability e).

Definition ws_error (e : WsError) : RpcError :=
  mk_rpc (Workspace.code e) (Workspace.message e) (Some (Workspace.remediation e)).

(** ** Endpoints *)

(** Decode, operate, encode: the shape of most handlers. *)
Record Endpoint (W : Type) : Type := mk_endpoint {
  Params : Type;
  Answer : Type;
  from_value : Json -> result Params string;
  operate : Params -> W -> result Answer OpError * W;
  to_value : Answer -> result Json string
}.

Arguments Params {W}.
Arguments Answer {W}.
Arguments from_value {W}.
Arguments operate {W}.
Arguments to_value {W}.

Definition serve_endpoint {W} (e : Endpoint W) (p : Json) (w : W) : result Json RpcError * W :=
  match from_value e p with
  | Err m => (Err (invalid_params m), w)
  | Ok q =>
      let '(r, w) := operate e q w in
      (match r with Err x => Err (op_error x) | Ok a => map_err internal (to_value e a) end, w)
  end.

(** What the daemon's other components give the dispatcher. *)
Record Services (W : Type) : Type := mk_services {
  state_of : W -> State;
  v_add : Endpoint W; v_remove : Endpoint W; v_sync : Endpoint W; v_update : Endpoint W; v_relocate : Endpoint W;
  v_rename : Endpoint W; v_set_sandbox : Endpoint W; v_install : Endpoint W; v_tool_update : Endpoint W;
  v_session_create : Endpoint W; v_session_stop : Endpoint W; v_session_rename : Endpoint W;
  list_tools : W -> result Json string;
  list_sessions : W -> result Json string * W;
  cancel_job : N -> W -> W;
  refresh_source_present : W -> W;
  title_untitled : W -> W;
  health_reply : W -> result Json string;
  doctor_report : W -> result Json string * W;
  image_version : W -> option string
}.

Arguments state_of {W}.
Arguments v_add {W}. Arguments v_remove {W}. Arguments v_sync {W}. Arguments v_update {W}. Arguments v_relocate {W}.
Arguments v_rename {W}. Arguments v_set_sandbox {W}. Arguments v_install {W}. Arguments v_tool_update {W}.
Arguments v_session_create {W}. Arguments v_session_stop {W}. Arguments v_session_rename {W}.
Arguments list_tools {W}. Arguments list_sessions {W}. Arguments cancel_job {W}. Arguments refresh_source_present {W}.
Arguments title_untitled {W}. Arguments health_reply {W}. Arguments doctor_report {W}. Arguments image_version {W}.

(** serde's decoding and encoding of the records the handlers themselves use. *)
Record Codec : Type := mk_codec {
  hello_of : Json -> result Hello string;
  job_id_of : Json -> result N string;
  project_id_of : string -> result N string;
  explain_of : Json -> result N string;
  tree_of : Json -> result (N * option string) string;
  read_file_of : Json -> result (N * string) string;
  enable_of : Json -> result EnableParams string;
  projects_json : list Project -> result Json string;
  jobs_json : list Job -> result Json string;
  job_json : Job -> result Json string;
  explained_json : list Explained -> CapabilitySet -> result Json string;
  tree_json : list TreeEntry -> option string -> result Json string;
  file_json : string -> bool -> result Json string;
  status_json : PluginStatus -> Json;
  snapshot_json : Snapshot -> list PluginStatus -> result Json string;
  hello_json : string -> Z -> option string -> result Json string
}.

(** ** The handlers *)

Section dispatch.
  Context {W : Type} (v : Services W) (k : Codec).
  Context (show : N -> string) (home VERSION : string).
  (** The file system and git as the plugin host and the workspace reads use
      them. *)
  Context (create_dirs : string -> W -> bool * W) (write_file : string -> string -> W -> bool * W)
    (print_enabled : gmap string EnabledEntry -> result string string).
  Context (canonicalize : string -> W -> result string string) (read_dir : string -> W -> option (list (string * option bool)))
    (metadata : string -> W -> Metadata) (open : string -> W -> result string string)
    (to_lowercase : string -> string) (git_run : string -> list string -> W -> Output).
  Context (from_request : string -> result RpcRequest string).

(** The daemon behind the dispatcher. *)
Record Server : Type := mk_server { host : PluginHost (W := W); world : W; shutting_down : bool }.

Definition Reply : Type := result Json RpcError.

Definition hello (p : Json) (w : W) : Reply :=
  match hello_of k p with
  | Err e => Err (rpc "invalid_params" ("hello: " +:+ e))
  | Ok h =>
      if negb (protocol_version h =? PROTOCOL_VERSION)%Z then
        Err (mk_rpc "protocol_version_mismatch"
          ("client speaks protocol " +:+ pretty (protocol_version h) +:+ ", daemon speaks " +:+ pretty PROTOCOL_VERSION)
          (Some "update Willie so engine and daemon share a version"))
      else map_err internal (hello_json k VERSION PROTOCOL_VERSION (image_version v w))
  end.

Definition job_id (p : Json) : result N RpcError :=
  match value_get "id" p with
  | Some x => map_err invalid_params (job_id_of k x)
  | None => Err (rpc "invalid_params" "missing field `id`")
  end.

Definition find_project (id : N) (w : W) : result Project RpcError :=
  ok_or (op_error (not_found_err show id)) (get id (DaemonState.projects (state_of v w))).

Definition project_list (w : W) : Reply := map_err internal (projects_json k (values (DaemonState.projects (state_of v w)))).

Definition status_flags (workspace : string) (w : W) : gmap string string :=
  match run_result (git_run workspace ["status"; "--porcelain=v1"; "--untracked-files=all"] w) with
  | Ok out => parse_porcelain out
  | Err _ => ∅
  end.

Definition branch_of (workspace : string) (w : W) : option string :=
  match run_result (git_run workspace ["symbolic-ref"; "--short"; "HEAD"] w) with Ok out => Some (trim out) | Err _ => None end.

Definition project_tree (p : Json) (w : W) : Reply :=
  let? q := map_err invalid_params (tree_of k p) in
  let? project := find_project (fst q) w in
  let workspace := Project.workspace project in
  let rel := default EmptyString (snd q) in
  let? dir := map_err ws_error (resolve_within canonicalize workspace rel w) in
  map_err internal (tree_json k (list_dir read_dir to_lowercase dir (status_flags workspace w) rel w) (branch_of workspace w)).

Definition project_read_file (p : Json) (w : W) : Reply :=
  let? q := map_err invalid_params (read_file_of k p) in
  let? project := find_project (fst q) w in
  let? file := map_err ws_error (resolve_within canonicalize (Project.workspace project) (snd q) w) in
  let? r := map_err ws_error (read_text metadata open file w) in
  map_err internal (file_json k (fst r) (snd r)).

Definition job_list (w : W) : Reply := map_err internal (jobs_json k (values (DaemonState.jobs (state_of v w)))).

Definition job_get (p : Json) (w : W) : Reply :=
  let? id := job_id p in
  let? job := ok_or (mk_rpc "job_not_found" ("no job with id `" +:+ id_display show KJob id +:+ "`")
                (Some "check the job id against state.snapshot")) (get id (DaemonState.jobs (state_of v w))) in
  map_err internal (job_json k job).

Definition job_cancel (p : Json) (w : W) : Reply * W :=
  match job_id p with Err e => (Err e, w) | Ok id => (Ok JNull, cancel_job v id w) end.

Definition sandbox_explain (p : Json) (w : W) : Reply :=
  let? id := map_err invalid_params (explain_of k p) in
  let? project := find_project id w in
  let? _ := match Project.sandbox_problem project with Some problem => Err (op_error (from_problem problem)) | None => Ok tt end in
  let defaults := Harness.default_capabilities ClaudeCode in
  let? capabilities := map_err capability_error (resolve defaults (Project.sandbox project) home) in
  let? entries := map_err capability_error (explain defaults (Project.sandbox project) home) in
  map_err internal (explained_json k entries capabilities).

Definition project_add : Json -> W -> Reply * W := serve_endpoint (v_add v).

Definition project_remove : Json -> W -> Reply * W := serve_endpoint (v_remove v).

Definition project_sync : Json -> W -> Reply * W := serve_endpoint (v_sync v).

Definition project_update : Json -> W -> Reply * W := serve_endpoint (v_update v).

Definition project_relocate : Json -> W -> Reply * W := serve_endpoint (v_relocate v).

Definition project_rename : Json -> W -> Reply * W := serve_endpoint (v_rename v).

Definition project_set_sandbox : Json -> W -> Reply * W := serve_endpoint (v_set_sandbox v).

Definition tool_install : Json -> W -> Reply * W := serve_endpoint (v_install v).

Definition tool_update : Json -> W -> Reply * W := serve_endpoint (v_tool_update v).

Definition session_create : Json -> W -> Reply * W := serve_endpoint (v_session_create v).

Definition session_stop : Json -> W -> Reply * W := serve_endpoint (v_session_stop v).

Definition session_rename : Json -> W -> Reply * W := serve_endpoint (v_session_rename v).

Definition health (w : W) : Reply := map_err internal (health_reply v w).

Definition doctor (w : W) : Reply * W := let '(r, w) := doctor_report v w in (map_err internal r, w).

Definition tool_list (w : W) : Reply := map_err internal (list_tools v w).

Definition session_list (w : W) : Reply * W := let '(r, w) := list_sessions v w in (map_err internal r, w).

Definition plugin_list (s : Server) : Reply := Ok (JArray (map (status_json k) (list_plugins (host s)))).

Definition plugin_set (on : bool) (p : Json) (s : Server) : Reply * Server :=
  match enable_of k p with
  | Err e => (Err (invalid_params e), s)
  | Ok params =>
      let '(r, h, w) := set_enabled create_dirs write_file print_enabled params on (host s) (world s) in
      (match r with Ok st => Ok (status_json k st) | Err e => Err (op_error e) end, mk_server h w (shutting_down s))
  end.

Definition plugin_handle (m : string) (p : Json) (s : Server) : Reply * Server :=
  let '(r, h, w) := Plugins.handle create_dirs m p (host s) (world s) in
  (map_err op_error r, mk_server h w (shutting_down s)).

(** ** What the daemon injects *)

Definition harness_settings_path : string := path_join home ".willie/agent-state/claude/dot-claude/settings.json".

Definition strip (keys : list string) (p : Json) : Json :=
  match p with JObject m => JObject (foldl (fun m key => remove_entry key m) m keys) | _ => p end.

Definition inject (entries : list (string * Json)) (p : Json) : Json :=
  match p with JObject m => JObject (foldl (fun m e => insert_entry (fst e) (snd e) m) m entries) | _ => p end.

Definition raw_project_id (p : Json) : option string :=
  match value_get "project_id" p with Some (JString raw) => Some raw | _ => None end.

Definition resolve_profile_targets (p : Json) (w : W) : result Json RpcError :=
  let p := strip ["_workspace"; "_harness_settings"] p in
  match raw_project_id p with
  | None => Ok p
  | Some raw =>
      let? id := map_err invalid_params (project_id_of k raw) in
      let? project := find_project id w in
      Ok (inject [("_workspace", JString (Project.workspace project)); ("_harness_settings", JString harness_settings_path)] p)
  end.

Definition profile_handle (m : string) (p : Json) (s : Server) : Reply * Server :=
  match resolve_profile_targets p (world s) with
  | Err e => (Err e, s)
  | Ok p => plugin_handle m p s
  end.

Definition epoch (s : string) : option Z := parse_unsigned u64_max s.

Definition usage_target (s : Session) : Json :=
  JObject [("id", JString (id_display show KSession (Session.id s))); ("project_id", JString (id_display show KProject (Session.project_id s)));
    ("workspace", JString (Session.workspace s));
    ("window", JArray [JNumber (Int (default 0%Z (epoch (Session.created_at s))));
                       match Session.finished_at s ≫= epoch with Some t => JNumber (Int t) | None => JNull end])].

Definition enrich_usage_targets (p : Json) (w : W) : Json :=
  let p := match p with JObject _ => p | _ => JObject [] end in
  let p := strip ["_sessions"; "_home"] p in
  let targets := map usage_target
    (List.filter (fun s => bool_decide (Session.kind s = Agent)) (values (DaemonState.sessions (state_of v w)))) in
  inject [("_sessions", JArray targets); ("_home", JString home)] p.

Definition usage_handle (m : string) (p : Json) (s : Server) : Reply * Server :=
  plugin_handle m (enrich_usage_targets p (world s)) s.

Definition state_snapshot (s : Server) : Reply * Server :=
  let w := title_untitled v (refresh_source_present v (world s)) in
  (map_err internal (snapshot_json k (snapshot (state_of v w)) (list_plugins (host s))), mk_server (host s) w (shutting_down s)).

(** ** Dispatch *)

Definition on_world (r : Reply * W) (s : Server) : Reply * Server := (fst r, mk_server (host s) (snd r) (shutting_down s)).

Definition reading (r : W -> Reply) (s : Server) : Reply * Server := (r (world s), s).

(** The methods with an arm of their own. *)
Definition table : list (string * (Json -> Server -> Reply * Server)) :=
  let op (h : Json -> W -> Reply * W) := fun p s => on_world (h p (world s)) s in
  [("daemon.hello", fun p => reading (hello p));
   ("daemon.health", fun _ => reading health);
   ("daemon.doctor", fun _ s => on_world (doctor (world s)) s);
   ("daemon.shutdown", fun _ s => (Ok JNull, mk_server (host s) (world s) true));
   ("project.add", op project_add); ("project.remove", op project_remove); ("project.sync_to_windows", op project_sync);
   ("project.update_from_windows", op project_update); ("project.relocate", op project_relocate);
   ("project.rename", op project_rename); ("project.set_sandbox", op project_set_sandbox);
   ("project.list", fun _ => reading project_list);
   ("project.tree", fun p => reading (project_tree p));
   ("project.read_file", fun p => reading (project_read_file p));
   ("job.list", fun _ => reading job_list); ("job.get", fun p => reading (job_get p));
   ("job.cancel", op job_cancel);
   ("tool.install", op tool_install); ("tool.list", fun _ => reading tool_list);
   ("tool.update", op tool_update);
   ("session.create", op session_create); ("session.stop", op session_stop);
   ("session.rename", op session_rename);
   ("session.list", fun _ s => on_world (session_list (world s)) s);
   ("sandbox.explain", fun p => reading (sandbox_explain p));
   ("plugin.list", fun _ s => (plugin_list s, s));
   ("plugin.enable", fun p => plugin_set true p); ("plugin.disable", fun p => plugin_set false p);
   ("state.snapshot", fun _ => state_snapshot)].

Definition route (m : string) : option (Json -> Server -> Reply * Server) :=
  match List.find (fun e => bool_decide (fst e = m)) table with
  | Some e => Some (snd e)
  | None =>
      if starts_with USAGE_METHOD_PREFIX m then Some (usage_handle m)
      else if starts_with PLUGIN_METHOD_PREFIX m then Some (profile_handle m)
      else None
  end.

Definition method_not_found (m : string) : RpcError :=
  mk_rpc "method_not_found" ("unknown method `" +:+ m +:+ "`") (Some "see docs/PROTOCOL.md for the served methods").

Definition dispatch (q : RpcRequest) (s : Server) : Response * Server :=
  let '(r, s) := match route (q_method q) with
                 | Some h => h (q_params q) s
                 | None => (Err (method_not_found (q_method q)), s)
                 end in
  (respond (q_id q) r, s).

Definition not_served : RpcError :=
  mk_rpc "method_not_served" "`daemon.shutdown` is the engine's; the daemon stops with the app"
    (Some "restart the daemon from the Dashboard").

Definition from_socket (o : Origin) : bool := match o with Socket => true | Stdio => false end.

Definition dispatch_from (o : Origin) (q : RpcRequest) (s : Server) : Response * Server :=
  if from_socket o && bool_decide (q_method q = "daemon.shutdown") then (respond (q_id q) (Err not_served), s)
  else dispatch q s.

(** ** The loop *)

Definition answer_line (text : string) (o : Origin) (s : Server) : Response * Server :=
  match from_request text with
  | Ok q => dispatch_from o q s
  | Err e => (respond 0 (Err (rpc "invalid_request" ("not a JSON-RPC request: " +:+ e))), s)
  end.

(** The replies in the order they leave, each with its way out. *)
Fixpoint serve_inbound (msgs : list Inbound) (s : Server) : ExitReason * list (Origin * Response) * Server :=
  match msgs with
  | [] => (Eof, [], s)
  | StdinClosed :: _ => (Eof, [], s)
  | Line text o replies :: msgs =>
      if is_empty (trim text) then serve_inbound msgs s
      else
        let '(response, s) := answer_line text o s in
        let sent := if from_socket o && negb replies then [] else [(o, response)] in
        if shutting_down s then (Shutdown, sent, s)
        else let '(exit, out, s) := serve_inbound msgs s in (exit, sent ++ out, s)
  end.
(** ** The loop's answers *)

Definition stops_at (m : string) : bool := bool_decide (m = "daemon.shutdown").

(** The profile plugin serves its whole name space, and nothing else of it is
    in the table. *)
Lemma profile_methods_routed m : starts_with PLUGIN_METHOD_PREFIX m = true -> route m = Some (profile_handle m).
Proof.
  intros Hm. pose proof Hm as H. apply starts_with_spec in H as [r ->]. unfold route.
  assert (Hf : List.find (fun e => bool_decide (fst e = PLUGIN_METHOD_PREFIX +:+ r)) table = None).
  { unfold table. cbn [List.find fst]. by rewrite !bool_decide_eq_false_2 by discriminate. }
  rewrite Hf, Hm. reflexivity.
Qed.

(** Only one entry of the table touches the flag. *)
Lemma table_flags : Forall (fun e => forall p s, shutting_down (snd (snd e p s)) = shutting_down s || stops_at (fst e)) table.
Proof.
  unfold table. repeat constructor; intros p s; cbn [fst snd].
  all: try (symmetry; apply orb_true_r).
  all: rewrite orb_false_r; try reflexivity.
  - unfold plugin_set. destruct (enable_of k p); [|done]. by destruct (set_enabled _ _ _ _ _ _ _) as [[r h] w].
  - unfold plugin_set. destruct (enable_of k p); [|done]. by destruct (set_enabled _ _ _ _ _ _ _) as [[r h] w].
Qed.

Lemma plugin_handle_flag m p s : shutting_down (snd (plugin_handle m p s)) = shutting_down s.
Proof. unfold plugin_handle. by destruct (Plugins.handle _ _ _ _ _) as [[r h] w]. Qed.

Lemma dispatch_flag q s : shutting_down (snd (dispatch q s)) = shutting_down s || stops_at (q_method q).
Proof.
  unfold dispatch, route. destruct (List.find _ table) as [e|] eqn:Ef.
  - apply List.find_some in Ef as [Hin He%bool_decide_eq_true]. apply list_elem_of_In in Hin.
    pose proof (proj1 (Forall_forall _ _) table_flags e Hin (q_params q) s) as H. rewrite <- He.
    destruct (snd e (q_params q) s) as [r s']. exact H.
  - assert (Hs : stops_at (q_method q) = false).
    { unfold stops_at. apply bool_decide_eq_false. intros E. rewrite E in Ef. discriminate Ef. }
    rewrite Hs, orb_false_r. destruct (starts_with USAGE_METHOD_PREFIX _).
    + unfold usage_handle. pose proof (plugin_handle_flag (q_method q) (enrich_usage_targets (q_params q) (world s)) s) as H.
      destruct (plugin_handle _ _ s) as [r s']. exact H.
    + destruct (starts_with PLUGIN_METHOD_PREFIX _); [|done]. unfold profile_handle.
      destruct (resolve_profile_targets _ _) as [p|]; [|done]. pose proof (plugin_handle_flag (q_method q) p s) as H.
      destruct (plugin_handle _ _ s) as [r s']. exact H.
Qed.

(** A line that ends the loop, and what its reply is filed under. *)
Definition ends_loop (text : string) (o : Origin) : bool :=
  match from_request text with Ok q => negb (from_socket o) && stops_at (q_method q) | Err _ => false end.

Definition line_id (text : string) : Z := match from_request text with Ok q => q_id q | Err _ => 0 end.

(** The lines answered: up to the end of the input or the line that ends the
    loop, less the blank ones. *)
Fixpoint answered_lines (msgs : list Inbound) : list (string * Origin * bool) :=
  match msgs with
  | [] | StdinClosed :: _ => []
  | Line text o replies :: msgs =>
      if is_empty (trim text) then answered_lines msgs
      else (text, o, replies) :: if ends_loop text o then [] else answered_lines msgs
  end.

Definition addressed (l : string * Origin * bool) : option (Origin * Z) :=
  let '(text, o, replies) := l in if from_socket o && negb replies then None else Some (o, line_id text).

Lemma answer_line_spec text o s :
  a_id (fst (answer_line text o s)) = line_id text /\
  shutting_down (snd (answer_line text o s)) = shutting_down s || ends_loop text o.
Proof.
  unfold answer_line, line_id, ends_loop. destruct (from_request text) as [q|e]; [|by rewrite orb_false_r].
  unfold dispatch_from. destruct (from_socket o) eqn:Eo, (bool_decide (q_method q = "daemon.shutdown")) eqn:Em;
    cbn [andb negb fst snd a_id]; rewrite ?orb_false_r; try done.
  all: try (split; [unfold dispatch; destruct (match route _ with Some _ => _ | None => _ end) as [r ?]; apply respond_outcome|]).
  - rewrite dispatch_flag. unfold stops_at. by rewrite Em, orb_false_r.
  - rewrite dispatch_flag. done.
  - rewrite dispatch_flag. done.
Qed.

(** C38. The loop answers every line once, in order, under the request's own id
    or zero, on the way it came in, until its input ends or the engine asks
    the daemon to stop; nothing after that is answered, and a socket can
    never stop it. *)
Theorem serve_answers_in_order msgs s : shutting_down s = false ->
  let '(exit, out, s') := serve_inbound msgs s in
  map (fun x => (fst x, a_id (snd x))) out = omap addressed (answered_lines msgs) /\
  (exit = Shutdown <-> exists text replies, (text, Stdio, replies) ∈ answered_lines msgs /\ ends_loop text Stdio = true) /\
  (exit = Shutdown <-> shutting_down s' = true).
Proof.
  revert s. induction msgs as [|[text o replies|] msgs IH]; intros s Hs; cbn [serve_inbound answered_lines].
  - split; [done|]. split; split; try done; [by intros (? & ? & ?%elem_of_nil & _)|by rewrite Hs].
  - destruct (is_empty (trim text)); [by apply IH|].
    destruct (answer_line_spec text o s) as [Hid Hf]. destruct (answer_line text o s) as [response s1]. cbn [fst snd] in *.
    rewrite Hs in Hf. cbn [orb] in Hf. rewrite Hf.
    assert (Hsent : forall rest, map (fun x : Origin * Response => (fst x, a_id (snd x))) (if from_socket o && negb replies then [] else [(o, response)])
      ++ rest = match addressed (text, o, replies) with Some a => a :: rest | None => rest end).
    { intros rest. unfold addressed. destruct (from_socket o && negb replies); [done|]. cbn. by rewrite Hid. }
    destruct (ends_loop text o) eqn:Ee.
    + split; [specialize (Hsent []); rewrite app_nil_r in Hsent; rewrite Hsent; cbn; by destruct (from_socket o && negb replies)|].
      split; [|by rewrite Hf]. split; [|done]. intros _. exists text, replies.
      assert (o = Stdio) as -> by (unfold ends_loop in Ee; destruct (from_request text); [|done]; by destruct o). split; [by left|done].
    + specialize (IH s1 Hf). destruct (serve_inbound msgs s1) as [[exit out] s'] eqn:Er. destruct IH as (Ho & Hx & Hd).
      split; [rewrite map_app, Hsent, Ho; cbn; by destruct (from_socket o && negb replies)|]. split; [|done]. rewrite Hx.
      split; intros (t & b & Hin & Ht); exists t, b.
      * split; [by right|done].
      * apply elem_of_cons in Hin as [[= -> <- ->]|Hin]; [congruence|done].
  - split; [done|]. split; split; try done; [by intros (? & ? & ?%elem_of_nil & _)|by rewrite Hs].
Qed.

(** ** What the plugins are told *)

Lemma get_strip key ks : forall m, NoDup (Json.keys m) -> NoDup (Json.keys (foldl (fun m key => remove_entry key m) m ks)) /\
  Json.get key (foldl (fun m key => remove_entry key m) m ks) = if bool_decide (key ∈ ks) then None else Json.get key m.
Proof.
  induction ks as [|x ks IH]; intros m Hd; cbn [foldl]; [by rewrite bool_decide_false by (by apply not_elem_of_nil)|].
  destruct (remove_entry_spec x m Hd) as (Hd' & Hx & Hne). destruct (IH _ Hd') as [H1 H2]. split; [done|]. rewrite H2.
  destruct (decide (key ∈ ks)) as [Hk|Hk].
  - rewrite !bool_decide_true; [done|by right|done].
  - rewrite bool_decide_false by done. destruct (decide (key = x)) as [->|Hn].
    + rewrite bool_decide_true by (by left). done.
    + rewrite bool_decide_false, Hne; [done|done|]. rewrite elem_of_cons. by intros [?|?].
Qed.

(** The workspace and settings the parameters name. *)
Definition told (m : Entries) : option Json * option Json := (Json.get "_workspace" m, Json.get "_harness_settings" m).

(** A [profile] request with named parameters reaches the plugin with the
    daemon's own targets: those of the project it names, or none, whatever the
    caller put there; an unknown project is refused; every other parameter is
    passed as it came. *)
Theorem profile_targets_are_the_daemons m w : NoDup (Json.keys m) ->
  match resolve_profile_targets (JObject m) w with
  | Ok p => exists m', p = JObject m' /\
      (forall key, key <> "_workspace" -> key <> "_harness_settings" -> Json.get key m' = Json.get key m) /\
      match raw_project_id (JObject m) with
      | None => told m' = (None, None)
      | Some raw => exists id project, project_id_of k raw = Ok id /\ get id (DaemonState.projects (state_of v w)) = Some project /\
          told m' = (Some (JString (Project.workspace project)), Some (JString harness_settings_path))
      end
  | Err e => exists raw, raw_project_id (JObject m) = Some raw /\
      forall id, project_id_of k raw = Ok id -> get id (DaemonState.projects (state_of v w)) = None /\ e = op_error (not_found_err show id)
  end.
Proof.
  intros Hd. unfold resolve_profile_targets. cbn [strip].
  set (m0 := foldl (fun m key => remove_entry key m) m ["_workspace"; "_harness_settings"]).
  assert (Hg : forall key, Json.get key m0 = if bool_decide (key ∈ ["_workspace"; "_harness_settings"]) then None else Json.get key m).
  { intros key. apply get_strip. done. }
  assert (Hr : raw_project_id (JObject m0) = raw_project_id (JObject m)).
  { unfold raw_project_id, value_get. by rewrite Hg. }
  rewrite Hr. destruct (raw_project_id (JObject m)) as [raw|].
  - destruct (project_id_of k raw) as [id|e] eqn:Ei; cbn [map_err]; [|exists raw; rewrite Ei; split; [done|]; intros id' H; discriminate H].
    unfold find_project. destruct (get id _) as [project|] eqn:Eg; cbn [ok_or].
    + cbn [inject foldl fst snd]. eexists. split; [done|]. split.
      * intros key H1 H2. rewrite !get_insert_ne, Hg by done. rewrite bool_decide_false; [done|].
        rewrite !elem_of_cons. by intros [?|[?|?%elem_of_nil]].
      * exists id, project. split; [done|]. split; [done|]. unfold told. by rewrite get_insert, get_insert_ne, get_insert.
    + exists raw. split; [done|]. rewrite Ei. intros id' [= <-]. done.
  - exists m0. split; [done|]. split; [|unfold told; by rewrite !Hg].
    intros key H1 H2. rewrite Hg, bool_decide_false; [done|]. rewrite !elem_of_cons. by intros [?|[?|?%elem_of_nil]].
Qed.

(** A [usage] request, whatever its parameters are, tells the plugin of the
    daemon's home and of every agent's session once, in the order of the index:
    its workspace, the second it was created (0 if that cannot be read), and the
    second it ended, or null. *)
Theorem usage_targets_are_the_daemons p w :
  let agents := List.filter (fun s => bool_decide (Session.kind s = Agent)) (values (DaemonState.sessions (state_of v w))) in
  exists m, enrich_usage_targets p w = JObject m /\
    Json.get "_home" m = Some (JString home) /\
    Json.get "_sessions" m = Some (JArray (map (fun s =>
      JObject [("id", JString (id_display show KSession (Session.id s))); ("project_id", JString (id_display show KProject (Session.project_id s)));
        ("workspace", JString (Session.workspace s));
        ("window", JArray [JNumber (Int (match parse_unsigned u64_max (Session.created_at s) with Some t => t | None => 0%Z end));
           match Session.finished_at s with
           | Some f => match parse_unsigned u64_max f with Some t => JNumber (Int t) | None => JNull end
           | None => JNull
           end])]) agents)) /\
    (forall m0, p = JObject m0 -> forall key, NoDup (Json.keys m0) -> key <> "_sessions" -> key <> "_home" -> Json.get key m = Json.get key m0).
Proof.
  cbn zeta. unfold enrich_usage_targets. set (m1 := match p with JObject m => m | _ => [] end).
  replace (match p with JObject _ => p | _ => JObject [] end) with (JObject m1) by (by destruct p).
  cbn [strip inject foldl fst snd]. eexists. split; [reflexivity|]. split; [apply get_insert|].
  split.
  - rewrite get_insert_ne, get_insert by done. do 2 f_equal. apply map_ext. intros s. unfold usage_target, epoch.
    destruct (Session.finished_at s); reflexivity.
  - intros m0 -> key Hd H1 H2. rewrite !get_insert_ne by done. subst m1.
    destruct (get_strip key ["_sessions"; "_home"] m0 Hd) as [_ H]. cbn [foldl] in H. rewrite H, bool_decide_false; [done|].
    rewrite !elem_of_cons. by intros [?|[?|?%elem_of_nil]].
Qed.

(** [sandbox.explain] tells what a session would run under: it answers with
    the capabilities [session.create] resolves for the project, and refuses
    with the same code a project whose policy does not resolve. *)
Theorem explain_tells_the_session p w id project : explain_of k p = Ok id ->
  get id (DaemonState.projects (state_of v w)) = Some project -> Project.sandbox_problem project = None ->
  match session_capabilities home (Harness.default_capabilities ClaudeCode) (Project.sandbox project) with
  | Ok caps => exists entries, sandbox_explain p w = map_err internal (explained_json k entries caps) /\
      forall e, e ∈ entries -> e_enabled e = Sandbox.enabled caps (capability e)
  | Err e => sandbox_explain p w = Err (op_error e)
  end.
Proof.
  intros He Hg Hp. unfold sandbox_explain, session_capabilities, find_project, explain. rewrite He. cbn [map_err]. rewrite Hg. cbn [ok_or].
  rewrite Hp. destruct (resolve _ _ home) as [caps|e]; cbn [map_err]; [|done]. eexists. split; [done|].
  intros e Hin. apply list_elem_of_fmap in Hin as (c & -> & _). done.
Qed.
End dispatch.

(** ** At concrete inputs *)

(** A world of files with no project in the daemon's state, and the profiles
    plugin over it. *)
Definition read_of (f : string) (w : files) : ReadAnswer := match w !! f with Some s => Contents s | None => NotFound end.

Definition named_profile : Profiles.Profile := Profiles.mk_profile "team" (mk_fragments false ScopeProject true [] [] false).

(** serde's derived decoding of [ApplyParams]: an object by names, an array by
    positions. *)
Definition derived_apply (p : Json) : result ApplyParams string :=
  match p with
  | JObject m =>
      match Json.get "name" m, Json.get "_workspace" m with
      | Some (JString n), Some (JString ws) =>
          Ok (mk_apply_params n ws (match Json.get "_harness_settings" m with Some (JString h) => Some h | _ => None end))
      | _, _ => Err "missing field"
      end
  | JArray [JString n; JString ws] | JArray [JString n; JString ws; JNull] => Ok (mk_apply_params n ws None)
  | JArray [JString n; JString ws; JString h] => Ok (mk_apply_params n ws (Some h))
  | _ => Err "invalid type"
  end.

Definition no_decoder {A} (_ : Json) : result A string := Err "unused".

Definition sample_profiles : Plugin files :=
  mk_plugin ProfileStore.manifest (fun _ w => (mk_call [] (Some (Ok tt)), w)) (fun _ w => (mk_call [] (Some (Ok tt)), w))
    (fun q w =>
       let '(r, w) := ProfileStore.handle (fun _ w => w) read_of read_of (fun _ _ => true) (fun f w => bool_decide (is_Some (w !! f)))
         (fun f w => bool_decide (is_Some (w !! f))) (fun _ _ => NoDir) (fun f s w => (None, <[f := s]> w)) (fun _ w => (None, w))
         (fun _ _ w => w) (fun _ _ w => (NoSpawn "unused", w)) (fun _ => (1%N, 0%N)) (fun _ => Ok named_profile) (fun _ => Ok EmptyString)
         (fun _ => Err "unused") (fun _ => Err "unused") (Build_Decoders no_decoder no_decoder no_decoder derived_apply no_decoder)
         (fun s => s) "/s/plugins/profile" q (Effects.mk_world w 0 []) in
       (mk_call [] (Some r), Effects.store w))
    (fun _ w => (mk_call [] (Some (Ok tt)), w)).

Definition no_endpoint : Endpoint files :=
  mk_endpoint files unit unit no_decoder (fun _ w => (Ok tt, w)) (fun _ => Ok JNull).

Definition sample_services : Services files :=
  let e := no_endpoint in
  mk_services files (fun _ => state_new) e e e e e e e e e e e e (fun _ => Ok JNull) (fun w => (Ok JNull, w)) (fun _ w => w) (fun w => w)
    (fun w => w) (fun _ => Ok JNull) (fun w => (Ok JNull, w)) (fun _ => None).

Definition sample_codec : Codec :=
  mk_codec no_decoder no_decoder (fun _ => Err "unused") (fun _ => Ok 1%N) no_decoder no_decoder no_decoder (fun _ => Ok JNull) (fun _ => Ok JNull)
    (fun _ => Ok JNull) (fun _ _ => Ok JNull) (fun _ _ => Ok JNull) (fun _ _ => Ok JNull) (fun _ => JNull) (fun _ _ => Ok JNull)
    (fun _ _ _ => Ok JNull).

Definition sample_world : files :=
  <["/s/plugins/profile/team/profile.toml" := EmptyString]> (<["/s/plugins/profile/team/CLAUDE.md" := "Obey."]> ∅).

Definition sample_server : Server :=
  mk_server (mk_host [sample_profiles] {["profile" := Plugins.mk_entry None [1%N]]} ∅ "/s") sample_world false.

Definition sample_dispatch : RpcRequest -> Server -> Response * Server :=
  dispatch sample_services sample_codec pretty "/home/willie" "1.0" (fun _ w => (true, w)) (fun _ _ w => (true, w)) (fun _ => Ok EmptyString)
    (fun f _ => Ok f) (fun _ _ => None) (fun _ _ => NoMetadata EmptyString) (fun _ _ => Err EmptyString) (fun s => s)
    (fun _ _ _ => NoSpawn EmptyString).

Definition smuggled : RpcRequest := mk_rpc_request 7 "profile.apply" (JArray [JString "team"; JString "/elsewhere"; JNull]).

Definition named : RpcRequest :=
  mk_rpc_request 8 "profile.apply" (JObject [("name", JString "team"); ("_workspace", JString "/elsewhere")]).

(** Only named parameters are cleaned: a caller who sends [profile.apply]
    its parameters by position keeps its own workspace, which serde's derived
    decoding takes, so a profile is applied outside every project; sent by
    name the same workspace is refused. *)
Theorem positional_params_keep_their_workspace :
  is_ok (a_outcome (fst (sample_dispatch smuggled sample_server))) = true /\
  world (snd (sample_dispatch smuggled sample_server)) !! "/elsewhere/CLAUDE.md" = Some (marker_block "Obey." +:+ nl) /\
  is_ok (a_outcome (fst (sample_dispatch named sample_server))) = false /\
  world (snd (sample_dispatch named sample_server)) !! "/elsewhere/CLAUDE.md" = None.
Proof. vm_compute. done. Qed.

(** Disabling the plugin for one project leaves its methods answering for that
    project while another has it enabled. *)
Theorem disabled_for_a_project_still_answers :
  let h := mk_host [sample_profiles] {["profile" := Plugins.mk_entry None [1%N; 2%N]]} ∅ "/s" in
  let '(r, h', w) := set_enabled (fun _ w => (true, w)) (fun _ _ w => (true, w)) (fun _ => Ok EmptyString)
    (mk_enable "profile" (Some 1%N)) false h sample_world in
  is_ok r = true /\ map st_enabled (list_plugins h') = [EnabledIn [2%N]] /\
  is_ok (fst (fst (Plugins.handle (fun _ w => (true, w)) "profile.apply" (JArray [JString "team"; JString "/of/project/1"]) h' w))) = true.
Proof. vm_compute. done. Qed.

(** *** The hypotheses of the general theorems *)

Definition quiet_input : list Inbound := [Line "a" Socket true; Line "b" Stdio false; StdinClosed; Line "c" Stdio false].

Definition sample_serve (s : Server) : ExitReason * list (Origin * Response) * Server :=
  serve_inbound sample_services sample_codec pretty "/home/willie" "1.0" (fun _ w => (true, w)) (fun _ _ w => (true, w)) (fun _ => Ok EmptyString)
    (fun f _ => Ok f) (fun _ _ => None) (fun _ _ => NoMetadata EmptyString) (fun _ _ => Err EmptyString) (fun s => s)
    (fun _ _ _ => NoSpawn EmptyString) (fun t => if bool_decide (t = "b") then Ok (mk_rpc_request 3 "daemon.hello" JNull) else Err "bad")
    quiet_input s.

Lemma serve_answers_in_order_witness :
  map (fun x => (fst x, a_id (snd x))) (snd (fst (sample_serve sample_server))) = [(Socket, 0%Z); (Stdio, 3%Z)].
Proof.
  pose proof (serve_answers_in_order sample_services sample_codec pretty "/home/willie" "1.0" (fun _ w => (true, w)) (fun _ _ w => (true, w))
    (fun _ => Ok EmptyString) (fun f _ => Ok f) (fun _ _ => None) (fun _ _ => NoMetadata EmptyString) (fun _ _ => Err EmptyString)
    (fun s => s) (fun _ _ _ => NoSpawn EmptyString)
    (fun t => if bool_decide (t = "b") then Ok (mk_rpc_request 3 "daemon.hello" JNull) else Err "bad") quiet_input sample_server eq_refl) as H.
  unfold sample_serve. destruct (serve_inbound _ _ _ _ _ _ _ _ _ _ _ _ _ _ _ _ _) as [[exit out] s]. cbn [fst snd].
  destruct H as [H _]. rewrite H. vm_compute. reflexivity.
Defined.

Definition smuggled_entries : Entries := [("_workspace", JString "/elsewhere"); ("name", JString "team")].

Lemma profile_targets_are_the_daemons_witness :
  exists m, resolve_profile_targets sample_services sample_codec pretty "/home/willie" (JObject smuggled_entries) sample_world = Ok (JObject m) /\ told m = (None, None).
Proof.
  pose proof (profile_targets_are_the_daemons sample_services sample_codec pretty "/home/willie" smuggled_entries sample_world
    ltac:(by_deciding)) as H.
  destruct (resolve_profile_targets _ _ _ _ _ _) as [p|e].
  - destruct H as (m & -> & _ & H). exists m. split; [reflexivity|exact H].
  - destruct H as (raw & H & _). discriminate H.
Defined.

Definition one_project : Project :=
  mk_project 1 "app" "app" "C:pp" "/w/app" "main" Project.Ready true "0" default_profile None.

Definition explaining : Services files :=
  let e := no_endpoint in
  mk_services files (fun _ => mk_state [(1%N, one_project)] [] [] 0) e e e e e e e e e e e e (fun _ => Ok JNull) (fun w => (Ok JNull, w))
    (fun _ w => w) (fun w => w) (fun w => w) (fun _ => Ok JNull) (fun w => (Ok JNull, w)) (fun _ => None).

Lemma explain_tells_the_session_witness :
  sandbox_explain explaining sample_codec pretty "/home/willie" JNull sample_world = Ok JNull.
Proof.
  pose proof (explain_tells_the_session explaining sample_codec pretty "/home/willie" JNull sample_world 1 one_project eq_refl eq_refl eq_refl) as H.
  destruct (session_capabilities _ _ _) as [caps|e] eqn:E; [|discriminate E].
  destruct H as (entries & H & _). exact H.
Defined.
