(* ===== verification/Engine.v ===== *)
(** * The engine and its daemon

    Models crates/willie-engine/src/daemon.rs and engine.rs: starting,
    questioning, watching and stopping the one [willied] child, and the methods
    the desktop application calls.  Every effect on a process is recorded with
    its answer; a process carries its client. *)

From S2P Require Import Prelude Text Utf8 Json Rpc Effects EngineRpc Project Session Dispatch Wsl.

Local Open Scope string_scope.
Local Open Scope list_scope.
Local Open Scope willie_scope.

(** ** Data *)

Inductive DaemonState : Type :=
| Stopped
| Running (willie_version : string) (image_version : option string)
| Failed (code message : string).

Record Supervisor : Type := mk_supervisor { live : option N; state : DaemonState }.

Definition new_supervisor : Supervisor := mk_supervisor None Stopped.

Record Problem : Type := mk_problem { p_code : string; p_message : string; p_remediation : string }.

Definition problem_of (e : EngineError) : Problem := mk_problem (engine_code e) (engine_message e) (engine_remediation e).

(** An effect on a process, with its answer. *)
Inductive Act : Type :=
| Spawned (r : result N WslError)
| Watched (p : N) (r : result unit WslError)
| Wired (p : N) (r : result unit WslError)
| Called (p : N) (method : string) (r : result Json EngineError)
| Polled (p : N) (r : result (option Z) WslError)
| Killed (p : N)
| Reaped (p : N)
| Closed (p : N)
| Distro (d : Did)
| Launched (program : string) (args : list string) (error : option string).

Definition is_running (s : DaemonState) : bool := match s with Running _ _ => true | _ => false end.

(** An answer of the daemon's own proves it alive. *)
Definition is_rpc (e : EngineError) : bool := match e with ERpc _ => true | _ => false end.

#[local] Set Default Proof Using "Type".

Section engine.
  Context {S : Type} (others : nat -> S -> S).
  (** Processes: [wsl.exe], the threads that read its standard error and its
      standard output, and the client of its pipes. *)
  Context (spawn_daemon : S -> result N WslError * S) (watch_stderr wire : N -> S -> result unit WslError * S)
    (rpc_call : N -> string -> Json -> S -> result Json EngineError * S) (try_wait : N -> S -> result (option Z) WslError * S)
    (stderr_text stray : N -> S -> string) (kill_process reap : N -> S -> S).
  (** Windows as the distribution's manager uses it, and its files. *)
  Context (wsl : list string -> S -> CliOutput * S) (file_len : string -> S -> option Z) (read_to_string read_bytes : string -> S -> option string)
    (create_dir : string -> S -> option string * S) (remove_file : string -> S -> RemoveAnswer * S)
    (hex_sha256 : string -> string) (install_dir : option string) (is_file is_dir : string -> S -> bool).
  (** Git, the programs a terminal is opened with, and where they may be. *)
  Context (git_exe : list string -> S -> option (bool * string) * S) (present : string -> S -> bool)
    (spawn_program : string -> list string -> S -> option string * S) (local_app_data : option string) (path_dirs : option (list string)).
  (** How often the process is asked whether it has ended before the settling
      time and the grace are over. *)
  Context (settle_polls grace_polls : nat).
  Context (VERSION : string).

Definition E (A : Type) : Type := M S Act A.

(** [WslProcess::spawn] with its [from_child]: a process is only held once its
    standard error is read. *)
Definition spawn : E (result N WslError) :=
  let* child := perform others (fun r => [Spawned r]) spawn_daemon in
  match child with
  | Err e => ret (Err e)
  | Ok p =>
      let* watched := perform others (fun r => [Watched p r]) (watch_stderr p) in
      ret (match watched with Ok _ => Ok p | Err e => Err e end)
  end.

Definition transport (p : N) : E (result unit WslError) := perform others (fun r => [Wired p r]) (wire p).

Definition rpc (p : N) (method : string) (params : Json) : E (result Json EngineError) :=
  perform others (fun r => [Called p method r]) (rpc_call p method params).

Definition poll (p : N) : E (result (option Z) WslError) := perform others (fun r => [Polled p r]) (try_wait p).

Definition stderr_of (p : N) : E string := perform others (fun _ => []) (fun s => (stderr_text p s, s)).

Definition stray_of (p : N) : E string := perform others (fun _ => []) (fun s => (stray p s, s)).

Definition kill (p : N) : E unit := perform others (fun _ => [Killed p]) (fun s => (tt, kill_process p s)).

Definition wait (p : N) : E unit := perform others (fun _ => [Reaped p]) (fun s => (tt, reap p s)).

Definition close (p : N) : E unit := perform others (fun _ => [Closed p]) (fun s => (tt, s)).

(** [client.call] with its decoding. *)
Definition decoded {A} (method : string) (decode : Json -> result A string) (r : result Json EngineError) : result A EngineError :=
  match r with
  | Ok v => map_err (fun e => EProtocol ("bad `" +:+ method +:+ "` result: " +:+ e)) (decode v)
  | Err e => Err e
  end.

Definition client_call {A} (p : N) (method : string) (params : Json) (decode : Json -> result A string) : E (result A EngineError) :=
  let* r := rpc p method params in
  ret (decoded method decode r).

Definition no_params : Json := JObject [].

(** ** The supervisor *)

(** Poll until the process has ended or the time is over. *)
Fixpoint await_exit (polls : nat) (p : N) : E bool :=
  match polls with
  | O => ret false
  | Datatypes.S polls =>
      let* r := poll p in
      match r with Ok (Some _) => ret true | _ => await_exit polls p end
  end.

Definition fail (e : EngineError) : Supervisor := mk_supervisor None (Failed (engine_code e) (engine_message e)).

Definition put_down (p : N) : E unit := let* _ := kill p in wait p.

Definition record (e : EngineError) (d : Supervisor) : E Supervisor :=
  match live d with
  | Some p => let* _ := put_down p in ret (fail e)
  | None => ret (fail e)
  end.

(** [DaemonSupervisor::state]. *)
Definition watch (d : Supervisor) : E Supervisor :=
  match live d with
  | Some p =>
      let* r := poll p in
      match r with
      | Ok (Some code) =>
          let* detail := stderr_of p in
          record (EDaemonExited (Some code) detail) d
      | _ => ret d
      end
  | None => ret d
  end.

Definition stop (d : Supervisor) : E Supervisor :=
  match live d with
  | Some p =>
      let* _ := rpc p "daemon.shutdown" no_params in
      let* _ := close p in
      let* exited := await_exit grace_polls p in
      if (exited : bool) then ret (mk_supervisor None Stopped)
      else let* _ := put_down p in ret (mk_supervisor None Stopped)
  | None => ret (mk_supervisor None Stopped)
  end.

Definition hello : Json :=
  JObject [("client", JString "willie-engine"); ("willie_version", JString VERSION); ("protocol_version", JNumber (Int PROTOCOL_VERSION))].

(** Why the hello failed: an exit is the cause, else what the call said. *)
Definition hello_failure (p : N) (e : EngineError) : E EngineError :=
  let* _ := await_exit settle_polls p in
  let* r := poll p in
  match r with
  | Ok (Some code) =>
      let* stderr := stderr_of p in
      if is_empty (trim stderr) then
        let* words := stray_of p in ret (EDaemonExited (Some code) words)
      else ret (EDaemonExited (Some code) stderr)
  | _ => ret e
  end.

Definition start (hello_reply : Json -> result (string * option string) string) (d : Supervisor) :
    E (result (string * option string) EngineError * Supervisor) :=
  let* _ := stop d in
  let* child := spawn in
  match child with
  | Err e => ret (Err (EWsl e), fail (EWsl e))
  | Ok p =>
      let* wired := transport p in
      match wired with
      | Err e => let* _ := put_down p in ret (Err (EWsl e), fail (EWsl e))
      | Ok _ =>
          let* reply := client_call p "daemon.hello" hello hello_reply in
          match reply with
          | Err e =>
              let* failure := hello_failure p e in
              let* _ := put_down p in
              ret (Err failure, fail failure)
          | Ok (version, image) =>
              if bool_decide (version = VERSION) then ret (Ok (version, image), mk_supervisor (Some p) (Running version image))
              else
                let* _ := close p in
                let* _ := put_down p in
                ret (Err (EVersionMismatch VERSION version), fail (EVersionMismatch VERSION version))
          end
      end
  end.

(** An error of the daemon's own leaves it running. *)
Definition judge {A} (r : result A EngineError) (d : Supervisor) : E (result A EngineError * Supervisor) :=
  match r with
  | Ok _ => ret (r, d)
  | Err e => if is_rpc e then ret (r, d) else let* d := record e d in ret (r, d)
  end.

(** [doctor] and [health]: a call to the daemon there is. *)
Definition ask {A} (method : string) (params : Json) (decode : Json -> result A string) (d : Supervisor) :
    E (result A EngineError * Supervisor) :=
  match live d with
  | None => ret (Err EDaemonNotRunning, d)
  | Some p =>
      let* r := client_call p method params decode in
      judge r d
  end.

Definition health {A} (decode : Json -> result A string) := ask "daemon.health" no_params decode.

Definition doctor {A} (decode : Json -> result A string) := ask "daemon.doctor" no_params decode.

(** A call to the daemon, started if it does not run. *)
Definition call {A} (hello_reply : Json -> result (string * option string) string) (method : string) (params : Json)
    (decode : Json -> result A string) (d : Supervisor) : E (result A EngineError * Supervisor) :=
  let* d := watch d in
  if is_running (state d) then ask method params decode d
  else
    let* started := start hello_reply d in
    match started with
    | (Err e, d) => ret (Err e, d)
    | (Ok _, d) => ask method params decode d
    end.

(** ** The engine *)

Record Engine : Type := mk_engine { image_candidates : list string; daemon : Supervisor; last_doctor : option Json }.

Definition engine_new (candidates : list string) : Engine := mk_engine candidates new_supervisor None.

Definition with_daemon (d : Supervisor) (e : Engine) : Engine := mk_engine (image_candidates e) d (last_doctor e).

(** serde's reading of the hello and of a report, which is passed on as it is. *)
Context (hello_reply : Json -> result (string * option string) string) (report_of : Json -> result Json string).

Definition on_disk (test : string -> S -> bool) (path : string) : E bool := perform others (fun _ => []) (fun s => (test path s, s)).

Fixpoint locate_image (candidates : list string) : E (option string) :=
  match candidates with
  | [] => ret None
  | c :: cs => let* found := on_disk is_file c in if (found : bool) then ret (Some c) else locate_image cs
  end.

Definition install_distro (e : Engine) : E (result unit EngineError * Engine) :=
  let* image := locate_image (image_candidates e) in
  match image with
  | None => ret (Err EImageNotFound, e)
  | Some image =>
      let* d := stop (daemon e) in
      let* r := lift Distro (install others wsl file_len read_to_string read_bytes create_dir remove_file hex_sha256 install_dir image) in
      match r with
      | Err x => ret (Err x, with_daemon d e)
      | Ok _ => ret (Ok tt, mk_engine (image_candidates e) d None)
      end
  end.

Definition ensure_distro_registered : E (result unit EngineError) :=
  let* r := lift Distro (distro_status others wsl install_dir) in
  ret (match r with
       | Err e => Err (EWsl e)
       | Ok s => if registered s then Ok tt else Err EDistroNotRegistered
       end).

(** The distribution first, then the daemon. *)
Definition preflight_start (d : Supervisor) : E (result unit EngineError * Supervisor) :=
  let* ok := ensure_distro_registered in
  match ok with
  | Err x => ret (Err x, d)
  | Ok _ => let* r := start hello_reply d in ret (match fst r with Ok _ => Ok tt | Err e => Err e end, snd r)
  end.

Definition start_daemon (e : Engine) : E (result unit EngineError * Engine) :=
  let* r := preflight_start (daemon e) in ret (fst r, with_daemon (snd r) e).

Definition stop_daemon (e : Engine) : E (result unit EngineError * Engine) :=
  let* d := stop (daemon e) in ret (Ok tt, with_daemon d e).

Definition reported (e : Engine) (r : result Json EngineError * Supervisor) : result Json EngineError * Engine :=
  match r with
  | (Ok report, d) => (Ok report, mk_engine (image_candidates e) d (Some report))
  | (Err x, d) => (Err x, with_daemon d e)
  end.

(** Once more, with a daemon started anew. *)
Definition doctor_again (d : Supervisor) : E (result Json EngineError * Supervisor) :=
  let* started := preflight_start d in
  match started with
  | (Err x, d) => ret (Err x, d)
  | (Ok _, d) => doctor report_of d
  end.

Definition run_doctor (e : Engine) : E (result Json EngineError * Engine) :=
  let* d := watch (daemon e) in
  let* ready := (if is_running (state d) then ret (Ok tt, d) else preflight_start d) in
  match ready with
  | (Err x, d) => ret (Err x, with_daemon d e)
  | (Ok _, d) =>
      let* r := doctor report_of d in
      match r with
      | (Ok report, d) => ret (reported e (Ok report, d))
      | (Err x, d) =>
          if is_rpc x then ret (Err x, with_daemon d e)
          else let* r := doctor_again d in ret (reported e r)
      end
  end.

Definition daemon_call {A} (method : string) (params : Json) (decode : Json -> result A string) (e : Engine) :
    E (result A EngineError * Engine) :=
  let* d := watch (daemon e) in
  let* ok := (if is_running (state d) then ret (Ok tt) else ensure_distro_registered) in
  match ok with
  | Err x => ret (Err x, with_daemon d e)
  | Ok _ => let* r := call hello_reply method params decode d in ret (fst r, with_daemon (snd r) e)
  end.

(** *** The methods the application calls *)

Section methods.
  Context (ulid_to_string : N -> string) (sandbox_json : Json).
  Context {A : Type} (decode : Json -> result A string).

Definition jid (k : Kind) (id : N) : Json := JString (id_display ulid_to_string k id).

(** [skip_serializing_if = "Option::is_none"]. *)
Definition optional {B} (key : string) (f : B -> Json) (o : option B) : Entries :=
  match o with Some b => [(key, f b)] | None => [] end.

Definition nullable {B} (f : B -> Json) (o : option B) : Json := match o with Some b => f b | None => JNull end.

Definition kind_json (k : SessionKind) : Json := JString (match k with Agent => "agent" | Shell => "shell" end).

Definition project_list : Engine -> E (result A EngineError * Engine) := daemon_call "project.list" no_params decode.

Definition project_add (windows_path : string) (name : option string) (e : Engine) : E (result A EngineError * Engine) :=
  let* dir := on_disk is_dir windows_path in
  if (dir : bool) then
    daemon_call "project.add" (JObject (("windows_path", JString windows_path) :: optional "name" JString name)) decode e
  else ret (Err (EPathNotFound windows_path), e).

Definition project_remove (id : N) (delete_workspace force : bool) : Engine -> E (result A EngineError * Engine) :=
  daemon_call "project.remove" (JObject [("id", jid KProject id); ("delete_workspace", JBool delete_workspace); ("force", JBool force)]) decode.

Definition project_sync_to_windows (id : N) : Engine -> E (result A EngineError * Engine) :=
  daemon_call "project.sync_to_windows" (JObject [("id", jid KProject id)]) decode.

Definition project_update_from_windows (id : N) : Engine -> E (result A EngineError * Engine) :=
  daemon_call "project.update_from_windows" (JObject [("id", jid KProject id)]) decode.

Definition project_relocate (id : N) (windows_path : string) : Engine -> E (result A EngineError * Engine) :=
  daemon_call "project.relocate" (JObject [("id", jid KProject id); ("windows_path", JString windows_path)]) decode.

Definition project_rename (id : N) (name : string) : Engine -> E (result A EngineError * Engine) :=
  daemon_call "project.rename" (JObject [("id", jid KProject id); ("name", JString name)]) decode.

Definition project_set_sandbox (id : N) : Engine -> E (result A EngineError * Engine) :=
  daemon_call "project.set_sandbox" (JObject [("project_id", jid KProject id); ("profile", sandbox_json)]) decode.

Definition project_tree (id : N) (path : option string) : Engine -> E (result A EngineError * Engine) :=
  daemon_call "project.tree" (JObject [("id", jid KProject id); ("path", nullable JString path)]) decode.

Definition project_read_file (id : N) (path : string) : Engine -> E (result A EngineError * Engine) :=
  daemon_call "project.read_file" (JObject [("id", jid KProject id); ("path", JString path)]) decode.

(** [(name, email)] of the Windows git. *)
Definition identity_json (g : string * string) : Json := JObject [("name", JString (fst g)); ("email", JString (snd g))].

Definition session_create (project_id : N) (git_identity : option (string * string)) (resume : bool) (resume_from : option N)
    (kind : SessionKind) : Engine -> E (result A EngineError * Engine) :=
  daemon_call "session.create"
    (JObject (("project_id", jid KProject project_id) :: optional "git_identity" identity_json git_identity ++
              [("resume", JBool resume)] ++ optional "resume_from" (jid KSession) resume_from ++ [("kind", kind_json kind)])) decode.

Definition session_rename (id : N) (label : option string) : Engine -> E (result A EngineError * Engine) :=
  daemon_call "session.rename" (JObject [("id", jid KSession id); ("label", nullable JString label)]) decode.

Definition session_stop (id : N) : Engine -> E (result A EngineError * Engine) :=
  daemon_call "session.stop" (JObject [("id", jid KSession id)]) decode.

Definition session_list : Engine -> E (result A EngineError * Engine) := daemon_call "session.list" no_params decode.

Definition tool_install (harness : string) : Engine -> E (result A EngineError * Engine) :=
  daemon_call "tool.install" (JObject [("harness", JString harness)]) decode.

Definition tool_list : Engine -> E (result A EngineError * Engine) := daemon_call "tool.list" no_params decode.

Definition tool_update (tool : string) : Engine -> E (result A EngineError * Engine) :=
  daemon_call "tool.update" (JObject [("tool", JString tool)]) decode.

Definition job_cancel (id : N) : Engine -> E (result A EngineError * Engine) :=
  daemon_call "job.cancel" (JObject [("id", jid KJob id)]) decode.

Definition plugin_list : Engine -> E (result A EngineError * Engine) := daemon_call "plugin.list" no_params decode.

Definition usage_snapshot : Engine -> E (result A EngineError * Engine) := daemon_call "usage.snapshot" no_params decode.

Definition enable_params (id : string) (project_id : option N) : Json :=
  JObject (("id", JString id) :: optional "project_id" (jid KProject) project_id).

Definition plugin_enable (id : string) (project_id : option N) : Engine -> E (result A EngineError * Engine) :=
  daemon_call "plugin.enable" (enable_params id project_id) decode.

Definition plugin_disable (id : string) (project_id : option N) : Engine -> E (result A EngineError * Engine) :=
  daemon_call "plugin.disable" (enable_params id project_id) decode.

Definition state_snapshot : Engine -> E (result A EngineError * Engine) := daemon_call "state.snapshot" no_params decode.

(** The one way the webview reaches a plugin's own methods. *)
Definition plugin_call (method : string) (params : Json) (e : Engine) : E (result A EngineError * Engine) :=
  if starts_with "profile." method then daemon_call method params decode e
  else ret (Err (EMethodNotServed method), e).
End methods.

(** *** Sessions and their terminals *)

Definition WILLIE_BIN : string := "/opt/willie/bin/willie".

Definition attach_argv (id : string) : list string :=
  ["-d"; DISTRO_NAME; "--user"; "willie"; "--exec"; WILLIE_BIN; "attach"; id].

(** The embedded terminal's child. *)
Definition attach_host_argv (id : string) : list string :=
  ["-d"; DISTRO_NAME; "--user"; "willie"; "--exec"; WILLIE_BIN; "attach"; id; "--host"].

Definition wt_argv (id title : string) : list string :=
  ["-w"; "0"; "new-tab"; "--title"; title; "--"; "wsl.exe"] ++ attach_argv id.

Definition attach_hint (id : string) : string := "wsl -d " +:+ DISTRO_NAME +:+ " --user willie -- " +:+ WILLIE_BIN +:+ " attach " +:+ id.

(** Both fields, trimmed and not empty, or nothing. *)
Definition parse_identity (name email : option string) : option (string * string) :=
  let field o := o ≫= (fun s => if is_empty (trim s) then None else Some (trim s)) in
  match field name, field email with Some n, Some e => Some (n, e) | _, _ => None end.

Definition git_config (key : string) : E (option string) :=
  let* out := perform others (fun _ => []) (git_exe ["config"; "--global"; key]) in
  ret (match out with
       | Some (true, stdout) => let s := trim (from_utf8_lossy stdout) in if is_empty s then None else Some s
       | _ => None
       end).

Definition windows_git_identity : E (option (string * string)) :=
  let* name := git_config "user.name" in
  let* email := git_config "user.email" in
  ret (parse_identity name email).

Fixpoint first_present (paths : list string) : E (option string) :=
  match paths with
  | [] => ret None
  | p :: ps => let* found := on_disk present p in if (found : bool) then ret (Some p) else first_present ps
  end.

Definition windows_apps (local : string) : string :=
  win_join (win_join (win_join local "Microsoft") "WindowsApps") "wt.exe".

Definition locate_wt : E (option string) :=
  first_present (match local_app_data with Some local => [windows_apps local] | None => [] end ++
                 match path_dirs with Some dirs => map (fun d => win_join d "wt.exe") dirs | None => [] end).

Definition launch (program : string) (args : list string) : E (option string) :=
  perform others (fun e => [Launched program args e]) (spawn_program program args).

(** A new tab, or else a new console. *)
Definition open_tab (id title : string) : E (option string) :=
  let* wt := locate_wt in
  let* opened := (match wt with Some wt => let* e := launch wt (wt_argv id title) in ret (bool_decide (e = None)) | None => ret false end) in
  if (opened : bool) then ret None
  else
    let* e := launch "wsl.exe" (attach_argv id) in
    ret (match e with Some e => Some ("could not open a terminal for the session: " +:+ e) | None => None end).

Definition terminal_launch (id : string) (e : string) : EngineError := ETerminalLaunch e (attach_hint id).

Record SessionOpened : Type := mk_opened { opened_session : Json; terminal_problem : option Problem }.

Section sessions.
  Context (ulid_to_string : N -> string).
  (** The identifier and the record of a created session; the identifiers and
      the names of the projects. *)
  Context (created_of : Json -> result (N * Json) string) (projects_of : Json -> result (list (N * string)) string).

Definition session_name (id : N) : string := id_display ulid_to_string KSession id.

Definition project_title (id : N) (e : Engine) : E (option string * Engine) :=
  let* r := project_list projects_of e in
  ret (match fst r with Ok ps => snd <$> List.find (fun p => bool_decide (fst p = id)) ps | Err _ => None end, snd r).

Definition session_open_impl (project_id : N) (resume : bool) (resume_from : option N) (kind : SessionKind) (e : Engine) :
    E (result SessionOpened EngineError * Engine) :=
  let* identity := windows_git_identity in
  let* created := session_create ulid_to_string created_of project_id identity resume resume_from kind e in
  match created with
  | (Err x, e) => ret (Err x, e)
  | (Ok (id, session), e) =>
      let* title := project_title project_id e in
      let* failed := open_tab (session_name id) (default (session_name id) (fst title)) in
      ret (Ok (mk_opened session ((fun m => problem_of (terminal_launch (session_name id) m)) <$> failed)), snd title)
  end.

Definition session_open (project_id : N) (kind : SessionKind) := session_open_impl project_id false None kind.

Definition session_resume (project_id : N) (resume_from : option N) := session_open_impl project_id true resume_from Agent.

Definition session_attach (id : N) (title : string) : E (result unit EngineError) :=
  let* e := open_tab (session_name id) title in
  ret (match e with None => Ok tt | Some m => Err (terminal_launch (session_name id) m) end).
End sessions.

(** ** Specification *)

(** The processes that may still run after [l], of those before it and those
    started. *)
Definition at_large_step (ps : gset N) (a : Act) : gset N :=
  match a with
  | Spawned (Ok p) => {[p]} ∪ ps
  | Reaped p | Polled p (Ok (Some _)) => ps ∖ {[p]}
  | _ => ps
  end.

Definition at_large : gset N -> list Act -> gset N := foldl at_large_step.

(** The processes that were started and never held, since the thread that reads
    their standard error could not be. *)
Definition unwatched_one (a : Act) : gset N := match a with Watched p (Err _) => {[p]} | _ => ∅ end.

Definition unwatched (l : list Act) : gset N := ⋃ map unwatched_one l.

Definition held (d : Supervisor) : gset N := match live d with Some p => {[p]} | None => ∅ end.

(** A daemon is said to run exactly when there is one. *)
Definition truthful (d : Supervisor) : Prop := is_running (state d) = bool_decide (is_Some (live d)).

(** What the supervisor says of itself without being asked to call. *)
Definition asks (m : string) (a : Act) : bool := match a with Called _ m' _ => bool_decide (m' = m) | _ => false end.

Definition asked (m : string) (l : list Act) : list Act := List.filter (asks m) l.

(** The supervisor's own calls, and no terminal. *)
Definition own (m : string) : bool := bool_decide (m = "daemon.hello") || bool_decide (m = "daemon.shutdown").

Definition calls_only (ok : string -> bool) (a : Act) : bool := match a with Called _ m _ => ok m | Launched _ _ _ => false | _ => true end.

Lemma at_large_app ps l l' : at_large ps (l ++ l') = at_large (at_large ps l) l'.
Proof. apply foldl_app. Qed.

Lemma at_large_mono ps qs l : ps ⊆ qs -> at_large ps l ⊆ at_large qs l.
Proof.
  clear. revert ps qs. induction l as [|a l IH]; intros ps qs H; [done|]. cbn. apply IH. clear - H.
  destruct a as [[]| | | |? [[|]|]| | | | |]; cbn; set_solver.
Qed.

Lemma at_large_union ps qs l : at_large (ps ∪ qs) l ⊆ at_large ps l ∪ qs.
Proof.
  clear. revert ps. induction l as [|a l IH]; intros ps; [done|]. cbn. etrans; [|apply IH]. apply at_large_mono. clear.
  destruct a as [[]| | | |? [[|]|]| | | | |]; cbn; set_solver.
Qed.

Lemma unwatched_app l l' : unwatched (l ++ l') = unwatched l ∪ unwatched l'.
Proof. unfold unwatched. by rewrite map_app, union_list_app_L. Qed.

Lemma asked_app m l l' : asked m (l ++ l') = asked m l ++ asked m l'.
Proof. apply List.filter_app. Qed.

Lemma not_asked m ok l : forallb (calls_only ok) l = true -> ok m = false -> asked m l = [].
Proof.
  intros H Hm. unfold asked. induction l as [|a l IH]; [done|]. cbn in *. apply andb_prop in H as [Ha Hl].
  destruct a; cbn in *; auto. case_bool_decide; [|auto]. subst. congruence.
Qed.

Lemma distro_quiet l0 ps ok : at_large ps (map Distro l0) = ps /\ forallb (calls_only ok) (map Distro l0) = true.
Proof. induction l0; [done|]. cbn. exact IHl0. Qed.

(** *** The steps *)

(** Only questions to the process. *)
Definition only_polls (p : N) (l : list Act) : Prop := Forall (fun a => exists r, a = Polled p r) l.

Definition starts (a : Act) : bool := match a with Spawned _ => true | _ => false end.

(** Nothing started, and only the supervisor's own calls. *)
Definition calm (l : list Act) : Prop := forallb (fun a => negb (starts a)) l = true /\ forallb (calls_only own) l = true.

Lemma calm_app l l' : calm l -> calm l' -> calm (l ++ l').
Proof. unfold calm. rewrite !forallb_app. intros [-> ->] [-> ->]. done. Qed.

Lemma calm_at_large l ps : calm l -> at_large ps l ⊆ ps.
Proof.
  intros [H _]. revert ps. induction l as [|a l IH]; intros ps; [done|]. cbn in *. apply andb_prop in H as [Ha Hl].
  etrans; [by apply IH|]. destruct a as [| | | |? [[|]|]| | | | |]; cbn; [discriminate Ha|set_solver..].
Qed.

Lemma polls_calm p l : only_polls p l -> calm l.
Proof. induction 1 as [|a l [r ->] _ IH]; [done|]. exact IH. Qed.

Lemma await_exit_does n p :
  does (await_exit n p) (fun b l => only_polls p l /\ (b = true -> forall ps, at_large ps l ⊆ ps ∖ {[p]})).
Proof.
  induction n as [|n IH]; cbn [await_exit]; [apply does_ret; split; [constructor|discriminate]|].
  unfold poll. repeat walk1.
  1: { subst. split; [repeat constructor; by eexists|]. intros _ ps. cbn. set_solver. }
  all: eapply does_conseq; [exact IH|]; intros b l [Hl Hb]; subst; split; [constructor; [by eexists|done]|];
    intros Ht ps; cbn; auto.
Qed.

(** Of the processes that may run after [l] the supervisor holds each, the ones
    whose standard error could not be read apart. *)
Definition kept (d d' : Supervisor) (l : list Act) : Prop := at_large (held d) l ⊆ held d' ∪ unwatched l.

Lemma kept_trans d1 d2 d3 l l' : kept d1 d2 l -> kept d2 d3 l' -> kept d1 d3 (l ++ l').
Proof.
  unfold kept. intros H1 H2. rewrite at_large_app, unwatched_app. etrans; [by apply at_large_mono|].
  etrans; [apply at_large_union|]. clear - H2. set_solver.
Qed.

Lemma kept_quiet d l : at_large (held d) l = held d -> kept d d l.
Proof. unfold kept. intros ->. clear. set_solver. Qed.

(** [m] leaves [d] with nobody else at large, calling only what [ok] allows. *)
Definition tended (ok : string -> bool) (d d' : Supervisor) (l : list Act) : Prop :=
  kept d d' l /\ forallb (calls_only ok) l = true.

Lemma tended_trans ok d1 d2 d3 l l' : tended ok d1 d2 l -> tended ok d2 d3 l' -> tended ok d1 d3 (l ++ l').
Proof. intros [H1 H2] [H3 H4]. split; [by eapply kept_trans|by rewrite forallb_app, H2]. Qed.

Lemma tended_calm ok d d' l : at_large (held d) l ⊆ held d' -> forallb (calls_only ok) l = true -> tended ok d d' l.
Proof. intros H1 H2. split; [|done]. unfold kept. clear - H1. set_solver. Qed.

Lemma tended_weaken ok ok' d d' l : (forall m, ok m = true -> ok' m = true) -> tended ok d d' l -> tended ok' d d' l.
Proof.
  intros Hw [H1 H2]. split; [done|]. revert H2. clear H1. induction l as [|a l IH]; [done|]. cbn. intros [Ha Hl]%andb_prop.
  rewrite IH by done. destruct a; cbn in *; auto. by rewrite Hw.
Qed.

(** Nothing was said to the process and it is as it was, or it is gone. *)
Lemma watch_does d : does (watch d) (fun d' l => tended (fun _ => false) d d' l /\ (d' = d \/ exists e, d' = fail e)).
Proof.
  unfold watch, record, put_down, poll, stderr_of, kill, wait. destruct d as [[p|] st]; cbn [live]; repeat walk1; subst;
    (split; [apply tended_calm; cbn; set_solver|]); eauto.
Qed.

Lemma truthful_fail e : truthful (fail e).
Proof. done. Qed.

Lemma stop_does d : does (stop d) (fun d' l => tended own d d' l /\ d' = new_supervisor).
Proof.
  unfold stop, rpc, close, put_down, kill, wait. destruct d as [[p|] st]; cbn [live]; repeat walk1; [|split; [apply tended_calm; cbn; clear; set_solver|done]].
  eapply does_bind; [apply await_exit_does|]. intros b l [Hl Hb]. destruct b; repeat walk1; (split; [|done]); apply tended_calm.
  - cbn. rewrite app_nil_r. etrans; [by apply Hb|]. clear. set_solver.
  - cbn. rewrite app_nil_r. apply (polls_calm p l Hl).
  - cbn. rewrite at_large_app. cbn. pose proof (calm_at_large l {[p]} (polls_calm p l Hl)) as Hc. clear - Hc. set_solver.
  - cbn. rewrite forallb_app. destruct (polls_calm p l Hl) as [_ ->]. done.
Qed.

Definition start_outcome {A} (r : result A EngineError) (d : Supervisor) : Prop :=
  match r with
  | Ok _ => exists p v i, d = mk_supervisor (Some p) (Running v i)
  | Err e => d = fail e
  end.

Lemma hello_failure_does p e : does (hello_failure p e) (fun _ l => only_polls p l).
Proof.
  unfold hello_failure, poll, stderr_of, stray_of. eapply does_bind; [apply await_exit_does|]. intros b l [Hl _].
  repeat walk1; apply Forall_app; (split; [done|]); repeat constructor; by eexists.
Qed.

Lemma client_call_does {A} p m params (decode : Json -> result A string) :
  does (client_call p m params decode) (fun r l => exists x, l = [Called p m x] /\ r = decoded m decode x).
Proof. unfold client_call, rpc. repeat walk1. by eexists. Qed.

(** A child that was started and is put down is not left behind. *)
Lemma put_down_tended p l e : calm l -> tended own new_supervisor (fail e) (Spawned (Ok p) :: Watched p (Ok tt) :: l ++ [Killed p; Reaped p]).
Proof.
  intros Hl. pose proof (calm_at_large l {[p]} Hl) as Ha. apply tended_calm; cbn.
  - rewrite at_large_app. cbn. rewrite union_empty_r_L. clear - Ha. set_solver.
  - rewrite forallb_app. destruct Hl as [_ ->]. done.
Qed.

(** A child that is held was started and is watched; of one that is not, at most
    one that could not be watched may run. *)
Lemma spawned_does : does spawn (fun r l =>
  match r with
  | Ok p => l = [Spawned (Ok p); Watched p (Ok tt)]
  | Err _ => tended own new_supervisor new_supervisor l
  end).
Proof.
  unfold spawn. apply does_perform. intros [p|e]; [|apply does_ret; apply tended_calm; cbn; [clear; set_solver|done]].
  apply does_perform. intros [[]|e]; apply does_ret; [done|]. split; [|done]. unfold kept, unwatched. cbn. clear. set_solver.
Qed.

Lemma start_does hr d : does (start hr d) (fun r l => tended own d (snd r) l /\ start_outcome (fst r) (snd r)).
Proof.
  unfold start. eapply does_bind; [apply stop_does|]. intros d' l [Hl ->]. eapply does_bind; [apply spawned_does|].
  intros [p|e] ls Hs; [|apply does_ret; rewrite app_nil_r; split; [by eapply tended_trans|done]]. subst ls.
  unfold transport, close, put_down, kill, wait. walk1. cbn [app]. repeat walk1.
  2: { split; [|done]. eapply tended_trans; [exact Hl|]. subst. by apply (put_down_tended _ [Wired _ _]). }
  subst. eapply does_bind; [apply client_call_does|]. intros r l1 (x & -> & _). repeat walk1.
  - split; [|cbn; eauto]. eapply tended_trans; [exact Hl|]. apply tended_calm; [|done]. cbn. clear. set_solver.
  - split; [|done]. eapply tended_trans; [exact Hl|].
    by apply (put_down_tended _ [Wired _ _; Called _ "daemon.hello" _; Closed _]).
  - eapply does_bind; [apply hello_failure_does|]. intros e1 l2 Hl2. repeat walk1. split; [|done].
    eapply tended_trans; [exact Hl|]. cbn [app].
    apply (put_down_tended _ (Wired _ _ :: Called _ "daemon.hello" _ :: l2)).
    apply (calm_app [Wired _ _; Called _ "daemon.hello" _]); [done|exact (polls_calm _ _ Hl2)].
Qed.

(** [ask] puts one question, and its answer decides what becomes of the
    daemon. *)
Definition judged {A} (r : result A EngineError) (d d' : Supervisor) : Prop :=
  match r with
  | Ok _ => d' = d
  | Err e => if is_rpc e then d' = d else d' = fail e
  end.

Lemma ask_does {A} m params (decode : Json -> result A string) p st :
  does (ask m params decode (mk_supervisor (Some p) st)) (fun r l =>
    tended (fun m' => bool_decide (m' = m)) (mk_supervisor (Some p) st) (snd r) l /\ (exists x, asked m l = [Called p m x] /\ fst r = decoded m decode x) /\
    judged (fst r) (mk_supervisor (Some p) st) (snd r)).
Proof.
  unfold ask. cbn [live]. eapply does_bind; [apply client_call_does|]. intros r l (x & -> & Hx).
  assert (Hm : bool_decide (m = m) = true) by by apply bool_decide_eq_true_2.
  unfold judge, record, put_down, kill, wait. cbn [live]. repeat walk1; (split; [apply tended_calm; cbn; rewrite ?Hm; [set_solver|done]|]).
  all: unfold asked, judged; cbn; rewrite Hm; split; [eexists; by split|].
  all: try match goal with H : is_rpc _ = _ |- _ => by rewrite H end.
  done.
Qed.

(** ** Requests *)

(** What may be called on behalf of a request. *)
Definition for_request (m m' : string) : bool := own m' || bool_decide (m' = m).

(** What became of a request: it was not sent, and no daemon runs; or it was sent
    once to a daemon that then ran, the result is the answer's, and it says what
    becomes of the daemon. *)
Definition answered {A} (m : string) (decode : Json -> result A string) (r : result A EngineError) (d : Supervisor) (l : list Act) : Prop :=
  (asked m l = [] /\ is_ok r = false /\ is_running (state d) = false) \/
  (exists p v i x, asked m l = [Called p m x] /\ r = decoded m decode x /\ judged r (mk_supervisor (Some p) (Running v i)) d).

Lemma judged_truthful {A} (r : result A EngineError) p v i d : judged r (mk_supervisor (Some p) (Running v i)) d -> truthful d.
Proof. unfold judged. destruct r as [|e]; [by intros ->|]. destruct (is_rpc e); by intros ->. Qed.

Lemma for_own m m' : own m' = true -> for_request m m' = true.
Proof. unfold for_request. by intros ->. Qed.

Lemma for_self m m' : bool_decide (m' = m) = true -> for_request m m' = true.
Proof. unfold for_request. intros ->. by rewrite orb_true_r. Qed.

Lemma truthful_running d : truthful d -> is_running (state d) = true -> exists p v i, d = mk_supervisor (Some p) (Running v i).
Proof. destruct d as [[p|] [|v i|]]; cbn; intros H1 H2; try discriminate. eauto. Qed.

Lemma watched_truthful d d' : truthful d -> (d' = d \/ exists e, d' = fail e) -> truthful d'.
Proof. intros H [->|[e ->]]; done. Qed.

Lemma tended_refl ok d : tended ok d d [].
Proof. by apply tended_calm. Qed.

Lemma not_asked_own m d d' l : own m = false -> tended own d d' l -> asked m l = [].
Proof. intros Hm [_ H]. by apply (not_asked m own). Qed.

Lemma not_asked_none m d d' l : tended (fun _ => false) d d' l -> asked m l = [].
Proof. intros [_ H]. by apply (not_asked m (fun _ => false)). Qed.

Definition request_done {A} (m : string) (decode : Json -> result A string) (d0 : Supervisor) (r : result A EngineError) (d : Supervisor) (l : list Act) : Prop :=
  tended (for_request m) d0 d l /\ truthful d /\ (own m = false -> answered m decode r d l).

(** The end of a request: a daemon that runs is asked, one that does not is
    started first. *)
Lemma ask_answers {A} m params (decode : Json -> result A string) d : truthful d -> is_running (state d) = true ->
  does (ask m params decode d) (fun r l => tended (for_request m) d (snd r) l /\ truthful (snd r) /\ answered m decode (fst r) (snd r) l).
Proof.
  intros Ht Hr. destruct (truthful_running d Ht Hr) as (p & v & i & ->).
  eapply does_conseq; [apply ask_does|]. cbn beta. intros r l (Hl & (x & Ha & Hx) & Hj).
  split; [exact (tended_weaken _ _ _ _ _ (for_self m) Hl)|]. split; [by eapply judged_truthful|]. right. eauto 8.
Qed.

(** What was done before a request of [m] was put: nothing of it. *)
Lemma answered_after {A} m decode d0 (r : result A EngineError) d d' l l' : tended (for_request m) d0 d l ->
  (own m = false -> asked m l = []) -> request_done m decode d r d' l' -> request_done m decode d0 r d' (l ++ l').
Proof.
  intros H0 Ha (H1 & H2 & H3). split; [by eapply tended_trans|]. split; [done|]. intros Hm. specialize (H3 Hm).
  unfold answered in *. by rewrite asked_app, Ha.
Qed.

Lemma ask_done {A} m params (decode : Json -> result A string) d : truthful d -> is_running (state d) = true ->
  does (ask m params decode d) (fun r l => request_done m decode d (fst r) (snd r) l).
Proof. intros Ht Hr. eapply does_conseq; [by apply ask_answers|]. by intros r l (H1 & H2 & H3). Qed.

Lemma call_does {A} hr m params (decode : Json -> result A string) d : truthful d ->
  does (call hr m params decode d) (fun r l => request_done m decode d (fst r) (snd r) l).
Proof.
  intros Ht. unfold call. eapply does_bind; [apply watch_does|]. intros d1 l1 [H1 Hd].
  pose proof (watched_truthful d d1 Ht Hd) as Ht1. pose proof (not_asked_none m _ _ _ H1) as Ha.
  apply (tended_weaken _ (for_request m)) in H1; [|done]. destruct (is_running (state d1)) eqn:Hr.
  - eapply does_conseq; [by apply ask_done|]. intros r l. by apply answered_after.
  - eapply does_bind; [apply start_does|]. intros [s d2] l2 [H2 Ho]. cbn [fst snd] in *.
    assert (H3 : tended (for_request m) d d2 (l1 ++ l2)).
    { eapply tended_trans; [done|]. exact (tended_weaken _ _ _ _ _ (for_own m) H2). }
    assert (H4 : own m = false -> asked m (l1 ++ l2) = []).
    { intros Hm. by rewrite asked_app, Ha, (not_asked_own m _ _ _ Hm H2). }
    destruct s as [x|e]; cbn in Ho.
    + destruct Ho as (p & v & i & ->). eapply does_conseq; [by apply ask_done|]. intros r l. cbn beta. rewrite app_assoc.
      by apply answered_after.
    + subst. apply does_ret. rewrite app_nil_r. split; [done|]. split; [done|]. intros Hm. left. rewrite H4 by done. done.
Qed.

Lemma distro_does : does ensure_distro_registered (fun _ l => exists l0, l = map Distro l0).
Proof.
  unfold ensure_distro_registered. eapply does_bind; [apply lift_does|].
  { instantiate (1 := fun _ _ => True). unfold distro_status, running_distros, list_distros, names, run, bind_result. repeat walk1; done. }
  intros r l (l0 & -> & _). apply does_ret. rewrite app_nil_r. eauto.
Qed.

Lemma tended_distro ok d l0 : tended ok d d (map Distro l0).
Proof. destruct (distro_quiet l0 (held d) ok) as [H1 H2]. by apply tended_calm; [rewrite H1|]. Qed.

Lemma daemon_call_does {A} m params (decode : Json -> result A string) e : truthful (daemon e) ->
  does (daemon_call m params decode e) (fun r l => request_done m decode (daemon e) (fst r) (daemon (snd r)) l).
Proof.
  intros Ht. unfold daemon_call. eapply does_bind; [apply watch_does|]. intros d1 l1 [H1 Hd].
  pose proof (watched_truthful _ d1 Ht Hd) as Ht1. pose proof (not_asked_none m _ _ _ H1) as Ha.
  apply (tended_weaken _ (for_request m)) in H1; [|done].
  assert (Hcall : does (let* r := call hello_reply m params decode d1 in ret (fst r, with_daemon (snd r) e)) (fun r l =>
    request_done m decode d1 (fst r) (daemon (snd r)) l)).
  { eapply does_bind; [by apply call_does|]. intros r l H. apply does_ret. by rewrite app_nil_r. }
  destruct (is_running (state d1)) eqn:Hr.
  - walk1. eapply does_conseq; [exact Hcall|]. intros r l. by apply answered_after.
  - eapply does_bind; [apply distro_does|]. intros ok l2 [l0 ->]. pose proof (tended_distro (for_request m) d1 l0) as H2.
    pose proof (not_asked_none m _ _ _ (tended_distro _ d1 l0)) as Ha2. destruct ok as [u|x].
    + eapply does_conseq; [exact Hcall|]. intros r l H. apply (answered_after _ _ _ _ d1); [done|done|]. by apply (answered_after _ _ _ _ d1).
    + apply does_ret. rewrite app_nil_r. cbn. split; [by eapply tended_trans|]. split; [done|]. intros _. left.
      by rewrite asked_app, Ha, Ha2.
Qed.

(** C34. Whatever the processes do, a request the application makes is sent to
    a daemon at most once, so that no operation is done twice: when it could
    not be sent the answer is an error and no daemon is running; when it was,
    an answer of the daemon's own, be it a refusal, leaves the daemon running,
    and any other failure has put it down and is what the state then says. *)
Theorem a_request_is_sent_at_most_once {A} m params (decode : Json -> result A string) e (He : truthful (daemon e)) (Hm : own m = false) :
  does (daemon_call m params decode e) (fun r l => answered m decode (fst r) (daemon (snd r)) l).
Proof. eapply does_conseq; [by apply daemon_call_does|]. intros r l (_ & _ & H). by apply H. Qed.

(** *** The report *)

Lemma preflight_does d : truthful d -> does (preflight_start d) (fun r l => tended own d (snd r) l /\ truthful (snd r) /\
  (is_ok (fst r) = true -> is_running (state (snd r)) = true)).
Proof.
  intros Ht. unfold preflight_start. eapply does_bind; [apply distro_does|]. intros ok l [l0 ->].
  pose proof (tended_distro own d l0) as H. destruct ok as [u|x].
  - eapply does_bind; [apply start_does|]. intros [s d2] l2 [H2 Ho]. apply does_ret. rewrite app_nil_r. cbn in *.
    split; [by eapply tended_trans|]. destruct s as [a|x]; cbn in Ho; [|subst; split; [done|discriminate]]. destruct Ho as (p & v & i & ->). by split.
  - apply does_ret. rewrite app_nil_r. by split.
Qed.

(** The report that was made is kept, with the daemon that made it; one that was
    not leaves the last one. *)
Definition report_kept (e : Engine) (r : result Json EngineError * Engine) : Prop :=
  match fst r with
  | Ok report => last_doctor (snd r) = Some report /\ is_running (state (daemon (snd r))) = true
  | Err _ => last_doctor (snd r) = last_doctor e
  end.

Definition doctored (e : Engine) (n : nat) (r : result Json EngineError * Engine) (l : list Act) : Prop :=
  tended (for_request "daemon.doctor") (daemon e) (daemon (snd r)) l /\ truthful (daemon (snd r)) /\
  length (asked "daemon.doctor" l) <= n /\ report_kept e r.

Lemma doctored_after e d n r l l' k : tended (for_request "daemon.doctor") (daemon e) d l -> length (asked "daemon.doctor" l) = k ->
  doctored (with_daemon d e) n r l' -> doctored e (k + n) r (l ++ l').
Proof.
  intros H0 Hk (H1 & H2 & H3 & H4). split; [by eapply tended_trans|]. split; [done|]. rewrite asked_app, length_app. split; [lia|done].
Qed.

Lemma judged_ok {A} (r : result A EngineError) p v i d :
  judged r (mk_supervisor (Some p) (Running v i)) d -> is_ok r = true -> is_running (state d) = true.
Proof. destruct r; cbn; [by intros ->|discriminate]. Qed.

Lemma doctor_again_does e : truthful (daemon e) ->
  does (let* r := doctor_again (daemon e) in ret (reported e r)) (doctored e 1).
Proof.
  intros Ht. unfold doctor_again. apply does_assoc. eapply does_bind; [by apply preflight_does|].
  intros [ok d] l (H1 & H2 & H3). cbn [fst snd] in *. pose proof (not_asked_own "daemon.doctor" _ _ _ eq_refl H1) as Ha.
  apply (tended_weaken _ (for_request "daemon.doctor")) in H1; [|apply for_own]. destruct ok as [u|x].
  - eapply does_bind; [apply ask_answers; [exact H2|exact (H3 eq_refl)]|]. intros [r d2] l2 (H4 & H5 & H6). cbn [fst snd] in *. apply does_ret. rewrite app_nil_r.
    destruct H6 as [(H6 & Hr & _)|(p & v & i & x0 & H6 & _ & Hj)]; destruct r as [a|x]; try discriminate Hr; cbn.
    all: split; [by eapply tended_trans|]; split; [done|]; rewrite asked_app, Ha, H6; split; [cbn; lia|].
    + done.
    + split; [done|by eapply judged_ok].
    + done.
  - walk1. apply does_ret. rewrite app_nil_r. split; [done|]. split; [done|]. rewrite Ha. split; [cbn; lia|done].
Qed.

(** The report asked of a daemon that is there, and once more of a new one. *)
Definition report_twice (e : Engine) (d : Supervisor) : E (result Json EngineError * Engine) :=
  let* r := doctor report_of d in
  match r with
  | (Ok report, d) => ret (reported e (Ok report, d))
  | (Err x, d) => if is_rpc x then ret (Err x, with_daemon d e) else let* r := doctor_again d in ret (reported e r)
  end.

Lemma report_twice_does e : truthful (daemon e) -> is_running (state (daemon e)) = true ->
  does (report_twice e (daemon e)) (doctored e 2).
Proof.
  intros Ht Hr. unfold report_twice. eapply does_bind; [by apply ask_answers|]. intros [r d] l (H1 & H2 & H3). cbn [fst snd] in *.
  destruct H3 as [(H3 & Hr' & _)|(p & v & i & x0 & H3 & _ & Hj)]; destruct r as [a|x]; try discriminate Hr'.
  - destruct (is_rpc x).
    + apply does_ret. rewrite app_nil_r. split; [done|]. split; [done|]. cbn. rewrite H3. split; [cbn; lia|done].
    + eapply does_conseq; [by apply (doctor_again_does (with_daemon d e))|]. intros r' l' H. destruct (doctored_after e d 1 r' l l' 0 H1 (f_equal length H3) H) as (? & ? & ? & ?).
      repeat (split; [done|]). split; [lia|done].
  - apply does_ret. rewrite app_nil_r. split; [done|]. split; [done|]. cbn. rewrite H3. split; [cbn; lia|]. split; [done|by eapply judged_ok].
  - destruct (is_rpc x).
    + apply does_ret. rewrite app_nil_r. split; [done|]. split; [done|]. cbn. rewrite H3. split; [cbn; lia|done].
    + eapply does_conseq; [by apply (doctor_again_does (with_daemon d e))|]. intros r' l' H. apply (doctored_after e d 1 r' l l' 1); [done|by rewrite H3|done].
Qed.

Lemma run_doctor_does e : truthful (daemon e) -> does (run_doctor e) (doctored e 2).
Proof.
  intros Ht. unfold run_doctor. eapply does_bind; [apply watch_does|]. intros d l [H1 Hd].
  pose proof (watched_truthful _ d Ht Hd) as Ht1. pose proof (not_asked_none "daemon.doctor" _ _ _ H1) as Ha.
  apply (tended_weaken _ (for_request "daemon.doctor")) in H1; [|done]. destruct (is_running (state d)) eqn:Hr.
  - walk1. eapply does_conseq; [by apply (report_twice_does (with_daemon d e))|]. intros r l'. apply (doctored_after _ _ 2 _ _ _ 0); [done|by (rewrite Ha || rewrite H6)].
  - eapply does_bind; [by apply preflight_does|]. intros [ok d2] l2 (H2 & H3 & H4). cbn [fst snd] in *.
    pose proof (not_asked_own "daemon.doctor" _ _ _ eq_refl H2) as Ha2.
    apply (tended_weaken _ (for_request "daemon.doctor")) in H2; [|apply for_own].
    assert (H5 : tended (for_request "daemon.doctor") (daemon e) d2 (l ++ l2)) by by eapply tended_trans.
    assert (H6 : asked "daemon.doctor" (l ++ l2) = []) by by rewrite asked_app, Ha, Ha2.
    destruct ok as [u|x].
    + eapply does_conseq; [by apply (report_twice_does (with_daemon d2 e)); auto|]. intros r l'. rewrite app_assoc.
      apply (doctored_after _ _ 2 _ _ _ 0); [done|by (rewrite Ha || rewrite H6)].
    + apply does_ret. rewrite app_nil_r. split; [done|]. split; [done|]. cbn. rewrite H6. split; [cbn; lia|done].
Qed.

(** *** A whole run of the application *)

Inductive Op : Type := OInstall | OStart | OStop | ODoctor | OStatus | ORequest (method : string) (params : Json).

(** What [status] does to the supervisor. *)
Definition look (e : Engine) : E Engine := let* d := watch (daemon e) in ret (with_daemon d e).

Definition apply_op (o : Op) (e : Engine) : E Engine :=
  match o with
  | OInstall => let* r := install_distro e in ret (snd r)
  | OStart => let* r := start_daemon e in ret (snd r)
  | OStop => let* r := stop_daemon e in ret (snd r)
  | ODoctor => let* r := run_doctor e in ret (snd r)
  | OStatus => look e
  | ORequest m p => let* r := daemon_call m p (fun v => Ok v) e in ret (snd r)
  end.

Fixpoint apply_ops (os : list Op) (e : Engine) : E Engine :=
  match os with
  | [] => ret e
  | o :: os => let* e := apply_op o e in apply_ops os e
  end.

(** The application from its start to the drop of its supervisor. *)
Definition whole_run (candidates : list string) (os : list Op) : E Engine :=
  let* e := apply_ops os (engine_new candidates) in
  let* r := stop_daemon e in ret (snd r).

Definition minded (e e' : Engine) (l : list Act) : Prop :=
  kept (daemon e) (daemon e') l /\ truthful (daemon e').

Lemma minded_refl e : truthful (daemon e) -> minded e e [].
Proof. split; [|done]. unfold kept. clear. set_solver. Qed.

Lemma minded_trans e1 e2 e3 l l' : minded e1 e2 l -> minded e2 e3 l' -> minded e1 e3 (l ++ l').
Proof. intros [H1 _] [H2 H3]. split; [by eapply kept_trans|done]. Qed.

Lemma tended_kept ok d d' l : tended ok d d' l -> kept d d' l.
Proof. by intros [H _]. Qed.

Lemma quiet_search cs : does (locate_image cs) (fun _ l => l = []).
Proof. induction cs as [|c cs IH]; cbn [locate_image]; [by apply does_ret|]. unfold on_disk. repeat walk1; [done|exact IH]. Qed.

Lemma look_minded e : truthful (daemon e) -> does (look e) (minded e).
Proof.
  intros Ht. unfold look. eapply does_bind; [apply watch_does|]. intros d l [H1 Hd]. apply does_ret. rewrite app_nil_r.
  split; [by eapply tended_kept|by eapply watched_truthful].
Qed.

Lemma stop_minded e : does (stop_daemon e) (fun r l => minded e (snd r) l /\ live (daemon (snd r)) = None).
Proof.
  unfold stop_daemon. eapply does_bind; [apply stop_does|]. intros d l [H1 ->]. apply does_ret. rewrite app_nil_r.
  split; [|done]. split; [by eapply tended_kept|done].
Qed.

Lemma start_minded e : truthful (daemon e) -> does (start_daemon e) (fun r l => minded e (snd r) l).
Proof.
  intros Ht. unfold start_daemon. eapply does_bind; [by apply preflight_does|]. intros [r d] l (H1 & H2 & _). apply does_ret.
  rewrite app_nil_r. split; [by eapply tended_kept|done].
Qed.

Lemma install_minded e : truthful (daemon e) -> does (install_distro e) (fun r l => minded e (snd r) l).
Proof.
  intros Ht. unfold install_distro. eapply does_bind; [apply quiet_search|]. intros [image|] l ->.
  - eapply does_bind; [apply stop_does|]. intros d l [H1 ->]. eapply does_bind; [apply lift_does, install_runs|].
    intros r l2 (l0 & -> & _). cbn [app].
    assert (H2 : kept (daemon e) new_supervisor (l ++ map Distro l0)).
    { eapply kept_trans; [by eapply tended_kept|]. apply (tended_kept own), tended_distro. }
    destruct r; apply does_ret; rewrite app_nil_r; by split.
  - apply does_ret. by apply minded_refl.
Qed.

(** What an operation leaves, an error of its own apart. *)
Lemma drop_answer {A} (m : E (A * Engine)) (P : Engine -> list Act -> Prop) :
  does m (fun r l => P (snd r) l) -> does (let* r := m in ret (snd r)) P.
Proof. intros H. eapply does_bind; [exact H|]. intros r l Hp. apply does_ret. by rewrite app_nil_r. Qed.

Lemma apply_op_minded o e : truthful (daemon e) -> does (apply_op o e) (minded e).
Proof.
  intros Ht. destruct o; cbn [apply_op].
  - by apply drop_answer, install_minded.
  - by apply drop_answer, start_minded.
  - apply drop_answer. eapply does_conseq; [apply stop_minded|]. by intros r l [H _].
  - apply drop_answer. eapply does_conseq; [by apply run_doctor_does|]. intros r l (H1 & H2 & _). split; [by eapply tended_kept|done].
  - by apply look_minded.
  - apply drop_answer. eapply does_conseq; [by apply daemon_call_does|]. intros r l (H1 & H2 & _). split; [by eapply tended_kept|done].
Qed.

Lemma apply_ops_minded os e : truthful (daemon e) -> does (apply_ops os e) (minded e).
Proof.
  revert e. induction os as [|o os IH]; intros e Ht; cbn [apply_ops]; [by apply does_ret, minded_refl|].
  eapply does_bind; [by apply apply_op_minded|]. intros e1 l H1. eapply does_conseq; [by apply IH, H1|].
  intros e2 l2 H2. by eapply minded_trans.
Qed.

(** C35. Whatever the application does and however [wsl.exe] and the daemons
    behave, no daemon that came to be held is left behind.  After any of its
    operations the supervisor holds every process that may still run, of all
    that were started, and its state says running exactly when it holds one;
    after the supervisor is dropped every daemon ever started has ended or been
    killed and reaped.  The one exception is a process that was started and
    whose standard error no thread could be started to read: it never came to
    be held, and may run on. *)
Theorem no_daemon_is_left_behind candidates os :
  does (apply_ops os (engine_new candidates)) (fun e l => at_large ∅ l ⊆ held (daemon e) ∪ unwatched l /\ truthful (daemon e)) /\
  does (whole_run candidates os) (fun e l => at_large ∅ l ⊆ unwatched l /\ live (daemon e) = None).
Proof.
  assert (Hrun : does (apply_ops os (engine_new candidates)) (minded (engine_new candidates))) by by apply apply_ops_minded.
  split; [exact Hrun|].
  unfold whole_run. eapply does_bind; [exact Hrun|]. intros e l H1. eapply does_bind; [apply stop_minded|]. intros r l2 [H2 Hl].
  apply does_ret. rewrite app_nil_r. destruct (minded_trans _ _ _ _ _ H1 H2) as [H3 _]. split; [|done].
  revert H3. unfold kept, held at 2. rewrite Hl. clear. set_solver.
Qed.

(** A report is asked for at most twice, and the one kept is the one that was
    given, by a daemon that still runs; a report that could not be had leaves
    the last one. *)
Theorem the_report_is_tried_twice e (He : truthful (daemon e)) :
  does (run_doctor e) (fun r l => length (asked "daemon.doctor" l) <= 2 /\ report_kept e r).
Proof. eapply does_conseq; [by apply run_doctor_does|]. by intros r l (_ & _ & H). Qed.

(** ** The webview's seam, and terminals *)

(** The one method through which the webview calls plugins by name reaches
    nothing but the profile plugin: a name outside its space is refused with
    nothing done, and for one inside it the only calls are the supervisor's
    own and the method itself, which the daemon routes to that plugin. *)
Theorem the_webview_reaches_profiles_only {A} (decode : Json -> result A string) method params e (He : truthful (daemon e)) :
  does (plugin_call decode method params e) (fun r l =>
    (starts_with "profile." method = false -> l = [] /\ r = (Err (EMethodNotServed method), e)) /\
    (forall p m x, Called p m x ∈ l -> own m = true \/ (m = method /\
      forall W v k show home VERSION create_dirs write_file print_enabled canonicalize read_dir metadata open to_lowercase git_run,
        @Dispatch.route W v k show home VERSION create_dirs write_file print_enabled canonicalize read_dir metadata open to_lowercase git_run m
        = Some (Dispatch.profile_handle v k show home create_dirs m)))).
Proof.
  unfold plugin_call. destruct (starts_with "profile." method) eqn:Hm.
  - eapply does_conseq; [by apply daemon_call_does|]. intros r l ([_ H] & _). split; [done|]. intros p m x Hl.
    assert (Hf : for_request method m = true).
    { apply (proj1 (forallb_forall _ _) H (Called p m x)). by apply list_elem_of_In. }
    unfold for_request in Hf. apply orb_prop in Hf as [Hf|Hf]; [by left|right]. apply bool_decide_eq_true_1 in Hf as ->.
    split; [done|]. intros. by apply Dispatch.profile_methods_routed.
  - apply does_ret. split; [done|]. intros p m x H. by apply elem_of_nil in H.
Qed.

Definition launches (a : Act) : bool := match a with Launched _ _ _ => true | _ => false end.

Lemma tended_launches_nothing ok d d' l : tended ok d d' l -> forallb (fun a => negb (launches a)) l = true.
Proof.
  intros [_ H]. induction l as [|a l IH]; [done|]. cbn in *. apply andb_prop in H as [Ha Hl]. rewrite IH by done. by destruct a.
Qed.

(** A terminal was launched, or every launch failed; all attach to [name]. *)
Definition opens (name : string) (failed : option string) (l : list Act) : Prop :=
  (forall program args e, Launched program args e ∈ l -> args = attach_argv name \/ exists title, args = wt_argv name title) /\
  (failed = None <-> exists program args, Launched program args None ∈ l).

Lemma present_quiet ps : does (first_present ps) (fun _ l => l = []).
Proof. induction ps as [|p ps IH]; cbn [first_present]; [by apply does_ret|]. unfold on_disk. repeat walk1; [done|exact IH]. Qed.

Lemma open_tab_does name title : does (open_tab name title) (opens name).
Proof using All.
  unfold open_tab, locate_wt. eapply does_bind; [apply present_quiet|]. intros wt l ->. unfold launch. repeat walk1; unfold opens.
  all: rewrite ?bool_decide_eq_true, ?bool_decide_eq_false in *; subst.
  all: split; [intros program args e H; rewrite !elem_of_cons, elem_of_nil in H; naive_solver|].
  - split; [|done]. intros _. eexists _, _. in_list.
  - split; [destruct a0; [discriminate|]; intros _; eexists _, _; in_list|].
    intros (program & args & H). rewrite !elem_of_cons, elem_of_nil in H. naive_solver.
  - split; [destruct a; [discriminate|]; intros _; eexists _, _; in_list|].
    intros (program & args & H). rewrite !elem_of_cons, elem_of_nil in H. naive_solver.
Qed.

Lemma open_tab_quiet d name title : does (open_tab name title) (fun _ l => kept d d l).
Proof using All.
  unfold open_tab, locate_wt. eapply does_bind; [apply present_quiet|]. intros wt l ->. unfold launch.
  repeat walk1; by apply kept_quiet.
Qed.

Lemma call_minded {A} m params (decode : Json -> result A string) e : truthful (daemon e) ->
  does (daemon_call m params decode e) (fun r l => minded e (snd r) l).
Proof. intros Ht. eapply does_conseq; [by apply daemon_call_does|]. intros r l (H1 & H2 & _). split; [by eapply tended_kept|done]. Qed.

Lemma identity_quiet : does windows_git_identity (fun _ l => l = []).
Proof using All. unfold windows_git_identity, git_config. repeat walk1; done. Qed.

Lemma session_open_minded ulid created_of projects_of project_id resume resume_from kind e : truthful (daemon e) ->
  does (session_open_impl ulid created_of projects_of project_id resume resume_from kind e) (fun r l => minded e (snd r) l).
Proof using All.
  intros Ht. unfold session_open_impl. eapply does_bind; [apply identity_quiet|].
  intros identity l0 ->. eapply does_bind; [by apply call_minded|]. intros [[[id session]|x] e1] l1 H1; cbn [snd app] in *.
  - unfold project_title. apply does_assoc. eapply does_bind; [apply call_minded, H1|]. intros [t e2] l2 H2. walk1.
    eapply does_bind; [apply (open_tab_quiet (daemon e2))|]. intros failed l3 H3. apply does_ret. rewrite app_nil_r. cbn [fst snd] in *.
    eapply minded_trans; [exact H1|]. eapply minded_trans; [exact H2|]. split; [exact H3|apply H2].
  - apply does_ret. by rewrite app_nil_r.
Qed.

Lemma session_attach_minded ulid id title e : truthful (daemon e) ->
  does (let* r := session_attach ulid id title in ret (r, e)) (fun r l => minded e (snd r) l).
Proof using All.
  intros Ht. unfold session_attach. apply does_assoc. eapply does_bind; [apply (open_tab_quiet (daemon e))|]. intros failed l H.
  walk1. apply does_ret. rewrite app_nil_r. by split.
Qed.

(** What the answer to the creation says. *)
Definition session_answered (created_of : Json -> result (N * Json) string) (ulid_to_string : N -> string)
    (r : result SessionOpened EngineError) (l1 l2 : list Act) : Prop :=
  match r with
  | Err _ => l2 = [] /\ forall p v, Called p "session.create" (Ok v) ∈ l1 -> is_ok (created_of v) = false
  | Ok o => exists p v id, Called p "session.create" (Ok v) ∈ l1 /\ created_of v = Ok (id, opened_session o) /\
      exists failed, opens (session_name ulid_to_string id) failed l2 /\
        terminal_problem o = (fun m => problem_of (terminal_launch (session_name ulid_to_string id) m)) <$> failed
  end.

Lemma asked_in m a l : asked m l = [a] -> a ∈ l.
Proof. intros H. apply list_elem_of_In, (List.filter_In (asks m)). fold (asked m l). rewrite H. by left. Qed.

Lemma in_asked p m x l b : asked m l = b -> Called p m x ∈ l -> Called p m x ∈ b.
Proof.
  intros <- H. apply list_elem_of_In, (List.filter_In (asks m)). split; [by apply list_elem_of_In|]. by apply bool_decide_eq_true_2.
Qed.

(** A session the daemon created is answered for whatever comes of its
    terminal: opening fails only when the daemon created none, and then no
    terminal is launched; otherwise the session is returned, the terminals
    launched attach to that session, and a problem is told exactly when
    none of them could be launched. *)
Theorem a_session_outlives_its_terminal ulid created_of projects_of project_id resume resume_from kind e (He : truthful (daemon e)) :
  does (session_open_impl ulid created_of projects_of project_id resume resume_from kind e) (fun r l =>
    exists l1 l2, l = l1 ++ l2 /\ forallb (fun a => negb (launches a)) l1 = true /\ session_answered created_of ulid (fst r) l1 l2).
Proof using All.
  unfold session_open_impl. eapply does_bind; [apply identity_quiet|].
  intros identity l0 ->. eapply does_bind; [by apply daemon_call_does|]. intros [r e1] l1 (H1 & H2 & H3). cbn [fst snd app] in *.
  pose proof (tended_launches_nothing _ _ _ _ H1) as Hl1. destruct (H3 eq_refl) as [(Ha & Hr & _)|(p & v & i & x & Ha & Hr & Hj)].
  - destruct r as [|x]; [done|]. apply does_ret. exists l1, []. split; [by rewrite app_nil_r|]. split; [done|]. split; [done|].
    intros p v Hc. apply (in_asked _ _ _ _ _ Ha), elem_of_nil in Hc as [].
  - destruct r as [[id session]|err].
    + destruct x as [v0|]; [|discriminate Hr]. cbn in Hr. destruct (created_of v0) as [c|] eqn:Hc; [|discriminate Hr].
      injection Hr as <-. unfold project_title. apply does_assoc. eapply does_bind; [by apply daemon_call_does|].
      intros [t e2] l2 (H4 & _). walk1. eapply does_bind; [apply open_tab_does|]. intros failed l3 H5. apply does_ret.
      rewrite app_nil_r. exists (l1 ++ l2), l3. split; [by rewrite app_assoc|].
      split; [by rewrite forallb_app, Hl1, (tended_launches_nothing _ _ _ _ H4)|]. exists p, v0, id.
      split; [apply elem_of_app; left; by apply asked_in in Ha|]. split; [done|]. by exists failed.
    + apply does_ret. exists l1, []. split; [by rewrite app_nil_r|]. split; [done|]. split; [done|].
      intros p' v' Hc. apply (in_asked _ _ _ _ _ Ha), list_elem_of_singleton in Hc. injection Hc as -> <-. cbn in Hr.
      by destruct (created_of v').
Qed.
End engine.

(** ** Witnesses *)

(** A daemon that answers everything with a null; [wsl.exe] finds Willie's
    distribution; nothing else can be spawned. *)
Definition sample_rpc (p : N) (m : string) (params : Json) (s : unit) : result Json EngineError * unit := (Ok JNull, s).

Definition sample_wsl (args : list string) (s : unit) : CliOutput * unit := (CliEnded true (Some 0%Z) DISTRO_NAME EmptyString, s).

(** The operations that take part in a request, in that world. *)
Definition in_sample {R} (op : (nat -> unit -> unit) -> (unit -> result N WslError * unit) -> (N -> unit -> result unit WslError * unit) ->
  (N -> unit -> result unit WslError * unit) -> (N -> string -> Json -> unit -> result Json EngineError * unit) -> (N -> unit -> result (option Z) WslError * unit) ->
  (N -> unit -> string) -> (N -> unit -> string) -> (N -> unit -> unit) -> (N -> unit -> unit) -> (list string -> unit -> CliOutput * unit) ->
  option string -> R) : R :=
  op (fun _ s => s) (fun s => (Ok 1%N, s)) (fun _ s => (Ok tt, s)) (fun _ s => (Ok tt, s)) sample_rpc (fun _ s => (Ok None, s)) (fun _ _ => EmptyString)
    (fun _ _ => EmptyString) (fun _ s => s) (fun _ s => s) sample_wsl None.

Definition sample_hello (_ : Json) : result (string * option string) string := Ok ("1.0", None).

Definition sample_engine : Engine := engine_new ["image.tar"].

(** What the theorems' contexts hold that a request does not use. *)
Ltac fill := intros; first [exact None | exact (None, tt) | exact (Removed, tt) | exact (Ok JNull) | exact (Err EmptyString) | exact EmptyString | exact false].

Definition as_json (v : Json) : result Json string := Ok v.

Definition sample_request : E (result Json EngineError * Engine) :=
  in_sample (fun o a w b c d f g h i j k => daemon_call o a w b c d f g h i j k 1 1 "1.0" sample_hello "project.list" no_params as_json sample_engine).

Lemma a_request_is_sent_at_most_once_witness :
  does sample_request (fun r l => answered "project.list" as_json (fst r) (daemon (snd r)) l) /\
  fst (fst (sample_request (mk_world tt 0 []))) = Ok JNull.
Proof. split; [eapply a_request_is_sent_at_most_once; first [reflexivity|fill]|vm_compute; reflexivity]. Defined.

(** A child that was started and whose standard error cannot be read is dropped
    without being killed or waited for: it is not held, and may run on. *)
Example an_unwatched_daemon_is_left : exists e l,
  in_sample (fun o a _ b c d f g h i j k =>
    start_daemon o a (fun _ s => (Err (WslIo "no thread"), s)) b c d f g h i j k 1 1 "1.0" sample_hello sample_engine) (mk_world tt 0 [])
  = (Err (EWsl (WslIo "no thread")), e, mk_world tt 4 l) /\ live (daemon e) = None /\ at_large ∅ l = {[1%N]} /\ unwatched l = {[1%N]}.
Proof. eexists _, _. split; [vm_compute; reflexivity|]. by split; [|split]; vm_compute. Qed.

Definition sample_report : E (result Json EngineError * Engine) :=
  in_sample (fun o a w b c d f g h i j k => run_doctor o a w b c d f g h i j k 1 1 "1.0" sample_hello as_json sample_engine).

Lemma the_report_is_tried_twice_witness :
  does sample_report (fun r l => length (asked "daemon.doctor" l) <= 2 /\ report_kept sample_engine r) /\
  last_doctor (snd (fst (sample_report (mk_world tt 0 [])))) = Some JNull.
Proof. split; [eapply the_report_is_tried_twice; first [reflexivity|fill]|vm_compute; reflexivity]. Defined.

Definition sample_plugin_call (method : string) : E (result Json EngineError * Engine) :=
  in_sample (fun o a w b c d f g h i j k => plugin_call o a w b c d f g h i j k 1 1 "1.0" sample_hello as_json method no_params sample_engine).

Lemma the_webview_reaches_profiles_only_witness :
  does (sample_plugin_call "daemon.shutdown") (fun r l => l = []) /\
  fst (fst (sample_plugin_call "daemon.shutdown" (mk_world tt 0 []))) = Err (EMethodNotServed "daemon.shutdown").
Proof.
  split; [|vm_compute; reflexivity].
  eapply does_conseq; [eapply the_webview_reaches_profiles_only; first [reflexivity|fill]|]. intros r l [H _]. by destruct (H eq_refl).
Defined.

Definition sample_open : E (result SessionOpened EngineError * Engine) :=
  in_sample (fun o a w b c d f g h i j k => session_open_impl o a w b c d f g h i j k (fun _ s => (None, s)) (fun _ _ => false)
    (fun _ _ s => (Some "no such program", s)) None None 1 1 "1.0" sample_hello pretty (fun v => Ok (7%N, v)) (fun _ => Ok []) 1%N false None Agent
    sample_engine).

Lemma a_session_outlives_its_terminal_witness :
  does sample_open (fun r l => exists l1 l2, l = l1 ++ l2 /\ forallb (fun a => negb (launches a)) l1 = true /\
    session_answered (fun v => Ok (7%N, v)) pretty (fst r) l1 l2) /\
  match fst (fst (sample_open (mk_world tt 0 []))) with
  | Ok o => opened_session o = JNull /\ (p_code <$> terminal_problem o) = Some "terminal_launch_failed"
  | Err _ => False
  end.
Proof. split; [eapply a_session_outlives_its_terminal; first [reflexivity|fill]|vm_compute; by split]. Defined.
