(* ===== verification/Store.v ===== *)
(** * The project records

    Models crates/willied/src/store.rs: one TOML file per project under the
    state directory, read in two stages so that a mistyped sandbox table costs
    no record, and written aside and renamed.  TOML and serde are parameters;
    files are held by their path, and what the system answers to each step of
    a write is an argument. *)

From S2P Require Import Prelude Text Utf8 Sandbox Project Logs.

Local Open Scope string_scope.
Local Open Scope list_scope.
Local Open Scope willie_scope.

(** What the system answers to the steps of a write: an error making the
    directory; an error writing the file aside, with what that file then
    holds; an error renaming it. *)
Record Answers : Type := mk_answers { a_make : option string; a_write : string -> option (string * option string); a_rename : option string }.

Definition no_fault : Answers := mk_answers None (fun _ => None) None.

(** Make the directory, print, write aside, rename. *)
Definition replace_file (sys : Answers) (path tmp : string) (printed : result string string) (fs : gmap string string) :
    result unit string * gmap string string :=
  match a_make sys, printed with
  | Some e, _ | None, Err e => (Err e, fs)
  | None, Ok text =>
      match a_write sys text with
      | Some (e, torn) => (Err e, match torn with Some s => <[tmp := s]> fs | None => fs end)
      | None =>
          match a_rename sys with
          | Some e => (Err e, <[tmp := text]> fs)
          | None => (Ok tt, <[path := text]> (delete tmp fs))
          end
      end
  end.

(** Only the file replaced changes, and only if all went well; the file aside
    may be left in any state. *)
Lemma replace_frame sys path tmp printed fs q : q <> tmp ->
  (q <> path \/ is_ok (fst (replace_file sys path tmp printed fs)) = false) -> snd (replace_file sys path tmp printed fs) !! q = fs !! q.
Proof.
  intros Ht Hp. unfold replace_file in *. destruct (a_make sys), printed as [text|e]; try done.
  destruct (a_write sys text) as [[e [torn|]]|]; [by apply lookup_insert_ne|done|].
  destruct (a_rename sys); [by apply lookup_insert_ne|]. cbn [fst snd is_ok] in *.
  destruct Hp as [Hp|Hp]; [|discriminate]. etrans; [by apply lookup_insert_ne|by apply lookup_delete_ne].
Qed.

Lemma replace_ok sys path tmp printed fs : is_ok (fst (replace_file sys path tmp printed fs)) = true ->
  exists text, printed = Ok text /\ snd (replace_file sys path tmp printed fs) !! path = Some text.
Proof.
  unfold replace_file. destruct (a_make sys), printed as [text|e]; try discriminate.
  destruct (a_write sys text) as [[e torn]|]; [discriminate|]. destruct (a_rename sys); [discriminate|]. intros _. exists text.
  split; [done|]. apply lookup_insert_eq.
Qed.

(** [fs::read_to_string]; some files may not be read. *)
Definition read_to_string (readable : string -> bool) (path : string) (fs : gmap string string) : option string :=
  match fs !! path with
  | Some text => if readable path && is_utf8 text then Some text else None
  | None => None
  end.

(** ** The records *)

Definition projects_dir (state_dir : string) : string := path_join state_dir "projects".

Definition with_problem (pr : option SandboxProblem) (p : Project) : Project :=
  mk_project (id p) (name p) (slug p) (source p) (workspace p) (branch p) (state p) (source_present p) (created_at p) (sandbox p) pr.

Definition read_as (pr : SandboxProfile) (problem : option SandboxProblem) (p : Project) : Project :=
  mk_project (id p) (name p) (slug p) (source p) (workspace p) (branch p) (state p) (source_present p) (created_at p) pr problem.

Section store.
  (** A TOML value; a table is a map of them. *)
  Context {V : Type}.
  Context (parse_table : string -> option (gmap string V)) (print_table : gmap string V -> result string string).
  Context (profile_of : V -> result SandboxProfile string) (project_of : gmap string V -> option Project)
    (table_of : Project -> result (gmap string V) string).
  Context (ulid_to_string : N -> string).
  (** gmap string string that may not be read. *)
  Context (readable : string -> bool).

Definition profile_problem (e : string) : SandboxProblem :=
  Project.mk_problem "sandbox_profile_invalid" ("the [sandbox] table could not be read: " +:+ e)
    "open Sandbox… for this project and save it to replace the table, or fix the file".

Definition problem_of (v : option V) : option SandboxProblem :=
  match v with
  | Some v => match profile_of v with Ok _ => None | Err e => Some (profile_problem e) end
  | None => None
  end.

(** One record, in two stages. *)
Definition project_in (table : gmap string V) : option Project :=
  let raw := table !! "sandbox" in
  let bare := delete "sandbox" table in
  let pr := problem_of raw in
  let table := match pr, raw with None, Some v => <["sandbox" := v]> bare | _, _ => bare end in
  with_problem pr <$> project_of table.

Definition load_record (path : string) (fs : gmap string string) : option Project :=
  match read_to_string readable path fs with
  | Some text => parse_table text ≫= project_in
  | None => None
  end.

(** [names] is what the directory lists, [None] if it cannot be. *)
Definition load_all (state_dir : string) (names : option (list string)) (fs : gmap string string) : list Project :=
  omap (fun n => if bool_decide (extension n = Some "toml") then load_record (path_join (projects_dir state_dir) n) fs else None)
    (default [] names).

Definition record_name (p : Project) : string := id_display ulid_to_string KProject (id p) +:+ ".toml".

Definition record_path (state_dir : string) (p : Project) : string := path_join (projects_dir state_dir) (record_name p).

Definition tmp_path (state_dir : string) (p : Project) : string := path_join (projects_dir state_dir) (record_name p +:+ ".tmp").

(** The table a person wrote and the daemon could not read. *)
Definition kept_table (path : string) (p : Project) (fs : gmap string string) : option V :=
  match sandbox_problem p with
  | Some _ => text ← read_to_string readable path fs; old ← parse_table text; old !! "sandbox"
  | None => None
  end.

Definition document (path : string) (p : Project) (fs : gmap string string) : result (gmap string V) string :=
  let? doc := table_of p in
  let doc := match kept_table path p fs with Some v => <["sandbox" := v]> doc | None => doc end in
  Ok (delete "sandbox_problem" doc).

Definition save (state_dir : string) (sys : Answers) (p : Project) (fs : gmap string string) : result unit string * gmap string string :=
  replace_file sys (record_path state_dir p) (tmp_path state_dir p) (let? doc := document (record_path state_dir p) p fs in print_table doc) fs.

Definition save_or_log (state_dir : string) (sys : Answers) (p : Project) (fs : gmap string string) : gmap string string := snd (save state_dir sys p fs).

(** [fs::remove_file], which may be refused; a file that is not there is
    forgotten. *)
Definition delete_file (state_dir : string) (refused : option string) (p : Project) (fs : gmap string string) : result unit string * gmap string string :=
  match fs !! record_path state_dir p with
  | None => (Ok tt, fs)
  | Some _ => match refused with Some e => (Err e, fs) | None => (Ok tt, delete (record_path state_dir p) fs) end
  end.

Definition delete_or_log (state_dir : string) (refused : option string) (p : Project) (fs : gmap string string) : gmap string string :=
  snd (delete_file state_dir refused p fs).

(** ** What a write can do *)

Lemma extension_app n x : contains_char "." x = false -> is_empty n = false -> is_empty x = false ->
  extension (n +:+ String "." x) = Some x.
Proof.
  intros Hx Hn He. unfold extension. rewrite bool_decide_eq_false_2.
  - rewrite split_app, (split_none _ x Hx), removelast_last, last_snoc, join_split. by rewrite Hn.
  - intros E. apply (f_equal (fun s => last (split "." s))) in E. rewrite split_app, (split_none _ x Hx), last_snoc in E.
    injection E as ->. discriminate He.
Qed.

Lemma id_text_app p x : record_name p +:+ x = (id_display ulid_to_string KProject (id p)) +:+ ".toml" +:+ x.
Proof. unfold record_name. by rewrite str_app_assoc. Qed.

Lemma tmp_is_no_record p : extension (record_name p +:+ ".tmp") <> Some "toml".
Proof. change ".tmp" with (String "." "tmp"). rewrite extension_app; [done|done| |done]. unfold record_name, id_display. by cbn. Qed.

Lemma record_is_one p : extension (record_name p) = Some "toml".
Proof. unfold record_name. change ".toml" with (String "." "toml"). rewrite extension_app; [done|done| |done]. unfold id_display. by cbn. Qed.

Lemma path_join_inj p x y : is_absolute x = false -> is_absolute y = false -> path_join p x = path_join p y -> x = y.
Proof.
  intros Hx Hy. unfold path_join. rewrite Hx, Hy. destruct (last _) as [a|]; [|done].
  case_bool_decide; intros E; [by apply str_app_inj in E|]. by apply str_app_inj, str_app_inj in E.
Qed.

Lemma record_name_relative p x : is_absolute (record_name p +:+ x) = false.
Proof. done. Qed.

(** The files a save can change. *)
Lemma save_frame state_dir sys p fs path : path <> tmp_path state_dir p ->
  (path <> record_path state_dir p \/ is_ok (fst (save state_dir sys p fs)) = false) ->
  snd (save state_dir sys p fs) !! path = fs !! path.
Proof.
  apply replace_frame.
Qed.

(** A save changes at most the one record it is of, and that only when it
    succeeded: whichever step fails and whatever the failed write left behind,
    every record that is read is read as before. *)
Theorem save_touches_one_record state_dir sys p fs n (Hn : is_name n = true) (He : extension n = Some "toml") :
  n <> record_name p \/ is_ok (fst (save state_dir sys p fs)) = false ->
  load_record (path_join (projects_dir state_dir) n) (snd (save state_dir sys p fs)) =
  load_record (path_join (projects_dir state_dir) n) fs.
Proof.
  intros H. apply is_name_spec in Hn as (_ & _ & Hs). pose proof (is_name_relative n Hs) as Hr.
  unfold load_record, read_to_string. rewrite save_frame; [done| |].
  - intros E. apply path_join_inj in E; [|done|done]. subst. by destruct (tmp_is_no_record p).
  - destruct H as [H|H]; [left|by right]. intros E. by apply path_join_inj in E.
Qed.

(** ** Reading back *)

(** serde on a record and on its sandbox table, and TOML on the tables it
    makes. *)
Record Laws : Prop := {
  law_print t s : print_table t = Ok s -> parse_table s = Some t /\ is_utf8 s = true;
  law_sandbox p t : table_of p = Ok t -> exists v, t !! "sandbox" = Some v /\ profile_of v = Ok (sandbox p);
  law_table p t v pr : table_of p = Ok t -> profile_of v = Ok pr ->
    project_of (<["sandbox" := v]> (delete "sandbox_problem" t)) = Some (read_as pr None p);
  law_default p t : table_of p = Ok t ->
    project_of (delete "sandbox" (delete "sandbox_problem" t)) = Some (read_as default_profile None p)
}.

(** What a saved project reads back as, by the table its file keeps. *)
Definition reads_as (kept : option V) (p : Project) : Project :=
  match kept with
  | None => with_problem None p
  | Some v => match profile_of v with Ok pr => read_as pr None p | Err e => read_as default_profile (Some (profile_problem e)) p end
  end.

(** A project that was saved reads back as it was, its problem recomputed; and
    while its file holds a sandbox table the daemon could not read, no save of
    anything else replaces that table: it is read again from the new file, and
    is still the problem until someone mends it, and then is the profile. *)
Theorem saved_records_read_back state_dir sys p fs (L : Laws) (Hr : readable (record_path state_dir p) = true)
    (Hok : is_ok (fst (save state_dir sys p fs)) = true) :
  load_record (record_path state_dir p) (snd (save state_dir sys p fs)) = Some (reads_as (kept_table (record_path state_dir p) p fs) p).
Proof.
  destruct (replace_ok _ _ _ _ _ Hok) as (text & Hp & Hf).
  destruct (document (record_path state_dir p) p fs) as [doc|e] eqn:Hd; [|discriminate].
  destruct (law_print L _ _ Hp) as [Hparse Hutf]. unfold load_record, read_to_string, save.
  rewrite Hd, Hf, Hr, Hutf. cbn. rewrite Hparse. cbn. unfold document in Hd.
  destruct (table_of p) as [t|e] eqn:Ht; [|discriminate]. injection Hd as <-. unfold project_in, reads_as.
  destruct (kept_table _ p fs) as [v|].
  - rewrite lookup_delete_ne by done. rewrite lookup_insert_eq. cbn [problem_of].
    rewrite delete_insert_ne, delete_insert_eq, insert_delete_eq by done. destruct (profile_of v) as [pr|e] eqn:Hv.
    + by rewrite (law_table L _ _ _ _ Ht Hv).
    + by rewrite (law_default L _ _ Ht).
  - rewrite lookup_delete_ne by done. destruct (law_sandbox L _ _ Ht) as (v & Hv & Hpr). rewrite Hv. cbn [problem_of]. rewrite Hpr.
    rewrite insert_delete_eq, (law_table L _ _ _ _ Ht Hpr). by destruct p.
Qed.
End store.

(** ** Witnesses *)

(** A value is a whole record or a profile. *)
Definition Value : Type := Project + SandboxProfile.

Definition sample_profile_of (v : Value) : result SandboxProfile string := match v with inr s => Ok s | inl _ => Err "unknown field" end.

Definition sample_table_of (p : Project) : result (gmap string Value) string :=
  Ok (<["record" := inl (with_problem None p)]> {["sandbox" := inr (sandbox p)]}).

Definition sample_project_of (t : gmap string Value) : option Project :=
  match t !! "record" with
  | Some (inl p) => Some (read_as (match t !! "sandbox" with Some (inr s) => s | _ => default_profile end) None p)
  | _ => None
  end.

Definition sample_problem : SandboxProblem := Project.mk_problem "sandbox_profile_invalid" "unknown field" "mend it".

Definition sample_project : Project :=
  mk_project 1 "renamed" "site" "C:\site" "/home/willie/projects/site" "main" Project.Ready true "0" default_profile (Some sample_problem).

(** The table a person mistyped, and the document that keeps it. *)
Definition mistyped : Value := inl sample_project.

Definition sample_document : gmap string Value := <["record" := inl (with_problem None sample_project)]> {["sandbox" := mistyped]}.

Definition sample_parse (s : string) : option (gmap string Value) :=
  if bool_decide (s = "old") then Some {["sandbox" := mistyped]} else if bool_decide (s = "new") then Some sample_document else None.

Definition sample_print (t : gmap string Value) : result string string :=
  if bool_decide (t = sample_document) then Ok "new" else Err "not printed".

Lemma sample_laws : Laws sample_parse sample_print sample_profile_of sample_project_of sample_table_of.
Proof.
  split.
  - intros t s. unfold sample_print. case_bool_decide as E; [|discriminate]. intros [= <-]. subst. done.
  - intros p t [= <-]. by eexists.
  - intros p t v pr [= <-] Hv. unfold sample_project_of. rewrite lookup_insert_ne, lookup_delete_ne, lookup_insert_eq by done.
    rewrite lookup_insert_eq. destruct v; [discriminate|]. by injection Hv as ->.
  - intros p t [= <-]. unfold sample_project_of. rewrite lookup_delete_ne, lookup_delete_ne, lookup_insert_eq by done.
    by rewrite lookup_delete_eq.
Qed.

Definition sample_save (sys : Answers) : result unit string * gmap string string :=
  save sample_parse sample_print sample_table_of pretty (fun _ => true) "/s" sys sample_project {["/s/projects/proj_1.toml" := "old"]}.

Definition sample_load (path : string) (fs : gmap string string) : option Project :=
  load_record sample_parse sample_profile_of sample_project_of (fun _ => true) path fs.

Lemma saved_records_read_back_witness :
  sample_load (record_path pretty "/s" sample_project) (snd (sample_save no_fault)) = Some (read_as default_profile (Some (profile_problem "unknown field")) sample_project).
Proof.
  etrans; [refine (saved_records_read_back sample_parse sample_print sample_profile_of sample_project_of sample_table_of pretty (fun _ => true) "/s"
    no_fault sample_project {["/s/projects/proj_1.toml" := "old"]} sample_laws eq_refl _)|]; vm_compute; reflexivity.
Defined.

(** A write that fails half way, and leaves half a file. *)
Definition disk_full : Answers := mk_answers None (fun text => Some ("no space left on device", Some "ne")) None.

Lemma save_touches_one_record_witness :
  sample_load (path_join (projects_dir "/s") "proj_1.toml") (snd (sample_save disk_full)) =
    sample_load (path_join (projects_dir "/s") "proj_1.toml") {["/s/projects/proj_1.toml" := "old"]} /\
  fst (sample_save disk_full) = Err "no space left on device".
Proof.
  split; [|vm_compute; reflexivity].
  apply (save_touches_one_record sample_parse sample_print sample_profile_of sample_project_of sample_table_of pretty (fun _ => true) "/s" disk_full sample_project);
    [vm_compute; reflexivity|vm_compute; reflexivity|right; vm_compute; reflexivity].
Defined.
