(* ===== verification/Tools.v ===== *)
(** * Managed tools, their manifest and the git identity

    Models crates/willied/src/tools.rs, manifest.rs, harness.rs and identity.rs:
    finding the harness and its version, installing and updating it as a
    project-less job, the file of what was installed, and the identity a
    session's commits use.  Programs, git and TOML are parameters; every
    program that is run is recorded with its answer. *)

From S2P Require Import Prelude Text Utf8 BTree Sandbox Session Harness DaemonState Jobs Sessions Effects Git Store.

Local Open Scope string_scope.
Local Open Scope list_scope.
Local Open Scope willie_scope.

(** ** The manifest *)

Record ToolRecord : Type := mk_record { r_version : string; r_installed_at : string; r_installer : string }.

#[export] Instance ToolRecord_eq_dec : EqDecision ToolRecord.
Proof. solve_decision. Defined.

Definition manifest_path (state_dir : string) : string := path_join state_dir "tools.toml".

(** [with_extension("toml.tmp")]. *)
Definition manifest_tmp (state_dir : string) : string := path_join state_dir "tools.toml.tmp".

Section manifest.
  Context (parse : string -> option (gmap string ToolRecord)) (print : gmap string ToolRecord -> result string string).
  Context (readable : string -> bool).

Definition load (state_dir : string) (fs : gmap string string) : gmap string ToolRecord :=
  default ∅ (text ← read_to_string readable (manifest_path state_dir) fs; parse text).

Definition record (state_dir : string) (sys : Answers) (id : string) (rec : ToolRecord) (fs : gmap string string) : gmap string string :=
  snd (replace_file sys (manifest_path state_dir) (manifest_tmp state_dir) (print (<[id := rec]> (load state_dir fs))) fs).

(** A record is merged into the manifest as it is read, and the rest is kept; a
    write that fails leaves the manifest as it was. *)
Theorem record_merges state_dir sys id rec fs :
  (forall t s, print t = Ok s -> parse s = Some t /\ is_utf8 s = true) -> readable (manifest_path state_dir) = true ->
  load state_dir (record state_dir sys id rec fs) = load state_dir fs \/
  load state_dir (record state_dir sys id rec fs) = <[id := rec]> (load state_dir fs).
Proof.
  intros Hlaw Hr. unfold record. set (r := replace_file _ _ _ _ _). destruct (is_ok (fst r)) eqn:Hok.
  - right. destruct (replace_ok _ _ _ _ _ Hok) as (text & Hp & Hf). fold r in Hf. destruct (Hlaw _ _ Hp) as [Hs Hu].
    unfold load at 1, read_to_string. by rewrite Hf, Hr, Hu; cbn; rewrite Hs.
  - left. unfold load, read_to_string. subst r. rewrite replace_frame; [done| |by right].
    unfold manifest_path, manifest_tmp. intros E. apply path_join_inj in E; done.
Qed.
End manifest.

(** ** Finding the harness *)

(** What running a binary with [--version] shows. *)
Inductive Probe : Type := CannotRun | Hangs | Exits (success : bool) (stdout : string).

(** Output that is not UTF-8 is not read. *)
Definition detect (p : Probe) : option string :=
  match p with Exits true out => parse_version (if is_utf8 out then out else EmptyString) | _ => None end.

(** ** Effects *)

(** A program run, with its answer. *)
Inductive Act : Type :=
| Probed (binary : string) (p : Probe)
| Installer (command : string) (out : Output)
| Recorded (id : string) (r : ToolRecord)
| GlobalGet (key : string) (out : Output)
| GlobalSet (key value : string) (ok : bool)
| RepoGet (repo key : string) (out : Output).

Record ToolStatus : Type := mk_status {
  t_id : string; t_name : string; t_installed : bool; t_version : option string; t_recorded : option string }.

Definition display_name (id : string) : string := if bool_decide (id = "claude-code") then "Claude Code" else id.

Section tools.
  Context {S : Type} (others : nat -> S -> S).
  Context (is_file : string -> S -> bool) (probe : string -> S -> Probe * S) (sh : string -> S -> Output * S)
    (write_record : string -> ToolRecord -> S -> S) (manifest : S -> gmap string ToolRecord) (clock : S -> string).
  Context (git_get : string -> S -> Output * S) (git_set : string -> string -> S -> bool * S) (git_repo_get : string -> string -> S -> Output * S).
  (** [WILLIE_HARNESS_BIN] and [WILLIE_HARNESS_INSTALLER]; what the harness's
      own installer is. *)
  Context (explicit installer_override : option string) (installer : string).
  Context (home : string).

Definition T (A : Type) : Type := M S Act A.

Definition look {A} (f : S -> A) : T A := perform others (fun _ => []) (fun s => (f s, s)).

Definition run_probe (binary : string) : T (option string) :=
  let* p := perform others (fun p => [Probed binary p]) (probe binary) in ret (detect p).

Definition detect_claude : T (option string) :=
  match explicit with
  | Some binary => run_probe binary
  | None =>
      let* found := look (fun s => locate (fun p => is_file p s) ClaudeCode (session_path home)) in
      match found with Some binary => run_probe binary | None => ret None end
  end.

Definition installer_command : string := default installer installer_override.

Definition run_installer (command : string) : T JobOutcome :=
  let* out := perform others (fun out => [Installer command out]) (sh command) in
  let failed message := Err ("install_failed", message, remediation_for "install_failed") in
  ret (match out with
       | NoSpawn e => failed e
       | Ended true stdout _ => Ok (from_utf8_lossy stdout)
       | Ended false _ stderr => failed (from_utf8_lossy stderr)
       end).

Definition run_installer_and_record (command id : string) : T JobOutcome :=
  let! log := run_installer command in
  let* version :=
    (if existsb (fun h => bool_decide (Harness.h_id h = id)) registry then detect_claude else ret None) in
  match version with
  | None => ret (Ok log)
  | Some version =>
      let* now := look clock in
      let r := mk_record version now command in
      let* _ := perform others (fun _ => [Recorded id r]) (fun s => (tt, write_record id r s)) in
      ret (Ok log)
  end.

(** The job's command, and the identifier it is installed under. *)
Definition submit_tool (busy : bool) (work : string * string) : result (string * string) OpError :=
  if busy then Err (coded "tool_busy" "a tool job is already running") else Ok work.

(** [busy] is whether the runner's tool flag is taken. *)
Definition install (busy : bool) (name : string) : T (result (string * string) OpError) :=
  if negb (bool_decide (name = Harness.h_id ClaudeCode)) then
    ret (Err (mk_op "invalid_params" "unknown harness" "call tool.list for the ids this build can install"))
  else
    let* found := detect_claude in
    ret (match found with
         | Some _ => Err (coded "harness_already_installed" "Claude Code is already installed")
         | None => submit_tool busy (installer_command, name)
         end).

Definition update (busy : bool) (id : string) : T (result (string * string) OpError) :=
  if negb (bool_decide (id = Harness.h_id ClaudeCode)) then
    ret (Err (mk_op "invalid_params" "unknown tool" "call tool.list for the ids this build manages"))
  else
    let* found := detect_claude in
    ret (match found with
         | None => Err (coded "tool_not_installed" "the tool is not installed")
         | Some _ => submit_tool busy (installer_command, id)
         end).

Fixpoint status_all (recorded : gmap string ToolRecord) (hs : list Harness) : T (list ToolStatus) :=
  match hs with
  | [] => ret []
  | h :: hs =>
      let* version := detect_claude in
      let* rest := status_all recorded hs in
      ret (mk_status (Harness.h_id h) (display_name (Harness.h_id h)) (bool_decide (is_Some version)) version
             (r_version <$> recorded !! Harness.h_id h) :: rest)
  end.

Definition list_tools : T (list ToolStatus) :=
  let* recorded := look manifest in
  status_all recorded registry.

(** The doctor's line: its status, what it says and what to do. *)
Definition doctor_check : T (bool * string * option string) :=
  let* found := detect_claude in
  ret (match found with
       | Some v => (true, v, None)
       | None => (false, "not installed", Some "install it from the Dashboard, or run the official installer inside the distribution")
       end).

(** ** The git identity *)

(** What a [git config] says, trimmed, if it says anything. *)
Definition config_value (out : Output) : option string :=
  match out with
  | Ended true stdout _ => let s := trim (from_utf8_lossy stdout) in if is_empty s then None else Some s
  | _ => None
  end.

Definition global_config (key : string) : T (option string) :=
  let* out := perform others (fun out => [GlobalGet key out]) (git_get key) in ret (config_value out).

Definition repo_config (repo key : string) : T (option string) :=
  let* out := perform others (fun out => [RepoGet repo key out]) (git_repo_get repo key) in ret (config_value out).

Definition set_global (key value : string) : T (result unit (string * string)) :=
  let* ok := perform others (fun ok => [GlobalSet key value ok]) (git_set key value) in
  ret (if (ok : bool) then Ok tt else Err ("git_identity_missing", "could not write git " +:+ key)).

Definition write_identity (name email : string) : T (result unit (string * string)) :=
  let! _ := set_global "user.name" name in set_global "user.email" email.

(** A home without a name is not asked for an email; [global_config] gives no
    empty text. *)
Definition read_identity : T (option (string * string)) :=
  let* name := global_config "user.name" in
  match name with
  | None => ret None
  | Some name =>
      let* email := global_config "user.email" in
      ret (match email with Some email => Some (name, email) | None => None end)
  end.

Definition nobody : string * string := ("git_identity_missing", "no git identity for the workspace").

Definition ensure (windows : option (string * string)) (source : option string) : T (result unit (string * string)) :=
  let* there := read_identity in
  match there, windows, source with
  | Some _, _, _ => ret (Ok tt)
  | None, Some (name, email), _ => write_identity name email
  | None, None, Some src =>
      let* name := repo_config src "user.name" in
      let* email := repo_config src "user.email" in
      match name, email with
      | Some name, Some email => write_identity name email
      | _, _ => ret (Err nobody)
      end
  | None, None, None => ret (Err nobody)
  end.

(** ** What they do *)

(** A probe among [l] showed [v]. *)
Definition shown (v : string) (l : list Act) : Prop := exists binary p, Probed binary p ∈ l /\ detect p = Some v.

Definition only_probes (l : list Act) : Prop := Forall (fun a => exists b p, a = Probed b p) l.

Lemma detect_claude_does : does detect_claude (fun r l => only_probes l /\ (forall v, r = Some v -> shown v l)).
Proof.
  unfold detect_claude, run_probe, look. repeat walk1; (split; [repeat constructor; by eexists _, _|]); intros v Hv;
    first [discriminate Hv|eexists _, _; split; [in_list|exact Hv]].
Qed.

Lemma shown_after v l l' : shown v l' -> shown v (l ++ l').
Proof. intros (b & p & H & Hd). exists b, p. split; [apply elem_of_app; by right|done]. Qed.

Definition records (a : Act) : bool := match a with Recorded _ _ => true | _ => false end.

Lemma probes_no_record l : only_probes l -> List.filter records l = [].
Proof. induction 1 as [|a l (b & p & ->) _ IH]; [done|]. exact IH. Qed.

Lemma run_installer_does command : does (run_installer command) (fun r l => exists out, l = [Installer command out] /\ is_ok r = success out).
Proof. unfold run_installer. walk1. apply does_ret. eexists. split; [done|]. by destruct a as [e|[] o e]. Qed.

(** Nothing but an installer that succeeded and a tool that is then found is
    recorded, with the version it was found at and the command that was run;
    the job's outcome is the installer's alone. *)
Theorem only_a_found_tool_is_recorded command id : does (run_installer_and_record command id) (fun r l =>
  (exists out rest, l = Installer command out :: rest /\ is_ok r = success out) /\
  (List.filter records l = [] \/
   exists rec, List.filter records l = [Recorded id rec] /\ is_ok r = true /\ r_installer rec = command /\ shown (r_version rec) l)).
Proof.
  unfold run_installer_and_record, bind_result. eapply does_bind; [apply run_installer_does|]. intros [log|e] l (out & -> & Hout).
  2: { apply does_ret. split; [by eexists _, _|by left]. }
  eapply does_bind with (R := fun r l => only_probes l /\ (forall v, r = Some v -> shown v l)).
  { destruct (existsb _ registry); [apply detect_claude_does|]. apply does_ret. split; [constructor|discriminate]. }
  intros [v|] l [Hl Hv]; unfold look; repeat walk1.
  - split; [by eexists _, _|]. right. exists (mk_record v a command). split; [|split; [done|split; [done|]]].
    + cbn [app List.filter records]. rewrite List.filter_app, (probes_no_record l Hl). reflexivity.
    + destruct (Hv v eq_refl) as (b & p & H & Hd). exists b, p. split; [|done]. cbn. right. apply elem_of_app. by left.
  - split; [by eexists _, _|]. left. cbn [app List.filter records]. rewrite app_nil_r. by apply probes_no_record.
Qed.

(** The list of tools tells what is there now: a tool is called installed exactly
    when a probe just made of it showed its version; what the manifest says
    changes nothing but what was recorded. *)
Theorem listed_tools_are_probed : does (list_tools) (fun ts l => map t_id ts = map h_id registry /\
  Forall (fun t => t_installed t = bool_decide (is_Some (t_version t)) /\ forall v, t_version t = Some v -> shown v l) ts).
Proof.
  unfold list_tools, look. walk1. cbn [app]. generalize registry. intros hs. induction hs as [|h hs IH]; cbn [status_all].
  - apply does_ret. by split.
  - eapply does_bind; [apply detect_claude_does|]. intros v l [_ Hv]. eapply does_bind; [exact IH|]. intros ts l2 [Hm Ht].
    apply does_ret. rewrite app_nil_r. split; [cbn; by rewrite Hm|]. constructor.
    + split; [done|]. intros v' Hv'. destruct (Hv v' Hv') as (b & p & H & Hd). exists b, p. split; [|done]. apply elem_of_app. by left.
    + eapply Forall_impl; [exact Ht|]. intros t [H1 H2]. split; [done|]. intros v' Hv'. by apply shown_after, H2.
Qed.

(** ** What they do for an identity *)

Definition said (key v : string) (l : list Act) : Prop := exists out, GlobalGet key out ∈ l /\ config_value out = Some v.

Definition repo_said (repo key v : string) (l : list Act) : Prop := exists out, RepoGet repo key out ∈ l /\ config_value out = Some v.

Definition writes (a : Act) : bool := match a with GlobalSet _ _ _ => true | _ => false end.

Definition written (name email : string) (l : list Act) : Prop :=
  List.filter writes l = [GlobalSet "user.name" name true; GlobalSet "user.email" email true].

(** Whose identity is written when the home has none. *)
Definition given (windows : option (string * string)) (source : option string) (name email : string) (l : list Act) : Prop :=
  windows = Some (name, email) \/
  windows = None /\ exists src, source = Some src /\ repo_said src "user.name" name l /\ repo_said src "user.email" email l.

Lemma read_identity_does : does read_identity (fun r l => List.filter writes l = [] /\
  match r with
  | Some (n, e) => said "user.name" n l /\ said "user.email" e l
  | None => Forall (fun a => exists k o, a = GlobalGet k o) l /\ forall n e, ~ (said "user.name" n l /\ said "user.email" e l)
  end).
Proof.
  unfold read_identity, global_config, said. repeat walk1; (split; [done|]).
  - destruct (config_value a0) as [email|] eqn:He.
    + split; eexists; (split; [|eassumption]); in_list.
    + split; [repeat constructor; by eexists _, _|]. intros n e [_ (out & H & Hc)]. rewrite !elem_of_cons, elem_of_nil in H. naive_solver.
  - split; [repeat constructor; by eexists _, _|]. intros n e [(out & H & Hc) _]. rewrite !elem_of_cons, elem_of_nil in H. naive_solver.
Qed.

Lemma write_identity_does n e : does (write_identity n e) (fun r l =>
  Forall (fun a => writes a = true) l /\ match r with Ok _ => written n e l | Err x => fst x = "git_identity_missing" end).
Proof. unfold write_identity, set_global, bind_result. repeat walk1.
  all: repeat match goal with b : bool |- _ => destruct b end; try discriminate.
  all: split; [repeat first [apply Forall_nil_2|apply Forall_cons_2; [done|]]|first [done|by injection Heqr as <-]].
Qed.

Lemma said_before k v l l' : Forall (fun a => writes a = true \/ exists r k o, a = RepoGet r k o) l' -> said k v (l ++ l') -> said k v l.
Proof.
  intros H (out & Hin & Hc). exists out. split; [|done]. apply elem_of_app in Hin as [Hin|Hin]; [done|].
  rewrite Forall_forall in H. destruct (H _ Hin) as [Hw|(r & k' & o & Hw)]; discriminate Hw.
Qed.

(** A session never commits as nobody git knows: it goes on only when the home
    has a whole identity, which is then left alone, or when one was written
    whole, the user's of Windows before the checkout's; else it is refused. *)
Theorem identity_is_kept_or_given windows source : does (ensure windows source) (fun r l =>
  match r with
  | Ok _ =>
      ((exists n e, said "user.name" n l /\ said "user.email" e l) /\ List.filter writes l = []) \/
      (exists n e, given windows source n e l /\ written n e l)
  | Err e => fst e = "git_identity_missing"
  end /\
  (List.filter writes l = [] \/ forall n e, ~ (said "user.name" n l /\ said "user.email" e l))).
Proof.
  unfold ensure. eapply does_bind; [apply read_identity_does|]. intros there l [Hw Hr].
  destruct there as [[n e]|]; [apply does_ret; rewrite app_nil_r; split; [left; split; [by exists n, e|done]|by left]|].
  destruct Hr as [_ Hr]. assert (Hnot : forall l', Forall (fun a => writes a = true \/ exists r k o, a = RepoGet r k o) l' ->
    forall n e, ~ (said "user.name" n (l ++ l') /\ said "user.email" e (l ++ l'))).
  { intros l' Hl n e [H1 H2]. apply (Hr n e). split; by eapply said_before. }
  destruct windows as [[name email]|]; [|destruct source as [src|]].
  - eapply does_conseq; [apply write_identity_does|]. intros r l' [Hl' Hr']. split.
    + destruct r; [|done]. right. exists name, email. split; [by left|]. unfold written in *. by rewrite List.filter_app, Hw.
    + right. apply Hnot. eapply Forall_impl; [exact Hl'|]. by left.
  - unfold repo_config. repeat walk1.
    2,3: split; [done|]; left; by rewrite List.filter_app, Hw.
    eapply does_conseq; [apply write_identity_does|]. intros r l' [Hl' Hr']. cbn [app]. split.
    + destruct r; [|done]. right. exists s, s0. split.
      * right. split; [done|]. exists src. split; [done|]. split; eexists; (split; [|eassumption]); apply elem_of_app; right; in_list.
      * unfold written in *. rewrite List.filter_app, Hw. exact Hr'.
    + right. apply Hnot. constructor; [right; by eexists _, _, _|]. constructor; [right; by eexists _, _, _|].
      eapply Forall_impl; [exact Hl'|]. by left.
  - apply does_ret. rewrite app_nil_r. split; [done|by left].
Qed.
End tools.

(** ** Examples *)

Definition sample_record : ToolRecord := mk_record "2.1.0" "1700000000" "curl | sh".

Definition sample_manifest : gmap string ToolRecord := {["claude-code" := sample_record]}.

Definition sample_print (t : gmap string ToolRecord) : result string string :=
  if bool_decide (t = sample_manifest) then Ok "manifest" else Err "not printed".

Definition sample_parse (s : string) : option (gmap string ToolRecord) := if bool_decide (s = "manifest") then Some sample_manifest else None.

Lemma sample_law t s : sample_print t = Ok s -> sample_parse s = Some t /\ is_utf8 s = true.
Proof. unfold sample_print. case_bool_decide as E; [|discriminate]. intros [= <-]. by subst. Qed.

Lemma record_merges_witness :
  let saved := record sample_parse sample_print (fun _ => true) "/s" no_fault "claude-code" sample_record ∅ in
  (load sample_parse (fun _ => true) "/s" saved = load sample_parse (fun _ => true) "/s" ∅ \/
   load sample_parse (fun _ => true) "/s" saved = <["claude-code" := sample_record]> (load sample_parse (fun _ => true) "/s" ∅)) /\
  load sample_parse (fun _ => true) "/s" saved = sample_manifest.
Proof.
  split; [exact (record_merges sample_parse sample_print (fun _ => true) "/s" no_fault "claude-code" sample_record ∅ sample_law eq_refl)|].
  vm_compute. reflexivity.
Defined.

(** An identity of blanks is written as one: only the application's side trims
    it. *)
Example a_blank_identity_is_written :
  let r := ensure (fun _ (s : unit) => s) (fun _ s => (Ended false EmptyString EmptyString, s)) (fun _ _ s => (true, s))
    (fun _ _ s => (NoSpawn EmptyString, s)) (Some (EmptyString, " ")) None (mk_world tt 0 []) in
  fst r = Ok tt /\ written EmptyString " " (calls (snd r)).
Proof. vm_compute. by split. Qed.
