(* ===== verification/Stage.v ===== *)
(** * The stage inside the namespace

    Models crates/willie-sess/src/sandbox/inner.rs and landlock.rs, with the
    installation of the filter (seccomp.rs) and the sending of the report
    (mod.rs): what the re-executed supervisor does before the harness replaces
    it.  Every system call is recorded with its answer; the kernel answers as it
    likes.  What the supervisor sends is a text and what ends it. *)

From S2P Require Import Prelude Text Sandbox Session Project Harness Plan Seccomp Effects.

Local Open Scope string_scope.
Local Open Scope list_scope.
Local Open Scope willie_scope.

(** ** Data *)

(** The stage's one-line answer. *)
Inductive Report : Type :=
| Applied (mechanisms unavailable : list string)
| Refused (code message : string).

#[export] Instance Report_eq_dec : EqDecision Report.
Proof. solve_decision. Defined.

Inductive Outcome : Type :=
| InForce (abi : Z)
| Unavailable.

Inductive Error : Type :=
| PathWontOpen (path : string) (errno : Z)
| RulesetRefused (errno : Z)
| RuleRefused (path : string) (errno : Z)
| RestrictRefused (errno : Z).

(** An [io::Error]: the kernel's or the program's own. *)
Inductive IoError : Type :=
| Os (errno : Z)
| Other (message : string).

Definition EINVAL : Z := 22.
Definition ENOSYS : Z := 38.
Definition i32_max : Z := 2147483647.

Inductive Call : Type :=
| SetRlimit (resource soft hard : Z)
| LandlockVersion
| CreateRuleset (handled : Z)
| OpenPath (path : string)
| AddRule (ruleset parent allowed : Z)
| RestrictSelf (ruleset : Z)
| SetFilter (program : list Insn)
| SendMsg (bytes : string) (carry : option Z)
| Close (fd : Z)
| GetFd (fd : Z)
| SetFd (fd flags : Z).

(** An effect, with its answer. *)
Inductive Act : Type :=
| Requested (r : result Request string)
| ReadProc (path : string) (text : option string)
| GetRlimit (resource : Z) (hard : result Z Z)
| Fstat (fd : Z) (is_dir : result bool Z)
| Sys (c : Call) (ret errno : Z)
| Wrote (bytes : string) (r : result unit string)
| Said (text : string)
| Execv (argv : list string) (failed : option Z).

(** How the stage ends: it exits, or the harness takes its place. *)
Inductive End : Type :=
| Exited (code : Z)
| Replaced.

(** ** The namespace's fingerprint *)

Definition mapped (uid_map : string) : bool :=
  match split_whitespace uid_map !! 2 with
  | Some len =>
      match parse_unsigned u64_max len with
      | Some len => (1 <=? len)%Z && (len <? u32_max)%Z
      | None => false
      end
  | None => false
  end.

(** The iterator's [find_map]. *)
Fixpoint find_map {A B} (f : A -> option B) (l : list A) : option B :=
  match l with
  | [] => None
  | a :: l => match f a with Some b => Some b | None => find_map f l end
  end.

Definition no_new_privs (status : string) : bool :=
  match find_map (strip_prefix "NoNewPrivs:") (lines status) with
  | Some rest => bool_decide (trim rest = "1")
  | None => false
  end.

Definition not_in_namespace (uid_map status : string) : option string :=
  if mapped uid_map && no_new_privs status then None
  else Some "not inside the sandbox namespace: the helper did not build it".

(** ** Limits *)

Definition clamp (requested hard : Z) : Z :=
  if (hard =? u64_max)%Z then requested else Z.min requested hard.

Definition RLIMIT_CORE : Z := 4.
Definition RLIMIT_NPROC : Z := 6.
Definition RLIMIT_NOFILE : Z := 7.

(** ** Landlock's rights *)

Definition ACCESS_FS_WRITE_FILE : Z := 2.

Definition FILE_RIGHTS : Z :=
  Z.lor (Z.lor (Z.lor ACCESS_FS_EXECUTE ACCESS_FS_WRITE_FILE) ACCESS_FS_READ_FILE) ACCESS_FS_TRUNCATE.

Definition rule_rights (granted handled : Z) (is_dir : bool) : Z :=
  let rights := Z.land granted handled in
  if is_dir then rights else Z.land rights FILE_RIGHTS.

(** ** The request's line

    Bytes up to the newline, of a stream that ends in a close or an error. *)

Fixpoint read_line (input : string) (ending : result unit string) : result string string :=
  match input with
  | EmptyString =>
      match ending with
      | Ok _ => Err "the supervisor closed the request socket"
      | Err e => Err e
      end
  | String b input =>
      if bool_decide (b = newline) then Ok EmptyString
      else let? rest := read_line input ending in Ok (String b rest)
  end.

(** A descriptor the kernel returned. *)
Definition owned_fd (ret : Z) : option Z :=
  if (ret <? 0)%Z then None else if (ret <=? i32_max)%Z then Some ret else None.

Lemma owned_fd_some r fd : owned_fd r = Some fd -> r = fd /\ (0 <= fd)%Z.
Proof. unfold owned_fd. destruct (r <? 0)%Z eqn:?; [done|]. destruct (r <=? i32_max)%Z; [|done]. intros [= ->]. lia. Qed.

Section stage.
  Context {S : Type} (others : nat -> S -> S).
  (** The kernel: what a call answers and its error number; a limit in force;
      whether a location is a directory; a file below /proc; a write on the
      socket.  A call the code repeats while it is interrupted answers with
      what it answers in the end. *)
  Context (kernel : Call -> S -> Z * Z * S) (getrlimit : Z -> S -> result Z Z) (fstat : Z -> S -> result bool Z)
    (read_to_string : string -> S -> option string) (write_all : string -> S -> result unit string * S)
    (execv : list string -> S -> option Z).
  (** The system's words for an error number, and the codecs. *)
  Context (os_error : Z -> string) (from_slice : string -> result Request string) (to_vec : Report -> result string string).

Definition T (A : Type) : Type := M S Act A.

Definition syscall (c : Call) : T (Z * Z) :=
  perform others (fun r => [Sys c (fst r) (snd r)]) (kernel c).

Definition eprintln (text : string) : T unit := perform others (fun _ => [Said text]) (fun s => (tt, s)).

Definition read_proc (path : string) : T (option string) :=
  perform others (fun r => [ReadProc path r]) (fun s => (read_to_string path s, s)).

Definition close (fd : Z) : T unit := let* _ := syscall (Close fd) in ret tt.

Definition error_text (e : Error) : string :=
  match e with
  | PathWontOpen path errno => "cannot open `" +:+ path +:+ "` for a Landlock rule: " +:+ os_error errno
  | RulesetRefused errno => "the kernel offers Landlock but refused the ruleset: " +:+ os_error errno
  | RuleRefused path errno => "cannot add the Landlock rule for `" +:+ path +:+ "`: " +:+ os_error errno
  | RestrictRefused errno => "cannot restrict the stage with Landlock: " +:+ os_error errno
  end.

Definition io_text (e : IoError) : string := match e with Os n => os_error n | Other m => m end.

Definition raw_os_error (e : IoError) : option Z := match e with Os n => Some n | Other _ => None end.

(** ** The request *)

Definition parse_request (input : string) (ending : result unit string) : result Request string :=
  let? line := read_line input ending in from_slice line.

Definition read_request (input : string) (ending : result unit string) : T (result Request string) :=
  let r := parse_request input ending in
  let* _ := perform others (fun _ => [Requested r]) (fun s => (tt, s)) in ret r.

(** ** The report *)

Definition with_newline (line : string) : string := line +:+ String newline EmptyString.

Definition write_all_sock (bytes : string) : T (result unit string) :=
  if is_empty bytes then ret (Ok tt) else perform others (fun r => [Wrote bytes r]) (write_all bytes).

Definition write_report (report : Report) : T (result unit string) :=
  match to_vec report with
  | Err e => ret (Err e)
  | Ok line => write_all_sock (with_newline line)
  end.

Definition refuse (code message : string) : T End :=
  let* _ := write_report (Refused code message) in ret (Exited 1).

(** The descriptor goes with the first bytes, the rest is a plain write. *)
Definition send_report_with_fd (line : string) (fd : option Z) : T (result unit string) :=
  let framed := with_newline line in
  let* r := syscall (SendMsg framed fd) in
  if (fst r <? 0)%Z then ret (Err (os_error (snd r)))
  else write_all_sock (str_drop (Z.to_nat (fst r)) framed).

Definition write_applied (mechanisms unavailable : list string) (listener : option Z) : T (result unit string) :=
  match to_vec (Applied mechanisms unavailable) with
  | Err e => ret (Err e)
  | Ok line => send_report_with_fd line listener
  end.

(** ** Limits *)

Definition set_one (resource value : Z) : T (result unit string) :=
  let* r := perform others (fun r => [GetRlimit resource r]) (fun s => (getrlimit resource s, s)) in
  match r with
  | Err errno => ret (Err (os_error errno))
  | Ok hard =>
      let soft := clamp value hard in
      let* r := syscall (SetRlimit resource soft soft) in
      if (fst r =? 0)%Z then ret (Ok tt) else ret (Err (os_error (snd r)))
  end.

Definition labelled (what : string) (m : T (result unit string)) : T (result unit string) :=
  let* r := m in ret (map_err (fun e => what +:+ ": " +:+ e) r).

Definition apply_rlimits (r : Rlimits) : T (result unit string) :=
  let! _ := labelled "NPROC" (set_one RLIMIT_NPROC (nproc r)) in
  let! _ := labelled "NOFILE" (set_one RLIMIT_NOFILE (nofile r)) in
  labelled "CORE" (set_one RLIMIT_CORE (core r)).

(** ** Landlock *)

Definition probe_abi : T Z :=
  let* r := syscall LandlockVersion in
  ret (if (fst r <? 0)%Z then (- snd r)%Z else if (fst r <=? i32_max)%Z then fst r else i32_max).

Definition is_directory (fd : Z) : T (result bool Z) :=
  perform others (fun r => [Fstat fd r]) (fun s => (fstat fd s, s)).

(** The rule, with its location open. *)
Definition rule_beneath (ruleset parent : Z) (path : string) (granted handled : Z) : T (result unit Error) :=
  let* d := is_directory parent in
  match d with
  | Err errno => ret (Err (PathWontOpen path errno))
  | Ok is_dir =>
      let* r := syscall (AddRule ruleset parent (rule_rights granted handled is_dir)) in
      if (fst r <? 0)%Z then ret (Err (RuleRefused path (snd r))) else ret (Ok tt)
  end.

Definition add_rule (ruleset : Z) (path : string) (granted handled : Z) : T (result unit Error) :=
  if contains_char zero path then ret (Err (PathWontOpen path EINVAL))
  else
    let* r := syscall (OpenPath path) in
    match owned_fd (fst r) with
    | None => ret (Err (PathWontOpen path (snd r)))
    | Some parent =>
        let* res := rule_beneath ruleset parent path granted handled in
        let* _ := close parent in
        ret res
    end.

(** The rules and the restriction, with the ruleset open. *)
Definition restrict (ruleset handled : Z) (write : list string) : T (result unit Error) :=
  let! _ := add_rule ruleset "/" READ_EXEC handled in
  let! _ := each (fun path => add_rule ruleset path handled handled) write in
  let* r := syscall (RestrictSelf ruleset) in
  if (fst r <? 0)%Z then ret (Err (RestrictRefused (snd r))) else ret (Ok tt).

Definition landlock_apply (write : list string) : T (result Outcome Error) :=
  let* abi := probe_abi in
  match applicability abi with
  | NotApplied => ret (Ok Unavailable)
  | Ruleset handled =>
      let* r := syscall (CreateRuleset handled) in
      match owned_fd (fst r) with
      | None => ret (Err (RulesetRefused (snd r)))
      | Some ruleset =>
          let* res := restrict ruleset handled write in
          let* _ := close ruleset in
          ret (match res with Ok _ => Ok (InForce abi) | Err e => Err e end)
      end
  end.

(** ** The filter *)

Definition install : T (result Z IoError) :=
  if (Z.of_nat (length program) <=? u16_max)%Z then
    let* r := syscall (SetFilter program) in
    if (fst r <? 0)%Z then ret (Err (Os (snd r)))
    else if (fst r <=? i32_max)%Z then ret (Ok (fst r))
    else ret (Err (Other "seccomp returned an out-of-range descriptor"))
  else ret (Err (Other "the syscall filter is too long to install")).

Definition install_failure (e : IoError) : string * string :=
  let old := match raw_os_error e with Some n => (n =? EINVAL)%Z || (n =? ENOSYS)%Z | None => false end in
  if old then ("sandbox_backend_missing", "this kernel has no seccomp user notification")
  else ("sandbox_apply_failed", "cannot install the syscall filter").

(** ** The harness *)

Definition FD_CLOEXEC : Z := 1.

Definition set_cloexec (fd : Z) : T unit :=
  let* r := syscall (GetFd fd) in
  if (0 <=? fst r)%Z then let* _ := syscall (SetFd fd (Z.lor (fst r) FD_CLOEXEC)) in ret tt
  else ret tt.

Definition exec_harness (argv : list string) : T End :=
  match argv with
  | [] => let* _ := eprintln "willie-sess --inner: no harness command" in ret (Exited 127)
  | _ =>
      if existsb (contains_char zero) argv then
        let* _ := eprintln "willie-sess --inner: a harness argument holds a NUL" in ret (Exited 127)
      else
        let* r := perform others (fun r => [Execv argv r]) (fun s => (execv argv s, s)) in
        match r with
        | None => ret Replaced
        | Some errno =>
            let* _ := eprintln ("willie-sess --inner: cannot exec the harness: " +:+ os_error errno) in
            ret (Exited 127)
        end
  end.

(** ** The stage *)

Definition BASE_MECHANISMS : list string := ["namespaces"; "mounts"; "rlimits"].

(** From the filter on: the report, and the harness. *)
Definition report_and_exec (fd : Z) (argv mechanisms unavailable : list string) (listener : Z) : T End :=
  let* r := write_applied (mechanisms ++ ["seccomp"]) unavailable (Some listener) in
  match r with
  | Err msg =>
      let* _ := eprintln ("willie-sess --inner: cannot report: " +:+ msg) in
      let* _ := close listener in
      ret (Exited 1)
  | Ok _ =>
      let* _ := close listener in
      let* _ := set_cloexec fd in
      exec_harness argv
  end.

Definition filter_and_exec (fd : Z) (argv mechanisms unavailable : list string) : T End :=
  let* f := install in
  match f with
  | Err e =>
      let '(code, what) := install_failure e in
      refuse code (what +:+ ": " +:+ io_text e)
  | Ok listener => report_and_exec fd argv mechanisms unavailable listener
  end.

Definition confine (fd : Z) (request : Request) : T End :=
  let* l := landlock_apply (landlock request) in
  match l with
  | Err e => refuse "sandbox_apply_failed" (error_text e)
  | Ok o =>
      let '(mechanisms, unavailable) :=
        match o with
        | InForce _ => (BASE_MECHANISMS ++ ["landlock"], [])
        | Unavailable => (BASE_MECHANISMS, ["landlock"])
        end in
      filter_and_exec fd (r_argv request) mechanisms unavailable
  end.

Definition stage (fd : Z) (input : string) (ending : result unit string) : T End :=
  let* r := read_request input ending in
  match r with
  | Err msg => refuse "sandbox_apply_failed" msg
  | Ok request =>
      let* uid_map := read_proc "/proc/self/uid_map" in
      let* status := read_proc "/proc/self/status" in
      match not_in_namespace (default EmptyString uid_map) (default EmptyString status) with
      | Some reason => refuse "sandbox_apply_failed" reason
      | None =>
          let* l := apply_rlimits (rlimits request) in
          match l with
          | Err msg => refuse "sandbox_apply_failed" ("cannot set " +:+ msg)
          | Ok _ => confine fd request
          end
      end
  end.

(** The socket is the stage's: dropped when it ends, unless it was replaced. *)
Definition run_inner (fd : Z) (input : string) (ending : result unit string) : T End :=
  let* e := stage fd input ending in
  match e with
  | Exited code => let* _ := close fd in ret (Exited code)
  | Replaced => ret Replaced
  end.

(** ** Specification: what confines the harness *)

Definition limit_set (resource value : Z) (l : list Act) : Prop :=
  exists hard errno, l = [GetRlimit resource (Ok hard); Sys (SetRlimit resource (clamp value hard) (clamp value hard)) 0 errno].

Definition limits_set (r : Rlimits) (l : list Act) : Prop :=
  exists l1 l2 l3, l = l1 ++ l2 ++ l3 /\ limit_set RLIMIT_NPROC (nproc r) l1 /\ limit_set RLIMIT_NOFILE (nofile r) l2
    /\ limit_set RLIMIT_CORE (core r) l3.

Definition rule_added (ruleset handled : Z) (rule : string * Z) (l : list Act) : Prop :=
  exists parent e1 is_dir r2 e2 r3 e3,
    l = [Sys (OpenPath (fst rule)) parent e1; Fstat parent (Ok is_dir);
         Sys (AddRule ruleset parent (rule_rights (snd rule) handled is_dir)) r2 e2; Sys (Close parent) r3 e3]
    /\ (0 <= r2)%Z.

Definition landlocked (write : list string) (o : Outcome) (l : list Act) : Prop :=
  exists r e rest, l = Sys LandlockVersion r e :: rest /\
  match o with
  | Unavailable => rest = [] /\ exists abi, applicability abi = NotApplied /\ (abi = r \/ r < 0 /\ abi = - e)%Z
  | InForce abi => exists handled ruleset e1 ls r2 e2 r3 e3,
      applicability abi = Ruleset handled
      /\ rest = Sys (CreateRuleset handled) ruleset e1 :: concat ls ++ [Sys (RestrictSelf ruleset) r2 e2; Sys (Close ruleset) r3 e3]
      /\ Forall2 (rule_added ruleset handled) (("/", READ_EXEC) :: map (fun p => (p, handled)) write) ls /\ (0 <= r2)%Z
  end.

Definition mechanisms_of (o : Outcome) : list string :=
  match o with InForce _ => BASE_MECHANISMS ++ ["landlock"; "seccomp"] | Unavailable => BASE_MECHANISMS ++ ["seccomp"] end.

Definition unavailable_of (o : Outcome) : list string := match o with InForce _ => [] | Unavailable => ["landlock"] end.

(** Everything up to the filter, in order. *)
Definition confined (input : string) (ending : result unit string) (request : Request) (o : Outcome) (listener : Z) (l : list Act) : Prop :=
  exists uid_map status lim ll e,
    parse_request input ending = Ok request
    /\ not_in_namespace (default EmptyString uid_map) (default EmptyString status) = None
    /\ limits_set (rlimits request) lim /\ landlocked (landlock request) o ll /\ (0 <= listener)%Z
    /\ l = [Requested (Ok request); ReadProc "/proc/self/uid_map" uid_map; ReadProc "/proc/self/status" status]
           ++ lim ++ ll ++ [Sys (SetFilter program) listener e].

(** The whole report, with the listener. *)
Definition reported (o : Outcome) (listener : Z) (l : list Act) : Prop :=
  exists line n e, to_vec (Applied (mechanisms_of o) (unavailable_of o)) = Ok line /\ (0 <= n)%Z /\
  let rest := str_drop (Z.to_nat n) (with_newline line) in
  l = Sys (SendMsg (with_newline line) (Some listener)) n e :: if is_empty rest then [] else [Wrote rest (Ok tt)].

(** Neither the listener nor the socket is left to the harness. *)
Definition withdrawn (fd listener : Z) (l : list Act) : Prop :=
  exists r1 e1 flags e2, 
    l = Sys (Close listener) r1 e1 :: Sys (GetFd fd) flags e2 :: []
    /\ (flags < 0)%Z
  \/ exists r3 e3, l = [Sys (Close listener) r1 e1; Sys (GetFd fd) flags e2; Sys (SetFd fd (Z.lor flags FD_CLOEXEC)) r3 e3].

Definition refusal (code message : string) (l : list Act) : Prop :=
  match to_vec (Refused code message) with
  | Err _ => l = []
  | Ok line => exists r, l = [Wrote (with_newline line) r]
  end.

Definition runs_harness (a : Act) : bool := match a with Execv _ None => true | _ => false end.

(** What is not said to the supervisor, and runs nothing. *)
Definition silent (a : Act) : Prop :=
  match a with Sys (SendMsg _ _) _ _ | Wrote _ _ | Execv _ _ => False | _ => True end.

(** The ways the stage ends. *)
Definition ran (fd : Z) (argv : list string) (o : Outcome) (listener : Z) (tail l : list Act) : Prop :=
  exists rep w, l = rep ++ w ++ tail /\ reported o listener rep /\ withdrawn fd listener w.

Definition no_exec (a : Act) : Prop := match a with Execv _ _ => False | _ => True end.

Definition gave_up (l : list Act) : Prop :=
  Forall no_exec l /\
  ((exists pre code message ref, l = pre ++ ref /\ Forall silent pre /\ refusal code message ref)
   \/ exists message, Said ("willie-sess --inner: cannot report: " +:+ message) ∈ l).

Definition ended (C : Outcome -> Z -> list Act -> Prop) (fd : Z) (argv : list string) (e : End) (l : list Act) : Prop :=
  match e with
  | Replaced => exists o listener pre rest, C o listener pre /\ l = pre ++ rest /\ ran fd argv o listener [Execv argv None] rest
  | Exited c => c = 1%Z /\ gave_up l
      \/ c = 127%Z /\ exists o listener pre rest tail, C o listener pre /\ l = pre ++ rest
         /\ ran fd argv o listener tail rest /\ Forall (fun a => runs_harness a = false) tail
  end.

(** ** Each step *)

Ltac silent_done := repeat constructor.

Lemma set_one_sets resource value :
  does (set_one resource value) (fun r l => Forall silent l /\ (is_ok r = true -> limit_set resource value l)).
Proof.
  unfold set_one, syscall. repeat walk1; (split; [silent_done|]); try done.
  intros _. destruct a1 as [x e]. cbn [fst snd] in *. exists a0, e. repeat f_equal. lia.
Qed.

Lemma labelled_does what m (P : list Act -> Prop) :
  does m (fun r l => Forall silent l /\ (is_ok r = true -> P l)) ->
  does (labelled what m) (fun r l => Forall silent l /\ (is_ok r = true -> P l)).
Proof.
  intros H. unfold labelled. apply (does_bind _ _ _ _ H). intros r l [Hs Hp]. apply does_ret. rewrite app_nil_r.
  split; [done|]. by destruct r.
Qed.

Lemma apply_rlimits_sets rl :
  does (apply_rlimits rl) (fun r l => Forall silent l /\ (is_ok r = true -> limits_set rl l)).
Proof.
  unfold apply_rlimits, bind_result.
  apply (does_bind _ _ _ _ (labelled_does _ _ _ (set_one_sets _ _))). intros [[]|] l1 [S1 H1];
    [|apply does_ret; rewrite app_nil_r; by split].
  apply (does_bind _ _ _ _ (labelled_does _ _ _ (set_one_sets _ _))). intros [[]|] l2 [S2 H2];
    [|apply does_ret; rewrite app_nil_r; split; [by apply Forall_app|done]].
  apply (does_conseq _ _ _ (labelled_does _ _ _ (set_one_sets _ _))). intros r l3 [S3 H3].
  split; [by rewrite !Forall_app|]. intros Hr. exists l1, l2, l3. auto.
Qed.

Lemma add_rule_adds ruleset path granted handled :
  does (add_rule ruleset path granted handled) (fun r l => Forall silent l /\ (is_ok r = true -> rule_added ruleset handled (path, granted) l)).
Proof.
  unfold add_rule, rule_beneath, is_directory, close, syscall. repeat walk1; (split; [silent_done|]); try done.
  intros _. destruct a as [p e1], a2 as [r2 e2], a3 as [r3 e3]. cbn [fst snd] in *.
  apply owned_fd_some in Heqo as [-> _]. exists z, e1, a1, r2, e2, r3, e3. split; [done|lia].
Qed.

Lemma restrict_restricts ruleset handled write :
  does (restrict ruleset handled write) (fun r l => Forall silent l /\ (is_ok r = true -> exists ls r2 e2,
    l = concat ls ++ [Sys (RestrictSelf ruleset) r2 e2] /\ (0 <= r2)%Z /\
    Forall2 (rule_added ruleset handled) (("/", READ_EXEC) :: map (fun p => (p, handled)) write) ls)).
Proof.
  unfold restrict, bind_result. apply (does_bind _ _ _ _ (add_rule_adds _ _ _ _)). intros [[]|] l1 [S1 H1];
    [|apply does_ret; rewrite app_nil_r; by split].
  eapply does_bind; [apply (each_concat _ silent _ write (fun p => add_rule_adds ruleset p handled handled))|].
  intros [[]|] l2 [S2 H2]; [|apply does_ret; rewrite app_nil_r; split; [by apply Forall_app|done]].
  destruct (H2 eq_refl) as (ls & -> & Hls). unfold syscall.
  repeat walk1; (split; [rewrite !Forall_app; repeat split; [done|done|silent_done]|]); try done.
  intros _. destruct a as [r2 e2]. cbn [fst snd] in *. exists (l1 :: ls), r2, e2. split; [by cbn; rewrite <- app_assoc|].
  split; [lia|]. constructor; [by apply H1|]. by apply Forall2_fmap_l.
Qed.

Lemma landlock_apply_applies write :
  does (landlock_apply write) (fun r l => Forall silent l /\ forall o, r = Ok o -> landlocked write o l).
Proof.
  unfold landlock_apply, probe_abi, close, syscall. repeat walk1.
  - destruct a as [r e], a0 as [rs e1]. cbn [fst snd] in *. eapply does_bind; [apply restrict_restricts|].
    intros res l [Hs Hr]. walk1. walk1. apply does_ret. split.
    + apply Forall_app; split; [silent_done|]. apply Forall_app; split; [silent_done|]. apply Forall_app; split; [done|silent_done].
    + intros ? Ho. destruct res as [[]|]; [|done]. simplify_eq. destruct (Hr eq_refl) as (ls & r2 & e2 & -> & Hr2 & Hls).
      apply owned_fd_some in Heqo as [-> _].
      eexists r, e, _. split; [reflexivity|]. eexists _, z, e1, ls, r2, e2, (fst a), (snd a).
      split; [done|]. split; [|done]. cbn. by rewrite <- app_assoc.
  - split; [silent_done|]. done.
  - split; [silent_done|]. intros o [= <-]. destruct a as [r e]. cbn [fst snd] in *. eexists r, e, []. split; [done|].
    split; [done|]. eexists. split; [eassumption|]. destruct (r <? 0)%Z eqn:E; [right; lia|left].
    destruct (r <=? i32_max)%Z eqn:E2; [done|]. exfalso.
    unfold applicability in *. by destruct (i32_max <=? 1)%Z eqn:?.
Qed.

Lemma install_installs :
  does install (fun r l => Forall silent l /\ forall listener, r = Ok listener -> (0 <= listener)%Z /\ exists e, l = [Sys (SetFilter program) listener e]).
Proof.
  unfold install, syscall. repeat walk1; (split; [silent_done|]); try done.
  destruct a as [r e]. cbn [fst snd] in *. intros listener [= <-]. split; [lia|]. by exists e.
Qed.

Lemma refuse_refuses code message : does (refuse code message) (fun e l => e = Exited 1 /\ refusal code message l).
Proof.
  unfold refuse, write_report, write_all_sock, refusal. destruct (to_vec _) as [line|err].
  - replace (is_empty (with_newline line)) with false by (by destruct line). repeat walk1. split; [done|]. by exists a.
  - repeat walk1. done.
Qed.

(** ** The end of it *)

Lemma silent_no_exec l : Forall silent l -> Forall no_exec l.
Proof. intros H. eapply Forall_impl; [exact H|]. by intros []. Qed.

Lemma refusal_no_exec code message l : refusal code message l -> Forall no_exec l.
Proof. unfold refusal. destruct (to_vec _); [intros [r ->]; by repeat constructor|by intros ->]. Qed.

Lemma gave_up_after pre l : Forall silent pre -> gave_up l -> gave_up (pre ++ l).
Proof.
  intros Hs [Hn H]. split; [apply Forall_app; split; [by apply silent_no_exec|done]|].
  destruct H as [(p & c & m & r & -> & Hp & Hr)|[m Hm]].
  - left. exists (pre ++ p), c, m, r. rewrite <- app_assoc. split; [done|]. split; [by apply Forall_app|done].
  - right. exists m. apply elem_of_app. by right.
Qed.

Lemma refused_gave_up code message l : refusal code message l -> gave_up l.
Proof. intros H. split; [by eapply refusal_no_exec|]. left. by exists [], code, message, l. Qed.

(** What is sent is the whole report, or it failed. *)
Lemma write_applied_sends mechanisms unavailable listener :
  does (write_applied mechanisms unavailable (Some listener)) (fun r l => Forall no_exec l /\ (is_ok r = true ->
    exists line n e, to_vec (Applied mechanisms unavailable) = Ok line /\ (0 <= n)%Z /\
    l = Sys (SendMsg (with_newline line) (Some listener)) n e
        :: (let rest := str_drop (Z.to_nat n) (with_newline line) in if is_empty rest then [] else [Wrote rest (Ok tt)]))).
Proof.
  unfold write_applied, send_report_with_fd, write_all_sock, syscall.
  repeat walk1; (split; [by repeat constructor|]); try done; intros Hok; exists a, (fst a0), (snd a0);
    (split; [done|]); (split; [lia|]); cbv zeta; rewrite Heqb0; [done|]. by destruct a1 as [[]|].
Qed.

Lemma withdraw_withdraws fd listener (k : T End) P :
  (forall w, withdrawn fd listener w -> does k (fun e l => P e (w ++ l))) ->
  does (let* _ := close listener in let* _ := set_cloexec fd in k) P.
Proof.
  intros H. unfold close, set_cloexec, syscall. repeat walk1.
  - apply (H [Sys (Close listener) a.1 a.2; Sys (GetFd fd) a0.1 a0.2; Sys (SetFd fd (Z.lor a0.1 FD_CLOEXEC)) a1.1 a1.2]).
    exists (fst a), (snd a), (fst a0), (snd a0). right. by exists (fst a1), (snd a1).
  - apply (H [Sys (Close listener) a.1 a.2; Sys (GetFd fd) a0.1 a0.2]).
    exists (fst a), (snd a), (fst a0), (snd a0). left. split; [done|lia].
Qed.

Lemma exec_harness_execs argv :
  does (exec_harness argv) (fun e l => match e with
    | Replaced => l = [Execv argv None]
    | Exited c => c = 127%Z /\ Forall (fun a => runs_harness a = false) l
    end).
Proof. unfold exec_harness, eprintln. repeat walk1; try done; (split; [done|by repeat constructor]). Qed.

Lemma report_and_exec_ends fd argv o listener mechanisms :
  mechanisms ++ ["seccomp"] = mechanisms_of o ->
  does (report_and_exec fd argv mechanisms (unavailable_of o) listener) (fun e l => match e with
    | Replaced => ran fd argv o listener [Execv argv None] l
    | Exited c => c = 1%Z /\ gave_up l
        \/ c = 127%Z /\ exists tail, ran fd argv o listener tail l /\ Forall (fun a => runs_harness a = false) tail
    end).
Proof.
  intros Hm. unfold report_and_exec. rewrite Hm. apply (does_bind _ _ _ _ (write_applied_sends _ _ _)).
  intros [[]|msg] rep [Hn Hr].
  - destruct (Hr eq_refl) as (line & n & e & Ht & Hpos & Heq).
    assert (reported o listener rep) as Hrep by (exists line, n, e; by rewrite Heq).
    apply withdraw_withdraws. intros w Hw. eapply does_conseq; [apply exec_harness_execs|]. intros [c|] l.
    + intros [-> Hl]. right. split; [done|]. exists l. split; [by exists rep, w|done].
    + intros ->. by exists rep, w.
  - unfold eprintln, close, syscall. repeat walk1. left. split; [done|]. split.
    + apply Forall_app; split; [done|by repeat constructor].
    + right. exists msg. apply elem_of_app. right. apply list_elem_of_here.
Qed.

Lemma ended_after (C C' : Outcome -> Z -> list Act -> Prop) pre fd argv e l :
  (forall o listener p, C o listener p -> C' o listener (pre ++ p)) -> Forall silent pre ->
  ended C fd argv e l -> ended C' fd argv e (pre ++ l).
Proof.
  intros HC Hs. destruct e as [c|]; cbn.
  - intros [[-> Hg]|(-> & o & li & p & rest & tail & Hc & -> & H)].
    + left. split; [done|]. by apply gave_up_after.
    + right. split; [done|]. exists o, li, (pre ++ p), rest, tail. rewrite app_assoc. auto.
  - intros (o & li & p & rest & Hc & -> & H). exists o, li, (pre ++ p), rest. rewrite app_assoc. auto.
Qed.

Lemma refuse_ends C fd argv pre code message : Forall silent pre ->
  does (refuse code message) (fun e l => ended C fd argv e (pre ++ l)).
Proof.
  intros Hs. eapply does_conseq; [apply refuse_refuses|]. intros e l [-> Hr]. left. split; [done|].
  by apply gave_up_after, (refused_gave_up code message).
Qed.

Lemma filter_and_exec_ends fd argv o mechanisms : mechanisms ++ ["seccomp"] = mechanisms_of o ->
  does (filter_and_exec fd argv mechanisms (unavailable_of o))
    (ended (fun o' listener p => o' = o /\ (0 <= listener)%Z /\ exists e, p = [Sys (SetFilter program) listener e]) fd argv).
Proof.
  intros Hm. unfold filter_and_exec. apply (does_bind _ _ _ _ install_installs). intros [li|err] l [Sl Hl].
  - destruct (Hl li eq_refl) as (Hp & e1 & ->). eapply does_conseq; [by apply report_and_exec_ends|]. intros [c|] l.
    + intros [[-> Hg]|(-> & tail & Hr & Ht)]; [left|right]; (split; [done|]); [by apply gave_up_after|].
      exists o, li, [Sys (SetFilter program) li e1], l, tail. eauto 6.
    + intros Hr. exists o, li, [Sys (SetFilter program) li e1], l. eauto 6.
  - destruct (install_failure err) as [code what]. by apply refuse_ends.
Qed.

Lemma confine_ends fd request :
  does (confine fd request) (ended (fun o listener p => exists ll e, landlocked (landlock request) o ll /\ (0 <= listener)%Z
    /\ p = ll ++ [Sys (SetFilter program) listener e]) fd (r_argv request)).
Proof.
  unfold confine. apply (does_bind _ _ _ _ (landlock_apply_applies _)). intros [o|err] ll [Sl Hl].
  - specialize (Hl o eq_refl). destruct o as [abi|]; cbv iota beta zeta;
      [pose proof (filter_and_exec_ends fd (r_argv request) (InForce abi) (BASE_MECHANISMS ++ ["landlock"]) eq_refl) as H
      |pose proof (filter_and_exec_ends fd (r_argv request) Unavailable BASE_MECHANISMS eq_refl) as H];
      apply (does_conseq _ _ _ H); intros e l He; (eapply ended_after; [|exact Sl|exact He]);
      intros o' li p (-> & Hp & e1 & ->); exists ll, e1; auto.
  - by apply refuse_ends.
Qed.

Lemma stage_ends fd input ending :
  does (stage fd input ending) (fun e l => match parse_request input ending with
    | Ok request => ended (confined input ending request) fd (r_argv request) e l
    | Err _ => e = Exited 1 /\ gave_up l
    end).
Proof.
  unfold stage, read_request, read_proc. do 3 walk1. destruct (parse_request input ending) as [request|msg] eqn:Hp.
  - do 2 walk1. set (pre := [Requested (Ok request); ReadProc "/proc/self/uid_map" a0; ReadProc "/proc/self/status" a1]).
    assert (Forall silent pre) as Sp by silent_done.
    destruct (not_in_namespace _ _) eqn:Hn; [by apply (refuse_ends _ _ _ pre)|].
    apply (does_bind _ _ _ _ (apply_rlimits_sets _)). intros [[]|err] lim [Sl Hl].
    + apply (does_conseq _ _ _ (confine_ends fd request)). intros e l He.
      apply (fun HC Hs => ended_after _ (confined input ending request) (pre ++ lim) _ _ _ _ HC Hs He); [|by apply Forall_app].
      intros o li p (ll & e1 & Hll & Hpos & ->). exists a0, a1, lim, ll, e1. rewrite <- app_assoc. auto 10.
    + apply (refuse_ends _ _ _ (pre ++ lim)). by apply Forall_app.
  - eapply does_conseq; [apply refuse_refuses|]. intros e l [-> Hr]. split; [done|]. apply gave_up_after; [silent_done|].
    by eapply refused_gave_up.
Qed.

(** ** The harness runs confined *)

(** Closing the socket ends an exit. *)
Definition closing (fd : Z) (e : End) (l : list Act) : Prop :=
  match e with
  | Exited _ => exists r, l = [Sys (Close fd) (fst r) (snd r)]
  | Replaced => l = []
  end.

Lemma run_inner_closes fd input ending (P : End -> list Act -> Prop) :
  does (stage fd input ending) P ->
  does (run_inner fd input ending) (fun e l => exists l1 l2, l = l1 ++ l2 /\ P e l1 /\ closing fd e l2).
Proof.
  intros H. unfold run_inner, close, syscall. apply (does_bind _ _ _ _ H). intros [c|] l Hl; repeat walk1.
  - exists l, [Sys (Close fd) a.1 a.2]. split; [done|]. split; [done|]. by exists a.
  - exists l, []. split; [done|]. by split.
Qed.

(** C6. The harness takes the stage's place only after, in this order: a
    request was read whole, the namespace was found to be the helper's, the
    three limits were lowered to what was asked or the limit in force, Landlock
    restricts the process by a rule for [/] and one for each writable path or
    is not offered, the filter is installed, the whole report naming exactly
    these mechanisms was sent with the listener, and both the listener and the
    socket were taken from it.  The stage that gives up exits 1, runs nothing
    and has refused unless it could not report; it exits 127 only past the
    report, when the harness could not be executed. *)
Theorem the_harness_runs_confined fd input ending :
  does (run_inner fd input ending) (fun e l => exists l1 l2, l = l1 ++ l2 /\ closing fd e l2 /\
    match parse_request input ending with
    | Ok request => ended (confined input ending request) fd (r_argv request) e l1
    | Err _ => e = Exited 1 /\ gave_up l1
    end).
Proof.
  apply (does_conseq _ _ _ (run_inner_closes _ _ _ _ (stage_ends fd input ending))).
  intros e l (l1 & l2 & -> & H & Hc). by exists l1, l2.
Qed.

End stage.

(** ** Limits and rights only shrink *)

Lemma clamp_bounds requested hard : (0 <= requested <= u64_max)%Z -> (0 <= hard <= u64_max)%Z ->
  (0 <= clamp requested hard <= u64_max)%Z /\ (clamp requested hard <= requested)%Z /\ (clamp requested hard <= hard)%Z
  /\ (clamp requested hard = requested \/ clamp requested hard = hard).
Proof. unfold clamp. destruct (hard =? u64_max)%Z eqn:?; lia. Qed.

Lemma rule_rights_within granted handled is_dir i : Z.testbit (rule_rights granted handled is_dir) i = true ->
  Z.testbit granted i = true /\ Z.testbit handled i = true /\ (is_dir = false -> Z.testbit FILE_RIGHTS i = true).
Proof. unfold rule_rights. destruct is_dir; rewrite ?Z.land_spec, ?andb_true_iff; naive_solver. Qed.

(** Nothing but reading and executing is granted beneath [/]. *)
Lemma root_grants_no_write handled is_dir : Z.land (rule_rights READ_EXEC handled is_dir) (Z.lnot READ_EXEC) = 0%Z.
Proof.
  apply Z.bits_inj'. intros i Hi. rewrite Z.land_spec, Z.lnot_spec, Z.bits_0 by done.
  destruct (Z.testbit (rule_rights _ _ _) i) eqn:E; [|done]. by apply rule_rights_within in E as [-> _].
Qed.

(** ** An example: the whole stage on a kernel that offers everything *)

Definition example_request : Request := mk_request ["/bin/claude"] RLIMITS_DEFAULT ["/tmp"].

Definition example_run (kernel : Call -> Z * Z) (uid_map : string) : End * World unit Act :=
  run_inner (fun _ s => s) (fun c s => (kernel c, s)) (fun _ _ => Ok 1000%Z) (fun _ _ => Ok true)
    (fun path _ => Some (if bool_decide (path = "/proc/self/uid_map") then uid_map else "Name: x" +:+ String newline "NoNewPrivs: 1"))
    (fun _ s => (Ok tt, s)) (fun _ _ => None) pretty (fun _ => Ok example_request)
    (fun r => Ok (match r with Applied _ _ => "applied" | Refused c _ => c end)) 3%Z ("{}" +:+ String newline EmptyString) (Ok tt)
    (mk_world tt 0 []).

Definition example_kernel (c : Call) : Z * Z :=
  match c with
  | LandlockVersion => (3, 0) | CreateRuleset _ => (7, 0) | OpenPath _ => (8, 0) | SetFilter _ => (9, 0)
  | SendMsg bytes _ => (Z.of_nat (String.length bytes), 0) | _ => (0, 0)
  end%Z.

Example a_stage_replaced :
  fst (example_run example_kernel "1000 1000 1") = Replaced /\
  last (calls (snd (example_run example_kernel "1000 1000 1"))) = Some (Execv ["/bin/claude"] None).
Proof. vm_compute. by split. Qed.

(** Outside the helper's namespace, and on a kernel without the filter. *)
Example a_stage_refused :
  fst (example_run example_kernel "0 0 4294967295") = Exited 1 /\
  last (calls (snd (example_run example_kernel "0 0 4294967295"))) = Some (Sys (Close 3) 0 0) /\
  existsb (fun a => match a with Wrote b _ => starts_with "sandbox_backend_missing" b | _ => false end)
    (calls (snd (example_run (fun c => match c with SetFilter _ => (-1, 22)%Z | _ => example_kernel c end) "1000 1000 1"))) = true.
Proof. vm_compute. by repeat split. Qed.
