(* ===== verification/Report.v ===== *)
(** * The supervisor's end of the report

    Models crates/willie-sess/src/sandbox/mod.rs past the preparation: reading
    the stage's one line with the descriptor that rides with it, what a helper
    that refused said, its exit put back into the harness's, and the process
    behind it; with the spawn's error pipe and exit status of pty.rs and the
    command line of cli.rs.  What the kernel delivers is an argument: the first
    [recvmsg], the bytes after it and how they end. *)

From S2P Require Import Prelude Text Ascii Utf8 Sandbox Session Project Harness Plan Seccomp SessionTitle Effects Stage.

Local Open Scope string_scope.
Local Open Scope list_scope.
Local Open Scope willie_scope.

(** ** Data *)

Inductive ReportOutcome : Type :=
| ReadApplied (mechanisms unavailable : list string) (listener : option Z)
| ReadRefused (code message : string)
| HelperGone
| TimedOut.

(** The first read: its bytes (none at the end of the stream), descriptors and
    whether control data was lost; or the deadline; or another failure. *)
Inductive FirstRead : Type :=
| Got (data : string) (fds : list Z) (truncated : bool)
| GotDeadline
| GotFailure.

(** How the bytes after the first read end. *)
Inductive Ending : Type := AtEof | AtDeadline | AtFailure.

Definition ended_outcome (e : Ending) : ReportOutcome :=
  match e with AtEof | AtFailure => HelperGone | AtDeadline => TimedOut end.

(** ** Reading the report *)

(** One byte at a time, up to the newline. *)
Fixpoint read_on (rest : string) (ending : Ending) : result string ReportOutcome :=
  match rest with
  | EmptyString => Err (ended_outcome ending)
  | String b rest =>
      if bool_decide (b = newline) then Ok EmptyString
      else let? line := read_on rest ending in Ok (String b line)
  end.

(** What a report carries at most. *)
Definition too_many (n : nat) : string :=
  "the sandbox report carried " +:+ pretty n +:+ " descriptors, where at most one belongs".

Section read.
  Context (from_slice : string -> result Report string).

Definition outcome_of (line : string) (listener : option Z) : ReportOutcome :=
  match from_slice line with
  | Ok (Applied mechanisms unavailable) => ReadApplied mechanisms unavailable listener
  | Ok (Refused code message) => ReadRefused code message
  | Err e => ReadRefused "sandbox_apply_failed" ("unreadable sandbox report: " +:+ e)
  end.

Definition the_line (head rest : string) (ending : Ending) : result string ReportOutcome :=
  let line := default EmptyString (List.hd_error (split newline head)) in
  if contains_char newline head then Ok line
  else let? more := read_on rest ending in Ok (line +:+ more).

Definition read_report (first : FirstRead) (rest : string) (ending : Ending) : ReportOutcome :=
  match first with
  | GotDeadline => TimedOut
  | GotFailure => HelperGone
  | Got data fds truncated =>
      if is_empty data then HelperGone
      else if truncated then ReadRefused "sandbox_apply_failed" "the sandbox report carried a truncated control message"
      else if (1 <? length fds)%nat then ReadRefused "sandbox_apply_failed" (too_many (length fds))
      else
        match the_line data rest ending with
        | Ok line => outcome_of line (last fds)
        | Err o => o
        end
  end.

End read.

Definition kept (o : ReportOutcome) : list Z := match o with ReadApplied _ _ (Some fd) => [fd] | _ => [] end.

(** ** The helper's command and files *)

Definition set_first (argv : list string) (x : string) : list string :=
  match argv with [] => [] | _ :: rest => x :: rest end.

Definition helper_argv (p : Plan) (helper : string) (inner_fd : Z) : list string :=
  set_first (bwrap_argv p inner_fd) (from_utf8_lossy helper).

Definition SUPERVISOR_BIN : string := "/opt/willie/bin/willie-sess".

Definition inner_exe_path (var : option string) (proc_self_exe : option string) : string :=
  match var with
  | Some p => from_utf8_lossy p
  | None => match proc_self_exe with Some p => from_utf8_lossy p | None => SUPERVISOR_BIN end
  end.

Definition helper_path (var : option string) : string := default BWRAP var.

(** Milliseconds; a value that is not UTF-8 or not a number is none. *)
Definition report_wait (var : option string) : Z :=
  match (var ≫= to_str) ≫= parse_unsigned u64_max with
  | Some v => Z.max v 1
  | None => 2000
  end.

(** ** What became of the helper *)

Definition helper_exit (code signal : option Z) : option Z * option Z :=
  match code, signal with
  | Some c, None => if in_range 129 192 c then (None, Some (c - 128)%Z) else (code, signal)
  | _, _ => (code, signal)
  end.

(** [i32::from_str]. *)
Definition parse_i32 (s : string) : option Z :=
  match strip_prefix "-" s with
  | Some digits =>
      if is_empty digits then None else Z.opp <$> parse_digits 2147483648 0 digits
  | None => parse_unsigned i32_max s
  end.

Fixpoint all_some {A B} (f : A -> option B) (l : list A) : option (list B) :=
  match l with
  | [] => Some []
  | a :: l => match f a with Some b => cons b <$> all_some f l | None => None end
  end.

Definition parse_child_pids (text : string) : option (list Z) := all_some parse_i32 (split_whitespace text).

Definition parse_children (text : string) : option Z :=
  match parse_child_pids text with Some [only] => Some only | _ => None end.

Definition children_include (text : string) (harness : Z) : bool :=
  match parse_child_pids text with Some ids => bool_decide (harness ∈ ids) | None => false end.

Definition children_file (pid : Z) : string := "/proc/" +:+ pretty pid +:+ "/task/" +:+ pretty pid +:+ "/children".

(** Each reading of /proc is one of [reads], in turn. *)
Definition only_child (read : string -> option string) (pid : Z) : option Z := read (children_file pid) ≫= parse_children.

Definition harness_pid (read1 read2 : string -> option string) (monitor : Z) : option Z :=
  match only_child read1 monitor with Some reaper => only_child read2 reaper | None => None end.

Definition harness_still_behind (read1 read2 : string -> option string) (monitor harness : Z) : bool :=
  match only_child read1 monitor with
  | Some reaper => match read2 (children_file reaper) with Some text => children_include text harness | None => false end
  | None => false
  end.

(** ** What the helper said *)

Definition HELPER_WORDS_LIMIT : nat := 400.
Definition HELPER_DRAIN : nat := Z.to_nat 16384.
Arguments HELPER_DRAIN : simpl never.

Definition said_lines (text : string) : list string :=
  List.filter (fun l => negb (is_empty l)) (map (fun l => trim (trim_end_matches return_ l)) (lines text)).

Definition helper_words (raw : string) : option string :=
  let joined := join "; " (said_lines (from_utf8_lossy raw)) in
  if is_empty joined then None
  else if (HELPER_WORDS_LIMIT <? length (char_list joined))%nat
  then Some (concat_str (map snd (take HELPER_WORDS_LIMIT (char_list joined))) +:+ ellipsis)
  else Some joined.

Definition apply_failure (raw : string) (code signal : option Z) : string :=
  match helper_words raw, code, signal with
  | Some words, _, _ => "the namespace helper refused: " +:+ words
  | None, Some code, _ => "the namespace helper exited with " +:+ pretty code +:+ " before the harness started, and said nothing"
  | None, None, Some signal => "the namespace helper was killed by signal " +:+ pretty signal +:+ " before the harness started"
  | None, None, None => "the namespace helper ended before the harness started, and said nothing"
  end.

(** ** Spawning: the error pipe and the exit status *)

Definition WORKSPACE_STEP : string := "cannot enter the workspace".
Definition EXEC_STEP : string := "cannot execute the harness".

Inductive SpawnError : Type :=
| Setup (e : IoError)
| Exec (step : string) (errno : Z).

(** The four bytes of an [i32], the least significant first, and back. *)
Definition to_bytes (n : Z) : list Z := [n mod 256; n / 256 mod 256; n / 65536 mod 256; n / 16777216 mod 256]%Z.

Definition from_bytes (l : list Z) : Z :=
  let u := (nth 0 l 0 + 256 * nth 1 l 0 + 65536 * nth 2 l 0 + 16777216 * nth 3 l 0)%Z in
  if (u <=? i32_max)%Z then u else (u - 4294967296)%Z.

(** What the child writes when a step fails; nothing when the program runs. *)
Definition child_report (chdir execve : option Z) : list Z :=
  match chdir, execve with
  | Some errno, _ => 99%Z :: to_bytes errno
  | None, Some errno => 101%Z :: to_bytes errno
  | None, None => []
  end.

(** What the parent makes of up to five bytes. *)
Definition spawned (pid : Z) (piped : list Z) : result Z SpawnError :=
  match piped with
  | [] => Ok pid
  | step :: errno => Err (Exec (if (step =? 99)%Z then WORKSPACE_STEP else EXEC_STEP) (from_bytes errno))
  end.

(** An argument, a variable or the directory that is no C string. *)
Definition has_nul (argv : list string) (env : list (string * string)) (cwd : string) : bool :=
  existsb (contains_char zero) (argv ++ map (fun e => fst e +:+ "=" +:+ snd e) env ++ [cwd]).

(** [exit_of], the C library's macros written out. *)
Definition exit_of (status : Z) : option Z * option Z :=
  let sig := Z.land status 127 in
  if (sig =? 0)%Z then (Some (Z.land (Z.shiftr status 8) 255), None)
  else if (sig =? 127)%Z then (None, None)
  else (None, Some sig).

(** [drain]: chunks until the end, a failure or the limit. *)
Fixpoint drain_from (out : string) (reads : list string) (limit : nat) : string :=
  match reads with
  | [] => out
  | chunk :: reads => if (String.length out <? limit)%nat then drain_from (out +:+ chunk) reads limit else out
  end.

Definition drain (reads : list string) (limit : nat) : string := str_take limit (drain_from EmptyString reads limit).

(** ** The command line *)

Inductive Command : Type :=
| Version
| Run (spec : string)
| Inner (fd : Z)
| Usage (reason : string).

Definition parse (args : list string) : Command :=
  match args with
  | ["--version"] => Version
  | ["run"; "--spec"; spec] => Run spec
  | ["--inner"; fd] => match parse_i32 fd with Some fd => Inner fd | None => Usage "--inner takes a descriptor number" end
  | "--inner" :: _ => Usage "--inner takes exactly one descriptor number"
  | "run" :: _ => Usage "run takes exactly --spec <path>"
  | other :: _ => Usage ("unknown command `" +:+ other +:+ "`")
  | [] => Usage "no command"
  end.

(** ** What arrives *)

(** The bytes and descriptors an effect puts on the socket. *)
Definition sent (a : Act) : string :=
  match a with
  | Sys (SendMsg bytes _) n _ => if (0 <=? n)%Z then str_take (Z.to_nat n) bytes else EmptyString
  | Wrote bytes (Ok _) => bytes
  | _ => EmptyString
  end.

Definition carried (a : Act) : list Z :=
  match a with Sys (SendMsg _ (Some fd)) n _ => if (0 <=? n)%Z then [fd] else [] | _ => [] end.

Section arrival.
  Context (to_vec : Report -> result string string) (from_slice : string -> result Report string).
  (** What serde_json promises: its text reads back, and is one line. *)
  Hypothesis json_reads_back : forall r line, to_vec r = Ok line -> from_slice line = Ok r.
  Hypothesis json_is_one_line : forall r line, to_vec r = Ok line -> contains_char newline line = false.

Lemma report_bytes o listener l : reported to_vec o listener l ->
  exists line, to_vec (Applied (mechanisms_of o) (unavailable_of o)) = Ok line
    /\ concat_str (map sent l) = with_newline line /\ concat (map carried l) = [listener].
Proof.
  intros (line & n & e & Hl & Hn & ->). exists line. split; [done|]. cbn [map sent carried concat_str concat].
  replace (0 <=? n)%Z with true by lia.
  destruct (is_empty _) eqn:E; cbn [map sent carried concat_str concat]; split; try done.
  - rewrite str_app_nil. rewrite <- (str_take_drop (Z.to_nat n) (with_newline line)) at 2.
    destruct (str_drop _ _); [by rewrite str_app_nil|done].
  - by rewrite str_app_nil, str_take_drop.
Qed.

Lemma read_on_line a rest ending : contains_char newline a = false ->
  read_on (a +:+ String newline rest) ending = Ok a.
Proof.
  induction a as [|x a IH]; intros H.
  - rewrite str_app_nil_l. cbn [read_on]. by rewrite bool_decide_eq_true_2.
  - apply contains_char_false_cons in H as [Hx Ha]. rewrite str_app_cons. cbn [read_on].
    rewrite bool_decide_eq_false_2 by done. by rewrite IH.
Qed.

Lemma split_head c a b : contains_char c a = false -> default EmptyString (List.hd_error (split c (a +:+ String c b))) = a.
Proof. intros H. by rewrite split_cons. Qed.

(** Wherever the line is cut between the first read and the rest. *)
Lemma line_of_cut line data rest more ending : contains_char newline line = false ->
  with_newline line = data +:+ rest -> the_line data (rest +:+ more) ending = Ok line.
Proof.
  intros Hl Hcut. unfold the_line. destruct (contains_char newline data) eqn:Hd.
  - f_equal. revert data Hcut Hd. induction line as [|x line IH]; intros data Hcut Hd; unfold with_newline in Hcut.
    + rewrite str_app_nil_l in Hcut. destruct data as [|y data]; [done|]. rewrite str_app_cons in Hcut. injection Hcut as <- Hcut.
      destruct data; [|done]. done.
    + destruct data as [|y data]; [done|]. rewrite !str_app_cons in Hcut. injection Hcut as <- Hcut.
      apply contains_char_false_cons in Hl as [Hx Hl]. cbn in Hd. destruct (decide (x = newline)); [done|].
      specialize (IH Hl data Hcut Hd). rewrite <- IH.
      cbn [split]. destruct (decide (x = newline)); [done|].
      pose proof (split_nonempty newline data) as Hne. by destruct (split newline data).
  - assert (exists b, rest = b +:+ String newline EmptyString /\ line = data +:+ b) as (b & -> & ->).
    { revert data Hcut Hd. induction line as [|x line IH]; intros data Hcut Hd; unfold with_newline in Hcut.
      - destruct data as [|y data]; [by exists EmptyString|]. rewrite str_app_nil_l, str_app_cons in Hcut. injection Hcut as <- Hcut.
        by cbn in Hd.
      - destruct data as [|y data]; [by exists (String x line)|]. rewrite !str_app_cons in Hcut. injection Hcut as <- Hcut.
        apply contains_char_false_cons in Hl as [Hx Hl]. apply contains_char_false_cons in Hd as [_ Hd].
        destruct (IH Hl data Hcut Hd) as (b & -> & ->). by exists b. }
    rewrite contains_char_parts in Hl. apply orb_false_elim in Hl as [_ Hb].
    rewrite split_none by done. rewrite <- str_app_assoc, str_app_cons, str_app_nil_l, read_on_line by done. done.
Qed.

(** C19. What a confined stage reports reaches the supervisor however the
    stream is cut: the first read, with the listener, may end anywhere in the
    line and later bytes come as they like; the supervisor reads the same
    mechanisms with the listener, and none it requires is missing. *)
Theorem the_report_arrives o listener l data rest more ending :
  reported to_vec o listener l -> concat_str (map sent l) = data +:+ rest -> data <> EmptyString ->
  read_report from_slice (Got data (concat (map carried l)) false) (rest +:+ more) ending
    = ReadApplied (mechanisms_of o) (unavailable_of o) (Some listener)
  /\ required_missing (mechanisms_of o) = None.
Proof.
  intros Hr Hcut Hd. destruct (report_bytes o listener l Hr) as (line & Hl & Hb & Hc). rewrite Hc.
  split; [|by destruct o]. unfold read_report. replace (is_empty data) with false by (by destruct data). cbn [length Nat.ltb Nat.leb last].
  rewrite Hb in Hcut. rewrite (line_of_cut line) by first [exact Hcut | exact (json_is_one_line _ _ Hl)]. unfold outcome_of. by rewrite (json_reads_back _ _ Hl).
Qed.

End arrival.

(** ** What is trusted *)

Lemma read_on_reads rest ending line : read_on rest ending = Ok line -> exists more, rest = line +:+ String newline more.
Proof.
  revert line. induction rest as [|b rest IH]; intros line; cbn [read_on]; [done|].
  destruct (bool_decide_reflect (b = newline)) as [->|_]; [intros [= <-]; by exists rest|].
  destruct (read_on rest ending) as [l|] eqn:E; [|done]. intros [= <-]. destruct (IH l eq_refl) as [more ->]. by exists more.
Qed.

Lemma read_on_fails rest ending o : read_on rest ending = Err o -> o = ended_outcome ending.
Proof.
  induction rest as [|b rest IH]; cbn [read_on]; [by intros [= <-]|].
  destruct (bool_decide _); [done|]. destruct (read_on rest ending) eqn:E; [done|]. intros [= <-]. by apply IH.
Qed.

Lemma split_first c s : contains_char c s = true ->
  exists b, s = default EmptyString (List.hd_error (split c s)) +:+ String c b.
Proof.
  induction s as [|x s IH]; [done|]. cbn [contains_char split]. destruct (decide (x = c)) as [->|Hx]; intros H.
  - by exists s.
  - destruct (IH H) as [b Hb]. pose proof (split_nonempty c s). destruct (split c s) as [|p ps]; [done|].
    exists b. cbn in *. by rewrite Hb at 1.
Qed.

Lemma the_line_reads data rest ending line : the_line data rest ending = Ok line ->
  exists more, data +:+ rest = line +:+ String newline more.
Proof.
  unfold the_line. destruct (contains_char newline data) eqn:E.
  - intros [= <-]. destruct (split_first _ _ E) as [b Hb]. exists (b +:+ rest). by rewrite Hb at 1; rewrite <- str_app_assoc, str_app_cons.
  - destruct (read_on rest ending) as [more|] eqn:Er; [|done]. intros [= <-]. apply read_on_reads in Er as [m ->].
    exists m. rewrite split_none by done. cbn. by rewrite <- str_app_assoc.
Qed.

(** A report is believed only whole: it counts as applied only if the
    first read carried at most one descriptor and lost no control data, the
    stream up to its first newline is what parses as that report, and the
    listener is the descriptor; anything else is a refusal, a helper gone or
    the deadline, and keeps no descriptor. *)
Theorem only_a_whole_report_counts from_slice first rest ending :
  match read_report from_slice first rest ending with
  | ReadApplied mechanisms unavailable listener =>
      exists data fds line more, first = Got data fds false /\ (length fds <= 1)%nat /\ listener = last fds
        /\ data +:+ rest = line +:+ String newline more /\ from_slice line = Ok (Applied mechanisms unavailable)
  | ReadRefused code message => exists data fds truncated, first = Got data fds truncated /\ data <> EmptyString
  | HelperGone => first = GotFailure \/ (exists fds t, first = Got EmptyString fds t) \/ ending = AtEof \/ ending = AtFailure
  | TimedOut => first = GotDeadline \/ ending = AtDeadline
  end /\ (forall data fds t, first = Got data fds t -> incl (kept (read_report from_slice first rest ending)) fds).
Proof.
  unfold read_report. destruct first as [data fds truncated| |]; [|split; [auto|done]..].
  destruct (is_empty data) eqn:Ed; [destruct data; [|done]; split; [eauto|by intros ? ? ? _ ? ?]|].
  assert (data <> EmptyString) by (by destruct data).
  destruct truncated; [split; [eauto|by intros ? ? ? _ ? ?]|]. destruct (1 <? length fds)%nat eqn:El; [split; [eauto|by intros ? ? ? _ ? ?]|].
  destruct (the_line data rest ending) as [line|o] eqn:Hl.
  - unfold outcome_of. destruct (from_slice line) as [[m u|c t]|e] eqn:Ef; [|split; [eauto|by intros ? ? ? _ ? ?]..].
    apply the_line_reads in Hl as [more Hm]. split; [exists data, fds, line, more; repeat split; [lia|done|done]|].
    intros ? ? ? [= <- <- <-]. cbn. destruct (last fds) as [fd|] eqn:Elast; [|by intros ? ?]. intros x [<-|[]].
    apply last_Some in Elast as [l ->]. apply in_or_app. right. by left.
  - unfold the_line in Hl. destruct (contains_char newline data); [done|]. destruct (read_on rest ending) eqn:Er; [done|].
    injection Hl as <-. apply read_on_fails in Er as ->. destruct ending; cbn; (split; [auto|by intros ? ? ? _ ? ?]).
Qed.

(** ** One line of words *)

Lemma contains_char_part c a m b : contains_char c (a +:+ (m +:+ b)) = false -> contains_char c m = false.
Proof. rewrite !contains_char_parts. intros [_ [H _]%orb_false_elim]%orb_false_elim. done. Qed.

Lemma trim_no_char c s : contains_char c s = false -> contains_char c (trim s) = false.
Proof.
  destruct (char_list_prefix s) as [t Ht], (char_list_trim s) as (l1 & l2 & E). intros H.
  rewrite Ht, E, !map_app, !concat_str_app, trim_chars, <- !str_app_assoc in H. by apply contains_char_part in H.
Qed.

Lemma trim_end_no_char c d s : contains_char c s = false -> contains_char c (trim_end_matches d s) = false.
Proof. destruct (trim_end_matches_split d s) as [b Hb]. rewrite Hb at 1. apply contains_char_prefix. Qed.

Lemma drop_return_prefix s : exists b, s = drop_return s +:+ b.
Proof.
  induction s as [|a s [b IH]]; [by exists EmptyString|]. destruct s as [|x s].
  - cbn. destruct (bool_decide (a = return_)); [by exists (String a EmptyString)|by exists EmptyString].
  - exists b. cbn [drop_return] in *. by rewrite str_app_cons, <- IH.
Qed.

Lemma lines_no_newline s : Forall (fun l => contains_char newline l = false) (lines s).
Proof.
  unfold lines. pose proof (split_pieces newline s) as H. induction H as [|p ps Hp Hps IH]; [constructor|].
  destruct ps as [|q ps]; [cbn; destruct (is_empty p); by repeat constructor|]. constructor; [|exact IH].
  destruct (drop_return_prefix p) as [b Hb]. rewrite Hb in Hp. by apply contains_char_prefix in Hp.
Qed.

Lemma join_no_char c sep l : contains_char c sep = false -> Forall (fun x => contains_char c x = false) l -> contains_char c (join sep l) = false.
Proof.
  intros Hs H. induction H as [|x l Hx Hl IH]; [done|]. destruct l as [|y l]; [done|].
  change (contains_char c (x +:+ sep +:+ join sep (y :: l)) = false). by rewrite !contains_char_parts, Hx, Hs, IH.
Qed.

Lemma said_lines_plain s : Forall (fun l => contains_char newline l = false) (said_lines s).
Proof.
  unfold said_lines. rewrite Forall_forall. intros x Hx%list_elem_of_In%List.filter_In. destruct Hx as [(l & <- & Hl%list_elem_of_In)%in_map_iff _].
  apply trim_no_char, trim_end_no_char. pose proof (lines_no_newline s) as H. rewrite Forall_forall in H. by apply H.
Qed.

(** Whatever bytes the helper left on the terminal, what is recorded of
    them is one line of at most four hundred characters and an ellipsis, and
    never empty; and there is none only if it said nothing but whitespace. *)
Theorem helper_words_are_one_line raw :
  match helper_words raw with
  | Some words => words <> EmptyString /\ contains_char newline words = false /\ (length (char_list words) <= HELPER_WORDS_LIMIT + 1)%nat
  | None => Forall (fun l => trim (trim_end_matches return_ l) = EmptyString) (lines (from_utf8_lossy raw))
  end.
Proof.
  unfold helper_words. pose proof (join_no_char newline "; " _ eq_refl (said_lines_plain (from_utf8_lossy raw))) as Hn.
  set (joined := join "; " (said_lines (from_utf8_lossy raw))) in *. destruct (is_empty joined) eqn:Ee.
  - rewrite Forall_forall. intros l Hl. destruct (trim (trim_end_matches return_ l)) as [|a x] eqn:E; [done|]. exfalso.
    assert (String a x ∈ said_lines (from_utf8_lossy raw)) as Hin.
    { apply list_elem_of_In, List.filter_In. split; [|done]. apply in_map_iff. exists l. by rewrite E, <- list_elem_of_In. }
    assert (Hne : Forall (fun y => is_empty y = false) (said_lines (from_utf8_lossy raw))).
    { rewrite Forall_forall. intros y Hy%list_elem_of_In%List.filter_In. by destruct (is_empty y), Hy. }
    subst joined. destruct (said_lines (from_utf8_lossy raw)) as [|y ys]; [by apply elem_of_nil in Hin|].
    inversion Hne as [|? ? Hy _]; subst. destruct y; [done|]. by destruct ys.
  - destruct (HELPER_WORDS_LIMIT <? length (char_list joined))%nat eqn:El.
    + pose proof (char_list_chars joined) as Hc. split; [|split].
      * by destruct (concat_str _).
      * rewrite contains_char_parts. apply orb_false_iff. split; [|done]. destruct (char_list_prefix joined) as [t Ht].
        rewrite <- (take_drop HELPER_WORDS_LIMIT (char_list joined)), map_app, concat_str_app, <- str_app_assoc in Ht. rewrite Ht in Hn.
        by apply contains_char_prefix in Hn.
      * rewrite char_list_concat_app by (by apply Forall_take). rewrite length_app, length_take. cbn [length]. 
        change (length (char_list ellipsis)) with 1%nat. lia.
    + split; [by destruct joined|]. split; [done|]. apply Nat.ltb_ge in El. lia.
Qed.

(** What a failed spawn's child wrote is what its parent reads. *)
Lemma from_to_bytes n : (-2147483648 <= n <= i32_max)%Z -> from_bytes (to_bytes n) = n.
Proof.
  intros H. unfold from_bytes, to_bytes, i32_max in *. cbn [nth]. destruct (_ <=? _)%Z eqn:E; revert E; Z.to_euclidean_division_equations; lia.
Qed.

Lemma spawn_reports pid chdir execve : (forall e, chdir = Some e \/ execve = Some e -> (-2147483648 <= e <= i32_max)%Z) ->
  spawned pid (child_report chdir execve) =
  match chdir, execve with
  | Some e, _ => Err (Exec WORKSPACE_STEP e)
  | None, Some e => Err (Exec EXEC_STEP e)
  | None, None => Ok pid
  end.
Proof. intros H. destruct chdir as [e|], execve as [e'|]; cbn [child_report spawned]; try done; rewrite from_to_bytes by auto; done. Qed.

(** A signal's exit comes back through the helper's [128 + n]. *)
Lemma helper_exit_restores n : in_range 1 64 n = true -> helper_exit (Some (128 + n)%Z) None = (None, Some n).
Proof. unfold helper_exit, in_range. intros H. destruct ((129 <=? 128 + n)%Z && (128 + n <=? 192)%Z) eqn:E; [|lia]. do 2 f_equal. lia. Qed.

(** A serialiser of one report, and that report sent in two pieces. *)
Definition one_report : Report := Applied (mechanisms_of (InForce 6)) (unavailable_of (InForce 6)).

Definition one_to_vec (r : Report) : result string string := if decide (r = one_report) then Ok "applied" else Err "another report".

Definition one_from_slice (s : string) : result Report string := if decide (s = "applied") then Ok one_report else Err "not a report".

Lemma the_report_arrives_witness :
  read_report one_from_slice (Got "app" [9%Z] false) (("lied" +:+ String newline EmptyString) +:+ "later") AtDeadline
    = ReadApplied (mechanisms_of (InForce 6)) [] (Some 9%Z).
Proof.
  refine (proj1 (the_report_arrives one_to_vec one_from_slice _ _ (InForce 6) 9
    [Sys (SendMsg (with_newline "applied") (Some 9%Z)) 3 0; Wrote (str_drop 3 (with_newline "applied")) (Ok tt)] _ _ "later" _ _ _ _)).
  - intros r line. unfold one_to_vec. destruct (decide (r = one_report)) as [->|_]; [|discriminate]. by intros [= <-].
  - intros r line. unfold one_to_vec. destruct (decide (r = one_report)); [|discriminate]. by intros [= <-].
  - exists "applied", 3%Z, 0%Z. by vm_compute.
  - reflexivity.
  - discriminate.
Defined.
