(* ===== verification/Startup.v ===== *)
(** * A session's start

    Models crates/willie-sess/src/main.rs (session_main, run, spawn_failure,
    serve_filter) with spec.rs, the binding of server.rs, the terminal pair and
    the spawn of pty.rs and the answer of detach.rs: from the spec to the one
    line the launcher waits for, and to the end of the session.  Every effect is
    recorded with its answer.  What the threads do meanwhile is [Supervisor]'s. *)

From S2P Require Import Prelude Text Utf8 BTree Sandbox Session Project Harness Plan Seccomp Sessions Effects Stage Report.

Local Open Scope string_scope.
Local Open Scope list_scope.
Local Open Scope willie_scope.

(** ** Data *)

Record Paths : Type := mk_paths { p_dir : string; p_events : string; p_log : string; p_socket : string }.

Inductive PtyCall : Type :=
| OpenFile (path : string)
| Unlock (fd : Z)
| Number (fd : Z)
| CloseFd (fd : Z).

Inductive Act : Type :=
| Loaded (r : result (SessionSpec * Paths) string)
| LogOpened (path : string) (error : option string)
| Redirected (error : option string)
| EventsOpened (path : string) (error : option string)
| Logged (kind : SessionEventKind)
| Existed (path : string) (yes : bool)
| Connected (path : string) (yes : bool)
| Removed (path : string) (error : option string)
| Listened (path : string) (error : option string)
| Restricted (path : string) (error : option string)
| Readied (r : result (Plan * Request) PrepareError)
| Paired (r : result (Z * Z) string)
| Terminal (c : PtyCall) (r : result Z Z)
| Forked (argv : list string) (cwd : string) (env : list (string * string)) (keep : Z) (r : result Z IoError)
| Piped (r : result (list Z) IoError)
| Dropped (fd : Z)
| RequestSent (line : string)
| SignalsBlocked
| ReportRead (o : ReportOutcome)
| GroupKilled (pid : Z)
| Drained (text : string)
| Waited (pid : Z) (exit : option Z * option Z)
| Resolved (harness : option Z)
| FilterServed (listener : Z) (error : option string)
| Accepting (error : option string)
| WaiterStarted (error : option string)
| Replied (line : string)
| ReplyClosed
| Served
| TearingDown
| FilterPolled (finished : bool)
| Finished (code signal : option Z).

(** ** The spec *)

Definition load (from_str : string -> result SessionSpec string) (spec_path : string) (text : result string string) :
    result (SessionSpec * Paths) string :=
  let? text := text in
  let? spec := from_str text in
  match Session.argv spec with
  | [] => Err "spec.argv is empty"
  | _ =>
      let? dir := ok_or "spec path has no parent" (parent spec_path) in
      Ok (spec, mk_paths dir (path_join dir "events.jsonl") (path_join dir "supervisor.log") (socket spec))
  end.

(** ** Texts *)

(** [error] is the system's words for the I/O error the value carries. *)
Definition prepare_error_text (error : string) (e : PrepareError) : string :=
  match e with
  | HarnessUnknown id => "unknown harness `" +:+ id +:+ "`"
  | PlanFailed HomeMissing => "spec.env names no HOME to make private"
  | BackendMissing path => "the namespace helper is missing: " +:+ path
  | CacheDir path => "cannot create the cache directory " +:+ path +:+ ": " +:+ error
  | HarnessMissing step path => step +:+ ": entity not found (" +:+ path +:+ ")"
  | ExtraPathResolved path detail => "`" +:+ path +:+ "`: " +:+ detail
  | BindSource path => "the sandbox needs " +:+ path +:+ ", which is not there"
  end.

Section startup.
  Context {S : Type} (others : nat -> S -> S).
  (** The machine. *)
  Context (read_to_string : string -> S -> result string string) (open_append : string -> S -> option string * S)
    (redirect_std : string -> S -> option string * S) (write_event : SessionEventKind -> S -> S)
    (exists_path connect : string -> S -> bool) (remove_file listen restrict : string -> S -> option string * S)
    (pair : S -> result (Z * Z) string * S) (pty : PtyCall -> S -> result Z Z * S)
    (fork : list string -> string -> list (string * string) -> Z -> S -> result Z IoError * S) (pipe : S -> result (list Z) IoError)
    (report_socket : S -> FirstRead * (string * Ending)) (send : string -> S -> S) (kill : Z -> S -> S)
    (terminal : S -> list string) (wait_status : Z -> S -> option Z)
    (proc : string -> S -> option string) (serve_thread accept_thread : S -> option string * S) (waiter_thread : S -> option string * S)
    (answer : string -> S -> S) (filter_ended : S -> bool).
  (** What the preparation asks it. *)
  Context (ulid_to_string : N -> string) (is_file is_executable_file is_dir create_dir_all : string -> S -> bool)
    (canonicalize : string -> S -> result string string) (exists_after : list string -> string -> S -> bool)
    (io_words : PrepareError -> S -> string).
  (** The environment, the codecs, the system's words; how often the filter's
      thread is asked whether it has ended before the settling time is over. *)
  Context (var : string -> option string) (proc_self_exe : option string) (from_str : string -> result SessionSpec string)
    (request_line : Request -> result string string) (report_of : string -> result Stage.Report string)
    (os_error : Z -> string) (settle_polls : nat).

Definition P (A : Type) : Type := M S Act A.

(** An effect that can only fail, and one that only happens. *)
Definition attempt (rec : option string -> Act) (f : S -> option string * S) : P (option string) :=
  perform others (fun e => [rec e]) f.

Definition doing (a : Act) (f : S -> S) : P unit := perform others (fun _ => [a]) (fun s => (tt, f s)).

Definition asking {A} (rec : A -> Act) (f : S -> A) : P A := perform others (fun a => [rec a]) (fun s => (f s, s)).

Definition append (kind : SessionEventKind) : P unit := doing (Logged kind) (write_event kind).

Definition reply_with (line : string) : P unit := doing (Replied line) (answer line).

Definition EXIT_FAILURE : Z := 1.

(** A refusal before there is a log, after, and with a child to end. *)
Definition unlogged {A} (code text : string) : P (result A Z) :=
  let* _ := reply_with (reply_fail code text) in ret (Err EXIT_FAILURE).

Definition refused {A} (code text : string) : P (result A Z) :=
  let* _ := append (EvFailed code text) in
  let* _ := reply_with (reply_fail code text) in ret (Err EXIT_FAILURE).

Definition refused_killing {A} (child : Z) (code text : string) : P (result A Z) :=
  let* _ := append (EvFailed code text) in
  let* _ := doing (GroupKilled child) (kill child) in
  let* _ := reply_with (reply_fail code text) in ret (Err EXIT_FAILURE).

(** ** The files *)

Definition open_files (spec_path : string) : P (result (SessionSpec * Paths) Z) :=
  let* r := asking Loaded (fun s => load from_str spec_path (read_to_string spec_path s)) in
  match r with
  | Err e => unlogged "spec_invalid" e
  | Ok (spec, paths) =>
      let* e := attempt (LogOpened (p_log paths)) (open_append (p_log paths)) in
      match e with
      | Some e => unlogged "supervisor_spawn_failed" e
      | None =>
          let* e := attempt Redirected (redirect_std (p_log paths)) in
          match e with
          | Some e => unlogged "supervisor_spawn_failed" e
          | None =>
              let* e := attempt (EventsOpened (p_events paths)) (open_append (p_events paths)) in
              match e with
              | Some e => unlogged "supervisor_spawn_failed" e
              | None => let* _ := append Created in ret (Ok (spec, paths))
              end
          end
      end
  end.

(** ** The socket *)

(** A live socket is not stolen, a dead one is removed. *)
Definition bind_socket (path : string) : P (option string) :=
  let clear : P (option string) :=
    let* there := asking (Existed path) (exists_path path) in
    if (there : bool) then
      let* live := asking (Connected path) (connect path) in
      if (live : bool) then ret (Some ("a session is already listening on " +:+ path))
      else attempt (Removed path) (remove_file path)
    else ret None in
  let* e := clear in
  match e with
  | Some e => ret (Some e)
  | None =>
      let* e := attempt (Listened path) (listen path) in
      match e with
      | Some e => ret (Some e)
      | None => attempt (Restricted path) (restrict path)
      end
  end.

(** ** The terminal pair *)

Definition pty_call (c : PtyCall) : P (result Z Z) := perform others (fun r => [Terminal c r]) (pty c).

Definition or_close {A} (master : Z) (r : result A Z) : P (result A string) :=
  match r with
  | Ok a => ret (Ok a)
  | Err errno => let* _ := pty_call (CloseFd master) in ret (Err (os_error errno))
  end.

Definition pty_open : P (result (Z * Z) string) :=
  let* m := pty_call (OpenFile "/dev/ptmx") in
  match m with
  | Err errno => ret (Err (os_error errno))
  | Ok master =>
      let* r := pty_call (Unlock master) in
      let! _ := or_close master r in
      let* n := pty_call (Number master) in
      let! number := or_close master n in
      let* s := pty_call (OpenFile ("/dev/pts/" +:+ pretty number)) in
      let! slave := or_close master s in
      ret (Ok (master, slave))
  end.

(** ** The helper *)

Definition spawn_error_text (e : SpawnError) : string :=
  match e with
  | Setup e => io_text os_error e
  | Exec step errno => step +:+ ": " +:+ os_error errno
  end.

Definition spawn_failure (e : SpawnError) : string * string :=
  match e with
  | Exec step _ =>
      if bool_decide (step = WORKSPACE_STEP) then ("harness_exec_failed", spawn_error_text e)
      else ("sandbox_apply_failed", "the namespace helper did not start: " +:+ spawn_error_text e)
  | Setup _ => ("supervisor_spawn_failed", spawn_error_text e)
  end.

Definition wait (pid : Z) : P (option Z * option Z) :=
  asking (Waited pid) (fun s => match wait_status pid s with Some st => exit_of st | None => (None, None) end).

(** The slave is closed however it ends. *)
Definition spawn (slave : Z) (argv : list string) (cwd : string) (env : list (string * string)) (keep : Z) : P (result Z SpawnError) :=
  let* r :=
    match argv with
    | [] => ret (Err (Setup (Other "no program to run")))
    | _ =>
        if has_nul argv env cwd then ret (Err (Setup (Other "an argument holds a NUL")))
        else
          let* r := perform others (fun r => [Forked argv cwd env keep r]) (fork argv cwd env keep) in
          ret (map_err Setup r)
    end in
  let* _ := doing (Dropped slave) (fun s => s) in
  match r with
  | Err e => ret (Err e)
  | Ok pid =>
      let* b := asking Piped pipe in
      match b with
      | Err e => ret (Err (Setup e))
      | Ok bytes =>
          match spawned pid bytes with
          | Ok pid => ret (Ok pid)
          | Err e => let* _ := wait pid in ret (Err e)
          end
      end
  end.

(** A request that cannot be sent is found out by the reading. *)
Definition write_request (request : Request) : P unit :=
  match request_line request with
  | Ok line => doing (RequestSent (with_newline line)) (send (with_newline line))
  | Err _ => ret tt
  end.

Definition prepare_session (spec : SessionSpec) : P (result (Plan * Request) (string * string)) :=
  let helper := from_utf8_lossy (helper_path (var "WILLIE_SESS_HELPER_BIN")) in
  let inner := inner_exe_path (var "WILLIE_SESS_INNER_EXE") proc_self_exe in
  let f (s : S) :=
    let r := prepare ulid_to_string (fun p => is_file p s) (fun p => is_executable_file p s) (fun p => is_dir p s)
      (fun p => create_dir_all p s) (fun p => canonicalize p s) (fun c p => exists_after c p s) spec helper inner in
    (r, match r with Err e => io_words e s | Ok _ => EmptyString end) in
  let* r := perform others (fun r => [Readied (fst r)]) (fun s => (f s, s)) in
  ret (map_err (fun e => (prepare_error_code e, prepare_error_text (snd r) e)) (fst r)).

(** From the log to a child whose report is awaited, with the supervisor's
    end of the socket and the terminal. *)
Definition start_helper (spec : SessionSpec) (paths : Paths) : P (result Z Z) :=
  let* e := bind_socket (p_socket paths) in
  match e with
  | Some e => refused "supervisor_spawn_failed" ("cannot bind " +:+ p_socket paths +:+ ": " +:+ e)
  | None =>
      let* p := prepare_session spec in
      match p with
      | Err (code, text) => refused code text
      | Ok (plan, request) =>
          let* sockets := perform others (fun r => [Paired r]) pair in
          match sockets with
          | Err e => refused "supervisor_spawn_failed" ("cannot make the report socket: " +:+ e)
          | Ok (_, theirs) =>
              let argv := helper_argv plan (helper_path (var "WILLIE_SESS_HELPER_BIN")) theirs in
              let* t := pty_open in
              match t with
              | Err e => refused "supervisor_spawn_failed" ("cannot open a pty: " +:+ e)
              | Ok (_, slave) =>
                  let* c := spawn slave argv (s_workspace spec) (Session.env spec) theirs in
                  match c with
                  | Err e => let '(code, text) := spawn_failure e in refused code text
                  | Ok child =>
                      let* _ := doing (Dropped theirs) (fun s => s) in
                      let* _ := write_request request in
                      let* _ := doing SignalsBlocked (fun s => s) in
                      ret (Ok child)
                  end
              end
          end
      end
  end.

(** ** The report *)

Definition await_report (child : Z) : P (result (list string * list string * option Z) Z) :=
  let* o := asking ReportRead (fun s => let '(first, (rest, ending)) := report_socket s in read_report report_of first rest ending) in
  match o with
  | ReadApplied mechanisms unavailable listener =>
      if existsb (fun m => bool_decide (m = "seccomp")) mechanisms && negb (bool_decide (is_Some listener)) then
        refused_killing child "sandbox_apply_failed" "the sandbox reported seccomp but sent no listener"
      else
        match required_missing mechanisms with
        | Some missing => refused_killing child "sandbox_backend_missing" ("the sandbox did not apply " +:+ missing)
        | None => ret (Ok (mechanisms, unavailable, listener))
        end
  | ReadRefused code message => refused_killing child code message
  | HelperGone =>
      let* said := asking Drained (fun s => drain (terminal s) HELPER_DRAIN) in
      let* exit := wait child in
      refused "sandbox_apply_failed" (apply_failure said (fst exit) (snd exit))
  | TimedOut => refused_killing child "sandbox_apply_failed" "the sandbox reported nothing within the deadline"
  end.

(** ** The session *)

Definition filter_lost (e : string) : SessionEventKind :=
  SandboxDegraded "seccomp" ("the syscall filter's server did not start (" +:+ e +:+ "); intercepted calls fail with ENOSYS").

(** What the filter's thread records when its loop ends. *)
Definition filter_event (ended : option string) (tearing_down : bool) : option SessionEventKind :=
  match ended with
  | None => None
  | Some e =>
      if tearing_down then None
      else Some (SandboxDegraded "seccomp"
        ("the syscall filter is no longer served (" +:+ e +:+ "); intercepted calls now fail with ENOSYS"))
  end.

(** Whether there is a thread to wait for. *)
Definition serve_filter (listener : Z) : P bool :=
  let* e := attempt (FilterServed listener) serve_thread in
  match e with
  | None => ret true
  | Some e => let* _ := append (filter_lost e) in ret false
  end.

Fixpoint settle (polls : nat) : P unit :=
  match polls with
  | O => ret tt
  | Datatypes.S polls =>
      let* finished := asking FilterPolled filter_ended in
      if (finished : bool) then ret tt else settle polls
  end.

Definition pid_of (child : Z) : Z := if in_range 0 u32_max child then child else 0.

(** The announcement, the session, its end. *)
Definition run_session (child : Z) (filter : bool) : P (result unit Z) :=
  let* e := attempt Accepting accept_thread in
  match e with
  | Some e => unlogged "supervisor_spawn_failed" e
  | None =>
      let* _ := attempt WaiterStarted waiter_thread in
      let* _ := reply_with (reply_ok (pid_of child)) in
      let* _ := doing ReplyClosed (fun s => s) in
      let* _ := doing Served (fun s => s) in
      let* _ := doing TearingDown (fun s => s) in
      let* raw := wait child in
      let* _ := (if filter then settle settle_polls else ret tt) in
      let '(code, signal) := helper_exit (fst raw) (snd raw) in
      let* _ := doing (Finished code signal) (fun s => s) in
      ret (Ok tt)
  end.

(** [harness_pid], one reading of /proc after the other. *)
Definition resolve_harness (monitor : Z) : P (option Z) :=
  let* reaper := asking Resolved (fun s => only_child (fun p => proc p s) monitor) in
  match reaper with
  | Some reaper => asking Resolved (fun s => only_child (fun p => proc p s) reaper)
  | None => ret None
  end.

Definition announce (child : Z) (mechanisms unavailable : list string) (listener : option Z) : P (result unit Z) :=
  let* _ := resolve_harness child in
  let* _ := append (SandboxApplied mechanisms unavailable) in
  let* _ := append (Started (pid_of child)) in
  let* filter := match listener with Some l => serve_filter l | None => ret false end in
  run_session child filter.

Definition session (spec_path : string) : P (result unit Z) :=
  let! opened := open_files spec_path in
  let! child := start_helper (fst opened) (snd opened) in
  let! report := await_report child in
  let '(mechanisms, unavailable, listener) := report in
  announce child mechanisms unavailable listener.

Definition session_main (spec_path : string) : P Z :=
  let* r := session spec_path in
  ret (match r with Ok _ => 0%Z | Err code => code end).

(** ** What a start leaves behind *)

Definition logged (a : Act) : option SessionEventKind := match a with Logged k => Some k | _ => None end.
Definition replied (a : Act) : option string := match a with Replied line => Some line | _ => None end.
Definition forked (a : Act) : option Z := match a with Forked _ _ _ _ (Ok pid) => Some pid | _ => None end.

(** The log, the answers and the children of a trace. *)
Definition summary (l : list Act) : list SessionEventKind * list string * list Z :=
  (omap logged l, omap replied l, omap forked l).

Definition sum_app (a b : list SessionEventKind * list string * list Z) :=
  (fst (fst a) ++ fst (fst b), snd (fst a) ++ snd (fst b), snd a ++ snd b).

Lemma summary_app l1 l2 : summary (l1 ++ l2) = sum_app (summary l1) (summary l2).
Proof. unfold summary, sum_app. cbn. by rewrite !omap_app. Qed.

(** A child that does not outlive a failed start, or why it does. *)
Definition put_down (l : list Act) (pid : Z) : Prop :=
  GroupKilled pid ∈ l \/ (exists e, Waited pid e ∈ l) \/ (exists e, Piped (Err e) ∈ l) \/ exists e, Accepting (Some e) ∈ l.

Lemma put_down_app l1 l2 pid : put_down l1 pid \/ put_down l2 pid -> put_down (l1 ++ l2) pid.
Proof.
  unfold put_down. rewrite !elem_of_app. intros [[H|[[e H]|[[e H]|[e H]]]]|[H|[[e H]|[[e H]|[e H]]]]].
  all: first [left; tauto|right; left; exists e; apply elem_of_app; tauto|right; right; left; exists e; apply elem_of_app; tauto
             |right; right; right; exists e; apply elem_of_app; tauto].
Qed.

(** Told once, and recorded with the same words. *)
Definition told (c t : string) (l : list Act) (children : list Z) : Prop :=
  summary l = ([EvFailed c t], [reply_fail c t], children).

Lemma refused_does {A} code text : does (@refused A code text) (fun r l => r = Err EXIT_FAILURE /\ told code text l []).
Proof. unfold refused, append, reply_with, doing. repeat walk1. done. Qed.

Lemma refused_killing_does {A} child code text :
  does (@refused_killing A child code text) (fun r l => r = Err EXIT_FAILURE /\ told code text l [] /\ GroupKilled child ∈ l).
Proof. unfold refused_killing, append, reply_with, doing. repeat walk1. split; [done|]. split; [done|]. in_list. Qed.

Lemma open_files_does spec_path :
  does (open_files spec_path) (fun r l => match r with
    | Ok _ => summary l = ([Created], [], [])
    | Err code => code = EXIT_FAILURE /\ exists c t, summary l = ([], [reply_fail c t], [])
    end).
Proof.
  unfold open_files, unlogged, append, reply_with, attempt, asking, doing. repeat walk1; try (split; [done|]; by do 2 eexists). done.
Qed.

Lemma bind_socket_does path : does (bind_socket path) (fun _ l => summary l = ([], [], []) /\
  forall e, Removed path e ∈ l -> Connected path false ∈ l).
Proof.
  unfold bind_socket, attempt, asking. repeat walk1; (split; [done|]); intros e H; try (in_cases H; in_list).
Qed.

Lemma pty_open_does : does pty_open (fun _ l => summary l = ([], [], [])).
Proof.
  unfold pty_open, pty_call, or_close, pty_call, bind_result. repeat walk1; done.
Qed.

Lemma map_err_is {A E F} (f : E -> F) (r : result A E) : match map_err f r with Ok a => r = Ok a | Err _ => exists e, r = Err e end.
Proof. destruct r; [done|by eexists]. Qed.

Lemma spawned_ok pid bytes p : spawned pid bytes = Ok p -> p = pid.
Proof. destruct bytes; [by intros [= <-]|done]. Qed.

Lemma spawn_does slave argv cwd env keep :
  does (spawn slave argv cwd env keep) (fun r l => exists children, summary l = ([], [], children) /\
    match r with Ok pid => children = [pid] | Err _ => Forall (put_down l) children end).
Proof.
  unfold spawn, wait, asking, doing. repeat walk1; eexists; (split; [reflexivity|]); try constructor; try done.
  all: match goal with H : map_err Setup ?a = _ |- _ => pose proof (map_err_is Setup a) as Ha; rewrite H in Ha; clear H end.
  - subst. cbn. f_equal. symmetry. by eapply spawned_ok.
  - subst. apply Forall_singleton. right. left. eexists. in_list.
  - subst. apply Forall_singleton. right. right. left. eexists. in_list.
  - destruct Ha as [e' ->]. constructor.
Qed.

Lemma prepare_session_does spec : does (prepare_session spec) (fun _ l => summary l = ([], [], [])).
Proof. unfold prepare_session. repeat walk1. done. Qed.

(** A phase that goes on with nothing told, or has failed: told once, with
    no child left. *)
Definition phase {A} (children : A -> list Z) (r : result A Z) (l : list Act) : Prop :=
  match r with
  | Ok a => summary l = ([], [], children a)
  | Err code => code = EXIT_FAILURE /\ exists c t cs, told c t l cs /\ Forall (put_down l) cs
  end.

Definition quiet : list SessionEventKind * list string * list Z := ([], [], []).

Lemma quiet_app s : sum_app quiet s = s.
Proof. by destruct s as [[a b] c]. Qed.

Lemma phase_quiet {A B} (children : B -> list Z) (m : P A) (k : A -> P (result B Z)) :
  does m (fun _ l => summary l = quiet) -> (forall a, does (k a) (phase children)) -> does (bind m k) (phase children).
Proof.
  intros Hm Hk. apply (does_bind _ _ _ _ Hm). intros a l1 H1. apply (does_conseq _ _ _ (Hk a)). intros [b|code] l2 H2; cbn in *.
  - by rewrite summary_app, H1, H2.
  - destruct H2 as [-> (c & t & cs & Ht & Hp)]. split; [done|]. exists c, t, cs. split; [unfold told in *; by rewrite summary_app, H1, Ht|].
    eapply Forall_impl; [exact Hp|]. intros x Hx. apply put_down_app. by right.
Qed.

Lemma phase_refused {A} (children : A -> list Z) code text : does (refused code text) (phase children).
Proof. eapply does_conseq; [apply refused_does|]. intros r l [-> Ht]. split; [done|]. by exists code, text, []. Qed.

Lemma start_helper_does spec paths : does (start_helper spec paths) (phase (fun child => [child])).
Proof.
  unfold start_helper. apply phase_quiet; [eapply does_conseq; [apply bind_socket_does|by intros ? ? []]|]. intros [e|]; [apply phase_refused|].
  apply phase_quiet; [apply prepare_session_does|]. intros [[plan request]|[code text]]; [|apply phase_refused].
  apply phase_quiet; [by apply does_last; walk1; apply does_ret|]. intros [[ours theirs]|e]; [|apply phase_refused].
  apply phase_quiet; [apply pty_open_does|]. intros [[master slave]|e]; [|apply phase_refused].
  eapply does_bind; [apply spawn_does|]. intros [child|e] l (cs & Hs & Hc); cbv beta iota zeta.
  - unfold write_request, doing. repeat walk1; cbn; rewrite summary_app, Hs, Hc; done.
  - destruct (spawn_failure e) as [code text]. eapply does_conseq; [apply refused_does|]. intros r l2 [-> Ht]. split; [done|].
    exists code, text, cs. split; [unfold told in *; rewrite summary_app, Hs, Ht; unfold sum_app; cbn; by rewrite app_nil_r|].
    eapply Forall_impl; [exact Hc|]. intros x Hx. apply put_down_app. by left.
Qed.

(** What the supervisor starts with. *)
Definition accepted (o : list string * list string * option Z) (l : list Act) : Prop :=
  let '(mechanisms, unavailable, listener) := o in
  ReportRead (ReadApplied mechanisms unavailable listener) ∈ l /\ required_missing mechanisms = None /\ is_Some listener.

Lemma required_names mechanisms : required_missing mechanisms = None ->
  Forall (fun m => m ∈ mechanisms) REQUIRED.
Proof.
  unfold required_missing. intros H. rewrite Forall_forall. intros m Hm%list_elem_of_In.
  pose proof (List.find_none _ _ H m Hm) as Hn%negb_false_iff. apply existsb_exists in Hn as (x & Hx & ->%bool_decide_eq_true).
  by apply list_elem_of_In.
Qed.

Definition judged (child : Z) (r : result (list string * list string * option Z) Z) (l : list Act) : Prop :=
  match r with
  | Ok o => summary l = quiet /\ accepted o l
  | Err code => code = EXIT_FAILURE /\ (exists c t, told c t l []) /\ put_down l child
  end.

Lemma judged_refused child o code text :
  does (refused_killing child code text) (fun r l => judged child r ([ReportRead o] ++ l)).
Proof.
  eapply does_conseq; [apply refused_killing_does|]. intros r l [-> [Ht Hi]]. split; [done|]. split.
  - exists code, text. unfold told in *. by rewrite summary_app, Ht.
  - apply put_down_app. right. by left.
Qed.

Lemma await_report_does child : does (await_report child) (judged child).
Proof.
  unfold await_report, wait, asking. walk1. destruct a as [m u listener|code message| |]; [|apply judged_refused| |apply judged_refused].
  - destruct (existsb _ m && _) eqn:E; [apply judged_refused|]. destruct (required_missing m) as [x|] eqn:Er; [apply judged_refused|].
    apply does_ret. split; [done|]. split; [in_list|]. split; [done|]. apply andb_false_iff in E as [E|E].
    + exfalso. pose proof (required_names m Er) as H. rewrite Forall_forall in H. specialize (H "seccomp" ltac:(unfold REQUIRED; in_list)).
      assert (existsb (fun x => bool_decide (x = "seccomp")) m = true) as E2; [|congruence].
      apply existsb_exists. exists "seccomp". split; [by apply list_elem_of_In|by apply bool_decide_eq_true].
    + by apply negb_false_iff, bool_decide_eq_true in E.
  - do 2 walk1. eapply does_conseq; [apply refused_does|]. intros r l [-> Ht]. split; [done|]. split.
    + eexists _, _. unfold told in *. rewrite !summary_app, Ht. done.
    + right. left. exists a0. in_list.
Qed.

Lemma settle_does polls : does (settle polls) (fun _ l => summary l = quiet).
Proof.
  induction polls as [|polls IH]; cbn [settle]; [by apply does_ret|]. unfold asking. walk1. destruct a; [by apply does_ret|].
  apply (does_conseq _ _ _ IH). intros _ l Hl. by rewrite summary_app, Hl.
Qed.

(** The events of a session that is served from the start, or is not. *)
Definition announcement (child : Z) (mechanisms unavailable : list string) (lost : option string) : list SessionEventKind :=
  [SandboxApplied mechanisms unavailable; Started (pid_of child)] ++ match lost with Some e => [filter_lost e] | None => [] end.

Lemma run_session_does child filter : does (run_session child filter) (fun r l => match r with
  | Ok _ => exists pre post, l = pre ++ Replied (reply_ok (pid_of child)) :: post /\ summary pre = quiet /\ summary post = quiet
  | Err code => code = EXIT_FAILURE /\ exists e, Accepting (Some e) ∈ l /\ summary l = ([], [reply_fail "supervisor_spawn_failed" e], [])
  end).
Proof.
  unfold run_session, unlogged, reply_with, wait, attempt, asking, doing. walk1. destruct a as [e|].
  - repeat walk1. split; [done|]. exists e. split; [in_list|done].
  - do 6 walk1.
    assert (does (if filter then settle settle_polls else ret tt) (fun _ l => summary l = quiet)) as Hs
      by (destruct filter; [apply settle_does|by apply does_ret]).
    eapply does_bind; [exact Hs|]. intros [] l Hl. destruct (helper_exit _ _) as [code signal]. repeat walk1.
    eexists [_; _], _. split; [reflexivity|]. split; [done|].
    match goal with |- summary (?a :: ?b :: ?c :: ?d :: ?r) = _ => change (summary ([a; b; c; d] ++ r) = quiet) end.
    by rewrite !summary_app, Hl.
Qed.

(** How the announcement ends. *)
Definition announced (child : Z) (m u : list string) (li : Z) (r : result unit Z) (l : list Act) : Prop :=
  exists lost, FilterServed li lost ∈ l /\
  match r with
  | Ok _ => exists pre post, l = pre ++ Replied (reply_ok (pid_of child)) :: post
      /\ summary pre = (announcement child m u lost, [], []) /\ summary post = quiet /\ FilterServed li lost ∈ pre
  | Err code => code = EXIT_FAILURE /\ exists e, Accepting (Some e) ∈ l
      /\ summary l = (announcement child m u lost, [reply_fail "supervisor_spawn_failed" e], [])
  end.

Lemma run_session_announced child m u li lost pre filter :
  summary pre = (announcement child m u lost, [], []) -> FilterServed li lost ∈ pre ->
  does (run_session child filter) (fun r l => announced child m u li r (pre ++ l)).
Proof.
  intros Hs Hi. eapply does_conseq; [apply run_session_does|]. intros [[]|code] l H; exists lost.
  - destruct H as (p & q & -> & Hp & Hq). split; [apply elem_of_app; by left|]. exists (pre ++ p), q.
    rewrite <- app_assoc, summary_app, Hs, Hp. unfold sum_app. cbn. rewrite !app_nil_r. split; [done|]. split; [done|]. split; [done|].
    apply elem_of_app. by left.
  - destruct H as (-> & e & He & Hl). split; [apply elem_of_app; by left|]. split; [done|]. exists e.
    split; [apply elem_of_app; by right|]. rewrite summary_app, Hs, Hl. unfold sum_app. cbn. by rewrite !app_nil_r.
Qed.

Lemma resolve_harness_does child : does (resolve_harness child) (fun _ l => summary l = quiet).
Proof. unfold resolve_harness, asking. repeat walk1; done. Qed.

Lemma announce_does child m u li : does (announce child m u (Some li)) (announced child m u li).
Proof.
  unfold announce. eapply does_bind; [apply resolve_harness_does|]. intros h l1 H1. unfold serve_filter, append, doing, attempt. do 4 walk1.
  assert (Hgo : forall lost pre filter, summary pre = (announcement child m u lost, [], []) -> FilterServed li lost ∈ pre ->
    does (run_session child filter) (fun r l => announced child m u li r ((l1 ++ pre) ++ l))).
  { intros lost pre filter Hs Hi. apply (run_session_announced _ _ _ _ lost); [by rewrite summary_app, H1, Hs|]. apply elem_of_app. by right. }
  destruct a1 as [e|].
  - repeat walk1. eapply does_conseq; [apply (Hgo (Some e) [Logged (SandboxApplied m u); Logged (Started (pid_of child)); FilterServed li (Some e); Logged (filter_lost e)]); [done|in_list]|].
    intros r l H. cbv beta in H. rewrite <- app_assoc in H. exact H.
  - repeat walk1. eapply does_conseq; [apply (Hgo None [Logged (SandboxApplied m u); Logged (Started (pid_of child)); FilterServed li None]); [done|in_list]|].
    intros r l H. cbv beta in H. rewrite <- app_assoc in H. exact H.
Qed.

(** C11. A start answers its launcher exactly once.  It answers with a pid only
    if the stage's report was read as applied, with every required mechanism
    and a listener, and only after the session was recorded as created, its
    sandbox as applied and its start, in this order, and the filter's thread
    was started or recorded as lost.  A start that fails exits 1 and answers
    with the very code and words it recorded; and no helper is left behind by
    it, unless its pipe could not be read or no client can be accepted. *)
Theorem a_start_is_answered_once spec_path :
  does (session_main spec_path) (fun code l =>
    (exists child m u li lost pre post, code = 0%Z
      /\ l = pre ++ Replied (reply_ok (pid_of child)) :: post
      /\ summary pre = (Created :: announcement child m u lost, [], [child]) /\ summary post = quiet
      /\ accepted (m, u, Some li) pre /\ FilterServed li lost ∈ pre)
    \/ code = 1%Z /\ exists c t log children, summary l = (log, [reply_fail c t], children) /\ Forall (put_down l) children
      /\ (log = [] \/ log = [Created; EvFailed c t]
          \/ Accepting (Some t) ∈ l /\ c = "supervisor_spawn_failed"
             /\ exists child m u lost, children = [child] /\ log = Created :: announcement child m u lost)).
Proof.
  unfold session_main, session, bind_result. eapply does_assoc.
  apply (does_bind _ _ _ _ (open_files_does spec_path)). intros [opened|code] l1 H1; cbv beta iota zeta.
  2: { destruct H1 as (-> & c & t & H1). repeat walk1. rewrite app_nil_r. right. split; [done|]. exists c, t, [], []. auto. }
  eapply does_assoc, does_bind; [apply start_helper_does|]. intros [child|code] l2 H2; cbv beta iota zeta.
  2: { destruct H2 as (-> & c & t & cs & H2 & Hp). repeat walk1. rewrite app_nil_r. right. split; [done|].
       exists c, t, [Created; EvFailed c t], cs. unfold told in H2. rewrite summary_app, H1, H2. split; [done|]. split; [|auto].
       eapply Forall_impl; [exact Hp|]. intros x Hx. apply put_down_app. by right. }
  eapply does_assoc, does_bind; [apply await_report_does|]. intros [[[m u] listener]|code] l3 H3; cbv beta iota zeta.
  2: { destruct H3 as (-> & (c & t & H3) & Hp). repeat walk1. rewrite app_nil_r. right. split; [done|].
       exists c, t, [Created; EvFailed c t], [child]. unfold told in H3. cbn in H2. rewrite !summary_app, H1, H2, H3. split; [done|]. split; [|auto].
       apply Forall_singleton, put_down_app. right. apply put_down_app. by right. }
  destruct H3 as (H3 & Hr & Hm & [li ->]). cbn in H2.
  eapply does_bind; [apply announce_does|]. intros r l4 (lost & Hf & H4). destruct r as [[]|code]; apply does_ret; rewrite app_nil_r.
  - destruct H4 as (p & q & -> & Hp & Hq & Hf'). left. exists child, m, u, li, lost, (l1 ++ l2 ++ l3 ++ p), q. split; [done|].
    rewrite <- !app_assoc, !summary_app, H1, H2, H3, Hp. split; [done|]. split; [done|]. split; [done|].
    split; [|rewrite !elem_of_app; auto]. split; [rewrite !elem_of_app; auto|]. split; [done|by eexists].
  - destruct H4 as (-> & e & He & H4). right. split; [done|].
    exists "supervisor_spawn_failed", e, (Created :: announcement child m u lost), [child]. rewrite !summary_app, H1, H2, H3, H4.
    split; [done|]. split; [|right; right; split; [rewrite !elem_of_app; auto|]; split; [done|]; by exists child, m, u, lost].
    apply Forall_singleton. right. right. right. exists e. rewrite !elem_of_app. auto.
Qed.

End startup.
