(* ===== verification/Launch.v ===== *)
(** * The supervisor's processes

    Models crates/willie-sess/src/detach.rs, the entry point of main.rs and the
    loops over a descriptor of pty.rs (which willie-cli/src/attach.rs repeats):
    the double fork that leaves a session behind with nothing of its launcher,
    the pipe between the two, and what the launcher prints.  The answers of the
    system calls are arguments. *)

From S2P Require Import Prelude Text Ascii Sessions Report.

Local Open Scope string_scope.
Local Open Scope list_scope.

(** ** Descriptors *)

(** What [read] answers: bytes (none at the end), an interruption, the end of
    the other side of a terminal, or an error. *)
Inductive ReadAnswer : Type := GotBytes (b : list Z) | ReadInterrupted | OtherSideGone | ReadFailed (e : string).

(** [None] while it blocks; what is left of the answers otherwise. *)
Fixpoint read (answers : list ReadAnswer) : option (result (list Z) string * list ReadAnswer) :=
  match answers with
  | [] => None
  | GotBytes b :: answers => Some (Ok b, answers)
  | ReadInterrupted :: answers => read answers
  | OtherSideGone :: answers => Some (Ok [], answers)
  | ReadFailed e :: answers => Some (Err e, answers)
  end.

(** What [write] answers: how much it took, or nothing with an error, none for
    an interruption. *)
Inductive WriteAnswer : Type := Took_ (n : nat) | NotTaken (e : option string).

(** What reaches the descriptor, and the result unless it blocks. *)
Fixpoint write_all (answers : list WriteAnswer) (buf : list Z) : list Z * option (result unit string) :=
  match buf, answers with
  | [], _ => ([], Some (Ok tt))
  | _, [] => ([], None)
  | _, Took_ n :: answers => let '(out, r) := write_all answers (drop n buf) in (take n buf ++ out, r)
  | _, NotTaken None :: answers => write_all answers buf
  | _, NotTaken (Some e) :: _ => ([], Some (Err e))
  end.

(** [Handshake::wait]'s loop: everything up to the end or an error. *)
Fixpoint read_to_end (fuel : nat) (answers : list ReadAnswer) : option (list Z) :=
  match fuel with
  | O => None
  | S fuel =>
      match read answers with
      | None => None
      | Some (Ok [], _) | Some (Err _, _) => Some []
      | Some (Ok b, answers) => (fun more => b ++ more) <$> read_to_end fuel answers
      end
  end.

(** What the writer has taken is a beginning of the buffer, and all of it when
    it says so, however the writes were cut. *)
Theorem write_all_writes_in_order answers buf :
  let '(out, r) := write_all answers buf in out `prefix_of` buf /\ (r = Some (Ok tt) -> out = buf).
Proof.
  revert buf. induction answers as [|a answers IH]; intros [|x buf]; cbn [write_all]; [by split..|by split; [apply prefix_nil|]|by split|].
  destruct a as [n|[e|]]; [|by split; [apply prefix_nil|]|apply IH].
  specialize (IH (drop n (x :: buf))). destruct (write_all answers _) as [out r]. destruct IH as [[k Hk] Hr]. split.
  - exists k. by rewrite <- app_assoc, <- Hk, take_drop.
  - intros ->. by rewrite (Hr eq_refl), take_drop.
Qed.

(** It ends once the system has taken as many bytes as there are, whatever
    interrupts it. *)
Definition takes (a : WriteAnswer) : nat := match a with Took_ n => n | NotTaken _ => 0 end.

Definition kind_ (a : WriteAnswer) : bool := match a with NotTaken (Some _) => false | _ => true end.

Theorem write_all_ends answers buf : forallb kind_ answers = true -> length buf <= sum_list (map takes answers) ->
  write_all answers buf = (buf, Some (Ok tt)).
Proof.
  revert buf. induction answers as [|a answers IH]; intros [|x buf]; cbn [forallb map sum_list write_all]; [done|cbn; lia|done|].
  intros [Ha Hs]%andb_true_iff Hl. destruct a as [n|[e|]]; [|done|by apply IH].
  rewrite IH; [by rewrite take_drop|done|]. rewrite length_drop. cbn [takes] in Hl. unfold sum_list in *. cbn in *. lia.
Qed.

(** What a writer puts in a pipe, the reader on the other side gets whole,
    however it is cut into reads and whatever interrupts them. *)
Definition quiet (a : ReadAnswer) : list Z := match a with GotBytes b => b | _ => [] end.

Definition carries (a : ReadAnswer) : bool := match a with GotBytes (_ :: _) | ReadInterrupted => true | _ => false end.

Theorem read_to_end_gathers pieces rest : forallb carries pieces = true ->
  read_to_end (S (length pieces)) (pieces ++ GotBytes [] :: rest) = Some (concat (map quiet pieces)).
Proof.
  intros Hp. assert (forall n, length pieces < n -> read_to_end n (pieces ++ GotBytes [] :: rest) = Some (concat (map quiet pieces))) as H; [|apply H; lia].
  revert Hp. induction pieces as [|a pieces IH]; cbn [forallb length map concat app].
  - intros _ [|n] Hn; [lia|]. done.
  - intros [Ha Hp]%andb_true_iff [|n] Hn; [lia|]. destruct a as [[|z b]| | |]; try done.
    + cbn [read_to_end read quiet]. rewrite (IH Hp n) by lia. done.
    + cbn [read_to_end read quiet app]. specialize (IH Hp (S n) ltac:(lia)). cbn [read_to_end] in IH. exact IH.
Qed.

(** ** The double fork *)

Record Forks : Type := mk_forks {
  k_pipe : option string;   (* [pipe2]'s error *)
  k_fork : option string;   (* the first fork's *)
  k_setsid : bool;
  k_second : bool           (* whether the second fork worked *)
}.

(** What is left: the launcher alone with an error, or the launcher at the pipe
    with what the intermediate process wrote in it and whether a session holds
    it now; the intermediate is gone, and reaped. *)
Inductive Detached : Type :=
| CannotDetach (e : string)
| Parted (wrote : string) (session : bool).

Definition detach (k : Forks) : Detached :=
  match k_pipe k with
  | Some e => CannotDetach e
  | None =>
      match k_fork k with
      | Some e => CannotDetach e
      | None =>
          if negb (k_setsid k) then Parted (reply_fail "supervisor_spawn_failed" "setsid failed") false
          else if negb (k_second k) then Parted (reply_fail "supervisor_spawn_failed" "second fork failed") false
          else Parted EmptyString true
      end
  end.

(** [run] in the launcher: its line on standard output and its exit code, from
    what the session replied before it closed the pipe or died. *)
Definition run (k : Forks) (log replies : string) : string * Z :=
  match detach k with
  | CannotDetach e => ("fail supervisor_spawn_failed: cannot detach: " +:+ e, 1%Z)
  | Parted wrote session =>
      let r := handshake_wait (wrote +:+ if session then replies else EmptyString) log in
      (print_ready r, match r with ReadyOk _ => 0%Z | ReadyFail _ _ => 1%Z end)
  end.

(** What the daemon reads of the launcher. *)
Definition heard (k : Forks) (log replies : string) : Ready := parse_ready (trim (fst (run k log replies))).

(** *** The entry point *)

Inductive Entry : Type := PrintedVersion | Running (spec : string) | InsideStage (fd : Z) | UsageError (reason : string).

Definition main (args : list string) : Entry * option Z :=
  match Report.parse args with
  | Report.Version => (PrintedVersion, Some 0%Z)
  | Report.Run spec => (Running spec, None)
  | Report.Inner fd => (InsideStage fd, None)
  | Report.Usage reason => (UsageError reason, Some 2%Z)
  end.

(** ** What the daemon learns *)

Definition whole (k : Forks) : bool := match k_pipe k, k_fork k with None, None => k_setsid k && k_second k | _, _ => false end.

Lemma heard_parted k log replies : whole k = true -> heard k log replies = relayed replies log.
Proof.
  unfold whole, heard, run, detach. destruct (k_pipe k); [done|]. destruct (k_fork k); [done|]. intros [-> ->]%andb_true_iff. reflexivity.
Qed.

(** A system error's text. *)
Definition plain_error (e : option string) : Prop := match e with Some e => ascii_text e /\ ends_solid e = true | None => True end.

Lemma cannot_detach_read e : ascii_text e -> ends_solid e = true ->
  parse_ready (trim ("fail supervisor_spawn_failed: cannot detach: " +:+ e)) = ReadyFail "supervisor_spawn_failed" ("cannot detach: " +:+ e).
Proof.
  intros Ha He. rewrite trim_solid.
  - unfold parse_ready, read_ready. change ("fail supervisor_spawn_failed: cannot detach: " +:+ e)
      with ("fail " +:+ ("supervisor_spawn_failed" +:+ ": " +:+ ("cannot detach: " +:+ e))).
    change (strip_prefix "ok " ("fail " +:+ _)) with (@None string). by rewrite strip_prefix_app, split_once_colon_app.
  - by apply ascii_text_app.
  - done.
  - rewrite ends_solid_app; [done|by destruct e].
Qed.

(** The daemon learns how the start went, whatever failed on the way.  When both
    forks worked it reads what the session answered: nothing is lost in the
    pipe or at the launcher.  When they did not, it reads a failure to spawn;
    then, and when the session dies without a word, the launcher exits 1. *)
Theorem the_daemon_learns_how_it_started k log replies : plain_error (k_pipe k) -> plain_error (k_fork k) ->
  (whole k = true -> heard k log replies = relayed replies log)
  /\ (whole k = false -> exists text, heard k log replies = ReadyFail "supervisor_spawn_failed" text /\ snd (run k log replies) = 1%Z)
  /\ (replies = EmptyString -> snd (run k log replies) = 1%Z).
Proof.
  intros Hp Hf. split; [apply heard_parted|]. split.
  - unfold whole, heard, run, detach. destruct (k_pipe k) as [e|].
    { intros _. eexists. split; [|done]. destruct Hp. by apply cannot_detach_read. }
    destruct (k_fork k) as [e|].
    { intros _. eexists. split; [|done]. destruct Hf. by apply cannot_detach_read. }
    destruct (k_setsid k); [destruct (k_second k); [done|]|]; intros _; eexists; split; vm_compute; reflexivity.
  - intros ->. unfold run, detach. destruct (k_pipe k), (k_fork k); try done. destruct (k_setsid k), (k_second k); reflexivity.
Qed.

(** A pid, and a failure of two lines, as the daemon hears them. *)
Example heard_at_the_end :
  heard (mk_forks None None true true) "/s/supervisor.log" (reply_ok 4321) = ReadyOk 4321
  /\ heard (mk_forks None None true true) "/s/supervisor.log" EmptyString
     = ReadyFail "supervisor_spawn_failed" "the supervisor exited before reporting; its log is /s/supervisor.log"
  /\ heard (mk_forks None (Some "Resource temporarily unavailable") true true) "/s/supervisor.log" EmptyString
     = ReadyFail "supervisor_spawn_failed" "cannot detach: Resource temporarily unavailable".
Proof. repeat split; vm_compute; reflexivity. Qed.
