(* ===== verification/Attach.v ===== *)
(** * Attaching to a session

    Models crates/willie-proto/src/hostterm.rs (the dialect of the desktop
    application's embedded terminals), crates/willie-engine/src/embed.rs (one
    bridge per session) and crates/willie-cli/src/attach.rs: the two input loops
    and the output loop of [willie attach].  A read is what it answers; the n-th
    write on the socket succeeds or not as an argument says.  A byte is a [Z]. *)

From S2P Require Import Prelude Text Wire Supervisor.

Local Open Scope Z_scope.
Local Open Scope list_scope.

(** ** The host dialect *)

Definition TAG_INPUT : Z := 105.
Definition TAG_RESIZE : Z := 114.

Inductive HostFrame : Type :=
| Input (bytes : list Z)
| Resize (rows cols : Z).

(** [u32::to_be_bytes] and [u32::from_be_bytes]. *)
Definition be_u32 (n : Z) : list Z := [n / 16777216; n / 65536 mod 256; n / 256 mod 256; n mod 256].

Definition of_be_u32 (a b c d : Z) : Z := ((a * 256 + b) * 256 + c) * 256 + d.

Definition u32_len (l : list Z) : Z :=
  let n := Z.of_nat (length l) in if n <=? u32_max then n else u32_max.

Definition encode_input (bytes : list Z) : list Z := TAG_INPUT :: be_u32 (u32_len bytes) ++ bytes.

Definition encode_resize (rows cols : Z) : list Z := TAG_RESIZE :: to_be_bytes rows ++ to_be_bytes cols.

(** A frame with the bytes it took, nothing yet, or an unknown tag. *)
Definition decode_frame (buf : list Z) : result (option (HostFrame * nat)) Z :=
  match buf with
  | [] => Ok None
  | tag :: rest =>
      if tag =? TAG_INPUT then
        match rest with
        | a :: b :: c :: d :: body =>
            let len := Z.to_nat (of_be_u32 a b c d) in
            if (length body <? len)%nat then Ok None else Ok (Some (Input (take len body), (5 + len)%nat))
        | _ => Ok None
        end
      else if tag =? TAG_RESIZE then
        match rest with
        | a :: b :: c :: d :: _ => Ok (Some (Resize (from_be_bytes a b) (from_be_bytes c d), 5%nat))
        | _ => Ok None
        end
      else Err tag
  end.

(** ** The bridges of the application

    A bridge is the child it holds: what was written to it. *)

Section bridges.
  Context {Id : Type} `{Countable Id}.

Record Bridges : Type := mk_bridges { open_ : gmap Id nat; written : gmap nat (list (list Z)); closed_ : list nat }.

Definition no_bridges : Bridges := mk_bridges ∅ ∅ [].

Definition close_bridge (b : nat) (s : Bridges) : Bridges := mk_bridges (open_ s) (written s) (closed_ s ++ [b]).

Definition remove (id : Id) (s : Bridges) : Bridges :=
  match open_ s !! id with
  | Some b => close_bridge b (mk_bridges (delete id (open_ s)) (written s) (closed_ s))
  | None => s
  end.

Definition insert_bridge (id : Id) (b : nat) (s : Bridges) : Bridges :=
  let s := remove id s in mk_bridges (<[id := b]> (open_ s)) (<[b := []]> (written s)) (closed_ s).

(** Whether there was one to write to. *)
Definition write (id : Id) (frame : list Z) (s : Bridges) : Bridges * bool :=
  match open_ s !! id with
  | Some b => (mk_bridges (open_ s) (<[b := default [] (written s !! b) ++ [frame]]> (written s)) (closed_ s), true)
  | None => (s, false)
  end.

Definition close_all (s : Bridges) : Bridges :=
  mk_bridges ∅ (written s) (closed_ s ++ map snd (map_to_list (open_ s))).

(** The operations of the engine: the child opened is a new one. *)
Inductive BridgeOp : Type :=
| OpOpen (id : Id) (spawned : bool)
| OpInput (id : Id) (data : list Z)
| OpResize (id : Id) (rows cols : Z)
| OpClose (id : Id)
| OpCloseAll.

Definition bridge_step (op : BridgeOp) (next : nat) (s : Bridges) : nat * Bridges :=
  match op with
  | OpOpen id true => (S next, insert_bridge id next s)
  | OpOpen id false => (next, s)
  | OpInput id data => (next, fst (write id (encode_input data) s))
  | OpResize id rows cols => (next, fst (write id (encode_resize rows cols) s))
  | OpClose id => (next, remove id s)
  | OpCloseAll => (next, close_all s)
  end.

Fixpoint bridge_run (ops : list BridgeOp) (next : nat) (s : Bridges) : nat * Bridges :=
  match ops with
  | [] => (next, s)
  | op :: ops => let '(next, s) := bridge_step op next s in bridge_run ops next s
  end.
End bridges.

(** ** The client's sides *)

Definition DETACH_KEY : Z := 29.

(** A read of standard input; and how a loop stands: it has ended with a code,
    or waits for the next read. *)
Inductive Read : Type :=
| Bytes (chunk : list Z)
| Eof
| Interrupted
| ReadFailed.

Inductive Stand : Type :=
| Left (code : Z)
| Waiting.

(** What was written to the supervisor, and whether the user is leaving. *)
Record Out : Type := mk_out { sent : list (list Z); leaving : bool }.

Definition out_new : Out := mk_out [] false.

Section client.
  (** Whether the n-th write succeeds; the size of the terminal before the
      n-th read, when the window changed. *)
  Context (ok : nat -> bool) (resized : nat -> option (option (Z * Z))).

Definition send (bytes : list Z) (o : Out) : Out * bool :=
  (mk_out (sent o ++ [bytes]) (leaving o), ok (length (sent o))).

(** [for part in parts { if write is err { return } }]. *)
Fixpoint send_parts (kind : Z) (parts : list (list Z)) (o : Out) : Out * bool :=
  match parts with
  | [] => (o, true)
  | p :: parts =>
      let '(o, w) := send (encode kind p) o in
      if (w : bool) then send_parts kind parts o else (o, false)
  end.

(** [chunks] of a slice: none of an empty one. *)
Definition parts_of (bytes : list Z) : list (list Z) := slice_chunks (length bytes) MAX_PAYLOAD bytes.

(** Detaching is announced before the frame goes out. *)
Definition leave (o : Out) : Out := fst (send (encode DETACH []) (mk_out (sent o) true)).

(** *** The host's frames *)

Definition forward (f : HostFrame) (o : Out) : Out * bool :=
  match f with
  | Input bytes => send_parts INPUT (parts_of bytes) o
  | Resize rows cols => send (Wire.encode_resize rows cols) o
  end.

(** The inner loop; a frame takes at least five bytes. *)
Fixpoint host_frames (fuel : nat) (buf : list Z) (o : Out) : list Z * Out * option Z :=
  match fuel with
  | O => (buf, o, None)
  | S fuel =>
      match decode_frame buf with
      | Ok (Some (f, used)) =>
          let '(o, w) := forward f o in
          if (w : bool) then host_frames fuel (drop used buf) o else (drop used buf, o, Some 1)
      | Ok None => (buf, o, None)
      | Err _ => (buf, o, Some 1)
      end
  end.

Fixpoint host_input_loop (reads : list Read) (buf : list Z) (o : Out) : Stand * Out :=
  match reads with
  | [] => (Waiting, o)
  | Eof :: _ => (Left 0, leave o)
  | Interrupted :: reads => host_input_loop reads buf o
  | ReadFailed :: _ => (Left 1, o)
  | Bytes chunk :: reads =>
      let buf := buf ++ chunk in
      let '(buf, o, code) := host_frames (S (length buf)) buf o in
      match code with
      | Some c => (Left c, o)
      | None => host_input_loop reads buf o
      end
  end.

(** *** Keystrokes *)

Definition send_keys (chunk : list Z) (o : Out) : Out * option Z :=
  match position (fun b => b =? DETACH_KEY) chunk with
  | Some at_ =>
      let '(o, w) := if (0 <? at_)%nat then send (encode INPUT (take at_ chunk)) o else (o, true) in
      if (w : bool) then (leave o, Some 0) else (o, Some 1)
  | None =>
      let '(o, w) := send_parts INPUT (parts_of chunk) o in
      (o, if (w : bool) then None else Some 1)
  end.

(** A changed window is told first; [n] counts the reads. *)
Definition tell_size (fixed : bool) (n : nat) (o : Out) : Out * bool :=
  match resized n with
  | Some (Some (rows, cols)) => if negb fixed then send (Wire.encode_resize rows cols) o else (o, true)
  | _ => (o, true)
  end.

Fixpoint input_loop (fixed : bool) (reads : list Read) (n : nat) (o : Out) : Stand * Out :=
  let '(o, w) := tell_size fixed n o in
  if (w : bool) then
    match reads with
    | [] => (Waiting, o)
    | Eof :: _ => (Left 0, leave o)
    | Interrupted :: reads => input_loop fixed reads (S n) o
    | ReadFailed :: _ => (Left 1, o)
    | Bytes chunk :: reads =>
        let '(o, code) := send_keys chunk o in
        match code with
        | Some c => (Left c, o)
        | None => input_loop fixed reads (S n) o
        end
    end
  else (Left 1, o).

End client.

(** *** The supervisor's words *)

Definition describe (closed : option Closed) : string * Z :=
  match closed with
  | None => ("willie: session ended"%string, 1)
  | Some c =>
      match reason c with
      | CExited =>
          match closed_code c, closed_signal c with
          | Some code, _ =>
              if code =? 0 then ("willie: session ended"%string, 0)
              else (("willie: session exited with code " +:+ pretty code)%string, 1)
          | None, Some signal => (("willie: session ended by signal " +:+ pretty signal)%string, 1)
          | None, None => ("willie: session ended"%string, 1)
          end
      | CStopped => ("willie: session stopped"%string, 0)
      | CShutdown => ("willie: supervisor shutting down"%string, 0)
      | CTooSlow => ("willie: connection too slow, reattach with the same command"%string, 1)
      | CProtocol => ("willie: the supervisor refused this client"%string, 1)
      end
  end.

(** How the process ends: its last line and exit code. *)
Definition Finish : Type := string * Z.

Section output.
  Context (closed_of : list Z -> option Closed) (writes : nat -> bool).

(** The frames of one read, written until one ends the client. *)
Fixpoint show_frames (fs : list Frame) (shown : list (list Z)) : list (list Z) * option Finish :=
  match fs with
  | [] => (shown, None)
  | f :: fs =>
      if Wire.kind f =? OUTPUT then
        if writes (length shown) then show_frames fs (shown ++ [payload f])
        else (shown ++ [payload f], Some ("willie: cannot write to the terminal"%string, 1))
      else if Wire.kind f =? CLOSED then (shown, Some (describe (closed_of (payload f))))
      else show_frames fs shown
  end.

Definition lost (leaving : bool) : Finish :=
  if leaving then ("willie: detached, the session keeps running"%string, 0)
  else ("willie: connection to the session lost"%string, 1).

(** An end of the stream or an error of the socket, with [leaving] as it is
    then. *)
Fixpoint output_loop (reads : list Read) (leaving : bool) (buf : list Z) (shown : list (list Z)) :
    list (list Z) * option Finish :=
  match reads with
  | [] => (shown, None)
  | Interrupted :: reads => output_loop reads leaving buf shown
  | Eof :: _ | ReadFailed :: _ => (shown, Some (lost leaving))
  | Bytes chunk :: reads =>
      let '(fs, buf) := pop_all (push buf chunk) in
      match show_frames fs shown with
      | (shown, Some e) => (shown, Some e)
      | (shown, None) => output_loop reads leaving buf shown
      end
  end.
End output.

(** ** The host dialect reads back *)

Definition encode_host (f : HostFrame) : list Z :=
  match f with Input bytes => encode_input bytes | Resize rows cols => encode_resize rows cols end.

(** What the types allow, and slices of at most four gigabytes. *)
Definition wf_host (f : HostFrame) : Prop :=
  match f with
  | Input bytes => Z.of_nat (length bytes) <= u32_max
  | Resize rows cols => 0 <= rows <= u16_max /\ 0 <= cols <= u16_max
  end.

Lemma be_u32_roundtrip n : 0 <= n <= u32_max ->
  of_be_u32 (n / 16777216) (n / 65536 mod 256) (n / 256 mod 256) (n mod 256) = n.
Proof. unfold of_be_u32. intros. lia_div. Qed.

Lemma u32_len_fits bytes : Z.of_nat (length bytes) <= u32_max -> u32_len bytes = Z.of_nat (length bytes).
Proof. unfold u32_len. intros H. by destruct (Z.leb_spec (Z.of_nat (length bytes)) u32_max); [|lia]. Qed.

Lemma decode_encode f rest : wf_host f -> decode_frame (encode_host f ++ rest) = Ok (Some (f, length (encode_host f))).
Proof.
  destruct f as [bytes|rows cols]; intros Hf; cbn in Hf.
  - unfold encode_host, encode_input, be_u32. rewrite u32_len_fits by done. cbn [app decode_frame].
    rewrite Z.eqb_refl, be_u32_roundtrip, Nat2Z.id by (unfold u32_max in *; lia).
    rewrite length_app. destruct (Nat.ltb_spec (length bytes + length rest) (length bytes)); [lia|].
    rewrite take_app_length. do 3 f_equal.
  - cbn. by rewrite !be_bytes_roundtrip.
Qed.

Lemma encode_host_long f : (5 <= length (encode_host f))%nat.
Proof. destruct f; cbn; lia. Qed.

(** A frame that is not whole yet is waited for. *)
Lemma decode_short f buf more : wf_host f -> encode_host f = buf ++ more -> more <> [] -> decode_frame buf = Ok None.
Proof.
  intros Hf He Hm. destruct buf as [|t buf]; [done|]. destruct f as [bytes|rows cols]; cbn in He.
  - injection He as <- He. cbn [decode_frame]. rewrite Z.eqb_refl.
    destruct buf as [|a [|b [|c [|d body]]]]; try done. cbn [app] in He. injection He as <- <- <- <- He. rewrite u32_len_fits by done.
    rewrite be_u32_roundtrip, Nat2Z.id by (cbn in Hf; unfold u32_max in *; lia).
    apply (f_equal (@length Z)) in He. rewrite length_app in He. destruct more; [done|]. cbn [length] in He.
    destruct (Nat.ltb_spec (length body) (length bytes)); [done|lia].
  - injection He as <- He. cbn. unfold to_be_bytes in He. cbn in He.
    destruct buf as [|a [|b [|c [|d body]]]]; try done. exfalso. apply (f_equal (@length Z)) in He. cbn in He.
    rewrite length_app in He. destruct more; [done|]. cbn in He. lia.
Qed.

Definition forwarded (f : HostFrame) : list (list Z) :=
  match f with
  | Input bytes => map (encode INPUT) (parts_of bytes)
  | Resize rows cols => [Wire.encode_resize rows cols]
  end.

(** Everything is written. *)
Definition all_ok (n : nat) : bool := true.

Lemma send_parts_ok kind parts : forall o, send_parts all_ok kind parts o = (mk_out (sent o ++ map (encode kind) parts) (leaving o), true).
Proof.
  induction parts as [|p parts IH]; intros [s l]; cbn [send_parts map]; [by rewrite app_nil_r|]. unfold send. cbn [sent leaving].
  rewrite IH. cbn. by rewrite <- app_assoc.
Qed.

Lemma forward_ok f o : forward all_ok f o = (mk_out (sent o ++ forwarded f) (leaving o), true).
Proof. destruct f; [apply send_parts_ok|done]. Qed.

Lemma host_frames_ok fs : forall fuel buf rest o, Forall wf_host fs -> (length buf < fuel)%nat ->
  buf ++ rest = concat (map encode_host fs) ->
  exists fs1 fs2 buf', fs = fs1 ++ fs2 /\ buf' ++ rest = concat (map encode_host fs2) /\ decode_frame buf' = Ok None /\
    host_frames all_ok fuel buf o = (buf', mk_out (sent o ++ concat (map forwarded fs1)) (leaving o), None).
Proof.
  induction fs as [|f fs IH]; intros fuel buf rest o Hw Hfuel Hb; (destruct fuel as [|fuel]; [lia|]).
  - apply app_nil in Hb as [-> ->]. exists [], [], []. cbn. rewrite app_nil_r. by destruct o.
  - inversion Hw as [|? ? Hf Hfs]; subst. cbn [map concat] in Hb.
    destruct (decide (length (encode_host f) <= length buf)%nat) as [Hle|Hlt].
    + assert (exists b, buf = encode_host f ++ b) as [b ->].
      { exists (drop (length (encode_host f)) buf). rewrite <- (take_drop (length (encode_host f)) buf) at 1. f_equal.
        rewrite <- (take_app_le buf rest) by done. by rewrite Hb, take_app_length. }
      rewrite <- app_assoc in Hb. apply app_inv_head in Hb. cbn [host_frames].
      rewrite decode_encode, forward_ok, drop_app_length by done.
      destruct (IH fuel b rest (mk_out (sent o ++ forwarded f) (leaving o))) as (fs1 & fs2 & buf' & -> & Hb' & Hd & Hr);
        [done|rewrite length_app in Hfuel; pose proof (encode_host_long f); lia|done|].
      exists (f :: fs1), fs2, buf'. split; [done|]. split; [done|]. split; [done|]. rewrite Hr. cbn. by rewrite <- app_assoc.
    + assert (exists x, encode_host f = buf ++ x /\ x <> []) as (x & Hx & Hne).
      { exists (drop (length buf) (encode_host f)). split.
        - rewrite <- (take_drop (length buf) (encode_host f)) at 1. f_equal.
          rewrite <- (take_app_le (encode_host f) (concat (map encode_host fs))) by lia. by rewrite <- Hb, take_app_length.
        - intros He. apply (f_equal length) in He. rewrite length_drop in He. cbn in He. lia. }
      exists [], (f :: fs), buf. cbn [host_frames]. rewrite (decode_short f buf x) by done.
      split; [done|]. split; [done|]. split; [done|]. cbn. rewrite app_nil_r. by destruct o.
Qed.

Definition read_bytes (r : Read) : list Z := match r with Bytes c => c | _ => [] end.
Definition is_input (r : Read) : Prop := match r with Bytes _ | Interrupted => True | _ => False end.

Lemma host_loop_ok reads : forall fs buf o, Forall wf_host fs -> Forall is_input reads -> decode_frame buf = Ok None ->
  buf ++ concat (map read_bytes reads) = concat (map encode_host fs) ->
  host_input_loop all_ok (reads ++ [Eof]) buf o = (Left 0, mk_out ((sent o ++ concat (map forwarded fs)) ++ [encode DETACH []]) true).
Proof.
  induction reads as [|r reads IH]; intros fs buf o Hw Hr Hd Hb; cbn [app host_input_loop].
  - cbn in Hb. rewrite app_nil_r in Hb. destruct fs as [|f fs].
    + cbn. rewrite app_nil_r. done.
    + exfalso. subst buf. inversion Hw; subst. cbn [map concat] in Hd. by rewrite decode_encode in Hd.
  - inversion Hr as [|? ? Hi Hr']; subst. destruct r as [chunk| | |]; try done; [|by apply IH].
    cbn [map concat read_bytes] in Hb. rewrite app_assoc in Hb.
    destruct (host_frames_ok fs (S (length (buf ++ chunk))) (buf ++ chunk) (concat (map read_bytes reads)) o) as (fs1 & fs2 & buf' & -> & Hb' & Hd' & ->);
      [done|lia|done|]. apply Forall_app in Hw as [_ Hw]. rewrite (IH fs2) by done. cbn [sent].
    by rewrite map_app, concat_app, app_assoc.
Qed.

(** ** What the supervisor reads *)

Definition wire_frames (f : HostFrame) : list Frame :=
  match f with
  | Input bytes => map (mk_frame INPUT) (parts_of bytes)
  | Resize rows cols => [mk_frame RESIZE (to_be_bytes rows ++ to_be_bytes cols)]
  end.

Lemma parts_fit bytes : concat (parts_of bytes) = bytes /\ Forall (fun p => (0 < length p <= MAX_PAYLOAD)%nat) (parts_of bytes).
Proof. apply slice_chunks_spec; [unfold MAX_PAYLOAD, u16_max; lia|done]. Qed.

Lemma forwarded_frames f : concat (forwarded f) = concat (map encode_frame (wire_frames f)) /\ Forall wf_frame (wire_frames f).
Proof.
  destruct f as [bytes|rows cols]; cbn [forwarded wire_frames].
  - rewrite map_map. split; [done|]. apply Forall_map. destruct (parts_fit bytes) as [_ H]. eapply Forall_impl; [exact H|].
    intros p Hp. split; [split; done|apply Hp].
  - split; [done|]. apply Forall_singleton. by apply short_frame.
Qed.

(** The bytes a session is typed, and the sizes it is told. *)
Definition typed (fs : list Frame) : list Z := concat (map payload (List.filter (fun f => Wire.kind f =? INPUT) fs)).

Definition sizes_told (fs : list Frame) : list (option (Z * Z)) :=
  map (fun f => decode_resize (payload f)) (List.filter (fun f => Wire.kind f =? RESIZE) fs).

Definition host_typed (f : HostFrame) : list Z := match f with Input bytes => bytes | _ => [] end.
Definition host_size (f : HostFrame) : list (option (Z * Z)) := match f with Resize rows cols => [Some (rows, cols)] | _ => [] end.

Lemma wire_frames_mean f : typed (wire_frames f) = host_typed f /\ sizes_told (wire_frames f) = host_size f.
Proof.
  destruct f as [bytes|rows cols]; cbn [wire_frames host_typed host_size].
  - unfold typed, sizes_told. destruct (parts_fit bytes) as [Hc _]. rewrite <- Hc at 2. clear Hc. induction (parts_of bytes) as [|p ps IH]; [done|].
    cbn in *. by rewrite (proj1 IH), (proj2 IH).
  - cbn. by rewrite !be_bytes_roundtrip.
Qed.

Lemma typed_app a b : typed (a ++ b) = typed a ++ typed b.
Proof. unfold typed. by rewrite List.filter_app, map_app, concat_app. Qed.

Lemma sizes_told_app a b : sizes_told (a ++ b) = sizes_told a ++ sizes_told b.
Proof. unfold sizes_told. by rewrite List.filter_app, map_app. Qed.

Lemma frames_mean fs : typed (concat (map wire_frames fs)) = concat (map host_typed fs)
  /\ sizes_told (concat (map wire_frames fs)) = concat (map host_size fs).
Proof.
  induction fs as [|f fs [IH1 IH2]]; [done|]. cbn [map concat]. rewrite typed_app, sizes_told_app, IH1, IH2.
  by destruct (wire_frames_mean f) as [-> ->].
Qed.

Lemma forwarded_all fs : concat (concat (map forwarded fs)) = concat (map encode_frame (concat (map wire_frames fs)))
  /\ Forall wf_frame (concat (map wire_frames fs)).
Proof.
  induction fs as [|f fs [IH1 IH2]]; [done|]. cbn [map concat]. destruct (forwarded_frames f) as [H1 H2].
  rewrite map_app, !concat_app, H1, IH1. split; [done|]. by apply Forall_app.
Qed.

(** What is typed into an embedded terminal and the sizes it is given
    reach the session's supervisor exactly and in order: however the standard
    input of [willie attach --host] is cut and interrupted, and however the
    socket's stream is cut again, the supervisor decodes just these bytes and
    sizes and then one detach; the client leaves with code 0 and has said so
    before. *)
Theorem an_embedded_terminal_reaches_its_session fs reads cuts :
  Forall wf_host fs -> Forall is_input reads -> concat (map read_bytes reads) = concat (map encode_host fs) ->
  let '(stand, o) := host_input_loop all_ok (reads ++ [Eof]) [] out_new in
  stand = Left 0 /\ leaving o = true /\
  (concat cuts = concat (sent o) -> exists frames, receive [] cuts = (frames ++ [mk_frame DETACH []], [])
    /\ typed frames = concat (map host_typed fs) /\ sizes_told frames = concat (map host_size fs)).
Proof.
  intros Hw Hr Hb. rewrite (host_loop_ok reads fs) by done. split; [done|]. split; [done|]. intros Hc. cbn [sent out_new app] in Hc.
  exists (concat (map wire_frames fs)). destruct (frames_mean fs) as [-> ->]. split; [|done].
  destruct (forwarded_all fs) as [Hf Hwf]. rewrite receive_concat, Hc by done. cbn [app]. rewrite concat_app, Hf. cbn [concat].
  rewrite app_nil_r. rewrite <- (app_nil_r (encode DETACH [])).
  replace (concat (map encode_frame (concat (map wire_frames fs))) ++ encode DETACH [] ++ [])
    with (concat (map encode_frame (concat (map wire_frames fs) ++ [mk_frame DETACH []])) ++ [])
    by (rewrite map_app, concat_app, <- app_assoc; done).
  apply pop_all_frames; [|done]. apply Forall_app. split; [done|]. apply Forall_singleton. by apply short_frame.
Qed.

(** ** Keystrokes *)

(** What standard input says before it ends, and how it ends. *)
Fixpoint heard (reads : list Read) : list Z * Stand :=
  match reads with
  | [] => ([], Waiting)
  | Eof :: _ => ([], Left 0)
  | ReadFailed :: _ => ([], Left 1)
  | Interrupted :: reads => heard reads
  | Bytes chunk :: reads => (chunk ++ fst (heard reads), snd (heard reads))
  end.

Definition is_key (b : Z) : bool := negb (b =? DETACH_KEY).

Definition spells (frames : list Frame) (o : Out) : Prop :=
  concat (sent o) = concat (map encode_frame frames) /\ Forall wf_frame frames.

Lemma spells_app frames o more out : spells frames o -> concat more = concat (map encode_frame out) -> Forall wf_frame out ->
  forall l, spells (frames ++ out) (mk_out (sent o ++ more) l).
Proof.
  intros [Hs Hw] Hm Ho l. split; cbn [sent]; [by rewrite map_app, !concat_app, Hs, Hm|by apply Forall_app].
Qed.

Lemma take_while_position {A} (p : A -> bool) l : match position (fun b => negb (p b)) l with
  | Some n => take_while p l = take n l
  | None => take_while p l = l /\ Forall (fun b => p b = true) l
  end.
Proof.
  induction l as [|x l IH]; cbn; [done|]. destruct (p x) eqn:E; cbn; [|done].
  destruct (position _ l) as [n|]; cbn in *; [by rewrite IH|]. destruct IH as [-> IH]. by split; [|constructor].
Qed.

Lemma take_while_app_stop {A} (p : A -> bool) a b : forall n, position (fun x => negb (p x)) a = Some n -> take_while p (a ++ b) = take_while p a.
Proof.
  induction a as [|x a IH]; intros n; cbn; [done|]. destruct (p x); cbn; [|done].
  destruct (position _ a) as [m|] eqn:E; [|done]. intros _. by rewrite (IH m).
Qed.

Lemma take_while_app_go {A} (p : A -> bool) a b : Forall (fun x => p x = true) a -> take_while p (a ++ b) = a ++ take_while p b.
Proof. induction 1 as [|x a Hx _ IH]; [done|]. cbn. by rewrite Hx, IH. Qed.

Lemma position_ext {A} (p q : A -> bool) l : (forall x, p x = q x) -> position p l = position q l.
Proof. intros H. induction l as [|x l IH]; [done|]. cbn. by rewrite H, IH. Qed.

Definition detached (frames : list Frame) : bool := existsb (fun f => Wire.kind f =? DETACH) frames.

(** A detach at the end and nowhere before. *)
Definition ends_detached (frames : list Frame) : Prop := exists pre, frames = pre ++ [mk_frame DETACH []] /\ detached pre = false.

Lemma ends_detached_app a b : detached a = false -> ends_detached b -> ends_detached (a ++ b).
Proof.
  intros Ha (pre & -> & Hp). exists (a ++ pre). split; [by rewrite app_assoc|]. unfold detached in *. by rewrite existsb_app, Ha, Hp.
Qed.

Lemma tell_size_ok resized fixed n o frames : spells frames o ->
  exists told, tell_size all_ok resized fixed n o = (mk_out (sent o ++ map encode_frame told) (leaving o), true)
    /\ spells (frames ++ told) (mk_out (sent o ++ map encode_frame told) (leaving o)) /\ typed told = [] /\ detached told = false.
Proof.
  intros H. unfold tell_size. destruct (resized n) as [[[rows cols]|]|]; [destruct fixed; cbn [negb]| |].
  2: { exists [mk_frame RESIZE (to_be_bytes rows ++ to_be_bytes cols)]. split; [done|].
       split; [apply spells_app; [done|done|]; apply Forall_singleton; by apply short_frame|done]. }
  all: exists []; cbn; rewrite !app_nil_r; by destruct o.
Qed.

(** A read fills a buffer of eight kilobytes at most. *)
Definition READ_BUF : nat := Z.to_nat 8192.
Definition fits (r : Read) : Prop := (length (read_bytes r) <= READ_BUF)%nat.

Lemma position_lt {A} (p : A -> bool) l n : position p l = Some n -> (n < length l)%nat.
Proof.
  revert n. induction l as [|x l IH]; intros n; cbn; [done|]. destruct (p x); [intros [= <-]; lia|].
  destruct (position p l) as [m|]; [|done]. intros [= <-]. specialize (IH m eq_refl). lia.
Qed.

Lemma parts_frames bytes : let keys := map (mk_frame INPUT) (parts_of bytes) in
  map (encode INPUT) (parts_of bytes) = map encode_frame keys /\ Forall wf_frame keys /\ typed keys = bytes /\ detached keys = false.
Proof.
  cbv zeta. destruct (forwarded_frames (Input bytes)) as [_ Hw], (wire_frames_mean (Input bytes)) as [Ht _].
  split; [by rewrite map_map|]. split; [done|]. split; [done|]. by induction (parts_of bytes).
Qed.

Lemma send_keys_ok chunk o frames : spells frames o -> (length chunk <= READ_BUF)%nat -> exists keys,
  let '(o', code) := send_keys all_ok chunk o in
  spells (frames ++ keys) o' /\ typed keys = take_while is_key chunk /\
  match position (fun b => b =? DETACH_KEY) chunk with
  | Some _ => code = Some 0 /\ leaving o' = true /\ ends_detached keys
  | None => code = None /\ leaving o' = leaving o /\ detached keys = false
  end.
Proof.
  intros Hs Hl. unfold send_keys.
  pose proof (take_while_position is_key chunk) as Htw.
  rewrite (position_ext (fun b => negb (is_key b)) (fun b => b =? DETACH_KEY)) in Htw by (intros; apply negb_involutive).
  destruct (position _ chunk) as [n|] eqn:En.
  - apply position_lt in En. rewrite Htw. set (d := mk_frame DETACH []).
    assert (wf_frame d) as Hd by by apply short_frame.
    destruct (Nat.ltb_spec 0 n) as [Hn|Hn].
    + exists [mk_frame INPUT (take n chunk); d]. unfold leave, send. cbn [sent leaving fst all_ok]. rewrite <- app_assoc. split.
      * apply spells_app; [done|done|]. constructor; [|by apply Forall_singleton]. split; [split; done|]. cbn.
        rewrite length_take. unfold READ_BUF, MAX_PAYLOAD, u16_max in *. lia.
      * split; [cbn; by rewrite app_nil_r|]. split; [done|]. split; [done|]. by exists [mk_frame INPUT (take n chunk)].
    + replace n with 0%nat by lia. exists [d]. unfold leave, send. cbn [sent leaving fst].
      split; [apply spells_app; [done|done|by apply Forall_singleton]|]. split; [done|]. split; [done|]. split; [done|]. by exists [].
  - rewrite send_parts_ok. destruct (parts_frames chunk) as (He & Hw & Ht & Hd), Htw as [Htw _].
    exists (map (mk_frame INPUT) (parts_of chunk)). rewrite Ht, Htw. split; [|done]. apply spells_app; [done|by rewrite He|done].
Qed.

Definition key_end (reads : list Read) : Stand :=
  if bool_decide (DETACH_KEY ∈ fst (heard reads)) then Left 0 else snd (heard reads).

Lemma key_end_go chunk reads : Forall (fun b => is_key b = true) chunk ->
  take_while is_key (chunk ++ fst (heard reads)) = chunk ++ take_while is_key (fst (heard reads)) /\
  key_end (Bytes chunk :: reads) = key_end reads.
Proof.
  intros H. split; [by apply take_while_app_go|]. unfold key_end. cbn [heard fst snd].
  assert (DETACH_KEY ∉ chunk) by (intros Hi; rewrite Forall_forall in H; by apply H in Hi).
  destruct (bool_decide_reflect (DETACH_KEY ∈ fst (heard reads))) as [Hd|Hd];
    [rewrite bool_decide_eq_true_2 by (apply elem_of_app; by right)|rewrite bool_decide_eq_false_2 by (rewrite elem_of_app; tauto)]; done.
Qed.

Lemma position_none {A} (p : A -> bool) l : position p l = None -> Forall (fun x => p x = false) l.
Proof. induction l as [|x l IH]; cbn; [constructor|]. destruct (p x) eqn:E; [done|]. destruct (position p l); [done|]. constructor; auto. Qed.

Lemma position_found {A} (p : A -> bool) l n : position p l = Some n -> exists x, x ∈ l /\ p x = true.
Proof.
  revert n. induction l as [|x l IH]; intros n; cbn; [done|]. destruct (p x) eqn:E; [intros _; exists x; split; [in_list|done]|].
  destruct (position p l) as [m|]; [|done]. intros _. destruct (IH m eq_refl) as (y & Hy & Hp). exists y. split; [by right|done].
Qed.

Lemma input_loop_ok resized fixed reads : forall n o frames, Forall fits reads -> spells frames o -> leaving o = false ->
  exists more, let '(stand, o') := input_loop all_ok resized fixed reads n o in
  spells (frames ++ more) o' /\ typed more = take_while is_key (fst (heard reads)) /\ stand = key_end reads
  /\ (stand = Left 0 <-> leaving o' = true) /\ (stand = Left 0 -> ends_detached more).
Proof.
  induction reads as [|r reads IH]; intros n o frames Hf Hs Hl; cbn [input_loop];
    destruct (tell_size_ok resized fixed n o frames Hs) as (told & -> & Hst & Ht & Hdt).
  - exists told. rewrite Ht. cbn [leaving]. rewrite Hl. done.
  - inversion Hf as [|? ? Hr Hf']; subst. set (o1 := mk_out _ _) in *. destruct r as [chunk| | |].
    + destruct (send_keys_ok chunk o1 (frames ++ told) Hst Hr) as (keys & Hk). destruct (send_keys all_ok chunk o1) as [o2 code].
      destruct Hk as (Hs2 & Htk & Hcode). rewrite <- app_assoc in Hs2.
      destruct (position _ chunk) as [at_|] eqn:Ep.
      * destruct Hcode as (-> & Hlv & Hlast). exists (told ++ keys). split; [done|]. rewrite typed_app, Ht, Htk. cbn [app heard fst].
        split; [by erewrite take_while_app_stop by (erewrite position_ext; [exact Ep|intros; apply negb_involutive])|].
        apply position_found in Ep as (x & Hx & ->%Z.eqb_eq). split.
        { unfold key_end. cbn [heard fst]. by rewrite bool_decide_eq_true_2 by (apply elem_of_app; by left). }
        split; [done|]. intros _. by apply ends_detached_app.
      * destruct Hcode as (-> & Hlv & Hdk). destruct (IH (S n) o2 (frames ++ told ++ keys)) as (more & Hm); [done|done|by rewrite Hlv|].
        exists (told ++ keys ++ more). destruct (input_loop _ _ _ _ _ o2) as [stand o3]. destruct Hm as (Hs3 & Htm & Hst3 & Hiff & Hlast).
        apply position_none in Ep. assert (Hall : Forall (fun b => is_key b = true) chunk).
        { eapply Forall_impl; [exact Ep|]. intros b Hb. unfold is_key. by rewrite Hb. }
        destruct (key_end_go chunk reads Hall) as [Hg ->]. cbn [heard fst]. rewrite Hg, !typed_app, Ht, Htk, Htm.
        rewrite !app_assoc in *. split; [done|]. split; [by rewrite take_while_all|]. split; [done|]. split; [done|].
        intros H. rewrite <- app_assoc. by do 2 (apply ends_detached_app; [done|]); apply Hlast.
    + set (d := mk_frame DETACH []). exists (told ++ [d]). unfold leave, send. cbn [sent leaving fst]. rewrite app_assoc. split.
      * apply (spells_app (frames ++ told) o1 [encode DETACH []] [d]); [done|done|]. apply Forall_singleton. by apply short_frame.
      * rewrite typed_app, Ht. split; [done|]. split; [done|]. split; [done|]. intros _. by exists told.
    + destruct (IH (S n) o1 (frames ++ told)) as (more & Hm); [done|done|done|]. exists (told ++ more).
      destruct (input_loop _ _ _ _ _ o1) as [stand o3]. destruct Hm as (Hs3 & Htm & Hst3 & Hiff & Hlast).
      rewrite app_assoc, typed_app, Ht, Htm. split; [done|]. split; [done|]. split; [done|]. split; [done|].
      intros H. by apply ends_detached_app; [|apply Hlast].
    + exists told. rewrite Ht. split; [done|]. subst o1. cbn [leaving]. rewrite Hl. done.
Qed.

(** Whatever is typed, however the reads cut it and wherever they are
    interrupted or the window changes, the session is typed exactly the bytes
    before the first detach key, and the client leaves with code 0, its last
    frame a detach, exactly when that key was typed or standard input ended;
    otherwise it still waits, or failed with 1. *)
Theorem keys_reach_the_session resized fixed reads : Forall fits reads ->
  let '(stand, o) := input_loop all_ok resized fixed reads 0 out_new in
  exists frames, spells frames o /\ typed frames = take_while is_key (fst (heard reads))
    /\ stand = key_end reads
    /\ (stand = Left 0 <-> leaving o = true) /\ (stand = Left 0 -> last frames = Some (mk_frame DETACH [])).
Proof.
  intros Hf. destruct (input_loop_ok resized fixed reads 0 out_new []) as (frames & H); [done|by split|done|].
  destruct (input_loop _ _ _ _ _ _) as [stand o]. exists frames. destruct H as (H1 & H2 & H3 & H4 & H5). split; [done|].
  split; [done|]. split; [done|]. split; [done|]. intros H. destruct (H5 H) as (pre & -> & _). by rewrite last_snoc.
Qed.

(** *** What the supervisor says *)

(** The output up to the first closing frame, and that frame. *)
Fixpoint until_closed (fs : list Frame) : list (list Z) * option (list Z) :=
  match fs with
  | [] => ([], None)
  | f :: fs =>
      if Wire.kind f =? OUTPUT then let '(l, c) := until_closed fs in (payload f :: l, c)
      else if Wire.kind f =? CLOSED then ([], Some (payload f))
      else until_closed fs
  end.

Lemma show_frames_shows closed_of fs : forall shown, show_frames closed_of all_ok fs shown =
  (shown ++ fst (until_closed fs), (fun p => describe (closed_of p)) <$> snd (until_closed fs)).
Proof.
  induction fs as [|f fs IH]; intros shown; cbn [show_frames until_closed]; [by rewrite app_nil_r|].
  destruct (Wire.kind f =? OUTPUT).
  - cbn [all_ok]. rewrite IH. destruct (until_closed fs) as [l c]. cbn. by rewrite <- app_assoc.
  - destruct (Wire.kind f =? CLOSED); [cbn; by rewrite app_nil_r|apply IH].
Qed.

Lemma until_closed_app a b : until_closed (a ++ b) =
  match snd (until_closed a) with
  | Some _ => until_closed a
  | None => (fst (until_closed a) ++ fst (until_closed b), snd (until_closed b))
  end.
Proof.
  induction a as [|f a IH]; cbn [app until_closed]; [by destruct (until_closed b)|].
  destruct (Wire.kind f =? OUTPUT); [|by destruct (Wire.kind f =? CLOSED)].
  rewrite IH. destruct (until_closed a) as [l [c|]]; cbn; [done|]. by destruct (until_closed b).
Qed.

Lemma output_loop_shows closed_of leaving reads : forall buf shown, pop buf = (None, buf) -> Forall is_input reads ->
  output_loop closed_of all_ok (reads ++ [Eof]) leaving buf shown =
  let fs := fst (pop_all (buf ++ concat (map read_bytes reads))) in
  (shown ++ fst (until_closed fs), Some (match snd (until_closed fs) with Some p => describe (closed_of p) | None => lost leaving end)).
Proof.
  induction reads as [|r reads IH]; intros buf shown Hb Hr; cbn [app output_loop].
  - cbn [map concat]. rewrite app_nil_r, pop_all_unfold, Hb. cbn. by rewrite app_nil_r.
  - inversion Hr as [|? ? Hi Hr']; subst. destruct r as [chunk| | |]; try done; [|by apply IH].
    cbn [map concat read_bytes]. unfold push. rewrite app_assoc, (pop_all_app _ (buf ++ chunk) _ (le_n _)).
    destruct (pop_all (buf ++ chunk)) as [fs rest] eqn:E. rewrite show_frames_shows.
    destruct (pop_all (rest ++ concat (map read_bytes reads))) as [gs r] eqn:E2. cbn [fst]. rewrite until_closed_app.
    destruct (until_closed fs) as [l [c|]] eqn:Eu; cbn [fst snd fmap option_fmap option_map]; [done|].
    rewrite IH; [|by eapply pop_all_rest|done]. rewrite E2. cbn [fst]. by rewrite app_assoc.
Qed.

(** The terminal shows exactly the session's output, in order, up to the
    supervisor's closing frame, however the stream is cut: the client then ends
    with that frame's words and code, and a stream that ends without one is a
    lost session, unless the user was leaving. *)
Theorem the_output_is_shown_until_closed closed_of leaving reads frames rest :
  Forall is_input reads -> Forall wf_frame frames -> fst (pop rest) = None ->
  concat (map read_bytes reads) = concat (map encode_frame frames) ++ rest ->
  output_loop closed_of all_ok (reads ++ [Eof]) leaving [] [] =
  (fst (until_closed frames),
   Some (match snd (until_closed frames) with Some p => describe (closed_of p) | None => lost leaving end)).
Proof.
  intros Hr Hf Hp Hc. rewrite output_loop_shows by done. cbn [app]. rewrite Hc, pop_all_frames; [done|done|].
  destruct (pop rest) as [[f|] b] eqn:E; [done|]. by rewrite (pop_none _ _ E) in *.
Qed.

(** ** The bridges are separate *)

Section separate.
  Context {Id : Type} `{Countable Id}.
  Implicit Types (s : @Bridges Id _ _) (ops : list (@BridgeOp Id)).

(** What a session's terminal was given since it was opened. *)
Definition stream_step (id : Id) (st : option (list HostFrame)) (op : BridgeOp) : option (list HostFrame) :=
  match op with
  | OpOpen i true => if decide (i = id) then Some [] else st
  | OpOpen _ false => st
  | OpInput i data => if decide (i = id) then (fun l => l ++ [Input data]) <$> st else st
  | OpResize i rows cols => if decide (i = id) then (fun l => l ++ [Resize rows cols]) <$> st else st
  | OpClose i => if decide (i = id) then None else st
  | OpCloseAll => None
  end.

Definition stream (id : Id) ops : option (list HostFrame) := foldl (stream_step id) None ops.

(** The children opened so far are those of the open bridges and those closed,
    each once. *)
Definition one_each (n : nat) s : Prop := map snd (map_to_list (open_ s)) ++ closed_ s ≡ₚ seq 0 n.

Lemma one_each_lt n s id b : one_each n s -> open_ s !! id = Some b -> (b < n)%nat.
Proof.
  intros Hp Hb. assert (b ∈ seq 0 n) as Hi; [|apply elem_of_seq in Hi; lia].
  rewrite <- Hp. apply elem_of_app. left. apply list_elem_of_fmap. exists (id, b). split; [done|]. by apply elem_of_map_to_list.
Qed.

Lemma one_each_inj n s i j b : one_each n s -> open_ s !! i = Some b -> open_ s !! j = Some b -> i = j.
Proof.
  intros Hp Hi Hj. destruct (decide (i = j)) as [|Hne]; [done|]. exfalso.
  assert (Hnd : NoDup (map snd (map_to_list (open_ s)) ++ closed_ s)) by (rewrite Hp; apply NoDup_seq).
  apply NoDup_app in Hnd as [Hnd _].
  rewrite <- (map_to_list_delete (open_ s) i b Hi) in Hnd. cbn in Hnd. apply NoDup_cons in Hnd as [Hnd _]. apply Hnd.
  apply list_elem_of_fmap. exists (j, b). split; [done|]. apply elem_of_map_to_list. by rewrite lookup_delete_ne.
Qed.

Lemma one_each_remove n s id : one_each n s -> one_each n (remove id s).
Proof.
  unfold one_each, remove. intros Hp. destruct (open_ s !! id) as [b|] eqn:E; [|done]. cbn [open_ closed_ close_bridge].
  rewrite <- Hp, <- (map_to_list_delete (open_ s) id b E). cbn. by rewrite (app_assoc _ _ [b]), <- Permutation_cons_append.
Qed.

Lemma remove_open id s : open_ (remove id s) = delete id (open_ s) /\ written (remove id s) = written s.
Proof. unfold remove. destruct (open_ s !! id) eqn:E; [done|]. by rewrite delete_id. Qed.

Lemma one_each_write n s id f : one_each n s -> one_each n (fst (write id f s)).
Proof. unfold write. by destruct (open_ s !! id). Qed.

Definition tracks (st : Id -> option (list HostFrame)) (n : nat) s : Prop :=
  one_each n s /\ (forall id, (open_ s !! id ≫= fun b => written s !! b) = map encode_host <$> st id)
  /\ forall id b, open_ s !! id = Some b -> is_Some (written s !! b).

Lemma write_tracks st n s id f : tracks st n s ->
  tracks (fun i => if decide (id = i) then (fun l => l ++ [f]) <$> st i else st i) n (fst (write id (encode_host f) s)).
Proof.
  intros (Hp & Ht & Hw). split; [by apply one_each_write|]. unfold write. destruct (open_ s !! id) as [b|] eqn:E; cbn [fst open_ written].
  - split.
    + intros i. specialize (Ht i) as Hi. destruct (decide (id = i)) as [<-|Hne].
      * rewrite E in *. cbn in *. rewrite lookup_insert_eq, Hi. destruct (Hw id b E) as [l Hl]. rewrite Hl in Hi.
        destruct (st id) as [l'|]; [|done]. cbn. by rewrite map_app.
      * rewrite <- Hi. destruct (open_ s !! i) as [c|] eqn:Ec; [|done]. cbn. rewrite lookup_insert_ne; [done|].
        intros ->. apply Hne. by eapply one_each_inj.
    + intros i c Hc. destruct (decide (b = c)) as [->|Hne]; [rewrite lookup_insert_eq; by eexists|].
      rewrite lookup_insert_ne by done. by eapply Hw.
  - split; [|done]. intros i. specialize (Ht i) as Hi. destruct (decide (id = i)) as [<-|Hne]; [|done]. rewrite E in *. cbn in *. by destruct (st id).
Qed.

Lemma remove_tracks st n s id : tracks st n s -> tracks (fun i => if decide (id = i) then None else st i) n (remove id s).
Proof.
  intros (Hp & Ht & Hw). split; [by apply one_each_remove|]. destruct (remove_open id s) as [-> ->]. split.
  - intros i. destruct (decide (id = i)) as [<-|Hne]; [by rewrite lookup_delete_eq|by rewrite lookup_delete_ne].
  - intros i b Hb. apply lookup_delete_Some in Hb as [_ Hb]. by eapply Hw.
Qed.

Lemma open_tracks st n s id : tracks st n s -> tracks (fun i => if decide (id = i) then Some [] else st i) (S n) (insert_bridge id n s).
Proof.
  intros Ht. apply (remove_tracks _ _ _ id) in Ht as (Hp & Ht & Hw). unfold insert_bridge. set (s' := remove id s) in *.
  assert (Hnone : open_ s' !! id = None) by (subst s'; rewrite (proj1 (remove_open id s)); apply lookup_delete_eq).
  split; [|split].
  - unfold one_each in *. cbn [open_ closed_]. rewrite map_to_list_insert by done. cbn [map snd app]. rewrite Hp.
    rewrite Permutation_cons_append. by rewrite seq_S.
  - cbn [open_ written]. intros i. specialize (Ht i). destruct (decide (id = i)) as [<-|Hne].
    + rewrite lookup_insert_eq. cbn. by rewrite lookup_insert_eq.
    + rewrite lookup_insert_ne by done. rewrite <- Ht. destruct (open_ s' !! i) as [c|] eqn:Ec; [|done]. cbn.
      rewrite lookup_insert_ne; [done|]. apply (one_each_lt n s' i c Hp) in Ec. lia.
  - cbn [open_ written]. intros i b Hb. destruct (decide (n = b)) as [->|Hnb]; [rewrite lookup_insert_eq; by eexists|].
    rewrite lookup_insert_ne by done. apply lookup_insert_Some in Hb as [[_ ->]|[_ Hb]]; [done|]. by eapply Hw.
Qed.

Lemma close_all_tracks st n s : tracks st n s -> tracks (fun _ => None) n (close_all s).
Proof.
  intros (Hp & Ht & Hw). split; [|split].
  - unfold one_each, close_all in *. cbn [open_ closed_]. rewrite map_to_list_empty. cbn [map app]. by rewrite Permutation_app_comm.
  - intros i. cbn [open_ close_all]. by rewrite lookup_empty.
  - intros i b. cbn [open_ close_all]. by rewrite lookup_empty.
Qed.

Lemma tracks_ext st st' n s : (forall i, st i = st' i) -> tracks st n s -> tracks st' n s.
Proof. intros He (Hp & Ht & Hw). split; [done|]. split; [|done]. intros i. by rewrite <- He. Qed.

Lemma bridge_run_tracks ops : forall st n s, tracks st n s ->
  let '(n', s') := bridge_run ops n s in tracks (fun id => foldl (stream_step id) (st id) ops) n' s'.
Proof.
  induction ops as [|op ops IH]; intros st n s Ht; [done|]. cbn [bridge_run].
  destruct (bridge_step op n s) as [n1 s1] eqn:E. cbn [foldl]. apply (IH (fun id => stream_step id (st id) op)).
  destruct op as [id [|]|id data|id rows cols|id|]; cbn in E; injection E as <- <-; cbn [stream_step].
  - by apply open_tracks.
  - done.
  - exact (write_tracks _ _ _ id (Input data) Ht).
  - exact (write_tracks _ _ _ id (Resize rows cols) Ht).
  - by apply remove_tracks.
  - by eapply close_all_tracks.
Qed.

Lemma no_bridges_tracks : tracks (fun _ => None) 0 no_bridges.
Proof.
  split; [unfold one_each, no_bridges; cbn [open_ closed_]; by rewrite map_to_list_empty|].
  split; intros id; cbn [open_ no_bridges]; [|intros b]; by rewrite lookup_empty.
Qed.

(** Through any use of the embedded terminals every child ever opened is
    either the one bridge of one session or was closed, exactly once; and what
    was written to a session's bridge is what that session was typed and the
    sizes it was given since it was opened, in order and nothing else. *)
Theorem bridges_are_separate ops :
  let '(n, s) := bridge_run ops 0 no_bridges in
  map snd (map_to_list (open_ s)) ++ closed_ s ≡ₚ seq 0 n /\
  forall id, (open_ s !! id ≫= fun b => written s !! b) = map encode_host <$> stream id ops.
Proof.
  pose proof (bridge_run_tracks ops (fun _ => None) 0 no_bridges) as Hr.
  specialize (Hr no_bridges_tracks). destruct (bridge_run ops 0 no_bridges) as [n s]. by destruct Hr as (Hp & Ht & _).
Qed.
End separate.

(** ** Witnesses *)

Definition example_frames : list HostFrame := [Input [104; 105]; Resize 30 100].

Lemma an_embedded_terminal_reaches_its_session_witness :
  fst (host_input_loop all_ok ([Bytes [105; 0; 0]; Interrupted; Bytes [0; 2; 104; 105; 114]; Bytes [0; 30; 0; 100]] ++ [Eof]) [] out_new) = Left 0.
Proof.
  pose proof (an_embedded_terminal_reaches_its_session example_frames
    [Bytes [105; 0; 0]; Interrupted; Bytes [0; 2; 104; 105; 114]; Bytes [0; 30; 0; 100]] []) as H.
  destruct (host_input_loop _ _ _ _) as [stand o]. apply H; [|by repeat constructor|reflexivity].
  repeat constructor; cbn; unfold u32_max, u16_max; lia.
Defined.

Lemma keys_reach_the_session_witness :
  fst (input_loop all_ok (fun _ => None) false [Bytes [97; 98]; Interrupted; Bytes [99; 29; 100]] 0 out_new) = Left 0.
Proof.
  pose proof (keys_reach_the_session (fun _ => None) false [Bytes [97; 98]; Interrupted; Bytes [99; 29; 100]]) as H.
  destruct (input_loop _ _ _ _ _ _) as [stand o]. destruct H as (frames & _ & _ & -> & _); [|reflexivity].
  repeat apply Forall_cons_2; [..|apply Forall_nil_2]; unfold fits, READ_BUF; cbn; lia.
Defined.

Lemma the_output_is_shown_until_closed_witness :
  output_loop (fun _ => Some (mk_closed CStopped None None)) all_ok ([Bytes [16; 0; 1]; Bytes [120; 19; 0; 0; 16]] ++ [Eof]) false [] [] =
  ([[120]], Some ("willie: session stopped"%string, 0)).
Proof.
  refine (the_output_is_shown_until_closed (fun _ => Some (mk_closed CStopped None None)) false
    [Bytes [16; 0; 1]; Bytes [120; 19; 0; 0; 16]] [mk_frame 16 [120]; mk_frame 19 []] [16] _ _ _ _); try reflexivity; [by repeat constructor|].
  repeat apply Forall_cons_2; [by apply short_frame..|apply Forall_nil_2].
Defined.
