(* ===== verification/Client.v ===== *)
(** * A client's thread

    Models client_thread, first_frame and reject of
    crates/willie-sess/src/server.rs as one computation over the supervisor's
    shared state, whose other threads act between any two of its locked steps
    (its id, the replay, the size, its place in the list, every frame and every
    event), and run of crates/willie-cli/src/attach.rs at the other end of its socket: what
    is typed in a terminal is what the harness reads. *)

From S2P Require Import Prelude Text Wire Session Supervisor Attach Effects.

Local Open Scope Z_scope.
Local Open Scope string_scope.
Local Open Scope list_scope.
Local Open Scope willie_scope.

(** ** The supervisor's end *)

Inductive Act : Type :=
| Turned                                   (* rejected, or not joined *)
| Joined (id : N) (role : Role)
| Framed (f : Frame) (ok : bool)           (* [ok] is the terminal's answer *)
| Departed (id : N).

Section thread.
  Context {JErr : Type}.
  Context (event_json : SessionEvent -> result (list Z) JErr)
    (closed_json : Closed -> result (list Z) JErr) (status_json : Status -> result (list Z) JErr)
    (hello_json : list Z -> result Hello JErr).
  Context (clock : nat -> string) (instant : nat -> Z).
  (** What the other threads do, and the terminal's n-th answer to the client. *)
  Context (others : nat -> Shared -> Shared) (writes : nat -> bool).

Definition C (A : Type) : Type := M Shared Act A.

(** [first_frame], with the reads and the buffer it leaves; none at the end of
    the stream, an error, or the deadline. *)
Fixpoint first_frame (reads : list Read) (buf : list Z) : option Frame * (list Read * list Z) :=
  match pop buf with
  | (Some f, buf) => (Some f, (reads, buf))
  | (None, buf) =>
      match reads with
      | Bytes b :: reads => first_frame reads (push buf b)
      | _ :: reads => (None, (reads, buf))
      | [] => (None, ([], buf))
      end
  end.

Definition pays (id : N) : C unit :=
  perform others (fun _ => []) (fun s => (tt, pay event_json closed_json clock (ClientThread id) s)).

(** The thread does what it owes: at most the cause and the event of a stop. *)
Definition settle (id : N) : C unit := let* _ := pays id in pays id.

Definition handle (id : N) (role : Role) (f : Frame) (n : nat) : C bool :=
  let* go := perform others (fun _ => [Framed f (writes n)])
    (fun s => let '(s, go) := client_frame event_json status_json clock id role f (writes n) s in (go, s)) in
  let* _ := settle id in
  ret go.

(** Popping and handling until the buffer has no frame; whether to read on. *)
Fixpoint frames_loop (id : N) (role : Role) (fs : list Frame) (n : nat) : C (nat * bool) :=
  match fs with
  | [] => ret (n, true)
  | f :: fs =>
      let* go := handle id role f n in
      if (go : bool) then frames_loop id role fs (S n) else ret (S n, false)
  end.

(** The loop; false while it still waits for its client. *)
Fixpoint client_loop (id : N) (role : Role) (reads : list Read) (buf : list Z) (n : nat) : C bool :=
  let '(fs, buf) := pop_all buf in
  let* r := frames_loop id role fs n in
  if snd r then
    match reads with
    | [] => ret false
    | Bytes b :: reads => client_loop id role reads (push buf b) (fst r)
    | Interrupted :: reads => client_loop id role reads buf (fst r)
    | Eof :: _ | ReadFailed :: _ => ret true
    end
  else ret true.

(** A terminal's replay and size; false for one that cannot take the replay. *)
Definition catch_up (ok1 ok2 : bool) (id : N) : C bool :=
  let* took := perform others (fun took => if (took : bool) then [] else [Turned]) (replay closed_json id) in
  if (took : bool) then
    let* _ := perform others (fun _ => []) (fun s => (tt, fit event_json clock id ok1 ok2 s)) in
    ret true
  else ret false.

Definition client_thread (ok1 ok2 : bool) (reads : list Read) : C bool :=
  let '(first, (reads, buf)) := first_frame reads [] in
  let* admitted := perform others (fun j => match j with Some _ => [] | None => [Turned] end) (let_in hello_json first) in
  match admitted with
  | None => ret true
  | Some (id, role) =>
      let* ready := (match role with Control => ret true | Terminal => catch_up ok1 ok2 id end) in
      if (ready : bool) then
        let* _ := perform others (fun _ => [Joined id role]) (fun s => (tt, register id s)) in
        let* _ := settle id in
        let* ended := client_loop id role reads buf 0 in
        if (ended : bool) then
          let* _ := perform others (fun _ => [Departed id]) (fun s => (tt, depart id role s)) in
          let* _ := settle id in
          ret true
        else ret false
      else ret true
  end.

(** ** What reaches the session *)

(** Whether the loop goes on after a frame. *)
Definition goes (f : Frame) (ok : bool) : bool :=
  if (Wire.kind f =? INPUT)%Z then ok else negb (Wire.kind f =? DETACH)%Z.

(** The frames that are handled: up to the one that ends the loop. *)
Fixpoint served (n : nat) (fs : list Frame) : list Act * bool :=
  match fs with
  | [] => ([], true)
  | f :: fs => if goes f (writes n) then let '(l, go) := served (S n) fs in (Framed f (writes n) :: l, go) else ([Framed f (writes n)], false)
  end.

Lemma client_frame_goes id role f ok s : snd (client_frame event_json status_json clock id role f ok s) = goes f ok.
Proof.
  unfold client_frame, goes. destruct (Wire.kind f =? INPUT)%Z eqn:Ei; [done|]. destruct (Wire.kind f =? RESIZE)%Z eqn:Er.
  { apply Z.eqb_eq in Er. by rewrite Er. }
  destruct (Wire.kind f =? DETACH)%Z; [done|]. destruct (_ && _); [done|]. by destruct (_ && _).
Qed.

Lemma perform_always {A} (rec : A -> list Act) (f : Shared -> A * Shared) a : (forall s, fst (f s) = a) ->
  does (perform others rec f) (fun r l => r = a /\ l = rec a).
Proof.
  intros H w. unfold perform. destruct (f (others (ticks w) (store w))) as [b s] eqn:E.
  pose proof (H (others (ticks w) (store w))) as Hb. rewrite E in Hb. cbn in Hb. subst b. by exists (rec a).
Qed.

Lemma settle_tells_nothing id : does (settle id) (fun _ l => l = []).
Proof. unfold settle, pays. do 2 (apply does_perform || apply does_last, does_perform; intros ?). by apply does_ret. Qed.

Lemma handle_does id role f n : does (handle id role f n) (fun go l => go = goes f (writes n) /\ l = [Framed f (writes n)]).
Proof.
  unfold handle. eapply does_bind.
  - apply (perform_always (fun _ => [Framed f (writes n)]) _ (goes f (writes n))). intros s.
    rewrite <- (client_frame_goes id role f (writes n) s). by destruct (client_frame _ _ _ _ _ _ _ _).
  - cbv beta. intros go l [-> ->]. eapply does_bind; [apply settle_tells_nothing|]. cbv beta. intros _ l ->. by apply does_ret.
Qed.

Lemma frames_loop_does id role fs : forall n, does (frames_loop id role fs n)
  (fun r l => (l, snd r) = served n fs /\ (snd r = true -> fst r = (n + length fs)%nat)).
Proof.
  induction fs as [|f fs IH]; intros n; cbn [frames_loop served]; [by apply does_ret; rewrite Nat.add_0_r|].
  eapply does_bind; [apply handle_does|]. intros go l [-> ->]. destruct (goes f (writes n)); [|by apply does_ret].
  eapply does_conseq; [apply IH|]. intros [m go] l [Hl Hn]. cbn [app fst snd] in *. rewrite <- Hl.
  split; [done|]. intros H. rewrite (Hn H). cbn [length]. lia.
Qed.

Lemma served_app fs gs : forall n, served n (fs ++ gs) =
  let '(l, go) := served n fs in if go then let '(l', go') := served (n + length fs) gs in (l ++ l', go') else (l, false).
Proof.
  induction fs as [|f fs IH]; intros n; cbn [app served length]; [rewrite Nat.add_0_r; by destruct (served n gs)|].
  destruct (goes f (writes n)); [|done]. rewrite IH. replace (S n + length fs)%nat with (n + S (length fs))%nat by lia.
  destruct (served (S n) fs) as [l []]; [|done]. by destruct (served _ gs).
Qed.

(** However its bytes are cut and wherever the reads are interrupted, a client
    that ends is handled the frames of its stream, in order, up to the one that
    ends its loop. *)
Definition stops (r : Read) : Prop := r = Eof \/ r = ReadFailed.

Lemma client_loop_does id role reads r more : stops r -> Forall is_input reads -> forall buf n,
  does (client_loop id role (reads ++ r :: more) buf n)
    (fun e l => e = true /\ l = fst (served n (fst (pop_all (buf ++ concat (map read_bytes reads)))))).
Proof.
  intros Hr Hreads. induction Hreads as [|x reads Hx Hreads IH]; intros buf n; cbn [app map concat client_loop].
  - rewrite app_nil_r. destruct (pop_all buf) as [fs b]. eapply does_bind; [apply frames_loop_does|].
    intros [m go] l [Hl _]. cbn [fst snd] in *. rewrite <- Hl. destruct go, Hr as [-> | ->]; apply does_ret; by rewrite app_nil_r.
  - rewrite (pop_all_app _ buf _ (le_n _)). destruct (pop_all buf) as [fs b] eqn:Eb. eapply does_bind; [apply frames_loop_does|].
    intros [m go] l [Hl Hm]. cbn [fst snd] in *. destruct go.
    + specialize (Hm eq_refl). subst m. destruct x as [chunk| | |]; try done.
      * eapply does_conseq; [apply IH|]. intros e l' [-> ->]. split; [done|]. unfold push. cbn [read_bytes]. rewrite <- app_assoc.
        destruct (pop_all (b ++ chunk ++ _)) as [gs r']. cbn [fst]. rewrite served_app, <- Hl. by destruct (served _ gs).
      * eapply does_conseq; [apply IH|]. intros e l' [-> ->]. split; [done|]. cbn [read_bytes app].
        destruct (pop_all (b ++ _)) as [gs r']. cbn [fst]. rewrite served_app, <- Hl. by destruct (served _ gs).
    + apply does_ret. split; [done|]. destruct (pop_all (b ++ _)) as [gs r']. cbn [fst]. rewrite served_app, <- Hl. by rewrite app_nil_r.
Qed.

Lemma first_frame_finds cs : forall buf f after rest tail, pop_all (buf ++ concat cs) = (f :: after, rest) ->
  exists cs' buf', first_frame (map Bytes cs ++ tail) buf = (Some f, (map Bytes cs' ++ tail, buf')) /\ pop_all (buf' ++ concat cs') = (after, rest).
Proof.
  induction cs as [|c cs IH]; intros buf f after rest tail Hp; cbn [map app concat] in *.
  - rewrite app_nil_r, pop_all_unfold in Hp. destruct (pop buf) as [[g|] b] eqn:E; [|done]. destruct (pop_all b) as [fs r] eqn:Eb.
    injection Hp as -> -> ->. exists [], b. cbn [concat map app]. rewrite app_nil_r. split; [|done].
    destruct tail; cbn [first_frame]; by rewrite E.
  - cbn [first_frame]. destruct (pop buf) as [[g|] b] eqn:E.
    + rewrite pop_all_unfold, (pop_app _ _ _ _ E) in Hp. destruct (pop_all (b ++ c ++ concat cs)) as [fs r] eqn:Eb.
      injection Hp as -> -> ->. by exists (c :: cs), b.
    + apply pop_none in E as ->. unfold push. apply IH. by rewrite <- app_assoc.
Qed.

Lemma perform_answers {A} (rec : A -> list Act) (f : Shared -> A * Shared) (P : A -> Prop) : (forall s, P (fst (f s))) ->
  does (perform others rec f) (fun r l => P r /\ l = rec r).
Proof.
  intros H w. unfold perform. pose proof (H (others (ticks w) (store w))) as Hp.
  destruct (f (others (ticks w) (store w))) as [b s]. by exists (rec b).
Qed.

Lemma served_framed fs : forall n, exists gs ok, fst (served n fs) = map (fun x : Frame * bool => Framed (fst x) (snd x)) gs /\ map fst gs = take ok fs.
Proof.
  induction fs as [|f fs IH]; intros n; cbn [served]; [by exists [], 0%nat|]. destruct (goes f (writes n)).
  - destruct (IH (S n)) as (gs & k & Hg & Hk). destruct (served (S n) fs) as [l go]. cbn [fst] in *. exists ((f, writes n) :: gs), (S k).
    cbn [map fst snd take]. by rewrite Hg, Hk.
  - by exists [(f, writes n)], 1%nat.
Qed.

(** The whole thread, for a client whose first frame is [first]. *)
Lemma client_thread_does first fs rest cs r more ok1 ok2 (P : N * Role -> Prop) :
  Forall wf_frame (first :: fs) -> pop rest = (None, rest) -> concat cs = concat (map encode_frame (first :: fs)) ++ rest -> stops r ->
  (forall s j, fst (let_in hello_json (Some first) s) = Some j -> P j) ->
  does (client_thread ok1 ok2 (map Bytes cs ++ r :: more)) (fun e l => e = true /\
    (l = [Turned] \/ exists id role, P (id, role) /\ l = Joined id role :: fst (served 0 fs) ++ [Departed id])).
Proof.
  intros Hw Hr Hc Hs HP. unfold client_thread.
  destruct (first_frame_finds cs [] first fs rest (r :: more)) as (cs' & buf' & -> & Hp).
  { cbn [app]. rewrite Hc. by apply pop_all_frames. }
  eapply does_bind; [apply (perform_answers _ _ (fun j => forall x, j = Some x -> P x)); intros s x Hx; by eapply HP|].
  cbv beta. intros [[id role]|] l [Hj ->]; [|apply does_ret; by split; [|left]]. specialize (Hj _ eq_refl). cbn [app].
  apply (does_bind _ _ (fun r l => l = if (r : bool) then [] else [Turned])).
  { destruct role; [|by apply does_ret]. unfold catch_up. apply does_perform. intros [].
    - apply does_perform. intros _. by apply does_ret.
    - by apply does_ret. }
  intros [] l ->; [|apply does_ret; by split; [|left]]. cbn [app]. apply does_perform. intros _.
  eapply does_bind; [apply settle_tells_nothing|]. cbv beta. intros _ l ->. cbn [app].
  eapply does_bind; [apply client_loop_does; [done|apply Forall_map, Forall_true; done]|]. cbv beta. intros e l [-> ->].
  apply does_perform. intros _. eapply does_bind; [apply settle_tells_nothing|]. cbv beta. intros _ l ->. apply does_ret.
  split; [done|]. right. exists id, role. split; [done|].
  replace (map read_bytes (map Bytes cs')) with cs' by (rewrite map_map; symmetry; apply map_id).
  rewrite Hp. cbn [app fst]. by rewrite ?app_nil_r.
Qed.

(** C28. A client is turned away, or joins and is then handled exactly the
    frames it sent after its hello, in order, up to the one that ends its loop
    (a detach, or a keystroke the terminal did not take), each once, and
    departs; however its bytes are cut into reads and whatever the other
    threads of the supervisor do in between. *)
Theorem clients_are_handled_in_order first fs rest cs r more ok1 ok2 :
  Forall wf_frame (first :: fs) -> pop rest = (None, rest) -> concat cs = concat (map encode_frame (first :: fs)) ++ rest -> stops r ->
  does (client_thread ok1 ok2 (map Bytes cs ++ r :: more)) (fun e l => e = true /\
    (l = [Turned] \/ exists id role gs k, map fst gs = take k fs
       /\ (k < length fs -> exists f ok, last gs = Some (f, ok) /\ goes f ok = false)%nat
       /\ l = Joined id role :: map (fun x : Frame * bool => Framed (fst x) (snd x)) gs ++ [Departed id])).
Proof.
  intros Hw Hr Hc Hs. eapply does_conseq; [apply (client_thread_does first fs rest cs r more ok1 ok2 (fun _ => True)); done|].
  cbv beta. intros e l [-> [-> |(id & role & _ & ->)]]; (split; [done|]); [by left|]. right. exists id, role.
  enough (H : forall n, exists gs k, map fst gs = take k fs /\ ((k < length fs)%nat -> exists f ok, last gs = Some (f, ok) /\ goes f ok = false)
    /\ fst (served n fs) = map (fun x : Frame * bool => Framed (fst x) (snd x)) gs).
  { destruct (H 0%nat) as (gs & k & H1 & H2 & H3). exists gs, k. by rewrite H3. }
  clear. induction fs as [|f fs IH]; intros n; cbn [served]; [exists [], 0%nat; split; [done|split; [cbn; lia|done]]|].
  destruct (goes f (writes n)) eqn:Eg.
  - destruct (IH (S n)) as (gs & k & H1 & H2 & H3). destruct (served (S n) fs) as [l go]. cbn [fst] in *. exists ((f, writes n) :: gs), (S k).
    cbn [map fst snd take length]. rewrite H1, H3. split; [done|]. split; [|done]. intros Hk.
    destruct H2 as (f' & ok & Hl & Hg); [lia|]. exists f', ok. split; [|done]. by destruct gs.
  - exists [(f, writes n)], 1%nat. split; [done|]. split; [|done]. intros _. by exists f, (writes n).
Qed.

(** ** What the terminal is written

    While a thread runs the others type too: the n-th of its steps comes after
    [theirs n].  What the harness reads is theirs and the thread's own, step by
    step. *)

Fixpoint weave (theirs : nat -> list Z) (n : nat) (mine : list (list Z)) : list Z :=
  match mine with
  | [] => []
  | m :: mine => theirs n ++ m ++ weave theirs (S n) mine
  end.

(** What effects and results a computation can have, with the keys of its own
    that it writes to the terminal. *)
Definition gives (theirs : nat -> list Z) {A} (m : C A) (P : A -> list Act -> list Z -> Prop) : Prop :=
  forall w, exists l mine, calls (snd (m w)) = calls w ++ l /\ ticks (snd (m w)) = (ticks w + length mine)%nat
    /\ input (store (snd (m w))) = input (store w) ++ weave theirs (ticks w) mine /\ P (fst (m w)) l (concat mine).

(** The keys of what was handled. *)
Definition inputs (l : list Act) : list Z :=
  concat (omap (fun a => match a with Framed f true => if (Wire.kind f =? INPUT)%Z then Some (payload f) else None | _ => None end) l).

Lemma weave_app theirs a : forall b n, weave theirs n (a ++ b) = weave theirs n a ++ weave theirs (n + length a) b.
Proof.
  induction a as [|m a IH]; intros b n; cbn [app weave length]; [by rewrite Nat.add_0_r|].
  rewrite IH, <- !app_assoc. replace (S n + length a)%nat with (n + S (length a))%nat by lia. done.
Qed.

Lemma inputs_app a b : inputs (a ++ b) = inputs a ++ inputs b.
Proof. unfold inputs. by rewrite omap_app, concat_app. Qed.

Context (theirs : nat -> list Z).
Hypothesis others_type : forall n s, input (others n s) = input s ++ theirs n.

(** Every effect writes what its record says. *)
Definition says {A} (m : C A) : Prop := gives theirs m (fun _ l mine => mine = inputs l).

Lemma says_ret {A} (a : A) : says (ret a).
Proof. intros w. exists [], []. cbn. by rewrite !app_nil_r, Nat.add_0_r. Qed.

Lemma says_bind {A B} (m : C A) (k : A -> C B) : says m -> (forall a, says (k a)) -> says (bind m k).
Proof.
  intros Hm Hk w. unfold bind. destruct (Hm w) as (l1 & m1 & C1 & T1 & I1 & E1). destruct (m w) as [a w1]. cbn in C1, T1, I1, E1.
  destruct (Hk a w1) as (l2 & m2 & C2 & T2 & I2 & E2). exists (l1 ++ l2), (m1 ++ m2).
  rewrite C2, C1, T2, T1, I2, I1, T1, weave_app, !length_app, concat_app, inputs_app, E1, E2, !app_assoc. repeat split. lia.
Qed.

Lemma says_perform {A} (rec : A -> list Act) (f : Shared -> A * Shared) :
  (forall s, input (snd (f s)) = input s ++ inputs (rec (fst (f s)))) -> says (perform others rec f).
Proof.
  intros H w. unfold perform. specialize (H (others (ticks w) (store w))). rewrite others_type in H.
  destruct (f (others (ticks w) (store w))) as [a s]. exists (rec a), [inputs (rec a)]. cbn in *.
  rewrite !app_nil_r, H, <- app_assoc. repeat split. lia.
Qed.

Lemma gives_does {A} (m : C A) (P : A -> list Act -> Prop) : says m -> does m P ->
  gives theirs m (fun a l mine => P a l /\ mine = inputs l).
Proof.
  intros Hs Hd w. destruct (Hs w) as (l & mine & Hc & Ht & Hi & He). destruct (Hd w) as (l' & Hc' & Hp).
  rewrite Hc in Hc'. apply app_inv_head in Hc' as <-. by exists l, mine.
Qed.

(** *** The supervisor's steps *)

Lemma log_event_input k s : input (log_event event_json clock k s) = input s.
Proof. unfold log_event, retain_clients. destruct (encode_json _ _ _); [|done]. by destruct (retain _ _). Qed.

Lemma apply_size_input rows cols force o1 o2 s : input (apply_size event_json clock rows cols force o1 o2 s) = input s.
Proof.
  unfold apply_size. cbv zeta. destruct (force && _ && _), o1, o2; rewrite ?log_event_input; cbn; rewrite ?log_event_input; done.
Qed.

Lemma pay_input o s : input (pay event_json closed_json clock o s) = input s.
Proof.
  unfold pay. destruct (take_first o (owed s)) as [[t rest]|]; [|done]. destruct t; cbn [do_task]; try done; apply (log_event_input _ (set_owed rest s)).
Qed.

Lemma client_frame_input id role f ok s :
  input (fst (client_frame event_json status_json clock id role f ok s)) = input s ++ inputs [Framed f ok].
Proof.
  unfold client_frame, inputs. cbn [omap list_omap]. destruct (Wire.kind f =? INPUT)%Z; [destruct ok; cbn; by rewrite ?app_nil_r|].
  assert (H : concat (match (if ok then None else None) with Some y => [y] | None => [] end) = @nil Z) by by destruct ok.
  destruct ok; cbn [concat]; rewrite app_nil_r; repeat case_match; cbn [fst]; try done; try apply apply_size_input;
    unfold request_stop; by destruct (phase s).
Qed.

Ltac speaks := apply says_perform; intros ?; cbn [fst snd]; rewrite ?app_nil_r.

Lemma settle_says id : says (settle id).
Proof. unfold settle, pays. apply says_bind; [|intros _]; speaks; apply pay_input. Qed.

Lemma handle_says id role f n : says (handle id role f n).
Proof.
  unfold handle. apply says_bind; [|intros go; apply says_bind; [apply settle_says|intros _; apply says_ret]].
  apply says_perform. intros s. pose proof (client_frame_input id role f (writes n) s) as H. by destruct (client_frame _ _ _ _ _ _ _ _).
Qed.

Lemma frames_loop_says id role fs : forall n, says (frames_loop id role fs n).
Proof.
  induction fs as [|f fs IH]; intros n; cbn [frames_loop]; [apply says_ret|].
  apply says_bind; [apply handle_says|]. intros []; [apply IH|apply says_ret].
Qed.

Lemma client_loop_says id role reads : forall buf n, says (client_loop id role reads buf n).
Proof.
  induction reads as [|r reads IH]; intros buf n; cbn [client_loop]; destruct (pop_all buf) as [fs b];
    (apply says_bind; [apply frames_loop_says|]); intros [m []]; cbn [snd]; try apply says_ret.
  destruct r; try apply says_ret; apply IH.
Qed.

Lemma client_thread_says ok1 ok2 reads : says (client_thread ok1 ok2 reads).
Proof.
  unfold client_thread. destruct (first_frame reads []) as [first [reads' buf]]. apply says_bind.
  { speaks. unfold let_in. destruct (greet _ _ _); cbn; by rewrite ?app_nil_r. }
  intros [[id role]|]; [|apply says_ret]. apply says_bind.
  { destruct role; [|apply says_ret]. unfold catch_up. apply says_bind.
    - speaks. unfold replay. repeat case_match; cbn; by rewrite ?app_nil_r.
    - intros []; [|apply says_ret]. apply says_bind; [|intros _; apply says_ret]. speaks. cbn [inputs]. unfold fit.
      repeat case_match; cbn; rewrite ?app_nil_r, ?apply_size_input; done. }
  intros []; [|apply says_ret]. apply says_bind.
  { speaks. unfold register. repeat case_match; cbn; by rewrite ?app_nil_r. }
  intros _. apply says_bind; [apply settle_says|]. intros _. apply says_bind; [apply client_loop_says|]. intros []; [|apply says_ret].
  apply says_bind; [|intros _; apply says_bind; [apply settle_says|intros _; apply says_ret]].
  speaks. unfold depart, retain_clients. destruct (retain _ _). destruct (_ && _); cbn; by rewrite ?app_nil_r.
Qed.

Lemma served_all pre : (forall n, writes n = true) -> detached pre = false -> forall n, served n pre = (map (fun f => Framed f true) pre, true).
Proof.
  intros Hw. induction pre as [|f pre IH]; intros Hd n; [done|]. cbn [served map]. unfold detached in Hd. cbn [existsb] in Hd.
  apply orb_false_iff in Hd as [Hf Hd]. rewrite Hw. unfold goes. rewrite Hf. cbn [negb]. rewrite (IH Hd). by destruct (_ =? INPUT)%Z.
Qed.

Lemma inputs_typed fs : inputs (map (fun f => Framed f true) fs) = typed fs.
Proof.
  unfold inputs, typed. induction fs as [|f fs IH]; [done|]. cbn [map omap list_omap List.filter].
  destruct (Wire.kind f =? INPUT)%Z; cbn [map concat]; by rewrite IH.
Qed.

Lemma served_detached fs : (forall n, writes n = true) -> ends_detached fs -> inputs (fst (served 0 fs)) = typed fs.
Proof.
  intros Hw (pre & -> & Hd). rewrite served_app, (served_all pre Hw Hd). cbn [served]. rewrite Hw.
  change (goes (mk_frame DETACH []) true) with false. rewrite <- inputs_typed, map_app. done.
Qed.

End thread.

(** ** The command line's end *)

(** What the machine answers [run]: the socket, the terminal, its modes, the
    second handle of the socket, the window, the write of the hello and the
    output thread. *)
Record Setup : Type := mk_setup {
  connected : bool;
  tty : bool;
  raw_mode : option string;
  split_ : option string;
  window : option (Z * Z);
  hello_written : bool;
  output_thread : option string
}.

Section attach.
  Context {JErr : Type} (hello_text : Hello -> result (list Z) JErr) (ok : nat -> bool) (resized : nat -> option (option (Z * Z))).

(** [run] of attach.rs: the lines of the standard error, the code it leaves
    with, and what was written to the supervisor.  [stem] names the socket. *)
Definition run (stem : string) (size : option (Z * Z)) (raw host : bool) (m : Setup) (reads : list Read) : list string * (Stand * Out) :=
  let refuse (text : string) := (["willie attach: " +:+ text], (Left 1, out_new)) in
  if negb (connected m) then refuse ("session " +:+ stem +:+ " is not running")
  else if negb host && raw && negb (tty m) then refuse "stdin is not a terminal; use --no-raw or run this from a terminal"
  else
    match (if negb host && raw then raw_mode m else None) with
    | Some e => refuse ("cannot set raw mode: " +:+ e)
    | None =>
        match split_ m with
        | Some e => refuse ("cannot split the socket: " +:+ e)
        | None =>
            let '(rows, cols) := default (24%Z, 80%Z) (match size with Some s => Some s | None => window m end) in
            match encode_json hello_text HELLO (mk_hello Terminal rows cols) with
            | Err _ => refuse "cannot encode the hello"
            | Ok frame =>
                if negb (hello_written m) then refuse "cannot send the hello"
                else
                  let hint := "willie: detach with Ctrl-]" in
                  match output_thread m with
                  | Some e => ([hint; "willie attach: cannot start the output thread: " +:+ e], (Left 1, mk_out [frame] false))
                  | None =>
                      let '(stand, o) := if host then host_input_loop ok reads [] out_new
                                         else input_loop ok resized (bool_decide (is_Some size)) reads 0 out_new in
                      (hint :: match stand with
                               | Left 0 => if host then [] else ["willie: detached, the session keeps running"]
                               | _ => []
                               end,
                       (stand, mk_out (frame :: sent o) (leaving o)))
                  end
            end
        end
    end.

End attach.

(** ** From the keyboard to the harness *)

Section typing.
  Context {JErr CErr : Type}.
  Context (event_json : SessionEvent -> result (list Z) JErr) (closed_json : Closed -> result (list Z) JErr)
    (status_json : Status -> result (list Z) JErr) (hello_json : list Z -> result Hello JErr) (clock : nat -> string).
  Context (hello_text : Hello -> result (list Z) CErr).
  (** serde_json reads back a hello it printed, which fits a frame. *)
  Hypothesis hello_back : forall h bytes, hello_text h = Ok bytes -> hello_json bytes = Ok h /\ (length bytes <= MAX_PAYLOAD)%nat.

Lemma run_leaves resized stem size raw m reads lines o : Forall fits reads ->
  run hello_text all_ok resized stem size raw false m reads = (lines, (Left 0, o)) ->
  exists rows cols hello fs, hello_text (mk_hello Terminal rows cols) = Ok hello
    /\ concat (sent o) = concat (map encode_frame (mk_frame HELLO hello :: fs)) /\ Forall wf_frame fs
    /\ ends_detached fs /\ typed fs = take_while is_key (fst (heard reads)).
Proof.
  intros Hf. unfold run. destruct (connected m); [|done]. cbn [negb]. destruct (_ && _ && _); [done|].
  destruct (if _ : bool then _ else _); [done|]. destruct (split_ m); [done|].
  destruct (default _ _) as [rows cols]. unfold encode_json. destruct (hello_text _) as [hello|] eqn:Eh; [|done].
  destruct (hello_written m); [|done]. cbn [negb]. destruct (output_thread m); [done|].
  destruct (input_loop_ok resized (bool_decide (is_Some size)) reads 0 out_new []) as (fs & H); [done|by split|done|].
  destruct (input_loop _ _ _ _ _ _) as [stand o']. destruct H as ([Hs Hw] & Ht & _ & _ & Hd).
  intros [= <- -> <-]. exists rows, cols, hello, fs. split; [done|]. cbn [sent app] in *. split; [|split; [done|split; [by apply Hd|done]]].
  cbn [map concat]. by rewrite Hs.
Qed.

(** What a harness gets of a client that sends [keys]: all of them, or nothing
    when the client is turned away. *)
Definition reaches (keys : list Z) (e : bool) (l : list Act) (mine : list Z) : Prop :=
  e = true /\ ((l = [Turned] /\ mine = []) \/
    exists id acts, l = Joined id Terminal :: acts ++ [Departed id] /\ inputs acts = keys /\ mine = keys).

(** A client that says hello as a terminal, and what it sends until it
    detaches. *)
Lemma frames_reach rows cols hello fs others theirs ok1 ok2 cs r more :
  (forall n s, input (others n s) = input s ++ theirs n) ->
  hello_text (mk_hello Terminal rows cols) = Ok hello -> Forall wf_frame fs -> ends_detached fs ->
  concat cs = concat (map encode_frame (mk_frame HELLO hello :: fs)) -> stops r ->
  gives theirs (client_thread event_json closed_json status_json hello_json clock others (fun _ => true) ok1 ok2 (map Bytes cs ++ r :: more))
    (reaches (typed fs)).
Proof.
  intros Ho Hh Hw Hd Hc Hr. destruct (hello_back _ _ Hh) as [Hb Hl].
  assert (H : does (client_thread event_json closed_json status_json hello_json clock others (fun _ => true) ok1 ok2 (map Bytes cs ++ r :: more))
    (fun e l => e = true /\ (l = [Turned] \/ exists id acts, l = Joined id Terminal :: acts ++ [Departed id] /\ inputs acts = typed fs))).
  { eapply does_conseq.
    - apply (client_thread_does event_json closed_json status_json hello_json clock others (fun _ => true) (mk_frame HELLO hello) fs [] cs r more ok1 ok2
        (fun j => snd j = Terminal)); [constructor; [by split; [split|]|done]|done|by rewrite Hc, app_nil_r|done|].
      intros s [id role]. unfold let_in, greet. cbn [Wire.kind payload]. rewrite Z.eqb_refl. unfold decode_json. rewrite Hb.
      destruct (bool_decide _); [done|]. by intros [= <- <-].
    - cbv beta. intros e l [-> [-> |(id & role & Hj & ->)]]; (split; [done|]); [by left|]. right. cbn [snd] in Hj. subst role.
      eexists id, _. split; [reflexivity|]. by apply served_detached. }
  pose proof (gives_does theirs _ _ (client_thread_says event_json closed_json status_json hello_json clock others
    (fun _ => true) theirs Ho ok1 ok2 (map Bytes cs ++ r :: more)) H) as Hg. intros w. destruct (Hg w) as (l & mine & Hcalls & Ht & Hi & (-> & Hl') & Hm).
  exists l, mine. do 3 (split; [done|]). split; [done|]. rewrite Hm.
  destruct Hl' as [-> |(id & acts & -> & He)]; [by left|]. right. exists id, acts. do 2 (split; [done|]).
  change (inputs (Joined id Terminal :: acts ++ [Departed id])) with (inputs (acts ++ [Departed id])).
  by rewrite inputs_app, He, app_nil_r.
Qed.

(** C27. End to end, what is typed in a terminal is what the harness reads:
    when the command line leaves a session, a supervisor that takes its
    connection as a terminal and no write of which fails has written to the
    harness's terminal, of this client's, exactly the keys before the first detach key, in order, among
    what the others typed meanwhile, however the terminal's reads and the
    socket's cut them, whatever the window does and whatever else the other
    threads of the supervisor do in between, and has let the client go; one it
    turns away has written nothing. *)
Theorem typing_reaches_the_harness resized stem size raw m reads lines o others theirs ok1 ok2 cs r more :
  (forall n s, input (others n s) = input s ++ theirs n) ->
  Forall fits reads -> run hello_text all_ok resized stem size raw false m reads = (lines, (Left 0, o)) ->
  concat cs = concat (sent o) -> stops r ->
  gives theirs (client_thread event_json closed_json status_json hello_json clock others (fun _ => true) ok1 ok2 (map Bytes cs ++ r :: more))
    (reaches (take_while is_key (fst (heard reads)))).
Proof.
  intros Ho Hf Hrun Hc Hr. destruct (run_leaves _ _ _ _ _ _ _ _ Hf Hrun) as (rows & cols & hello & fs & Hh & Hs & Hw & Hd & Ht).
  rewrite <- Ht. eapply frames_reach; [done|done|done|done|by rewrite Hc, Hs|done].
Qed.

End typing.

(** ** Examples *)

Definition sample_hello (h : Hello) : result (list Z) unit :=
  match h_role h with Terminal => Ok [0%Z; h_rows h; h_cols h] | Control => Err tt end.

(** The other threads write a line of the harness's output in between. *)
Definition sample_others (_ : nat) (s : Shared) : Shared := sample_run [PtyRead [36%Z; 32%Z]; FanOut] s.

(** At its eighth turn another terminal's thread writes a key. *)
Definition sample_typed (n : nat) : list Z := if (n =? 8)%nat then [63%Z] else [].

Definition sample_typists (n : nat) (s : Shared) : Shared := write_input (sample_typed n) s.

Definition sample_thread_among (others : nat -> Shared -> Shared) (cs : list (list Z)) : C bool :=
  client_thread (tag_json 0) (tag_json 1) (tag_json 2) hello_of (fun n => pretty n) others (fun _ => true) true true (map Bytes cs ++ [Eof]).

Definition sample_thread (cs : list (list Z)) : C bool :=
  client_thread (tag_json 0) (tag_json 1) (tag_json 2) hello_of (fun n => pretty n) sample_others (fun _ => true) true true (map Bytes cs ++ [Eof]).

Definition sample_fs : list Frame := [mk_frame INPUT [108%Z]; mk_frame RESIZE [0; 30; 0; 90]%Z; mk_frame DETACH []; mk_frame INPUT [33%Z]].

Definition sample_bytes : list Z := concat (map encode_frame (mk_frame HELLO [0; 24; 80]%Z :: sample_fs)).

Lemma clients_are_handled_in_order_witness :
  does (sample_thread [take 7 sample_bytes; drop 7 sample_bytes]) (fun e l => e = true /\
    (l = [Turned] \/ exists id role gs k, map fst gs = take k sample_fs
       /\ (k < length sample_fs -> exists f ok, last gs = Some (f, ok) /\ goes f ok = false)%nat
       /\ l = Joined id role :: map (fun x : Frame * bool => Framed (fst x) (snd x)) gs ++ [Departed id])).
Proof.
  apply (clients_are_handled_in_order (tag_json 0) (tag_json 1) (tag_json 2) hello_of (fun n => pretty n) sample_others (fun _ => true)
    (mk_frame HELLO [0; 24; 80]%Z) sample_fs []); [|done|reflexivity|by left].
  repeat (apply Forall_cons; split; [by apply short_frame|]). apply Forall_nil_2.
Defined.

Example a_client_is_served : fst (sample_thread [take 7 sample_bytes; drop 7 sample_bytes] (mk_world sample 0 [])) = true
  /\ calls (snd (sample_thread [take 7 sample_bytes; drop 7 sample_bytes] (mk_world sample 0 []))) =
     [Joined 1 Terminal; Framed (mk_frame INPUT [108%Z]) true; Framed (mk_frame RESIZE [0; 30; 0; 90]%Z) true; Framed (mk_frame DETACH []) true; Departed 1].
Proof. split; vm_compute; reflexivity. Qed.

Definition sample_setup : Setup := mk_setup true true None None (Some (24%Z, 80%Z)) true None.

(** A command, a key more, the detach key, and one nobody reads. *)
Definition sample_reads : list Read := [Bytes [108; 115]%Z; Interrupted; Bytes [13; 29; 120]%Z].

Definition sample_sent : list Z :=
  concat (sent (snd (snd (run sample_hello all_ok (fun _ => None) "s" None true false sample_setup sample_reads)))).

Lemma typing_reaches_the_harness_witness :
  gives sample_typed (sample_thread_among sample_typists [take 4 sample_sent; drop 4 sample_sent]) (reaches [108; 115; 13]%Z).
Proof.
  refine (typing_reaches_the_harness (tag_json 0) (tag_json 1) (tag_json 2) hello_of (fun n => pretty n) sample_hello _
    (fun _ => None) "s" None true sample_setup sample_reads _ _ sample_typists sample_typed true true _ Eof [] _ _ (eq_refl : _ = (_, (_, _))) _ _);
    [|done| |vm_compute; reflexivity|by left].
  2: { repeat (apply Forall_cons; split; [unfold fits, READ_BUF; cbn [read_bytes length]; lia|]). apply Forall_nil_2. }
  intros [[] rows cols] bytes; [|done]. intros [= <-]. split; [done|]. cbn. unfold MAX_PAYLOAD, u16_max. lia.
Defined.

Example the_keys_are_woven :
  input (store (snd (sample_thread_among sample_typists [take 4 sample_sent; drop 4 sample_sent] (mk_world sample 0 [])))) = [108; 115; 63; 13]%Z.
Proof. vm_compute. reflexivity. Qed.
