(* ===== verification/Output.v ===== *)
(** * From the harness to the screen

    Composes the supervisor's half (the pump, the filter, the replay ring and
    the queues of crates/willie-sess/src/server.rs, screen.rs and vt_filter.rs)
    with the output loop of crates/willie-cli/src/attach.rs: what a terminal
    that attaches to a running session shows, against what the harness wrote
    before it read the replay, before it entered the list of clients, and
    after. *)

From S2P Require Import Prelude Text VtFilter Screen Tally Wire Session Attach Supervisor.

Local Open Scope Z_scope.
Local Open Scope list_scope.
Local Open Scope willie_scope.

(** ** Specification *)


(** What the filter forwards of a whole stream. *)
Definition filtered (bytes : list Z) : list Z := let '(_, out, _) := feed VtFilter.new bytes in out.

(** What a terminal is caught up with after [out]: its last 256 KiB, nothing
    when the last switch of screens turned the alternate one on. *)
Definition caught_up (out : list Z) : list Z := if default false (last_switch out) then [] else lastn RING_BYTES out.

(** ** What the supervisor keeps of the output *)

Section output.
  Context {JErr : Type}.
  Context (event_json : SessionEvent -> result (list Z) JErr) (closed_json : Closed -> result (list Z) JErr)
    (status_json : Status -> result (list Z) JErr) (hello_json : list Z -> result Hello JErr)
    (clock : nat -> string) (instant : nat -> Z).

Abbreviation act := (act event_json closed_json status_json hello_json clock instant).
Abbreviation run_acts := (run_acts event_json closed_json status_json hello_json clock instant).
Abbreviation all_output := (all_output event_json closed_json status_json hello_json clock instant).
Abbreviation log_event := (log_event event_json clock).
Abbreviation apply_size := (apply_size event_json clock).



(** What is not the pump leaves the output alone, and what is not a joining
    client those on their way. *)
Definition still (s s' : Shared) : Prop :=
  filter_ s' = filter_ s /\ ring s' = ring s /\ alt s' = alt s /\ pumping s' = pumping s.

Definition parked (s s' : Shared) : Prop := still s s' /\ joining s' = joining s.

#[local] Instance still_preorder : PreOrder still.
Proof. split; [done|]. unfold still. intros s1 s2 s3. intuition congruence. Qed.

#[local] Instance parked_preorder : PreOrder parked.
Proof. split; [done|]. intros s1 s2 s3 [S1 J1] [S2 J2]. split; [by etrans|congruence]. Qed.























(** ** A client on its way *)













(** ** The screen *)




(** ** Theorem *)

Abbreviation next_bounds := (run_next event_json closed_json status_json hello_json clock instant).






End output.

(** ** Example *)








(** A terminal that attaches while the harness is on the alternate screen is
    given nothing to redraw over. *)
Example the_alternate_screen_is_not_replayed :
  caught_up (filtered [97; 27; 91; 63; 49; 48; 52; 57; 104; 98]) = []
  /\ caught_up (filtered [97; 27; 91; 63; 49; 48; 52; 57; 104; 98; 27; 91; 63; 49; 48; 52; 57; 108]) <> [].
Proof. by vm_compute. Qed.
