(* ===== verification/Doctor.v ===== *)
(** * The distribution's doctor

    Models crates/willie-linux/src/doctor.rs with the report of
    crates/willie-proto/src/daemon.rs and its printing by
    crates/willie-cli/src/main.rs: each check from what the machine answers, the
    verdict, the lines and the exit code. *)

From S2P Require Import Prelude Text Ascii Utf8 Sandbox Session Project Harness Plan Seccomp SessionTitle Effects Stage Report.

Local Open Scope string_scope.
Local Open Scope list_scope.

(** ** Data *)

Inductive CheckStatus : Type := CheckOk | CheckFail | CheckSkip.

#[export] Instance CheckStatus_eq_dec : EqDecision CheckStatus.
Proof. solve_decision. Defined.

Record DoctorCheck : Type := mk_check {
  d_name : string; d_status : CheckStatus; d_detail : string; d_remediation : option string; d_required : bool
}.

Definition DoctorReport : Type := list DoctorCheck.

Definition healthy (checks : DoctorReport) : bool :=
  negb (existsb (fun c => d_required c && bool_decide (d_status c = CheckFail)) checks).

(** ** The checks *)

Definition uid_unreadable (reason : string) : DoctorCheck :=
  mk_check "unprivileged user" CheckFail ("cannot read /proc/self/status: " +:+ reason)
    (Some "click Install distribution to reinstall the image") true.

Definition uid_of (text : string) : option Z :=
  match find_map (strip_prefix "Uid:") (lines text) with
  | Some rest => match split_whitespace rest with s :: _ => parse_unsigned u32_max s | [] => None end
  | None => None
  end.

Definition check_uid_text (proc_status : result string string) : DoctorCheck :=
  match proc_status with
  | Err reason => uid_unreadable reason
  | Ok text =>
      match uid_of text with
      | Some uid =>
          if (uid =? 0)%Z then
            mk_check "unprivileged user" CheckFail "running as root" (Some "start the daemon with `wsl.exe --user willie`") true
          else mk_check "unprivileged user" CheckOk ("uid " +:+ pretty uid) None true
      | None => uid_unreadable "no Uid line"
      end
  end.

Definition EOPNOTSUPP : Z := 95.

Definition landlock_answer (probe : result Z Z) : CheckStatus * string :=
  match probe with
  | Ok abi =>
      if (2 <=? abi)%Z then (CheckOk, "ABI " +:+ pretty abi)
      else (CheckSkip, "Landlock ABI " +:+ pretty abi +:+ " has no rename support; sandboxing will be reduced")
  | Err errno =>
      if ((errno =? ENOSYS) || (errno =? EOPNOTSUPP))%Z then (CheckSkip, "kernel without Landlock: sandboxing will be reduced")
      else (CheckSkip, "landlock_create_ruleset failed with errno " +:+ pretty errno +:+ "; sandboxing will be reduced")
  end.

Definition check_landlock (probe : result Z Z) : DoctorCheck :=
  let '(status, detail) := landlock_answer probe in mk_check "landlock" status detail None false.

(** A command's end: the words of its status with what it printed, or the
    system's words for not running it. *)
Inductive Ran : Type :=
| Succeeded (stdout : string)
| Exited (status : string)
| NotRun (error : string).

Definition first_said (stdout : string) : string :=
  default "ok" (List.find (fun l => negb (is_empty l)) (map trim (lines (from_utf8_lossy stdout)))).

Definition command_answer (name : string) (required : bool) (remediation : string) (r : Ran) : DoctorCheck :=
  match r with
  | Succeeded stdout => mk_check name CheckOk (first_said stdout) None required
  | Exited status => mk_check name CheckFail ("exit " +:+ status) (Some remediation) required
  | NotRun error => mk_check name CheckFail error (Some remediation) required
  end.

Definition dir_answer (name dir : string) (required : bool) (error : option string) : DoctorCheck :=
  match error with
  | None => mk_check name CheckOk dir None required
  | Some e =>
      mk_check name CheckFail (dir +:+ ": " +:+ e) (Some "run `sudo chown willie:willie /var/lib/willie /run/willie`") required
  end.

Definition STATE_DIR : string := "/var/lib/willie".
Definition RUN_DIR : string := "/run/willie".

Section doctor.
  (** The machine: /proc/self/status, the kernel's Landlock, a command, and
      the first failure of creating, writing and removing in a directory. *)
  Context (proc_status : result string string) (probe : result Z Z) (run : list string -> Ran)
    (create_dir_all : string -> option string) (write_file : string -> string -> option string) (remove_file : string -> option string).

Definition command_check (name : string) (argv : list string) (required : bool) (remediation : string) : DoctorCheck :=
  match argv with
  | [] => mk_check name CheckSkip "empty command" None required
  | _ => command_answer name required remediation (run argv)
  end.

Definition writable_dir_check (name dir : string) (required : bool) : DoctorCheck :=
  let file := path_join dir ".willie-doctor-probe" in
  dir_answer name dir required
    (match create_dir_all dir with
     | Some e => Some e
     | None => match write_file file "probe" with Some e => Some e | None => remove_file file end
     end).

Definition network_check : DoctorCheck :=
  command_check "network (api.anthropic.com)" ["curl"; "-sSI"; "-m"; "8"; "-o"; "/dev/null"; "https://api.anthropic.com"] false
    "no route to the API: proxy/CA propagation (engine → machine.env)".

Definition run_all : DoctorReport :=
  [check_uid_text proc_status;
   writable_dir_check "state dir" STATE_DIR true;
   writable_dir_check "run dir" RUN_DIR true;
   command_check "bubblewrap" ["bwrap"; "--version"] true "apt-get install bubblewrap (image bug: rebuild the distro)";
   command_check "git" ["git"; "--version"] true "image bug: rebuild the distro";
   command_check "curl" ["curl"; "--version"] true "image bug: rebuild the distro";
   command_check "user namespaces" ["unshare"; "-U"; "-r"; "true"] false "unprivileged user namespaces disabled; sandbox unavailable";
   check_landlock probe;
   network_check].

End doctor.

(** ** The printed report *)

Definition tag (s : CheckStatus) : string :=
  match s with CheckOk => "[ok ]" | CheckFail => "[FAIL]" | CheckSkip => "[skip]" end.

Fixpoint spaces (n : nat) : string := match n with O => EmptyString | S n => String " " (spaces n) end.

(** [{:<width}]: padded on the right, by characters. *)
Definition pad (width : nat) (s : string) : string := s +:+ spaces (width - length (char_list s)).

Definition render_check (c : DoctorCheck) : string :=
  pad 6 (tag (d_status c)) +:+ " " +:+ pad 28 (d_name c) +:+ " " +:+ d_detail c
  +:+ match d_status c, d_remediation c with CheckFail, Some hint => " → " +:+ hint | _, _ => EmptyString end.

Definition render (report : DoctorReport) : string :=
  concat_str (map (fun c => render_check c +:+ String newline EmptyString) report).

Definition EXIT_PRECONDITION : Z := 3.

Definition exit_code (report : DoctorReport) : Z := if healthy report then 0 else EXIT_PRECONDITION.

(** ** What the doctor says *)

(** A check that failed says what to do, and only such a check. *)
Definition advised (c : DoctorCheck) : Prop := is_Some (d_remediation c) <-> d_status c = CheckFail.

Definition plain_ran (r : Ran) : Prop :=
  match r with Succeeded _ => True | Exited s | NotRun s => contains_char newline s = false end.

Definition plain (s : string) : Prop := contains_char newline s = false.

Lemma first_said_plain stdout : plain (first_said stdout).
Proof.
  unfold plain, first_said. destruct (List.find _ _) as [l|] eqn:E; [|done]. apply List.find_some in E as [Hl _].
  apply in_map_iff in Hl as (x & <- & Hx). apply trim_no_char. pose proof (lines_no_newline (from_utf8_lossy stdout)) as H.
  rewrite Forall_forall in H. apply H. by apply list_elem_of_In.
Qed.

Lemma plain_app a b : plain a -> plain b -> plain (a +:+ b).
Proof. unfold plain. rewrite contains_char_parts. by intros -> ->. Qed.

Lemma pretty_plain (z : Z) : plain (pretty z).
Proof.
  assert (H : forall p, plain (pretty (Zpos p))).
  { intros p. pose proof (pretty_digits (Npos p) EmptyString eq_refl) as H. by apply digits_line in H as (_ & H & _). }
  destruct z as [|p|p]; [done|apply H|]. exact (plain_app "-" _ eq_refl (H p)).
Qed.

Lemma plain_spaces n : plain (spaces n).
Proof. induction n as [|n IH]; [done|]. exact (plain_app " " _ eq_refl IH). Qed.

Definition plain_check (c : DoctorCheck) : Prop :=
  plain (d_name c) /\ plain (d_detail c) /\ match d_remediation c with Some r => plain r | None => True end.

#[local] Hint Resolve plain_app pretty_plain plain_spaces first_said_plain : core.

Lemma render_check_plain c : plain_check c -> plain (render_check c).
Proof.
  intros (Hn & Hd & Hr). unfold render_check, pad. repeat apply plain_app; auto; try done; destruct (d_status c), (d_remediation c); try done; by apply (plain_app " → ").
Qed.

Section facts.
  Context (proc_status : result string string) (probe : result Z Z) (run : list string -> Ran)
    (create_dir_all : string -> option string) (write_file : string -> string -> option string) (remove_file : string -> option string).

Let report := run_all proc_status probe run create_dir_all write_file remove_file.

(** What is required of a distribution. *)
Definition unprivileged : bool :=
  match proc_status with Ok text => match uid_of text with Some uid => negb (uid =? 0)%Z | None => false end | Err _ => false end.

Definition writable (dir : string) : bool :=
  negb (is_some (create_dir_all dir)) && negb (is_some (write_file (path_join dir ".willie-doctor-probe") "probe"))
  && negb (is_some (remove_file (path_join dir ".willie-doctor-probe"))).

Definition runs (argv : list string) : bool := match run argv with Succeeded _ => true | _ => false end.

Definition fit : bool :=
  unprivileged && writable STATE_DIR && writable RUN_DIR && runs ["bwrap"; "--version"] && runs ["git"; "--version"] && runs ["curl"; "--version"].

(** Words of the system without a newline. *)
Definition plain_words : Prop :=
  (forall e, proc_status = Err e -> plain e) /\ (forall argv, plain_ran (run argv))
  /\ (forall d e, create_dir_all d = Some e -> plain e) /\ (forall f d e, write_file f d = Some e -> plain e)
  /\ (forall f e, remove_file f = Some e -> plain e).

(** Whether a check was passed, as its status says. *)
Definition ok_when (b : bool) (c : DoctorCheck) : Prop :=
  d_required c = true /\ (d_status c = CheckFail <-> b = false) /\ advised c.

Lemma failed_when name detail hint : ok_when false (mk_check name CheckFail detail (Some hint) true).
Proof. repeat split; by eexists. Qed.

Lemma passed_when name detail : ok_when true (mk_check name CheckOk detail None true).
Proof. repeat split; cbn; try done; by intros [? [=]]. Qed.

Lemma uid_check : ok_when unprivileged (check_uid_text proc_status).
Proof.
  unfold unprivileged, check_uid_text, uid_unreadable. destruct proc_status as [text|e]; [|apply failed_when].
  destruct (uid_of text) as [uid|]; [|apply failed_when]. destruct (uid =? 0)%Z; [apply failed_when|apply passed_when].
Qed.

Lemma dir_check name dir : ok_when (writable dir) (writable_dir_check create_dir_all write_file remove_file name dir true).
Proof.
  unfold writable, writable_dir_check, dir_answer. destruct (create_dir_all dir); [apply failed_when|].
  destruct (write_file _ _); [apply failed_when|]. destruct (remove_file _); [apply failed_when|apply passed_when].
Qed.

Lemma run_check name program args required hint :
  let c := command_check run name (program :: args) required hint in
  d_required c = required /\ (d_status c = CheckFail <-> runs (program :: args) = false) /\ advised c.
Proof.
  unfold advised, runs. cbn [command_check]. destruct (run (program :: args)); cbn; repeat split; try done; by intros [? [=]].
Qed.

Lemma landlock_check : d_required (check_landlock probe) = false /\ advised (check_landlock probe).
Proof.
  unfold advised, check_landlock. destruct (landlock_answer probe) as [s d] eqn:E. split; [done|]. cbn.
  enough (s <> CheckFail) by (split; [intros [? [=]]|done]).
  unfold landlock_answer in E. destruct probe as [abi|errno]; case_match; by injection E as <- <-.
Qed.

Lemma status_test c b : d_required c = true -> (d_status c = CheckFail <-> b = false) ->
  d_required c && bool_decide (d_status c = CheckFail) = negb b.
Proof. intros -> H. destruct b; cbn; [apply bool_decide_eq_false_2|apply bool_decide_eq_true_2]; intuition discriminate. Qed.

Lemma uid_plain : plain_words -> plain_check (check_uid_text proc_status).
Proof.
  intros (He & _). unfold check_uid_text, uid_unreadable. destruct proc_status as [text|e].
  - destruct (uid_of text) as [uid|]; [destruct (uid =? 0)%Z|]; repeat split; try done. by apply (plain_app "uid ").
  - split; [done|]. split; [by apply (plain_app "cannot read /proc/self/status: "), He|done].
Qed.

Lemma dir_plain name dir required : plain name -> plain dir -> plain_words ->
  plain_check (writable_dir_check create_dir_all write_file remove_file name dir required).
Proof.
  intros Hn Hd (_ & _ & Hc & Hw & Hr). unfold writable_dir_check, dir_answer.
  destruct (create_dir_all dir) eqn:?; [|destruct (write_file _ _) eqn:?; [|destruct (remove_file _) eqn:?]]; (split; [done|]); (split; [|done]); cbn;
    try done; apply plain_app; try done; apply (plain_app ": "); try done; first [by eapply Hc|by eapply Hw|by eapply Hr].
Qed.

Lemma run_plain name program args required hint : plain name -> plain hint -> plain_words ->
  plain_check (command_check run name (program :: args) required hint).
Proof.
  intros Hn Hh (_ & Hr & _). cbn [command_check]. specialize (Hr (program :: args)). destruct (run _) as [o|s|s]; cbn in *;
    (split; [done|]); (split; [cbn|done]); [auto|by apply (plain_app "exit ")|done].
Qed.

Lemma landlock_plain : plain_check (check_landlock probe).
Proof.
  unfold check_landlock. destruct (landlock_answer probe) as [s d] eqn:E. split; [done|]. split; [|done]. cbn.
  unfold landlock_answer in E. destruct probe as [abi|errno]; case_match; injection E as <- <-; try done; repeat apply plain_app; auto; done.
Qed.

Lemma render_lines l : Forall plain_check l -> split newline (render l) = map render_check l ++ [EmptyString].
Proof.
  induction 1 as [|c l Hc _ IH]; [done|]. unfold render in *. cbn [map concat_str app]. rewrite <- str_app_assoc, str_app_cons, str_app_nil_l.
  rewrite split_cons; [by rewrite IH|]. by apply render_check_plain.
Qed.

(** The doctor's exit code is 0 exactly when the process is not root, the
    two directories can be written and the helper, git and curl run, and 3
    otherwise: Landlock, user namespaces and the network never fail it.  Every
    failed check, and no other, says what to do; and the report is printed as
    one line per check, whatever the commands printed. *)
Theorem doctor_reports_the_machine :
  exit_code report = (if fit then 0%Z else EXIT_PRECONDITION) /\ Forall advised report
  /\ (plain_words -> split newline (render report) = map render_check report ++ [EmptyString]).
Proof.
  subst report. split; [|split].
  - unfold exit_code, healthy, run_all, network_check. cbn [existsb].
    destruct uid_check as (R1 & S1 & _), (dir_check "state dir" STATE_DIR) as (R2 & S2 & _), (dir_check "run dir" RUN_DIR) as (R3 & S3 & _).
    rewrite (status_test _ _ R1 S1), (status_test _ _ R2 S2), (status_test _ _ R3 S3).
    rewrite !(fun n p a h => status_test (command_check run n (p :: a) true h) _ (proj1 (run_check n p a true h)) (proj1 (proj2 (run_check n p a true h)))).
    rewrite !(fun n p a h => proj1 (run_check n p a false h)), (proj1 landlock_check). cbn [andb orb]. unfold fit.
    destruct unprivileged; [|done]. destruct (writable STATE_DIR); [|done]. destruct (writable RUN_DIR); [|done].
    destruct (runs ["bwrap"; "--version"]); [|done]. destruct (runs ["git"; "--version"]); [|done]. by destruct (runs ["curl"; "--version"]).
  - unfold run_all, network_check. repeat apply Forall_cons_2; try apply Forall_nil_2;
      first [apply uid_check|apply dir_check|apply run_check|apply landlock_check].
  - intros Hw. apply render_lines. unfold run_all, network_check. repeat apply Forall_cons_2; try apply Forall_nil_2;
      first [by apply uid_plain|by apply dir_plain|by apply run_plain|apply landlock_plain].
Qed.

End facts.
