(* ===== verification/Cli.v ===== *)
(** * The command line inside the distribution

    Models crates/willie-cli/src/main.rs and daemon_client.rs: the arguments,
    the exit codes, and [sandbox explain] over the daemon's socket, one request
    at a time.  Every effect is recorded with its answer.  [attach] itself is
    [Attach]'s, [doctor]'s report [Doctor]'s. *)

From S2P Require Import Prelude Text Ascii Json Rpc Effects Sandbox Project Workspace Wsl Engine Doctor.

Local Open Scope string_scope.
Local Open Scope list_scope.
Local Open Scope willie_scope.

(** ** The arguments *)

Inductive Command : Type :=
| Version
| Doctor (json : bool)
| Attach (target : string) (size : option (Z * Z)) (raw host : bool)
| SandboxExplain (project : string) (json : bool)
| Usage.

Definition parse_u16 (s : string) : option Z := parse_unsigned u16_max s.

(** Rows first, as [stty size] reports them. *)
Definition parse_size (text : string) : option (Z * Z) :=
  match split_once "x" text with
  | Some (rows, cols) =>
      match parse_u16 rows, parse_u16 cols with Some r, Some c => Some (r, c) | _, _ => None end
  | None => None
  end.

Fixpoint parse_attach_from (args : list string) (target : option string) (size : option (Z * Z)) (raw host : bool) : Command :=
  match args with
  | [] => match target with Some t => Attach t size raw host | None => Usage end
  | "--no-raw" :: rest => parse_attach_from rest target size false host
  | "--host" :: rest => parse_attach_from rest target size raw true
  | "--size" :: rest =>
      match rest with
      | v :: rest => match parse_size v with Some s => parse_attach_from rest target (Some s) raw host | None => Usage end
      | [] => Usage
      end
  | other :: rest =>
      if starts_with "-" other then Usage
      else match target with
           | None => parse_attach_from rest (Some other) size raw host
           | Some _ => Usage
           end
  end.

Definition parse_attach (args : list string) : Command := parse_attach_from args None None true false.

Definition parse (args : list string) : Command :=
  match args with
  | ["--version"] => Version
  | ["doctor"] => Doctor false
  | ["doctor"; "--json"] => Doctor true
  | ["sandbox"; "explain"; project] => SandboxExplain project false
  | ["sandbox"; "explain"; project; "--json"] => SandboxExplain project true
  | "attach" :: rest => parse_attach rest
  | _ => Usage
  end.

(** ** Places *)

Definition sessions_run_dir (run_dir : string) : string := path_join run_dir "sessions".

Definition session_socket (run_dir id : string) : string := path_join (sessions_run_dir run_dir) (id +:+ ".sock").

Definition daemon_socket (run_dir : string) : string := path_join run_dir "willied.sock".

Definition socket_for (target : string) : string :=
  if contains_char "/" target then target else session_socket RUN_DIR target.

Definition daemon_socket_path (var : option string) : string := daemon_socket (default RUN_DIR var).

(** ** Texts *)

Definition source_name (s : Source) : string :=
  match s with Default => "default" | Profile => "profile" | Unavailable => "unavailable" end.

Definition tab : string := String (ascii_of_nat 9) EmptyString.

Definition render_capabilities (entries : list Explained) : string :=
  join (String newline EmptyString)
    (map (fun e => display_name (capability e) +:+ tab +:+ (if e_enabled e then "on" else "off") +:+ tab +:+ source_name (Sandbox.source e)) entries).

Definition error_line (command : string) (e : RpcError) : string :=
  command +:+ ": " +:+ x_code e +:+ ": " +:+ x_message e
  +:+ match x_remediation e with Some hint => " → " +:+ hint | None => EmptyString end.

Definition consequence (c : Capability) : string :=
  match c with
  | ProjectRw => "the session edits the project, which is why it exists"
  | AgentState => "anything the agent runs can use the harness's login"
  | ToolsRo => "the agent runs the managed tools and cannot change them"
  | CachesRw => "package downloads survive between this project's sessions"
  | GitIdentity => "commits carry the user's name and address"
  | ExtraPaths => "each entry reaches outside the project, and is recorded in the session"
  | HomePersistent => "the home directory survives the session instead of being discarded with it"
  | Ssh => "the agent can use the user's ssh keys and agent socket"
  | MntAll => "the agent reaches every Windows drive"
  | WindowsInterop => "the agent runs Windows programs: towards Windows this is the same as no sandbox"
  end.

(** ** The client of the daemon's socket *)

(** An I/O error by the kinds the client tells apart, with its words. *)
Inductive Fault : Type :=
| Unreachable (text : string)
| Stalled
| OtherFault (text : string).

Definition TRANSPORT_REMEDIATION : string := "the daemon connection failed; run willie doctor and try again".

Definition transport (message : string) : RpcError := mk_rpc "daemon_transport" message (Some TRANSPORT_REMEDIATION).

Definition fault_text (stalled : string) (f : Fault) : string :=
  match f with Unreachable t | OtherFault t => t | Stalled => stalled end.

Inductive Act : Type :=
| Connected (socket : string) (fault : option Fault)
| Timed (fault : option Fault)
| Asked (id : Z) (method : string) (params : Json)
| Sent (line : string) (fault : option Fault)
| Got (reply : result string Fault)
| Out (text : string)
| ErrOut (text : string).

(** What a reply of [sandbox.explain] carries. *)
Record ExplainResult : Type := mk_explain { entries : list Explained; explained : Json }.

Section client.
  Context {S : Type} (others : nat -> S -> S).
  (** The socket, the words of a stalled call, and the codecs. *)
  Context (connect : string -> S -> option Fault * S) (set_timeouts : S -> option Fault)
    (write_line : string -> S -> option Fault * S) (read_line : S -> result string Fault * S)
    (stalled : string).
  Context (print_request : RpcRequest -> result string string) (parse_response : string -> result Response string)
    (hello_params : Json) (explain_params : N -> result Json string)
    (hello_reply : Json -> result unit string) (projects_of : Json -> result (list (string * N)) string)
    (explain_of : Json -> result ExplainResult string) (explain_json : ExplainResult -> result string string)
    (error_json : RpcError -> result string string) (ulid_from_string : string -> option N).

Definition C (A : Type) : Type := M S Act A.

Definition effect {A} (rec : A -> Act) (f : S -> A * S) : C A := perform others (fun a => [rec a]) f.

Definition say (a : Act) : C unit := perform others (fun _ => [a]) (fun s => (tt, s)).

Definition transport_error (f : Fault) : RpcError := transport ("cannot reach the daemon: " +:+ fault_text stalled f).

Definition connect_error (f : Fault) : RpcError :=
  match f with
  | Unreachable text =>
      mk_rpc "daemon_unreachable" ("cannot reach the daemon's socket: " +:+ text)
        (Some "open the Willie app; the daemon runs while it is open")
  | _ => transport_error f
  end.

Definition timeout_or_transport (f : Fault) : RpcError :=
  match f with
  | Stalled =>
      mk_rpc "daemon_timeout" "the daemon did not answer in ten seconds"
        (Some "the daemon did not answer in time; run willie doctor if it repeats")
  | _ => transport_error f
  end.

Definition encode_error (e : string) : RpcError := transport ("cannot encode the request: " +:+ e).

Definition decode_error (e : string) : RpcError := transport ("cannot decode the daemon's reply: " +:+ e).

Definition client_connect (socket : string) : C (result unit RpcError) :=
  let* f := effect (Connected socket) (connect socket) in
  match f with
  | Some f => ret (Err (connect_error f))
  | None =>
      let* f := effect Timed (fun s => (set_timeouts s, s)) in
      match f with Some f => ret (Err (transport_error f)) | None => ret (Ok tt) end
  end.

(** The reply to a line just written; [id] is the last one used. *)
Definition await_reply {A} (decode : Json -> result A string) : C (result A RpcError) :=
  let* r := effect Got read_line in
  match r with
  | Err f => ret (Err (timeout_or_transport f))
  | Ok line =>
      if is_empty line then ret (Err (transport "the daemon closed the connection without replying"))
      else
        match parse_response line with
        | Err e => ret (Err (decode_error e))
        | Ok response =>
            ret (match a_outcome response with
                 | Err e => Err e
                 | Ok v => map_err decode_error (decode v)
                 end)
        end
  end.

Definition client_call {A} (id : Z) (method : string) (params : result Json string) (decode : Json -> result A string) :
    C (result A RpcError) :=
  match params with
  | Err e => ret (Err (encode_error e))
  | Ok params =>
      match print_request (mk_rpc_request (wrap64 (id + 1)) method params) with
      | Err e => ret (Err (encode_error e))
      | Ok line =>
          let* _ := say (Asked (wrap64 (id + 1)) method params) in
          let* f := effect (Sent (line +:+ String newline EmptyString)) (write_line (line +:+ String newline EmptyString)) in
          match f with
          | Some f => ret (Err (timeout_or_transport f))
          | None => await_reply decode
          end
      end
  end.

(** ** [sandbox explain] *)

Definition SLUG_HINT : string := "check the slug against the Projects screen, or pass the proj_ id".

Definition not_found (message : string) : RpcError := mk_rpc "project_not_found" message (Some SLUG_HINT).

(** The project with the client's last id: a malformed id is not found, a slug
    is looked up in the daemon's list. *)
Definition resolve_project (id : Z) (project : string) : C (result (N * Z) RpcError) :=
  if starts_with "proj_" project then
    ret (match id_from_str ulid_from_string KProject project with
         | Ok p => Ok (p, id)
         | Err _ => Err (not_found "the id is not a valid project id")
         end)
  else
    let! list := client_call id "project.list" (Ok (JObject [])) projects_of in
    ret (match List.find (fun p => bool_decide (fst p = project)) list with
         | Some p => Ok (snd p, wrap64 (id + 1))
         | None => Err (not_found "no project has that slug; the slug is the workspace directory name under ~/projects")
         end).

Definition fetch_explain (var : option string) (project : string) : C (result ExplainResult RpcError) :=
  let! _ := client_connect (daemon_socket_path var) in
  let! _ := client_call 0 "daemon.hello" (Ok hello_params) hello_reply in
  let! found := resolve_project 1 project in
  client_call (snd found) "sandbox.explain" (explain_params (fst found)) explain_of.

Definition EXIT_FAILURE : Z := 1.

Fixpoint consequences (l : list Explained) : C unit :=
  match l with
  | [] => ret tt
  | e :: l =>
      let* _ := say (ErrOut ("  " +:+ display_name (capability e) +:+ ": " +:+ consequence (capability e))) in consequences l
  end.

Definition sandbox_explain (var : option string) (project : string) (json : bool) : C Z :=
  let* r := fetch_explain var project in
  match r with
  | Ok reply =>
      if json then
        match explain_json reply with
        | Ok text => let* _ := say (Out text) in ret 0%Z
        | Err e => let* _ := say (ErrOut ("willie sandbox explain: cannot encode reply: " +:+ e)) in ret EXIT_FAILURE
        end
      else
        let* _ := say (ErrOut ("capability" +:+ tab +:+ "state" +:+ tab +:+ "source")) in
        let* _ := say (Out (render_capabilities (entries reply))) in
        let* _ := consequences (entries reply) in
        ret 0%Z
  | Err e =>
      let* _ :=
        say (ErrOut (if json then match error_json e with Ok text => text | Err x => "willie sandbox explain: cannot encode error: " +:+ x end
                     else error_line "willie sandbox explain" e)) in
      ret EXIT_FAILURE
  end.

(** *** The entry point *)

(** The report of the machine with its JSON, and an attachment. *)
Context (run_all : S -> DoctorReport) (report_json : DoctorReport -> result string string)
  (attach : string -> option (Z * Z) -> bool -> bool -> C Z) (VERSION : string).

Definition EXIT_USAGE : Z := 2.

Definition USAGE_LINE : string :=
  "usage: willie attach [--no-raw] [--size ROWSxCOLS] [--host] <session-id|socket> | willie doctor [--json] | willie sandbox explain <project> [--json] | willie --version".

Definition doctor (json : bool) : C Z :=
  let* report := perform others (fun _ => []) (fun s => (run_all s, s)) in
  if json then
    match report_json report with
    | Ok text => let* _ := say (Out text) in ret (exit_code report)
    | Err e => let* _ := say (ErrOut ("willie doctor: cannot encode report: " +:+ e)) in ret EXIT_FAILURE
    end
  else let* _ := say (Out (Doctor.render report)) in ret (exit_code report).

Definition main (var : option string) (args : list string) : C Z :=
  match parse args with
  | Version => let* _ := say (Out ("willie " +:+ VERSION)) in ret 0%Z
  | Doctor json => doctor json
  | Attach target size raw host => attach (socket_for target) size raw host
  | SandboxExplain project json => sandbox_explain var project json
  | Usage => let* _ := say (ErrOut USAGE_LINE) in ret EXIT_USAGE
  end.

(** The doctor's exit code is the same for a reader and for a program, unless
    the report cannot be printed. *)
Lemma doctor_exits json w : (forall r, is_ok (report_json r) = true) ->
  fst (doctor json w) = fst (doctor (negb json) w).
Proof.
  intros Hj. unfold doctor, perform, bind, say, ret. cbn. destruct json; cbn;
    (destruct (report_json _) eqn:E; [done|]); specialize (Hj (run_all (others (ticks w) (store w)))); by rewrite E in Hj.
Qed.

End client.

(** ** What the explanation asks and says *)

Definition asked_of (a : Act) : option (Z * string) := match a with Asked id method _ => Some (id, method) | _ => None end.
Definition out_of (a : Act) : option string := match a with Out text => Some text | _ => None end.
Definition err_of (a : Act) : option string := match a with ErrOut text => Some text | _ => None end.

Definition plan (project : string) : list (Z * string) :=
  if starts_with "proj_" project then [(1, "daemon.hello"); (2, "sandbox.explain")]%Z
  else [(1, "daemon.hello"); (2, "project.list"); (3, "sandbox.explain")]%Z.

Section explaining.
  Context {S : Type} (others : nat -> S -> S).
  Context (connect : string -> S -> option Fault * S) (set_timeouts : S -> option Fault)
    (write_line : string -> S -> option Fault * S) (read_line : S -> result string Fault * S)
    (stalled : string).
  Context (print_request : RpcRequest -> result string string) (parse_response : string -> result Response string)
    (hello_params : Json) (explain_params : N -> result Json string)
    (hello_reply : Json -> result unit string) (projects_of : Json -> result (list (string * N)) string)
    (explain_of : Json -> result ExplainResult string) (explain_json : ExplainResult -> result string string)
    (error_json : RpcError -> result string string) (ulid_from_string : string -> option N).

(** A call asks once, unless its request cannot be written as JSON. *)
Definition call_trace {A} (id : Z) (method : string) (r : result A RpcError) (l : list Act) : Prop :=
  omap out_of l = [] /\ omap err_of l = []
  /\ (omap asked_of l = [(wrap64 (id + 1), method)] \/ omap asked_of l = [] /\ is_ok r = false).

Lemma daemon_client_call_does {A} id method params (decode : Json -> result A string) :
  does (client_call others write_line read_line stalled print_request parse_response id method params decode) (call_trace id method).
Proof.
  unfold client_call, await_reply, effect, say. repeat walk1; unfold call_trace; cbn; auto.
Qed.

Lemma client_connect_does socket :
  does (client_connect others connect set_timeouts stalled socket) (fun _ l => omap out_of l = [] /\ omap err_of l = [] /\ omap asked_of l = []).
Proof. unfold client_connect, effect. repeat walk1; done. Qed.

(** What a part asks of a plan: the beginning of it, and all of it when it
    succeeds, with nothing printed; and what it answers. *)
Definition follows {A} (Q : A -> Prop) (l0 : list (Z * string)) (r : result A RpcError) (l : list Act) : Prop :=
  omap out_of l = [] /\ omap err_of l = [] /\ (exists rest, l0 = omap asked_of l ++ rest /\ forall a, r = Ok a -> rest = [] /\ Q a).

Definition any {A} (a : A) : Prop := True.

Lemma call_follows {A} id method params (decode : Json -> result A string) :
  does (client_call others write_line read_line stalled print_request parse_response id method params decode)
    (follows any [(wrap64 (id + 1), method)]).
Proof.
  apply (does_conseq _ _ _ (daemon_client_call_does id method params decode)). intros r l (Ho & He & Ha). split; [done|]. split; [done|].
  destruct Ha as [Ha|[Ha Hr]]; rewrite Ha; [by exists []|]. eexists. split; [reflexivity|]. by destruct r.
Qed.

Lemma follows_bind {A B} Q R l1 l2 (m : M S Act (result A RpcError)) (k : A -> M S Act (result B RpcError)) :
  does m (follows Q l1) -> (forall a, Q a -> does (k a) (follows R l2)) -> does (bind_result m k) (follows R (l1 ++ l2)).
Proof.
  intros Hm Hk. unfold bind_result. apply (does_bind _ _ _ _ Hm). intros [a|e] l (Ho & He & rest & Hl & Hr).
  - destruct (Hr a eq_refl) as [-> Hq]. apply (does_conseq _ _ _ (Hk a Hq)). intros r l' (Ho' & He' & rest' & Hl' & Hr'). rewrite app_nil_r in Hl.
    unfold follows. rewrite !omap_app, Ho, He, Ho', He'. split; [done|]. split; [done|]. exists rest'. by rewrite Hl, Hl', <- app_assoc.
  - apply does_ret. rewrite app_nil_r. split; [done|]. split; [done|]. exists (rest ++ l2). by rewrite Hl, <- app_assoc.
Qed.

Lemma follows_ret {A} (Q : A -> Prop) (r : result A RpcError) : (forall a, r = Ok a -> Q a) -> does (S := S) (ret r) (follows Q []).
Proof. intros H. apply does_ret. split; [done|]. split; [done|]. exists []. split; [done|]. intros a Ha. split; [done|]. by apply H. Qed.

Lemma resolve_follows project :
  does (resolve_project others write_line read_line stalled print_request parse_response projects_of ulid_from_string 1 project)
    (follows (fun found => snd found = if starts_with "proj_" project then 1%Z else 2%Z)
      (if starts_with "proj_" project then [] else [(2%Z, "project.list")])).
Proof.
  unfold resolve_project. destruct (starts_with "proj_" project).
  - apply follows_ret. intros [p n]. by destruct (id_from_str _ _ _); intros [= <- <-].
  - change [(2%Z, "project.list")] with ([(wrap64 (1 + 1), "project.list")] ++ []). eapply follows_bind; [apply call_follows|].
    intros list _. apply follows_ret. intros [p n]. by destruct (List.find _ list); intros [= <- <-].
Qed.

Lemma fetch_follows var project :
  does (fetch_explain others connect set_timeouts write_line read_line stalled print_request parse_response
    hello_params explain_params hello_reply projects_of explain_of ulid_from_string var project) (follows any (plan project)).
Proof.
  unfold fetch_explain. change (plan project) with ([] ++ plan project). eapply (follows_bind any).
  { apply (does_conseq _ _ _ (client_connect_does _)). intros r l (Ho & He & Ha). split; [done|]. split; [done|].
    exists []. by rewrite Ha. }
  intros _ _. pose proof (resolve_follows project) as Hr. unfold plan. destruct (starts_with "proj_" project).
  - change [(1, "daemon.hello"); (2, "sandbox.explain")]%Z with ([(wrap64 (0 + 1), "daemon.hello")] ++ [] ++ [(wrap64 (1 + 1), "sandbox.explain")])%Z.
    eapply follows_bind; [apply call_follows|]. intros _ _. eapply follows_bind; [exact Hr|]. intros [p n] Hn. cbn in Hn. subst n. apply call_follows.
  - change [(1, "daemon.hello"); (2, "project.list"); (3, "sandbox.explain")]%Z
      with ([(wrap64 (0 + 1), "daemon.hello")] ++ [(2, "project.list")] ++ [(wrap64 (2 + 1), "sandbox.explain")])%Z.
    eapply follows_bind; [apply call_follows|]. intros _ _. eapply follows_bind; [exact Hr|]. intros [p n] Hn. cbn in Hn. subst n. apply call_follows.
Qed.

Lemma consequences_does l : does (consequences others l) (fun _ tr => omap out_of tr = [] /\ omap asked_of tr = []
  /\ omap err_of tr = map (fun e => "  " +:+ display_name (capability e) +:+ ": " +:+ consequence (capability e)) l).
Proof.
  induction l as [|e l IH]; [by apply does_ret|]. cbn [consequences]. unfold say at 1. walk1.
  apply (does_conseq _ _ _ IH). intros _ tr (Ho & Ha & He). cbn. by rewrite Ho, Ha, He.
Qed.

(** The last line of a refusal. *)
Definition complaint (json : bool) (e : RpcError) : string :=
  if json then match error_json e with Ok text => text | Err x => "willie sandbox explain: cannot encode error: " +:+ x end
  else error_line "willie sandbox explain" e.

(** [sandbox explain] asks the daemon for nothing but a greeting, the list
    of projects when it was given a slug, and the explanation, each at most
    once, in this order and numbered from 1; so it starts no session and
    changes nothing.  It exits 0 exactly when it was answered and the answer
    could be printed, with that answer alone on standard output; otherwise it
    exits 1, prints nothing there and complains once, with the error's code. *)
Theorem explain_only_asks var project json :
  does (sandbox_explain others connect set_timeouts write_line read_line stalled print_request parse_response
    hello_params explain_params hello_reply projects_of explain_of explain_json error_json ulid_from_string var project json)
    (fun code l => exists rest, plan project = omap asked_of l ++ rest /\
      (code = 0%Z /\ rest = [] /\ (exists reply text, omap out_of l = [text] /\
         (if json then explain_json reply = Ok text else text = render_capabilities (entries reply)))
       \/ code = 1%Z /\ omap out_of l = [] /\ exists said, omap err_of l = [said] /\
         ((exists e, said = complaint json e)
          \/ exists reply x, explain_json reply = Err x /\ said = "willie sandbox explain: cannot encode reply: " +:+ x))).
Proof.
  unfold sandbox_explain. apply (does_bind _ _ _ _ (fetch_follows var project)). intros [reply|e] l (Ho & He & rest & Hl & Hr).
  - destruct (Hr reply eq_refl) as [-> _]. destruct json.
    + destruct (explain_json reply) as [text|x] eqn:Ej; unfold say; repeat walk1; exists []; rewrite !omap_app, Ho, ?He, Hl; cbn;
        rewrite !app_nil_r; (split; [done|]); [left|right]; (split; [done|]); (split; [done|]); [by exists reply, text|].
      eexists. split; [reflexivity|]. right. by exists reply, x.
    + unfold say at 1 2. do 2 walk1. eapply does_bind; [apply consequences_does|]. intros [] tr (Ho' & Ha' & _). apply does_ret.
      exists []. rewrite !omap_app, Ho, Ho', Ha', Hl. cbn. rewrite !app_nil_r. split; [done|]. left. split; [done|]. split; [done|].
      by exists reply, (render_capabilities (entries reply)).
  - unfold say. repeat walk1. exists rest. rewrite !omap_app, Ho, He, Hl. cbn. rewrite !app_nil_r. split; [done|]. right. split; [done|].
    split; [done|]. eexists. split; [reflexivity|]. left. by exists e.
Qed.

End explaining.

(** ** The arguments read back *)

Inductive Opt : Type := NoRaw | Host | Size (rows cols : Z) | Target (t : string).

Definition show_opt (o : Opt) : list string :=
  match o with
  | NoRaw => ["--no-raw"]
  | Host => ["--host"]
  | Size rows cols => ["--size"; pretty rows +:+ "x" +:+ pretty cols]
  | Target t => [t]
  end.

Definition u16 (z : Z) : Prop := (0 <= z <= u16_max)%Z.

Definition wf_opt (o : Opt) : Prop :=
  match o with Size rows cols => u16 rows /\ u16 cols | Target t => starts_with "-" t = false | _ => True end.

Definition target_of (o : Opt) : option string := match o with Target t => Some t | _ => None end.
Definition size_of (o : Opt) : option (Z * Z) := match o with Size r c => Some (r, c) | _ => None end.
Definition is_no_raw (o : Opt) : bool := match o with NoRaw => true | _ => false end.
Definition is_host (o : Opt) : bool := match o with Host => true | _ => false end.

Lemma pretty_u16 z : u16 z -> parse_u16 (pretty z) = Some z /\ contains_char "x" (pretty z) = false.
Proof.
  intros Hz. destruct (pretty_number u16_max z Hz) as (Hd & He & Hp). split.
  - unfold parse_u16, parse_unsigned. destruct (digits_line _ Hd) as (_ & _ & H). destruct (H He) as (_ & _ & Hs). by rewrite Hs, He.
  - revert Hd. clear. induction (pretty z) as [|a s IH]; [done|]. cbn [str_forallb]. intros [Ha Hs]%andb_true_iff.
    apply contains_char_false_cons. split; [|by apply IH]. intros ->. discriminate Ha.
Qed.

Lemma find_x a b : contains_char "x" a = false -> Text.find "x" (a +:+ "x" +:+ b) = Some (String.length a).
Proof.
  intros H. induction a as [|y a IH]; [done|]. apply contains_char_false_cons in H as [Hy Ha]. rewrite str_app_cons, find_cons.
  rewrite starts_with_cons, bool_decide_eq_false_2 by done. cbn. by rewrite IH.
Qed.

Lemma parse_show_size rows cols : u16 rows -> u16 cols -> parse_size (pretty rows +:+ "x" +:+ pretty cols) = Some (rows, cols).
Proof.
  intros Hr Hc. destruct (pretty_u16 rows Hr) as [Pr Xr], (pretty_u16 cols Hc) as [Pc _].
  unfold parse_size, split_once. rewrite find_x by done. rewrite str_take_app.
  change (String.length "x") with 1%nat. rewrite (str_app_assoc (pretty rows)).
  replace (String.length (pretty rows) + 1)%nat with (String.length (pretty rows +:+ "x")) by (by rewrite str_length_app).
  by rewrite str_drop_app, Pr, Pc.
Qed.

(** What is no option is the target. *)
Lemma parse_target t rest target size raw host : starts_with "-" t = false ->
  parse_attach_from (t :: rest) target size raw host =
  match target with None => parse_attach_from rest (Some t) size raw host | Some _ => Usage end.
Proof.
  intros H. destruct t as [|c t]; [done|]. cbn [parse_attach_from].
  destruct c as [[] [] [] [] [] [] [] []]; try discriminate H; reflexivity.
Qed.

Definition parsed (opts : list Opt) (target : option string) (size : option (Z * Z)) (raw host : bool) : Command :=
  match option_list target ++ omap target_of opts with
  | [t] => Attach t (match last (omap size_of opts) with Some s => Some s | None => size end)
             (raw && negb (existsb is_no_raw opts)) (host || existsb is_host opts)
  | _ => Usage
  end.

Lemma parse_opts opts : forall target size raw host, Forall wf_opt opts ->
  parse_attach_from (concat (map show_opt opts)) target size raw host = parsed opts target size raw host.
Proof.
  induction opts as [|o opts IH]; intros target size raw host Hw.
  - unfold parsed. cbn. rewrite andb_true_r, orb_false_r. by destruct target.
  - inversion Hw as [|? ? Ho Hopts]; subst. cbn [map concat]. destruct o as [| |rows cols|t]; cbn [show_opt app] in *.
    + cbn [parse_attach_from]. rewrite IH by done. unfold parsed. cbn. by rewrite andb_false_r.
    + cbn [parse_attach_from]. rewrite IH by done. unfold parsed. cbn. by rewrite orb_true_r.
    + destruct Ho as [Hr Hc]. cbn [parse_attach_from]. rewrite parse_show_size, IH by done. unfold parsed.
      cbn [omap list_omap target_of size_of existsb is_no_raw is_host orb]. destruct (option_list target ++ _) as [|t [|? ?]]; try done.
      f_equal. destruct (omap size_of opts) as [|s l]; [done|]. rewrite last_cons_cons.
      destruct (last (s :: l)) eqn:El; [done|]. by apply last_None in El.
    + rewrite parse_target by done. destruct target as [t'|]; [|by rewrite IH].
      unfold parsed. cbn. by destruct (omap target_of opts).
Qed.

(** The arguments of [attach] are read back whatever their order and
    however often they are given: one target that is no option makes the
    command, with the last size, raw unless it was refused, for a host if
    asked; no target or two are a usage error.  What the application launches
    in a terminal and embedded is read as just that session. *)
Theorem attach_args_read_back opts id : Forall wf_opt opts -> starts_with "-" id = false ->
  parse ("attach" :: concat (map show_opt opts)) =
    match omap target_of opts with
    | [t] => Attach t (last (omap size_of opts)) (negb (existsb is_no_raw opts)) (existsb is_host opts)
    | _ => Usage
    end
  /\ parse (drop 6 (attach_argv id)) = Attach id None true false
  /\ parse (drop 6 (attach_host_argv id)) = Attach id None true true.
Proof.
  intros Hw Hid. split; [|split].
  - change (parse ("attach" :: ?l)) with (parse_attach l). unfold parse_attach. rewrite parse_opts by done. unfold parsed.
    cbn [option_list app]. destruct (omap target_of opts) as [|t [|? ?]]; [done| |done]. by destruct (last (omap size_of opts)).
  - change (parse (drop 6 (attach_argv id))) with (parse_attach [id]). unfold parse_attach. by rewrite parse_target.
  - change (parse (drop 6 (attach_host_argv id))) with (parse_attach [id; "--host"]). unfold parse_attach. by rewrite parse_target.
Qed.

Lemma attach_args_read_back_witness :
  parse ["attach"; "--size"; "30x100"; "sess_1"; "--no-raw"; "--size"; "24x80"] = Attach "sess_1" (Some (24, 80)%Z) false false.
Proof.
  refine (proj1 (attach_args_read_back [Size 30 100; Target "sess_1"; NoRaw; Size 24 80] "sess_1" _ eq_refl)).
  repeat constructor; cbn; unfold u16, u16_max; lia.
Defined.

(** A capability is one line of three fields. *)
Lemma capability_lines l : l <> [] -> split newline (render_capabilities l) =
  map (fun e => display_name (capability e) +:+ tab +:+ (if e_enabled e then "on" else "off") +:+ tab +:+ source_name (Sandbox.source e)) l.
Proof.
  intros Hne. unfold render_capabilities. apply split_join; [by destruct l|]. apply Forall_map, Forall_forall. intros [c en s] _. cbn.
  by destruct c, en, s.
Qed.
