(* ===== verification/Pump.v ===== *)
(** * The application's event pump

    Models apps/willie-app/src-tauri/src/events.rs with [subscribe_events] of
    state.rs: any number of commands end by making sure that one thread forwards
    the daemon's notifications to the webview, while daemons come and go.  A
    thread is where it stands in [establish] and [pump_loop]; a channel is what
    it still holds.  [step] is one atomic move of one thread, of a daemon or of
    the engine. *)

From S2P Require Import Prelude.

Local Open Scope list_scope.

(** ** State *)

Inductive Pc : Type :=
| Swapping                (* before the swap of the flag *)
| Subscribing             (* won it *)
| Resetting               (* nothing to watch: the flag is still set *)
| Spawning (r : nat)      (* subscribed, before the thread *)
| Looping (r : nat)       (* in [pump_loop] *)
| Done.

Section pump.
  Context {T : Type}.

(** An [RpcClient]: whether its reader runs and the engine holds it; its
    subscribers' channels live as long as one of the two does. *)
Record Client : Type := mk_client { reading : bool; held : bool }.

(** A subscription: to which client, and what is still to be received. *)
Record Channel : Type := mk_channel { of_client : nat; queue : list T }.

Record App : Type := mk_app {
  alive : bool;
  threads : list Pc;
  clients : list Client;
  live : option nat;
  channels : list Channel;
  shown : list T
}.

Definition start : App := mk_app false [] [] None [] [].

Definition set_alive (b : bool) (a : App) : App := mk_app b (threads a) (clients a) (live a) (channels a) (shown a).

Definition set_thread (i : nat) (pc : Pc) (a : App) : App :=
  mk_app (alive a) (<[i := pc]> (threads a)) (clients a) (live a) (channels a) (shown a).

Definition set_channels (l : list Channel) (a : App) : App := mk_app (alive a) (threads a) (clients a) (live a) l (shown a).

(** ** Moves *)

Inductive Move : Type :=
| Ensure                             (* a command has succeeded *)
| Swap (i : nat)
| Subscribe (i : nat) (locked : bool)    (* whether the engine's lock is sound *)
| Spawn (i : nat) (spawned : bool)
| Emit (i : nat)                     (* one item received and emitted *)
| Over (i : nat)                     (* the receiver finds its senders gone *)
| Reset (i : nat)
| Said (c : nat) (n : T)             (* a daemon's notification is routed *)
| Ended (c : nat)                    (* a reader at the end of its stream *)
| Started                            (* the engine has a new client *)
| Dropped.                           (* and has put it down *)

(** [tx.send]: to every channel of the client. *)
Definition deliver (c : nat) (n : T) (l : list Channel) : list Channel :=
  map (fun ch => if bool_decide (of_client ch = c) then mk_channel (of_client ch) (queue ch ++ [n]) else ch) l.

(** No sender is left. *)
Definition over (a : App) (ch : Channel) : bool :=
  match clients a !! of_client ch with Some c => negb (reading c) && negb (held c) | None => true end.

Definition set_client (c : nat) (x : Client) (a : App) : App :=
  mk_app (alive a) (threads a) (<[c := x]> (clients a)) (live a) (channels a) (shown a).

(** What a thread does next; nothing where it does not stand there. *)
Definition step (m : Move) (a : App) : option App :=
  match m with
  | Ensure => Some (mk_app (alive a) (threads a ++ [Swapping]) (clients a) (live a) (channels a) (shown a))
  | Swap i =>
      match threads a !! i with
      | Some Swapping => Some (if alive a then set_thread i Done a else set_alive true (set_thread i Subscribing a))
      | _ => None
      end
  | Subscribe i locked =>
      match threads a !! i with
      | Some Subscribing =>
          match live a with
          | Some c =>
              if locked then Some (set_channels (channels a ++ [mk_channel c []]) (set_thread i (Spawning (length (channels a))) a))
              else Some (set_thread i Resetting a)
          | None => Some (set_thread i Resetting a)
          end
      | _ => None
      end
  | Spawn i spawned =>
      match threads a !! i with
      | Some (Spawning r) => Some (set_thread i (if spawned : bool then Looping r else Resetting) a)
      | _ => None
      end
  | Emit i =>
      match threads a !! i with
      | Some (Looping r) =>
          match channels a !! r with
          | Some (mk_channel c (n :: q)) =>
              Some (mk_app (alive a) (threads a) (clients a) (live a) (<[r := mk_channel c q]> (channels a)) (shown a ++ [n]))
          | _ => None
          end
      | _ => None
      end
  | Over i =>
      match threads a !! i with
      | Some (Looping r) =>
          match channels a !! r with
          | Some (mk_channel c []) => if over a (mk_channel c []) then Some (set_thread i Resetting a) else None
          | _ => None
          end
      | _ => None
      end
  | Reset i =>
      match threads a !! i with
      | Some Resetting => Some (set_alive false (set_thread i Done a))
      | _ => None
      end
  | Said c n =>
      match clients a !! c with
      | Some (mk_client true _) => Some (set_channels (deliver c n (channels a)) a)
      | _ => None
      end
  | Ended c =>
      match clients a !! c with
      | Some (mk_client true h) => Some (set_client c (mk_client false h) a)
      | _ => None
      end
  | Started =>
      match live a with
      | None => Some (mk_app (alive a) (threads a) (clients a ++ [mk_client true true]) (Some (length (clients a))) (channels a) (shown a))
      | Some _ => None
      end
  | Dropped =>
      match live a with
      | Some c =>
          match clients a !! c with
          | Some (mk_client rd _) =>
              Some (let a := set_client c (mk_client rd false) a in mk_app (alive a) (threads a) (clients a) None (channels a) (shown a))
          | None => None
          end
      | None => None
      end
  end.

(** A run, oldest move first. *)
Fixpoint run (ms : list Move) (a : App) : option App :=
  match ms with
  | [] => Some a
  | m :: ms => step m a ≫= run ms
  end.

(** ** Specification *)

Definition busy (pc : Pc) : bool := match pc with Swapping | Done => false | _ => true end.

(** What has been said, and by one daemon. *)
Definition said (ms : list Move) : list T := omap (fun m => match m with Said _ n => Some n | _ => None end) ms.

Definition said_by (c : nat) (ms : list Move) : list T :=
  omap (fun m => match m with Said c' n => if bool_decide (c' = c) then Some n else None | _ => None end) ms.

Definition receiver (pc : Pc) : option nat := match pc with Spawning r | Looping r => Some r | _ => None end.

(** The item the busy thread still holds for the webview. *)
Definition pending (a : App) (pc : Pc) : list T :=
  match receiver pc with Some r => match channels a !! r with Some ch => queue ch | None => [] end | None => [] end.

Lemma run_moves_app ms ms' a : run (ms ++ ms') a = run ms a ≫= run ms'.
Proof. revert a. induction ms as [|m ms IH]; intros a; [done|]. cbn. destruct (step m a); [apply IH|done]. Qed.

Lemma said_snoc ms m : said (ms ++ [m]) = said ms ++ said [m].
Proof. unfold said. by rewrite omap_app. Qed.

Lemma said_by_snoc c ms m : said_by c (ms ++ [m]) = said_by c ms ++ said_by c [m].
Proof. unfold said_by. by rewrite omap_app. Qed.

(** ** One pump at a time *)

(** The one busy thread, if any: exactly then the flag is set. *)
Definition stands (a : App) (w : option (nat * Pc)) : Prop :=
  alive a = bool_decide (is_Some w) /\
  (forall i pc, w = Some (i, pc) -> threads a !! i = Some pc /\ busy pc = true) /\
  (forall j pc, threads a !! j = Some pc -> busy pc = true -> w = Some (j, pc)).

Lemma insert_cases (l : list Pc) i j pc pc0 pc' : l !! i = Some pc0 -> <[i := pc]> l !! j = Some pc' ->
  (j = i /\ pc' = pc) \/ (j <> i /\ l !! j = Some pc').
Proof.
  intros Hi H. destruct (decide (i = j)) as [<-|Hn]; [|right; by rewrite list_lookup_insert_ne in H].
  rewrite list_lookup_insert_eq in H by (by eapply lookup_lt_Some). left. by injection H.
Qed.

Lemma insert_here (l : list Pc) i pc pc0 : l !! i = Some pc0 -> <[i := pc]> l !! i = Some pc.
Proof. intros H. apply list_lookup_insert_eq. by eapply lookup_lt_Some. Qed.

Lemma stands_idle a w i pc0 pc : threads a !! i = Some pc0 -> busy pc0 = false -> busy pc = false ->
  stands a w -> stands (set_thread i pc a) w.
Proof.
  intros Hi H0 H1 (Ha & Hw & Hb). split; [done|]. split.
  - intros j pcj Hj. destruct (Hw j pcj Hj) as [Hl Hbj]. split; [|done]. cbn [threads set_thread].
    rewrite list_lookup_insert_ne; [done|]. intros ->. congruence.
  - intros j pcj Hj Hbj. destruct (insert_cases _ _ _ _ _ _ Hi Hj) as [[_ ->]|[_ Hl]]; [congruence|by apply Hb].
Qed.

Lemma stands_busy a w i pc0 : threads a !! i = Some pc0 -> busy pc0 = true -> stands a w -> w = Some (i, pc0) /\ alive a = true.
Proof. intros Hi H0 (Ha & _ & Hb). rewrite Ha, (Hb i pc0) by done. done. Qed.

Lemma stands_move a i pc0 pc b : threads a !! i = Some pc0 -> busy pc = b -> stands a (if busy pc0 then Some (i, pc0) else None) ->
  stands (set_alive b (set_thread i pc a)) (if b then Some (i, pc) else None).
Proof.
  intros Hi Hb (_ & _ & Hu). split; [by destruct b|]. split.
  - intros j pcj. destruct b; [|done]. intros [= <- <-]. split; [by eapply insert_here|done].
  - intros j pcj Hj Hbj. destruct (insert_cases _ _ _ _ _ _ Hi Hj) as [[-> ->]|[Hn Hl]]; [by destruct b; [|congruence]|].
    specialize (Hu j pcj Hl Hbj). destruct (busy pc0); [by injection Hu|done].
Qed.

(** ** What the webview is shown *)

Definition hold (a : App) (w : option (nat * Pc)) : list T := match w with Some (_, pc) => pending a pc | None => [] end.

(** Since the subscription: what was shown, and what is still to be, is what
    that daemon has said. *)
Definition fed (ms : list Move) (a : App) (w : option (nat * Pc)) : Prop :=
  forall i pc r, w = Some (i, pc) -> receiver pc = Some r -> exists ms1 ms2 a1 c q,
    channels a !! r = Some (mk_channel c q) /\ ms = ms1 ++ Subscribe i true :: ms2 /\ run ms1 start = Some a1
    /\ live a1 = Some c /\ shown a ++ q = shown a1 ++ said_by c ms2.

Definition inv (ms : list Move) (a : App) : Prop :=
  exists w, stands a w /\ shown a ++ hold a w `sublist_of` said ms /\ fed ms a w.

Lemma stands_same a a' w : alive a' = alive a -> threads a' = threads a -> stands a w -> stands a' w.
Proof. unfold stands. intros -> ->. done. Qed.

Lemma stands_alive a w : stands a w -> alive a = bool_decide (is_Some w).
Proof. by intros [H _]. Qed.

(** A move that no subscription sees. *)
Lemma inv_unseen ms m a a' w w' : stands a' w' -> shown a' = shown a -> shown a ++ hold a' w' `sublist_of` said ms ->
  (forall c, said_by c [m] = []) -> said [m] = [] ->
  (forall i pc r, w' = Some (i, pc) -> receiver pc = Some r -> channels a' !! r = channels a !! r /\ exists pc0, w = Some (i, pc0) /\ receiver pc0 = Some r) ->
  fed ms a w -> inv (ms ++ [m]) a'.
Proof.
  intros Hs Hsh Hl Hc Hn Hk Hf. exists w'. split; [done|]. rewrite Hsh, said_snoc, Hn, app_nil_r. split; [done|].
  intros i pc r Hw Hr. destruct (Hk i pc r Hw Hr) as (Hch & pc0 & Hw0 & Hr0).
  destruct (Hf i pc0 r Hw0 Hr0) as (ms1 & ms2 & a1 & c & q & H1 & -> & H2 & H3 & H4).
  exists ms1, (ms2 ++ [m]), a1, c, q. rewrite Hch, <- app_assoc, Hsh, said_by_snoc, Hc, app_nil_r. done.
Qed.

(** Nor does it touch the threads. *)
Lemma inv_aside ms m a a' : inv ms a -> alive a' = alive a -> threads a' = threads a -> channels a' = channels a -> shown a' = shown a ->
  (forall c, said_by c [m] = []) -> said [m] = [] -> inv (ms ++ [m]) a'.
Proof.
  intros (w & Hs & Hl & Hf) Ha Ht Hc Hsh Hb Hn. apply (inv_unseen ms m a a' w w); try done; [by eapply stands_same| |].
  - unfold hold, pending in *. by rewrite Hc.
  - intros i pc r Hw Hr. rewrite Hc. split; [done|]. by exists pc.
Qed.

(** The worker's own moves; [hold] may only shrink. *)
Lemma inv_worker ms m a i pc0 pc b : inv ms a -> threads a !! i = Some pc0 -> busy pc = b ->
  (busy pc0 = false -> alive a = false) -> (receiver pc = None \/ receiver pc = receiver pc0) ->
  (forall c, said_by c [m] = []) -> said [m] = [] -> inv (ms ++ [m]) (set_alive b (set_thread i pc a)).
Proof.
  intros (w & Hs & Hl & Hf) Hi Hb H0 Hr Hc Hn.
  assert (Hw : w = if busy pc0 then Some (i, pc0) else None).
  { destruct (busy pc0) eqn:E; [by eapply stands_busy|]. pose proof (stands_alive a w Hs) as Ha. rewrite H0 in Ha by done.
    symmetry in Ha. apply bool_decide_eq_false in Ha. by apply eq_None_not_Some. }
  subst w. apply (inv_unseen ms m a _ (if busy pc0 then Some (i, pc0) else None) (if b then Some (i, pc) else None)); try done.
  - by eapply stands_move.
  - destruct b; cbn [hold]; unfold pending in *; cbn [channels set_alive set_thread].
    + destruct Hr as [->| ->].
      * rewrite app_nil_r. etrans; [|exact Hl]. apply sublist_inserts_r. done.
      * destruct (busy pc0) eqn:E; [exact Hl|]. destruct pc0; try discriminate E; exact Hl.
    + rewrite app_nil_r. etrans; [|exact Hl]. apply sublist_inserts_r. done.
  - intros j pcj r Hj Hrj. destruct b; [|done]. injection Hj as <- <-. split; [done|]. destruct Hr as [Hr|Hr]; [congruence|].
    rewrite Hr in Hrj. exists pc0. destruct pc0; try discriminate Hrj; by split.
Qed.

Lemma worker_alive ms a i pc : inv ms a -> threads a !! i = Some pc -> busy pc = true -> alive a = true.
Proof. intros (w & Hs & _) Hi Hb. by eapply stands_busy. Qed.

(** A busy thread that stays busy. *)
Lemma inv_on ms m a i pc0 pc : inv ms a -> threads a !! i = Some pc0 -> busy pc0 = true -> busy pc = true ->
  (receiver pc = None \/ receiver pc = receiver pc0) -> (forall c, said_by c [m] = []) -> said [m] = [] ->
  inv (ms ++ [m]) (set_thread i pc a).
Proof.
  intros Hv Hi H0 H1 Hr Hc Hn. replace (set_thread i pc a) with (set_alive true (set_thread i pc a)).
  - apply (inv_worker ms m a i pc0 pc true); try done. by rewrite H0.
  - unfold set_alive. cbn. by rewrite <- (worker_alive ms a i pc0).
Qed.

Lemma inv_subscribe ms a i c : run ms start = Some a -> inv ms a -> threads a !! i = Some Subscribing -> live a = Some c ->
  inv (ms ++ [Subscribe i true]) (set_channels (channels a ++ [mk_channel c []]) (set_thread i (Spawning (length (channels a))) a)).
Proof.
  intros Hrun (w & Hs & Hl & Hf) Hi Hc. destruct (stands_busy a w i Subscribing Hi eq_refl Hs) as [-> Ha].
  assert (Hch : (channels a ++ [mk_channel c []]) !! length (channels a) = Some (mk_channel c [])) by by apply list_lookup_middle.
  exists (Some (i, Spawning (length (channels a)))). split; [|split].
  - eapply stands_same; [..|exact (stands_move a i Subscribing (Spawning _) true Hi eq_refl Hs)]; [by cbn|done].
  - rewrite said_snoc. unfold hold, pending, said in *. cbn in *. by rewrite Hch, !app_nil_r in *.
  - intros j pc r [= <- <-] [= <-]. exists ms, [], a, c, []. cbn. rewrite Hch. done.
Qed.

Lemma inv_emit ms a i r c n q : inv ms a -> threads a !! i = Some (Looping r) -> channels a !! r = Some (mk_channel c (n :: q)) ->
  inv (ms ++ [Emit i]) (mk_app (alive a) (threads a) (clients a) (live a) (<[r := mk_channel c q]> (channels a)) (shown a ++ [n])).
Proof.
  intros (w & Hs & Hl & Hf) Hi Hch. destruct (stands_busy a w i (Looping r) Hi eq_refl Hs) as [-> _].
  assert (Hch' : <[r := mk_channel c q]> (channels a) !! r = Some (mk_channel c q)).
  { apply list_lookup_insert_eq. by eapply lookup_lt_Some. }
  exists (Some (i, Looping r)). split; [by eapply stands_same|]. split.
  - rewrite said_snoc. unfold hold, pending in *. cbn in *. rewrite Hch in Hl. rewrite Hch', app_nil_r, <- app_assoc. exact Hl.
  - intros j pc r' [= <- <-] [= <-]. destruct (Hf i (Looping r) r eq_refl eq_refl) as (ms1 & ms2 & a1 & c1 & q1 & H1 & -> & H2 & H3 & H4).
    rewrite Hch in H1. injection H1 as <- <-. exists ms1, (ms2 ++ [Emit i]), a1, c, q. rewrite <- app_assoc, said_by_snoc, app_nil_r.
    split; [done|]. split; [done|]. split; [done|]. split; [done|]. cbn. by rewrite <- H4, <- app_assoc.
Qed.

Lemma deliver_lookup c n l r : deliver c n l !! r =
  (fun ch => if bool_decide (of_client ch = c) then mk_channel (of_client ch) (queue ch ++ [n]) else ch) <$> l !! r.
Proof. apply list_lookup_fmap. Qed.

Lemma inv_said ms a c n : inv ms a -> inv (ms ++ [Said c n]) (set_channels (deliver c n (channels a)) a).
Proof.
  intros (w & Hs & Hl & Hf). exists w. split; [by eapply stands_same|]. split.
  - rewrite said_snoc. cbn [said omap list_omap]. unfold hold, pending in *. destruct w as [[i pc]|]; cbn [channels set_channels shown].
    2: { rewrite app_nil_r in *. by apply sublist_inserts_r. }
    destruct (receiver pc) as [r|]; [|rewrite app_nil_r in *; by apply sublist_inserts_r].
    rewrite deliver_lookup. destruct (channels a !! r) as [ch|]; cbn; [|rewrite app_nil_r in *; by apply sublist_inserts_r].
    case_bool_decide; cbn [queue]; [|by apply sublist_inserts_r]. rewrite app_assoc. by apply sublist_app.
  - intros i pc r Hw Hr. destruct (Hf i pc r Hw Hr) as (ms1 & ms2 & a1 & c1 & q & H1 & -> & H2 & H3 & H4).
    exists ms1, (ms2 ++ [Said c n]), a1, c1, (if bool_decide (c1 = c) then q ++ [n] else q). cbn [channels set_channels shown].
    rewrite deliver_lookup, H1, <- app_assoc, said_by_snoc. cbn [fmap option_fmap option_map of_client queue said_by omap list_omap].
    split; [by case_bool_decide|]. split; [done|]. split; [done|]. split; [done|]. rewrite app_assoc, <- H4.
    destruct (decide (c1 = c)) as [->|Hn].
    + rewrite !bool_decide_eq_true_2 by done. by rewrite app_assoc.
    + rewrite !bool_decide_eq_false_2 by congruence. by rewrite app_nil_r.
Qed.

Lemma inv_ensure ms a : inv ms a ->
  inv (ms ++ [Ensure]) (mk_app (alive a) (threads a ++ [Swapping]) (clients a) (live a) (channels a) (shown a)).
Proof.
  intros (w & Hs & Hl & Hf). apply (inv_unseen ms Ensure a _ w w); try done; [|intros i pc r Hw Hr; split; [done|by exists pc]].
  destruct Hs as (Ha & Hw & Hb). split; [done|]. split; cbn [threads].
  - intros i pc Hi. destruct (Hw i pc Hi) as [H1 H2]. split; [by apply lookup_app_l_Some|done].
  - intros j pc Hj Hbj. apply lookup_snoc_Some in Hj as [[_ Hj]|[_ <-]]; [by apply Hb|done].
Qed.

Lemma inv_step ms m a a' : run ms start = Some a -> inv ms a -> step m a = Some a' -> inv (ms ++ [m]) a'.
Proof.
  intros Hrun Hv Hm. destruct m as [|i|i locked|i spawned|i|i|i|c n|c| |]; cbn [step] in Hm.
  - injection Hm as <-. by apply inv_ensure.
  - destruct (threads a !! i) as [[]|] eqn:Hi; try discriminate Hm. injection Hm as <-. destruct (alive a) eqn:Ha.
    + destruct Hv as (w & Hs & Hl & Hf). apply (inv_unseen ms _ a _ w w); try done; [by eapply stands_idle|].
      intros j pc r Hw Hr. split; [done|by exists pc].
    + apply (inv_worker ms _ a i Swapping Subscribing true); try done. by left.
  - destruct (threads a !! i) as [[]|] eqn:Hi; try discriminate Hm.
    assert (Hno : inv (ms ++ [Subscribe i locked]) (set_thread i Resetting a)) by (eapply inv_on; [exact Hv|exact Hi|done|done|by left|done|done]).
    destruct (live a) as [c|] eqn:Hc; [|by injection Hm as <-]. destruct locked; injection Hm as <-; [by apply inv_subscribe|done].
  - destruct (threads a !! i) as [[| | |r| |]|] eqn:Hi; try discriminate Hm. injection Hm as <-.
    destruct spawned; (eapply inv_on; [exact Hv|exact Hi|done|done| |done|done]); [by right|by left].
  - destruct (threads a !! i) as [[| | | |r|]|] eqn:Hi; try discriminate Hm.
    destruct (channels a !! r) as [[c [|n q]]|] eqn:Hch; try discriminate Hm. injection Hm as <-. by eapply inv_emit.
  - destruct (threads a !! i) as [[| | | |r|]|] eqn:Hi; try discriminate Hm.
    destruct (channels a !! r) as [[c [|n q]]|] eqn:Hch; try discriminate Hm. destruct (over a _); [|discriminate Hm]. injection Hm as <-.
    eapply inv_on; [exact Hv|exact Hi|done|done|by left|done|done].
  - destruct (threads a !! i) as [[]|] eqn:Hi; try discriminate Hm. injection Hm as <-.
    apply (inv_worker ms _ a i Resetting Done false); try done. by left.
  - destruct (clients a !! c) as [[[] h]|]; try discriminate Hm. injection Hm as <-. by apply inv_said.
  - destruct (clients a !! c) as [[[] h]|]; try discriminate Hm. injection Hm as <-. by eapply inv_aside.
  - destruct (live a); [discriminate Hm|]. injection Hm as <-. by eapply inv_aside.
  - destruct (live a) as [c|]; [|discriminate Hm]. destruct (clients a !! c) as [[rd h]|]; [|discriminate Hm]. injection Hm as <-. by eapply inv_aside.
Qed.

Lemma run_inv ms a : run ms start = Some a -> inv ms a.
Proof.
  revert a. induction ms as [|m ms IH] using rev_ind; intros a H.
  - injection H as <-. exists None. split; [|by split]. split; [done|]. split; [done|]. intros j pc Hj. by destruct j.
  - rewrite run_moves_app in H. destruct (run ms start) as [a0|] eqn:E; [|done]. cbn in H. destruct (step m a0) as [a1|] eqn:Em; [|done].
    cbn in H. injection H as <-. by eapply inv_step; [exact E|apply IH|].
Qed.

(** C18. However commands, daemons and pumps interleave, one thread at most is
    between winning the flag and clearing it, and exactly then the flag is set:
    the webview is shown every notification at most once and in the order they
    were said.  From a subscription on, it is shown exactly what that daemon
    says, but for what the pump still has to receive. *)
Theorem one_pump_forwards ms a : run ms start = Some a ->
  (forall i j pi pj, threads a !! i = Some pi -> threads a !! j = Some pj -> busy pi = true -> busy pj = true -> i = j)
  /\ (alive a = true <-> exists i pc, threads a !! i = Some pc /\ busy pc = true)
  /\ shown a `sublist_of` said ms
  /\ (forall i r, threads a !! i = Some (Looping r) -> exists ms1 ms2 a1 c q,
        ms = ms1 ++ Subscribe i true :: ms2 /\ run ms1 start = Some a1 /\ live a1 = Some c /\ channels a !! r = Some (mk_channel c q)
        /\ shown a ++ q = shown a1 ++ said_by c ms2).
Proof.
  intros H. destruct (run_inv ms a H) as (w & (Ha & Hw & Hb) & Hl & Hf). split; [|split; [|split]].
  - intros i j pi pj Hi Hj Bi Bj. pose proof (Hb i pi Hi Bi) as Ei. pose proof (Hb j pj Hj Bj). congruence.
  - rewrite Ha, bool_decide_eq_true. split; [intros [[i pc] ->]; exists i, pc; by apply Hw|]. intros (i & pc & Hi & Bi). by exists (i, pc); apply Hb.
  - etrans; [|exact Hl]. by apply sublist_inserts_r.
  - intros i r Hi. destruct (Hf i (Looping r) r) as (ms1 & ms2 & a1 & c & q & H1 & H2 & H3 & H4 & H5); [by apply Hb|done|].
    exists ms1, ms2, a1, c, q. auto.
Qed.

(** A command that finds no pump brings one to the daemon there is. *)
Lemma ensure_attaches a c : alive a = false -> live a = Some c ->
  let i := length (threads a) in
  exists a', run [Ensure; Swap i; Subscribe i true; Spawn i true] a = Some a' /\
  threads a' !! i = Some (Looping (length (channels a))) /\ channels a' !! length (channels a) = Some (mk_channel c []).
Proof.
  intros Ha Hc. cbn zeta.
  assert (Hl : forall pc, <[length (threads a) := pc]> (threads a ++ [Swapping]) !! length (threads a) = Some pc)
    by (intros pc; by apply (insert_here _ _ _ Swapping), list_lookup_middle).
  eexists. unfold run, step. cbn [threads alive live channels mbind option_bind]. rewrite list_lookup_middle by done.
  rewrite Ha. unfold set_alive, set_channels, set_thread. cbn [mbind option_bind threads live channels alive]. rewrite Hl, Hc.
  cbn [mbind option_bind threads live channels alive]. rewrite list_insert_insert_eq, Hl. cbn [mbind option_bind]. split; [reflexivity|].
  cbn [threads channels]. rewrite list_insert_insert_eq. split; [apply Hl|by apply list_lookup_middle].
Qed.

End pump.

(** ** Examples *)

Lemma one_pump_forwards_witness :
  [7%N] `sublist_of` said [Started; Ensure; Swap 0; Subscribe 0 true; Spawn 0 true; Said 0 7%N; Ensure; Swap 1; Emit 0; Said 0 8%N].
Proof.
  exact (proj1 (proj2 (proj2 (one_pump_forwards
    [Started; Ensure; Swap 0; Subscribe 0 true; Spawn 0 true; Said 0 7%N; Ensure; Swap 1; Emit 0; Said 0 8%N]
    (mk_app true [Looping 0; Done] [mk_client true true] (Some 0) [mk_channel 0 [8%N]] [7%N]) eq_refl)))).
Defined.

(** A command that ends while the pump of the last daemon has found it gone but
    has not cleared the flag brings no pump: the new daemon runs unwatched
    until the next command. *)
Example a_late_ensure_brings_none :
  run [Started; Ensure; Swap 0; Subscribe 0 true; Spawn 0 true; Ended 0; Dropped; Over 0; Started; Ensure; Swap 1; Reset 0; Said 1 5%N] start
  = Some (mk_app false [Done; Done] [mk_client false false; mk_client true true] (Some 1) [mk_channel 0 []] []).
Proof. reflexivity. Qed.
