(* ===== verification/Config.v ===== *)
(** * The engine's own settings and the search for repositories

    Models crates/willie-engine/src/config.rs, the locations of paths.rs,
    discover.rs, and the methods of engine.rs over them.  The toml crate, the
    files and Windows' reading of a path are arguments. *)

From Stdlib Require Import Sorting.Sorted.
From S2P Require Import Prelude Text Effects Wsl Workspace.

Local Open Scope string_scope.
Local Open Scope list_scope.
Local Open Scope willie_scope.

(** ** Settings *)

Record Ui : Type := mk_ui { current_project : option N }.

Record EngineConfig : Type := mk_config { roots : list string; ui : Ui }.

Definition config_default : EngineConfig := mk_config [] (mk_ui None).

Definition data_dir (local_app_data : option string) : option string :=
  (fun base => win_join (win_join base "Willie") "data") <$> local_app_data.

Definition engine_toml_path (local_app_data : option string) : option string :=
  (fun d => win_join d "engine.toml") <$> data_dir local_app_data.

(** What the settings do to the disk. *)
Inductive Act : Type :=
| Read (path : string) (text : option string)
| Created (dir : string) (error : option string)
| Wrote (path text : string) (error : option string).

Section config.
  Context {S : Type} (others : nat -> S -> S).
  Context (read_to_string : string -> S -> option string) (create_dir_all : string -> S -> option string * S)
    (write_file : string -> string -> S -> option string * S).
  Context (from_toml : string -> option EngineConfig) (to_toml : EngineConfig -> result string string) (local_app_data : option string).

Definition K (A : Type) : Type := M S Act A.

(** A file that is not there or does not parse is the default. *)
Definition load (path : string) : K EngineConfig :=
  let* text := perform others (fun t => [Read path t]) (fun s => (read_to_string path s, s)) in
  ret (default config_default (text ≫= from_toml)).

(** [parent] is the directory of [path]. *)
Definition save (parent path : string) (c : EngineConfig) : K (result unit string) :=
  let* e := perform others (fun e => [Created parent e]) (create_dir_all parent) in
  match e with
  | Some e => ret (Err e)
  | None =>
      match to_toml c with
      | Err e => ret (Err e)
      | Ok text =>
          let* e := perform others (fun e => [Wrote path text e]) (write_file path text) in
          ret (match e with Some e => Err e | None => Ok tt end)
      end
  end.

Definition no_local_app_data : EngineError := EWsl (Unparseable "LOCALAPPDATA" EmptyString).

(** Load, modify, save. *)
Definition update (f : EngineConfig -> EngineConfig) : K (result unit EngineError) :=
  match data_dir local_app_data with
  | None => ret (Err no_local_app_data)
  | Some dir =>
      let path := win_join dir "engine.toml" in
      let* c := load path in
      let* r := save dir path (f c) in
      ret (map_err (EConfigWrite path) r)
  end.

Definition projects_roots : K (list string) :=
  match engine_toml_path local_app_data with
  | Some p => let* c := load p in ret (roots c)
  | None => ret []
  end.

Definition set_projects_roots (l : list string) : K (result unit EngineError) := update (fun c => mk_config l (ui c)).

Definition ui_prefs : K Ui :=
  match engine_toml_path local_app_data with
  | Some p => let* c := load p in ret (ui c)
  | None => ret (ui config_default)
  end.

Definition set_ui_prefs (u : Ui) : K (result unit EngineError) := update (fun c => mk_config (roots c) u).

(** *** What a change leaves on the disk *)

(** The one file is read, then written as changed; nothing else is. *)
Definition updated (f : EngineConfig -> EngineConfig) (r : result unit EngineError) (l : list Act) : Prop :=
  match data_dir local_app_data with
  | None => l = [] /\ r = Err no_local_app_data
  | Some dir => exists text e rest,
      l = Read (win_join dir "engine.toml") text :: Created dir e :: rest
      /\ (rest = [] \/ exists new e', rest = [Wrote (win_join dir "engine.toml") new e']
            /\ to_toml (f (default config_default (text ≫= from_toml))) = Ok new /\ (is_ok r = true <-> e' = None))
      /\ (is_ok r = true -> rest <> [])
  end.

Lemma update_does f : does (update f) (updated f).
Proof.
  unfold update, updated, load, save. destruct (data_dir local_app_data) as [dir|]; [|by apply does_ret].
  repeat walk1; eexists _, _, _; (split; [reflexivity|]); (split; [|done]); [by left|..|by left].
  right. exists a1, a2. split; [done|]. split; [done|]. by destruct a2.
Qed.
End config.

(** What one setting writes, the other setting's change keeps, when the file
    reads back; a file that does not parse loses the other table. *)
Lemma tables_are_kept (from_toml : string -> option EngineConfig) text c l u : from_toml text = Some c ->
  ui (mk_config l (ui (default config_default (Some text ≫= from_toml)))) = ui c
  /\ roots (mk_config (roots (default config_default (Some text ≫= from_toml))) u) = roots c.
Proof. cbn. by intros ->. Qed.

Lemma a_broken_file_loses_the_roots (from_toml : string -> option EngineConfig) text u : from_toml text = None ->
  roots (mk_config (roots (default config_default (Some text ≫= from_toml))) u) = [].
Proof. cbn. by intros ->. Qed.

(** ** Repositories under the roots *)

Record Candidate : Type := mk_candidate { c_path : string; c_name : string }.

#[export] Instance Candidate_eq_dec : EqDecision Candidate.
Proof. solve_decision. Defined.

Definition DISCOVER_MAX_DEPTH : nat := 2.

Section discover.
  (** What exists, what a directory lists (a name and whether it is one), and
      the last component and the printed form of a path. *)
  Context (exists_ : string -> bool) (read_dir : string -> option (list (string * bool)))
    (file_name : string -> option string) (lossy : string -> string).

Definition is_repository (dir : string) : bool := exists_ (win_join dir ".git").

Fixpoint walk (depth : nat) (dir : string) : list Candidate :=
  if is_repository dir then match file_name dir with Some name => [mk_candidate (lossy dir) name] | None => [] end
  else
    match depth with
    | O => []
    | S depth =>
        concat (map (fun e : string * bool => let (name, is_dir) := e in if is_dir then walk depth (win_join dir name) else [])
                 (default [] (read_dir dir)))
    end.

(** [dedup]. *)
Fixpoint dedup (l : list Candidate) : list Candidate :=
  match l with
  | [] => []
  | c :: l => match dedup l with
              | d :: l' => if decide (c = d) then d :: l' else c :: d :: l'
              | [] => [c]
              end
  end.

Definition discover (roots : list string) (max_depth : nat) : list Candidate :=
  dedup (sort_by_key c_path (concat (map (walk max_depth) roots))).

(** *** What is found *)

(** A repository below [dir], at most [depth] directories down and under no
    other. *)
Inductive lies : nat -> string -> string -> Prop :=
| lies_here depth dir : is_repository dir = true -> lies depth dir dir
| lies_below depth dir name entries repo : is_repository dir = false -> read_dir dir = Some entries -> (name, true) ∈ entries ->
    lies depth (win_join dir name) repo -> lies (S depth) dir repo.

Definition candidate_of (repo : string) : option Candidate := mk_candidate (lossy repo) <$> file_name repo.

Lemma found_here depth dir c : is_repository dir = true ->
  c ∈ match file_name dir with Some name => [mk_candidate (lossy dir) name] | None => [] end <->
  exists repo, lies depth dir repo /\ candidate_of repo = Some c.
Proof.
  intros E. transitivity (candidate_of dir = Some c).
  - unfold candidate_of. destruct (file_name dir); cbn; [|split; [by intros ?%elem_of_nil|done]].
    rewrite list_elem_of_singleton. split; [by intros ->|by intros [= <-]].
  - split; [intros H; exists dir; split; [by apply lies_here|done]|]. intros (repo & Hl & Hc). inversion Hl; subst; [done|congruence].
Qed.

Lemma walk_finds depth : forall dir c, c ∈ walk depth dir <-> exists repo, lies depth dir repo /\ candidate_of repo = Some c.
Proof.
  induction depth as [|depth IH]; intros dir c; cbn [walk]; destruct (is_repository dir) eqn:E.
  1, 3: by apply found_here.
  - split; [by intros ?%elem_of_nil|]. intros (repo & Hl & _). inversion Hl; congruence.
  - rewrite list_elem_of_In, in_concat. split.
    + intros (l & Hl & Hc). apply in_map_iff in Hl as ([name []] & <- & Hn); [|done]. apply list_elem_of_In, IH in Hc as (repo & Hr & Hc).
      exists repo. split; [|done]. destruct (read_dir dir) as [entries|] eqn:Er; [|done].
      eapply lies_below; [done|done|by apply list_elem_of_In|done].
    + intros (repo & Hl & Hc). inversion Hl as [|? ? name entries ? _ Hr Hn Hs]; subst; [congruence|].
      exists (walk depth (win_join dir name)). split; [|apply list_elem_of_In, IH; by exists repo].
      apply in_map_iff. exists (name, true). split; [done|]. rewrite Hr. by apply list_elem_of_In.
Qed.

Lemma dedup_elem l c : c ∈ dedup l <-> c ∈ l.
Proof.
  induction l as [|x l IH]; [done|]. cbn [dedup]. destruct (dedup l) as [|d l']; [|destruct (decide (x = d)) as [->|]];
    rewrite ?elem_of_cons, <- IH, ?elem_of_cons; set_solver.
Qed.

Lemma dedup_sorted l : sorted_by c_path l -> sorted_by c_path (dedup l).
Proof.
  induction 1 as [|x l Hs IH Hh]; [constructor|]. cbn [dedup]. destruct (dedup l) as [|d l'] eqn:E; [by repeat constructor|].
  destruct (decide (x = d)); [by subst|]. constructor; [done|]. constructor.
  destruct l as [|y l]; [done|]. inversion Hh as [|? ? Hxy]; subst. cbn [dedup] in E.
  destruct (dedup l) as [|z l'']; [by injection E as <- <-|]. destruct (decide (y = z)); injection E as <- <-; [by subst|done].
Qed.

(** The search lists exactly the repositories below the roots, at most
    the given number of directories down and under no other repository, whose
    last component can be told; in order of their paths, no two neighbours the
    same. *)
Theorem discover_finds_repositories roots depth c :
  (c ∈ discover roots depth <-> exists root repo, root ∈ roots /\ lies depth root repo /\ candidate_of repo = Some c)
  /\ sorted_by c_path (discover roots depth)
  /\ (forall l1 l2 x y, discover roots depth = l1 ++ x :: y :: l2 -> x <> y).
Proof.
  unfold discover. destruct (sort_by_key_spec c_path (concat (map (walk depth) roots))) as [Hp Hs]. split; [|split].
  - rewrite dedup_elem, Hp, list_elem_of_In, in_concat. split.
    + intros (l & (root & <- & Hr)%in_map_iff & Hc). apply list_elem_of_In, walk_finds in Hc as (repo & Hl & Hc).
      exists root, repo. split; [by apply list_elem_of_In|done].
    + intros (root & repo & Hr & Hl & Hc). exists (walk depth root). split; [apply in_map_iff; exists root; split; [done|by apply list_elem_of_In]|].
      apply list_elem_of_In, walk_finds. by exists repo.
  - by apply dedup_sorted.
  - generalize (sort_by_key c_path (concat (map (walk depth) roots))). clear. intros l. induction l as [|a l IH]; intros l1 l2 x y H.
    + by destruct l1.
    + cbn [dedup] in H. destruct (dedup l) as [|d l'] eqn:E; [by destruct l1 as [|? []]|]. destruct (decide (a = d)) as [->|Hn].
      * by eapply IH.
      * destruct l1 as [|? l1]; [by injection H as -> -> _|]. injection H as -> H. by eapply IH.
Qed.

End discover.
