(* ===== verification/Image.v ===== *)
(** * The distribution's image

    Models xtask/src/distro.rs with the path mapping of
    crates/willie-engine/src/paths.rs: pinning and fetching the base root file
    system by its digests, building the image in a throwaway distribution, and
    the script that replaces the binaries of a registered one.  Downloads,
    files, git, the hash and JSON are parameters; every effect is recorded with
    its answer. *)

From S2P Require Import Prelude Text Utf8 Json Project Wsl Config Effects.

Local Open Scope string_scope.
Local Open Scope list_scope.
Local Open Scope willie_scope.

Definition BASE_REPO : string := "debuerreotype/docker-debian-artifacts".
Definition BASE_BRANCH : string := "dist-amd64".
Definition BASE_DIR : string := "trixie/slim/oci".
Definition LOCK_PATH : string := "distro/base.lock".
Definition BUILDER_NAME : string := "willie-build".
Definition IMAGE_NAME : string := "willie-rootfs.tar.gz".

(** ** The lock *)

Record BaseLock : Type := mk_lock { url : string; commit : string; sha256 : string; pinned_at : string }.

(** [line.split_once('=')]. *)
Definition split_once (c : ascii) (s : string) : option (string * string) :=
  match split c s with
  | [] | [_] => None
  | p :: rest => Some (p, join (String c EmptyString) rest)
  end.

Record Fields : Type := mk_fields { f_url : option string; f_commit : option string; f_sha : option string; f_pinned : option string }.

Section lock.
  (** Unicode lower-casing. *)
  Context (to_lowercase : string -> string).

Definition set_field (key value : string) (f : Fields) : Fields :=
  if bool_decide (key = "url") then mk_fields (Some value) (f_commit f) (f_sha f) (f_pinned f)
  else if bool_decide (key = "commit") then mk_fields (f_url f) (Some value) (f_sha f) (f_pinned f)
  else if bool_decide (key = "sha256") then mk_fields (f_url f) (f_commit f) (Some (to_lowercase value)) (f_pinned f)
  else if bool_decide (key = "pinned_at") then mk_fields (f_url f) (f_commit f) (f_sha f) (Some value)
  else f.

Fixpoint parse_lines (lines : list string) (f : Fields) : result Fields string :=
  match lines with
  | [] => Ok f
  | l :: lines =>
      match split_once "=" l with
      | None => Err ("bad lock line `" +:+ l +:+ "`")
      | Some (key, value) => parse_lines lines (set_field (trim key) (trim value) f)
      end
  end.

Definition lock_lines (text : string) : list string :=
  List.filter (fun l => negb (is_empty l) && negb (starts_with "#" l)) (map trim (lines text)).

(** [BaseLock::parse]. *)
Definition parse (text : string) : result BaseLock string :=
  let? f := parse_lines (lock_lines text) (mk_fields None None None None) in
  let? url := ok_or "lock missing `url`" (f_url f) in
  let? commit := ok_or "lock missing `commit`" (f_commit f) in
  let? sha := ok_or "lock missing `sha256`" (f_sha f) in
  Ok (mk_lock url commit sha (default EmptyString (f_pinned f))).

Definition ends_line (s : string) : string := s +:+ String newline EmptyString.

(** [BaseLock::render]. *)
Definition render (l : BaseLock) : string :=
  ends_line "# Base root filesystem for the Willie distribution image." +:+
  ends_line "# Written by `cargo xtask distro pin`; verified by `distro fetch`." +:+
  ends_line ("url = " +:+ url l) +:+ ends_line ("commit = " +:+ commit l) +:+
  ends_line ("sha256 = " +:+ sha256 l) +:+ ends_line ("pinned_at = " +:+ pinned_at l).

End lock.

(** ** Digests *)

Definition verify_digest (what expected actual : string) : result unit string :=
  if bool_decide (expected = actual) then Ok tt
  else Err ("sha256 mismatch for " +:+ what +:+ ": expected " +:+ expected +:+ " got " +:+ actual).

Definition strip_sha256_prefix (digest : string) : result string string :=
  ok_or ("digest `" +:+ digest +:+ "` missing the `sha256:` prefix") (strip_prefix "sha256:" digest).

(** [value["key"]]: null where there is none. *)
Definition at_key (key : string) (v : Json) : Json := default JNull (value_get key v).

Definition is_text (s : string) (v : Json) : bool := match v with JString t => bool_decide (t = s) | _ => false end.

Definition is_linux_amd64 (m : Json) : bool :=
  is_text "linux" (at_key "os" (at_key "platform" m)) && is_text "amd64" (at_key "architecture" (at_key "platform" m)).

Definition choose_manifest (manifests : list Json) : result Json string :=
  match manifests with
  | [only] => Ok only
  | _ =>
      match List.filter is_linux_amd64 manifests with
      | [one] => Ok one
      | [] => Err "no linux/amd64 manifest in index"
      | many => Err (pretty (Z.of_nat (length many)) +:+ " linux/amd64 manifests in index, expected 1")
      end
  end.

Definition select_manifest_digest (index : Json) : result string string :=
  let? manifests := ok_or "index missing `manifests` array" (as_array (at_key "manifests" index)) in
  let? chosen := choose_manifest manifests in
  let? digest := ok_or "manifest entry missing `digest`" (as_str (at_key "digest" chosen)) in
  strip_sha256_prefix digest.

Definition ends_with (suffix s : string) : bool :=
  (String.length suffix <=? String.length s)%nat && bool_decide (str_drop (String.length s - String.length suffix) s = suffix).

Definition select_layer (manifest : Json) : result (string * string) string :=
  let? layers := ok_or "manifest missing `layers` array" (as_array (at_key "layers" manifest)) in
  match layers with
  | [layer] =>
      let? media_type := ok_or "layer missing `mediaType`" (as_str (at_key "mediaType" layer)) in
      if ends_with "tar+gzip" media_type then
        let? digest := ok_or "layer missing `digest`" (as_str (at_key "digest" layer)) in
        let? digest := strip_sha256_prefix digest in
        Ok (digest, media_type)
      else Err ("layer mediaType `" +:+ media_type +:+ "` is not tar+gzip")
  | _ => Err ("manifest has " +:+ pretty (Z.of_nat (length layers)) +:+ " layers, expected exactly 1")
  end.

(** ** Windows paths inside the distribution *)

(** What Windows makes of a path. *)
Inductive Component : Type :=
| Disk (letter : ascii)          (* a plain or a verbatim disk *)
| OtherPrefix
| RootDir
| Normal (part : string)
| Dots.

Fixpoint canonical (cs : list Component) (acc : string) : option string :=
  match cs with
  | [] => Some acc
  | RootDir :: cs => canonical cs acc
  | Normal part :: cs =>
      let acc := if ends_with_char "\" acc then acc else acc +:+ "\" in
      canonical cs (acc +:+ part)
  | _ :: _ => None
  end.

Definition to_wsl_path (components : string -> list Component) (windows : string) : option string :=
  match components windows with
  | Disk letter :: cs =>
      c ← canonical cs (String letter ":\");
      trim_end_matches "/" <$> windows_to_drvfs c
  | _ => None
  end.

(** ** Effects *)

Inductive ProgramOut : Type :=
| NotRun (e : string)
| Ended (success : bool) (status stdout stderr : string).

Inductive Act : Type :=
| MadeDir (path : string) (e : option string)
| Ran (program : string) (args : list string) (out : ProgramOut)
| ReadFile (path : string) (bytes : result string string)
| Wrote (path text : string) (e : option string)
| RemovedFile (path : string) (e : option string)
| ClearedDir (path : string) (e : option string)
| Looked (path : string) (there : bool)
| Cli (d : Did)
| Told (line : string).

Section image.
  Context {S : Type} (others : nat -> S -> S).
  Context (wsl : list string -> S -> CliOutput * S) (program : string -> list string -> S -> ProgramOut * S)
    (create_dir : string -> S -> option string * S) (read : string -> S -> result string string)
    (write : string -> string -> S -> option string * S) (remove_file clear_dir : string -> S -> option string * S) (is_file : string -> S -> bool).
  Context (hex_digest to_lowercase : string -> string) (from_slice : string -> result Json string) (components : string -> list Component)
    (parent : string -> string) (VERSION : string).

Definition I (A : Type) : Type := M S Act A.

Definition make_dir (path : string) : I (option string) := perform others (fun e => [MadeDir path e]) (create_dir path).
Definition run_program (name : string) (args : list string) : I ProgramOut := perform others (fun o => [Ran name args o]) (program name args).
Definition read_file (path : string) : I (result string string) := perform others (fun b => [ReadFile path b]) (fun s => (read path s, s)).
Definition write_file (path text : string) : I (option string) := perform others (fun e => [Wrote path text e]) (write path text).
Definition remove_path (path : string) : I (option string) := perform others (fun e => [RemovedFile path e]) (remove_file path).
Definition clear (path : string) : I (option string) := perform others (fun e => [ClearedDir path e]) (clear_dir path).
Definition look (path : string) : I bool := perform others (fun b => [Looked path b]) (fun s => (is_file path s, s)).
Definition tell (line : string) : I unit := perform others (fun _ => [Told line]) (fun s => (tt, s)).

(** An answer of [wsl.exe], its error as a text. *)
Definition cli {A} (m : M S Did (result A WslError)) : I (result A string) :=
  let* r := lift Cli m in ret (map_err wsl_message r).

Definition sha256_file (path : string) : I (result string string) :=
  let* b := read_file path in
  ret (match b with Ok bytes => Ok (hex_digest bytes) | Err e => Err ("cannot read " +:+ path +:+ ": " +:+ e) end).

Definition curl (u out : string) : I (result unit string) :=
  let* e := make_dir (parent out) in
  match e with
  | Some e => ret (Err ("cannot create " +:+ parent out +:+ ": " +:+ e))
  | None =>
      let* o := run_program "curl.exe" ["-fsSL"; "--retry"; "3"; "-o"; out; u] in
      ret (match o with
           | NotRun e => Err ("cannot run curl.exe: " +:+ e)
           | Ended true _ _ _ => Ok tt
           | Ended false status _ _ => Err ("download of " +:+ u +:+ " failed with " +:+ status)
           end)
  end.

Definition fetch_bytes (u : string) : I (result string string) :=
  let* o := run_program "curl.exe" ["-fsSL"; u] in
  ret (match o with
       | NotRun e => Err ("cannot run curl.exe: " +:+ e)
       | Ended true _ stdout _ => Ok stdout
       | Ended false status _ stderr =>
           Err ("download of " +:+ u +:+ " failed with " +:+ status +:+ ": " +:+ trim (from_utf8_lossy stderr))
       end).

Definition fetch_json (u : string) : I (result Json string) :=
  let! bytes := fetch_bytes u in
  ret (map_err (fun e => "cannot parse JSON from " +:+ u +:+ ": " +:+ e) (from_slice bytes)).

Definition is_ascii_hexdigit (a : ascii) : bool :=
  let b := nat_of_ascii a in ((48 <=? b) && (b <=? 57) || (65 <=? b) && (b <=? 70) || (97 <=? b) && (b <=? 102))%nat.

Definition current_commit : I (result string string) :=
  let api := "https://api.github.com/repos/" +:+ BASE_REPO +:+ "/commits/" +:+ BASE_BRANCH in
  let* o := run_program "curl.exe" ["-fsSL"; "-H"; "Accept: application/vnd.github.sha"; api] in
  ret (match o with
       | NotRun e => Err ("cannot run curl.exe: " +:+ e)
       | Ended false _ _ stderr => Err ("cannot resolve branch " +:+ BASE_BRANCH +:+ ": " +:+ from_utf8_lossy stderr)
       | Ended true _ stdout _ =>
           let sha := trim (from_utf8_lossy stdout) in
           if bool_decide (String.length sha = 40%nat) && forallb is_ascii_hexdigit (list_ascii_of_string sha) then Ok sha
           else Err ("unexpected commit response `" +:+ sha +:+ "`")
       end).

(** ** Pinning and fetching *)

Definition base_url (commit : string) : string := "https://raw.githubusercontent.com/" +:+ BASE_REPO +:+ "/" +:+ commit +:+ "/" +:+ BASE_DIR.
Definition index_url (commit : string) : string := base_url commit +:+ "/index.json".
Definition manifest_url (commit : string) : string := base_url commit +:+ "/blobs/image-manifest.json".
Definition layer_url (commit : string) : string := base_url commit +:+ "/blobs/rootfs.tar.gz".
Definition target_of (root : string) : string := win_join root "target/distro/base/rootfs.tar.gz".
Definition lock_of (root : string) : string := win_join root LOCK_PATH.

(** What a program says on its output, trimmed, where it could be run. *)
Definition said (o : ProgramOut) : option string :=
  match o with NotRun _ => None | Ended _ _ stdout _ => Some (trim (from_utf8_lossy stdout)) end.

(** [git]'s answer in the repository, whatever its exit. *)
Definition git_date : I string :=
  let* o := run_program "git" ["log"; "-1"; "--format=%cs"] in
  ret (match said o with Some s => if is_empty s then "unknown" else s | None => "unknown" end).

(** A download that is checked: one that does not match is removed, and what
    the removal answers is not looked at. *)
Definition checked (what expected target : string) : I (result string string) :=
  let! sha := sha256_file target in
  match verify_digest what expected sha with
  | Ok _ => ret (Ok sha)
  | Err e => let* _ := remove_path target in ret (Err e)
  end.

Definition pin (root : string) : I (result unit string) :=
  let! commit := current_commit in
  let! index := fetch_json (index_url commit) in
  let! manifest_digest := ret (select_manifest_digest index) in
  let! bytes := fetch_bytes (manifest_url commit) in
  let! _ := ret (verify_digest "the base image manifest" manifest_digest (hex_digest bytes)) in
  let! manifest := ret (map_err (fun e => "cannot parse JSON from " +:+ manifest_url commit +:+ ": " +:+ e) (from_slice bytes)) in
  let! layer := ret (select_layer manifest) in
  let target := target_of root in
  let! _ := curl (layer_url commit) target in
  let! sha := checked "the base rootfs layer" (fst layer) target in
  let* date := git_date in
  let lock := mk_lock (layer_url commit) commit sha date in
  let* e := write_file (lock_of root) (render lock) in
  match e with
  | Some e => ret (Err ("cannot write " +:+ LOCK_PATH +:+ ": " +:+ e))
  | None => let* _ := tell ("pinned " +:+ url lock) in ret (Ok tt)
  end.

Definition NOT_UTF8 : string := "stream did not contain valid UTF-8".

Definition read_lock (root : string) : I (result BaseLock string) :=
  let* bytes := read_file (lock_of root) in
  let unreadable e := Err ("cannot read " +:+ LOCK_PATH +:+ ": " +:+ e +:+ " — run `cargo xtask distro pin` first") in
  ret (match bytes with
       | Err e => unreadable e
       | Ok bytes => match to_str bytes with None => unreadable NOT_UTF8 | Some text => parse to_lowercase text end
       end).

Definition fetch (root : string) : I (result string string) :=
  let! lock := read_lock root in
  let target := target_of root in
  let* there := look target in
  let! present := (if there : bool then let! sha := sha256_file target in ret (Ok (bool_decide (sha = sha256 lock))) else ret (Ok false)) in
  if present : bool then let* _ := tell ("base rootfs present and verified: " +:+ target) in ret (Ok target)
  else
    let! _ := curl (url lock) target in
    let! _ := checked "the base rootfs" (sha256 lock) target in
    let* _ := tell ("base rootfs downloaded and verified: " +:+ target) in
    ret (Ok target).

(** ** Building *)

Definition compose_image_version (workspace_version git_sha : string) : string :=
  let short := concat_str (map snd (take 7 (char_list git_sha))) in
  workspace_version +:+ "+" +:+ (if is_empty short then "unknown" else short).

Definition image_version : I string :=
  let* o := run_program "git" ["rev-parse"; "HEAD"] in
  ret (compose_image_version VERSION (default EmptyString (said o))).

(** Inside the builder, as root. *)
Definition wsl_exec_as_root (name : string) (args : list string) : I (result unit string) :=
  let* o := run_program "wsl.exe" (to_args (mk_exec BUILDER_NAME (Some "root") name args)) in
  ret (match o with
       | NotRun e => Err ("cannot run wsl.exe: " +:+ e)
       | Ended true _ _ _ => Ok tt
       | Ended false status _ _ => Err ("`" +:+ name +:+ "` inside " +:+ BUILDER_NAME +:+ " exited with " +:+ status)
       end).

Definition clean : I (result unit string) :=
  let! registered := cli (list_distros others wsl) in
  if existsb (fun d => eq_ignore_ascii_case d BUILDER_NAME) registered then
    let! _ := cli (Wsl.unregister others wsl BUILDER_NAME) in
    let* _ := tell ("unregistered leftover " +:+ BUILDER_NAME) in
    ret (Ok tt)
  else ret (Ok tt).

Definition out_dir (root : string) : string := win_join root "target/distro".
Definition sidecar_path (dir suffix : string) : string := win_join dir (IMAGE_NAME +:+ "." +:+ suffix).

Definition write_sidecar (dir suffix contents : string) : I (result unit string) :=
  let path := sidecar_path dir suffix in
  let* e := write_file path contents in
  ret (match e with Some e => Err ("cannot write " +:+ path +:+ ": " +:+ e) | None => Ok tt end).

Definition provision_and_export (root bin_dir : string) : I (result unit string) :=
  let* version := image_version in
  match to_wsl_path components (win_join root "distro") with
  | None => ret (Err "repository must live on a drive letter path")
  | Some conf_dir =>
      match to_wsl_path components bin_dir with
      | None => ret (Err "target directory must live on a drive letter path")
      | Some bins =>
          let* _ := tell ("provisioning " +:+ version +:+ "…") in
          let* provisioned := wsl_exec_as_root "/bin/sh" [conf_dir +:+ "/provision.sh"; version; conf_dir; bins] in
          let* terminated := cli (Wsl.terminate others wsl BUILDER_NAME) in
          let! _ := ret provisioned in
          let! _ := ret terminated in
          let image := win_join (out_dir root) IMAGE_NAME in
          let* _ := remove_path image in
          let* _ := tell ("exporting " +:+ image +:+ "…") in
          let! _ := cli (Wsl.export others wsl BUILDER_NAME image "tar.gz") in
          let! sha := sha256_file image in
          let! _ := write_sidecar (out_dir root) "sha256" (ends_line (sha +:+ "  " +:+ IMAGE_NAME)) in
          let! _ := write_sidecar (out_dir root) "version" (ends_line version) in
          let* _ := tell ("image " +:+ version +:+ ": " +:+ image) in
          ret (Ok tt)
      end
  end.

Fixpoint all_built (bin_dir : string) (bins : list string) : I (result unit string) :=
  match bins with
  | [] => ret (Ok tt)
  | bin :: bins =>
      let* there := look (win_join bin_dir bin) in
      if there : bool then all_built bin_dir bins else ret (Err (bin +:+ " not built; run `just build-linux` first"))
  end.

Definition BINARIES : list string := ["willied"; "willie-sess"; "willie"].
Definition TARGET : string := "x86_64-unknown-linux-musl".

Definition build (root : string) : I (result unit string) :=
  let! base := fetch root in
  let bin_dir := win_join root ("target/" +:+ TARGET +:+ "/release") in
  let! _ := all_built bin_dir BINARIES in
  let! _ := clean in
  let builder_dir := win_join root "target/distro/build" in
  let* _ := clear builder_dir in
  let* e := make_dir builder_dir in
  match e with
  | Some e => ret (Err ("cannot create " +:+ builder_dir +:+ ": " +:+ e))
  | None =>
      let* _ := tell ("importing base as " +:+ BUILDER_NAME +:+ "…") in
      let! _ := cli (Wsl.import others wsl BUILDER_NAME builder_dir base) in
      let* outcome := provision_and_export root bin_dir in
      let* r := cli (Wsl.unregister others wsl BUILDER_NAME) in
      let* _ := (match r with Err e => tell ("xtask: cannot unregister " +:+ BUILDER_NAME +:+ ": " +:+ e) | Ok _ => ret tt end) in
      ret outcome
  end.

(** ** Replacing the binaries *)

Definition staged (binary : string * string) : string :=
  "install -m 0755 " +:+ snd binary +:+ " /opt/willie/bin/." +:+ fst binary +:+ ".new".
Definition renamed (binary : string * string) : string :=
  "mv -f /opt/willie/bin/." +:+ fst binary +:+ ".new /opt/willie/bin/" +:+ fst binary.
Definition stamped (version : string) : string := "printf '%s\n' '" +:+ version +:+ "' > /etc/willie/image-version".

(** The lines of [push_script]. *)
Definition push_lines (binaries : list (string * string)) (version : string) : list string :=
  "set -e" :: map staged binaries ++ map renamed binaries ++ [stamped version].

Definition push_script (binaries : list (string * string)) (version : string) : string :=
  concat_str (map ends_line (push_lines binaries version)).

Fixpoint sources (root root_drvfs dir : string) (bins : list string) (rel : string -> option string) : I (result (list (string * string)) string) :=
  match bins with
  | [] => ret (Ok [])
  | name :: bins =>
      let source := win_join dir name in
      let* there := look source in
      if there : bool then
        match rel source with
        | None => ret (Err (source +:+ " is not under the workspace"))
        | Some r =>
            let! rest := sources root root_drvfs dir bins rel in
            ret (Ok ((name, root_drvfs +:+ "/" +:+ replace_char backslash "/" r) :: rest))
        end
      else ret (Err ("no " +:+ name +:+ " at " +:+ source +:+ "; run `just build-linux` first"))
  end.

(** [rel] is [strip_prefix] of the workspace's root. *)
Definition push (root : string) (rel : string -> option string) : I (result unit string) :=
  match windows_to_drvfs root with
  | None => ret (Err ("cannot map " +:+ root +:+ " to a distro path"))
  | Some root_drvfs =>
      let dir := win_join (win_join (win_join root "target") TARGET) "release" in
      let! binaries := sources root root_drvfs dir BINARIES rel in
      let* version := image_version in
      let* o := run_program "wsl.exe" (to_args (mk_exec DISTRO_NAME (Some "root") "sh" ["-c"; push_script binaries version])) in
      match o with
      | NotRun e => ret (Err ("cannot run wsl.exe: " +:+ e))
      | Ended false status _ _ =>
          ret (Err ("cannot write into " +:+ DISTRO_NAME +:+ " (" +:+ status +:+ "); is it registered? run `just distro-install` to create it"))
      | Ended true _ _ _ =>
          let* _ := tell ("pushed " +:+ version +:+ " into " +:+ DISTRO_NAME +:+ " " +:+ version) in
          let* _ := tell "close and reopen the app so the daemon restarts on the new binary" in
          ret (Ok tt)
      end
  end.

(** ** Registering *)

Definition uninstall : I (result unit string) :=
  let! registered := cli (list_distros others wsl) in
  if existsb (fun d => eq_ignore_ascii_case d DISTRO_NAME) registered then
    let* _ := lift Cli (Wsl.terminate others wsl DISTRO_NAME) in
    let! _ := cli (Wsl.unregister others wsl DISTRO_NAME) in
    let* _ := tell ("unregistered " +:+ DISTRO_NAME) in
    ret (Ok tt)
  else ret (Ok tt).

Definition install (root : string) (local_app_data : option string) : I (result unit string) :=
  let image := win_join (out_dir root) IMAGE_NAME in
  let* there := look image in
  if there : bool then
    match data_dir local_app_data with
    | None => ret (Err "LOCALAPPDATA is not set")
    | Some data =>
        let dir := win_join data "distro" in
        let! _ := uninstall in
        let* e := make_dir dir in
        match e with
        | Some e => ret (Err ("cannot create " +:+ dir +:+ ": " +:+ e))
        | None =>
            let* _ := tell ("importing " +:+ image +:+ " as " +:+ DISTRO_NAME +:+ " into " +:+ dir +:+ "…") in
            let! _ := cli (Wsl.import others wsl DISTRO_NAME dir image) in
            let* version := read_file (sidecar_path (out_dir root) "version") in
            let* _ := tell ("installed " +:+ DISTRO_NAME +:+ " " +:+
                            trim (match version with Ok b => default EmptyString (to_str b) | Err _ => EmptyString end)) in
            ret (Ok tt)
        end
    end
  else ret (Err ("no image at " +:+ image +:+ "; run `just distro-build` first")).

(** The task by its name; [debug] is Rust's own form of a string. *)
Definition run (debug : string -> string) (local_app_data : option string) (rel : string -> option string) (root : string) (args : list string) :
    I (result unit string) :=
  let unknown shown :=
    ret (Err ("unknown distro command " +:+ shown +:+ "; expected pin|fetch|build|clean|install|push|uninstall")) in
  match args with
  | [] => unknown "None"
  | task :: _ =>
      if bool_decide (task = "pin") then pin root
      else if bool_decide (task = "fetch") then let! _ := fetch root in ret (Ok tt)
      else if bool_decide (task = "build") then build root
      else if bool_decide (task = "clean") then clean
      else if bool_decide (task = "install") then install root local_app_data
      else if bool_decide (task = "push") then push root rel
      else if bool_decide (task = "uninstall") then uninstall
      else unknown ("Some(" +:+ debug task +:+ ")")
  end.

(** ** What is verified *)

(** Writing a file, and running [wsl.exe]. *)
Definition writes (a : Act) : bool :=
  match a with Wrote _ _ _ | Cli _ => true | Ran p _ _ => bool_decide (p = "wsl.exe") | _ => false end.

Definition unwritten (l : list Act) : Prop := Forall (fun a => writes a = false) l.

(** A step that writes no file, and what is known once it succeeds. *)
Definition quietly {A} (m : I (result A string)) (Q : A -> list Act -> Prop) : Prop :=
  does m (fun r l => unwritten l /\ match r with Ok a => Q a l | Err _ => True end).

Lemma quietly_then {A B} (m : I (result A string)) (k : A -> I (result B string)) Q P :
  quietly m Q -> (forall e l, unwritten l -> P (Err e) l) ->
  (forall a l, unwritten l -> Q a l -> does (k a) (fun r l' => P r (l ++ l'))) -> does (bind_result m k) P.
Proof.
  intros Hm He Hk. unfold bind_result. eapply does_bind; [exact Hm|]. cbv beta. intros [a|e] l [Hu Hq].
  - by apply Hk.
  - apply does_ret. rewrite app_nil_r. by apply He.
Qed.

Lemma quietly_ret {A} (r : result A string) : quietly (ret r) (fun a _ => r = Ok a).
Proof. apply does_ret. split; [constructor|]. by destruct r. Qed.

Lemma fetch_bytes_quiet u : quietly (fetch_bytes u) (fun b l => exists st er, Ran "curl.exe" ["-fsSL"; u] (Ended true st b er) ∈ l).
Proof.
  unfold quietly, fetch_bytes, run_program. repeat walk1. split; [by repeat constructor|]. destruct a as [|[] st out er]; try done.
  exists st, er. in_list.
Qed.

Lemma fetch_json_quiet u : quietly (fetch_json u) (fun v l => exists b st er, Ran "curl.exe" ["-fsSL"; u] (Ended true st b er) ∈ l /\ from_slice b = Ok v).
Proof.
  unfold fetch_json, quietly. eapply quietly_then; [apply fetch_bytes_quiet|done|]. cbv beta. intros b l Hu (st & er & Hb).
  apply does_ret. rewrite app_nil_r. split; [done|]. destruct (from_slice b) as [v|] eqn:E; [|done]. cbn. by exists b, st, er.
Qed.

Lemma current_commit_quiet : quietly current_commit (fun _ _ => True).
Proof. unfold quietly, current_commit, run_program. repeat walk1. split; [by repeat constructor|]. by case_match. Qed.

Lemma curl_quiet u out : quietly (curl u out) (fun _ l => exists st a b, Ran "curl.exe" ["-fsSL"; "--retry"; "3"; "-o"; out; u] (Ended true st a b) ∈ l).
Proof.
  unfold quietly, curl, make_dir, run_program. repeat walk1; (split; [by repeat constructor|]); [done|].
  repeat case_match; try done. eexists _, _, _. in_list.
Qed.

(** A checked file was read with its digest; one with another is removed. *)
Lemma checked_quiet what expected target : does (checked what expected target) (fun r l => unwritten l /\
  match r with
  | Ok sha => sha = expected /\ exists body, ReadFile target (Ok body) ∈ l /\ hex_digest body = sha
  | Err _ => (exists e, ReadFile target (Err e) ∈ l) \/ exists e, RemovedFile target e ∈ l
  end).
Proof.
  unfold checked, sha256_file, read_file, remove_path, bind_result, verify_digest. repeat walk1; (split; [by repeat constructor|]).
  all: repeat case_match; subst; try discriminate; simplify_eq.
  - case_bool_decide; [|discriminate]. split; [done|]. eexists. split; [in_list|done].
  - right. eexists. in_list.
  - left. eexists. in_list.
Qed.

(** The chain behind a lock: a commit's index names the manifest that was
    fetched, which names the layer that was downloaded and read. *)
Definition chain (root text : string) (l : list Act) : Prop :=
  exists commit index v m mv body media date st er st' er',
    Ran "curl.exe" ["-fsSL"; index_url commit] (Ended true st index er) ∈ l /\ from_slice index = Ok v
    /\ select_manifest_digest v = Ok (hex_digest m)
    /\ Ran "curl.exe" ["-fsSL"; manifest_url commit] (Ended true st' m er') ∈ l /\ from_slice m = Ok mv
    /\ select_layer mv = Ok (hex_digest body, media)
    /\ ReadFile (target_of root) (Ok body) ∈ l
    /\ text = render (mk_lock (layer_url commit) commit (hex_digest body) date).

(** What pinning does: it writes nothing, or the lock alone, of a chain. *)
Definition pinned (root : string) (r : result unit string) (l : list Act) : Prop :=
  (unwritten l /\ r <> Ok tt)
  \/ exists l1 text e l2, l = l1 ++ Wrote (lock_of root) text e :: l2 /\ unwritten (l1 ++ l2) /\ chain root text l1 /\ (r = Ok tt <-> e = None).

Lemma unwritten_app l1 l2 : unwritten l1 -> unwritten l2 -> unwritten (l1 ++ l2).
Proof. intros H1 H2. by apply Forall_app. Qed.

Lemma pin_does root : does (pin root) (pinned root).
Proof.
  unfold pin. eapply quietly_then; [apply current_commit_quiet|by left|]. intros commit l1 U1 _. cbv beta.
  eapply quietly_then; [apply fetch_json_quiet|intros; left; split; [by apply unwritten_app|done]|].
  intros v l2 U2 (index & st & er & Hi & Hv). cbv beta.
  eapply quietly_then; [apply quietly_ret|intros; left; split; [by repeat apply unwritten_app|done]|]. intros md l3 U3 Hmd. cbv beta.
  eapply quietly_then; [apply fetch_bytes_quiet|intros; left; split; [by repeat apply unwritten_app|done]|].
  intros m l4 U4 (st' & er' & Hm). cbv beta.
  eapply quietly_then; [apply quietly_ret|intros; left; split; [by repeat apply unwritten_app|done]|]. intros [] l5 U5 Hd. cbv beta.
  unfold verify_digest in Hd. destruct (bool_decide_reflect (md = hex_digest m)) as [->|]; [|discriminate Hd].
  eapply quietly_then; [apply quietly_ret|intros; left; split; [by repeat apply unwritten_app|done]|]. intros mv l6 U6 Hmv. cbv beta.
  eapply quietly_then; [apply quietly_ret|intros; left; split; [by repeat apply unwritten_app|done]|]. intros [ld media] l7 U7 Hl. cbv beta.
  eapply quietly_then; [apply curl_quiet|intros; left; split; [by repeat apply unwritten_app|done]|]. intros [] l8 U8 _. cbv beta.
  eapply (quietly_then _ _ (fun sha l => sha = ld /\ exists body, ReadFile (target_of root) (Ok body) ∈ l /\ hex_digest body = sha)).
  { eapply does_conseq; [apply checked_quiet|]. cbv beta. intros [sha|e] l [Hu H]; by split. }
  { intros; left; split; [by repeat apply unwritten_app|done]. }
  intros sha l9 U9 (-> & body & Hb & <-). cbv beta. unfold git_date, run_program, write_file, tell. cbn [fst] in *.
  destruct (from_slice m) as [mv'|] eqn:Emv; [|discriminate Hmv]. injection Hmv as <-.
  repeat walk1; right; rewrite <- ?app_assoc; cbn [app].
  all: eexists (l1 ++ l2 ++ l3 ++ l4 ++ l5 ++ l6 ++ l7 ++ l8 ++ l9 ++ [_]), _, _, _.
  all: split; [rewrite <- !app_assoc; reflexivity|]; split; [repeat apply unwritten_app; try done; by repeat constructor|].
  all: split; [|done].
  all: exists commit, index, v, m, mv', body, media; eexists; exists st, er, st', er'.
  all: rewrite !elem_of_app; repeat split; try done; tauto.
Qed.

(** A base that was verified: its file was read with the digest of the lock
    that was read. *)
Definition verified (root base : string) (l : list Act) : Prop :=
  base = target_of root /\ exists bytes text lock body, ReadFile (lock_of root) (Ok bytes) ∈ l /\ to_str bytes = Some text
    /\ parse to_lowercase text = Ok lock /\ ReadFile base (Ok body) ∈ l /\ hex_digest body = sha256 lock.

(** What fetching does: it answers a verified base, and leaves none that was
    downloaded and is another. *)
Definition fetched (root : string) (r : result string string) (l : list Act) : Prop :=
  match r with
  | Ok base => verified root base l
  | Err _ => forall u st a b, Ran "curl.exe" ["-fsSL"; "--retry"; "3"; "-o"; target_of root; u] (Ended true st a b) ∈ l ->
      (exists e, ReadFile (target_of root) (Err e) ∈ l) \/ exists e, RemovedFile (target_of root) e ∈ l
  end.

Lemma read_lock_quiet root : does (read_lock root) (fun r l => exists b, l = [ReadFile (lock_of root) b] /\
  match r with Ok lock => exists bytes text, b = Ok bytes /\ to_str bytes = Some text /\ parse to_lowercase text = Ok lock | Err _ => True end).
Proof.
  unfold read_lock, read_file. repeat walk1. eexists. split; [reflexivity|]. destruct a as [bytes|e]; [|done].
  destruct (to_str bytes) as [text|] eqn:E; [|done]. destruct (parse to_lowercase text) eqn:Ep; [|done]. by exists bytes, text.
Qed.

Lemma curl_does u out : does (curl u out) (fun r l => unwritten l /\
  match r with Ok _ => True | Err _ => forall u' st a b, Ran "curl.exe" ["-fsSL"; "--retry"; "3"; "-o"; out; u'] (Ended true st a b) ∉ l end).
Proof.
  unfold curl, make_dir, run_program. repeat walk1; (split; [by repeat constructor|]).
  - intros u' st x y H. in_cases H.
  - destruct a0 as [|[] st x y]; try done; intros u' st' x' y' H; in_cases H.
Qed.

Lemma fetch_does root : does (fetch root) (fun r l => unwritten l /\ fetched root r l).
Proof.
  unfold fetch. unfold bind_result at 1. eapply does_bind; [apply read_lock_quiet|]. cbv beta. intros [lock|e] l (b & -> & Hb).
  2: { apply does_ret. rewrite app_nil_r. split; [by repeat constructor|]. intros u st a c H. in_cases H. }
  destruct Hb as (bytes & text & -> & Hu & Hp). unfold look. apply does_perform. intros there.
  assert (Hdownload : forall pre, unwritten pre -> (forall u st a c, Ran "curl.exe" ["-fsSL"; "--retry"; "3"; "-o"; target_of root; u] (Ended true st a c) ∉ pre) ->
    ReadFile (lock_of root) (Ok bytes) ∈ pre ->
    does (bind_result (curl (url lock) (target_of root)) (fun _ => bind_result (checked "the base rootfs" (sha256 lock) (target_of root)) (fun _ =>
      bind (tell ("base rootfs downloaded and verified: " +:+ target_of root)) (fun _ => ret (Ok (target_of root))))))
      (fun r l => unwritten (pre ++ l) /\ fetched root r (pre ++ l))).
  { intros pre Hpre Hno Hin. unfold bind_result at 1. eapply does_bind; [apply curl_does|]. cbv beta. intros [[]|e] l [Hl Hc].
    2: { apply does_ret. rewrite app_nil_r. split; [by apply unwritten_app|]. intros u st x c H. apply elem_of_app in H as [H|H]; [by apply Hno in H|by apply Hc in H]. }
    unfold bind_result. eapply does_bind; [apply checked_quiet|]. cbv beta. intros [sha|e] l' [Hl' H].
    - destruct H as (-> & body & Hb & Hs). unfold tell. repeat walk1. split.
      { repeat apply unwritten_app; try done; by repeat constructor. }
      split; [done|]. exists bytes, text, lock, body. rewrite !elem_of_app. repeat split; try done; tauto.
    - apply does_ret. split; [repeat apply unwritten_app; try done; constructor|]. intros u st x c _. rewrite app_nil_r.
      destruct H as [[e' H]|[e' H]]; [left|right]; exists e'; rewrite !elem_of_app; tauto. }
  destruct there.
  - unfold bind_result at 1. unfold bind_result at 1. apply does_assoc. unfold sha256_file, read_file. apply does_assoc, does_perform. intros body.
    apply does_ret_bind. destruct body as [body|e]; cbv beta iota; [|repeat walk1; split; [by repeat constructor|intros u st x c H; in_cases H]].
    apply does_ret_bind. case_bool_decide as Hs.
    + unfold tell. repeat walk1. split; [by repeat constructor|]. split; [done|]. exists bytes, text, lock, body. repeat split; try done; in_list.
    + eapply does_conseq; [apply (Hdownload [ReadFile (lock_of root) (Ok bytes); Looked (target_of root) true; ReadFile (target_of root) (Ok body)])|].
      * by repeat constructor.
      * intros u st x c H. in_cases H.
      * in_list.
      * cbv beta. intros r l H. exact H.
  - unfold bind_result at 1. apply does_ret_bind.
    eapply does_conseq; [apply (Hdownload [ReadFile (lock_of root) (Ok bytes); Looked (target_of root) false])|].
    + by repeat constructor.
    + intros u st x c H. in_cases H.
    + in_list.
    + cbv beta. intros r l H. exact H.
Qed.

(** ** What a build does *)

(** The builder is the one distribution named here. *)
Definition IMPORT (dir base : string) : list string := ["--import"; "willie-build"; dir; base; "--version"; "2"].
Definition TERMINATE : list string := ["--terminate"; "willie-build"].
Definition EXPORT (image : string) : list string := ["--export"; "willie-build"; image; "--format"; "tar.gz"].
Definition UNREGISTER : list string := ["--unregister"; "willie-build"].

(** The repository's script, run by a shell as root inside the builder. *)
Definition PROVISION (conf bins version : string) : list string :=
  ["-d"; "willie-build"; "--user"; "root"; "--exec"; "/bin/sh"; conf +:+ "/provision.sh"; version; conf; bins].

(** Every command of [wsl.exe] but the listing names the builder. *)
Definition on_builder (a : Act) : Prop :=
  match a with
  | Cli (Wsl.Ran (c :: d :: _) _) => c = "--list" \/ d = "willie-build"
  | Ran p (_ :: d :: _) _ => p = "wsl.exe" -> d = "willie-build"
  | _ => True
  end.

Definition commands (name : string) (a : Act) : bool :=
  match a with Cli (Wsl.Ran (n :: _) _) => bool_decide (n = name) | _ => false end.

Definition without (name : string) (l : list Act) : Prop := Forall (fun a => commands name a = false) l.

Lemma without_app name l1 l2 : without name l1 -> without name l2 -> without name (l1 ++ l2).
Proof. intros H1 H2. by apply Forall_app. Qed.

(** What runs no [wsl.exe]. *)
Definition unwritten_by_wsl (l : list Act) : Prop := without "--import" l /\ without "--export" l /\ Forall on_builder l.

Lemma unwritten_without name l : unwritten l -> without name l.
Proof. intros H. eapply Forall_impl; [exact H|]. by intros []. Qed.

Lemma unwritten_quiet l : unwritten l -> unwritten_by_wsl l.
Proof.
  intros H. split; [by apply unwritten_without|]. split; [by apply unwritten_without|]. eapply Forall_impl; [exact H|].
  intros [] Hw; try done. cbn in Hw. destruct args as [|? [|? ?]]; try done. by intros ->.
Qed.

Lemma quietly_app l1 l2 : unwritten_by_wsl l1 -> unwritten_by_wsl l2 -> unwritten_by_wsl (l1 ++ l2).
Proof. intros (A1 & B1 & C1) (A2 & B2 & C2). repeat split; by apply Forall_app. Qed.

Lemma cli_unit args : does (cli (run_unit others wsl args)) (fun r l => exists out, l = [Cli (Wsl.Ran args out)] /\ is_ok r = is_ok (output_of args out)).
Proof.
  unfold cli. eapply does_bind.
  - apply (lift_does Cli (run_unit others wsl args) (fun r l => exists out, l = [Wsl.Ran args out] /\ is_ok r = is_ok (output_of args out))).
    unfold run_unit, Wsl.run. repeat walk1. eexists. split; [reflexivity|]. by destruct (output_of args a).
  - cbv beta. intros r l (l0 & -> & out & -> & H). apply does_ret. rewrite app_nil_r. exists out. split; [done|]. rewrite <- H. by destruct r.
Qed.

Lemma cli_list_does : does (cli (list_distros others wsl)) (fun _ l => exists out, l = [Cli (Wsl.Ran LIST out)]).
Proof.
  unfold cli. eapply does_bind.
  - apply (lift_does Cli (list_distros others wsl) (fun r l => exists out, l = [Wsl.Ran LIST out])).
    unfold list_distros, names, Wsl.run. repeat walk1. by eexists.
  - cbv beta. intros r l (l0 & -> & out & ->). apply does_ret. by exists out.
Qed.

Lemma clean_does : does clean (fun _ l => unwritten_by_wsl l).
Proof.
  unfold clean. unfold bind_result at 1. eapply does_bind; [apply cli_list_does|]. cbv beta. intros [all|e] l (out & ->).
  2: { apply does_ret. repeat split; repeat constructor; by left. }
  destruct (existsb _ all); [|apply does_ret; repeat split; repeat constructor; by left].
  unfold bind_result at 1. eapply does_bind; [apply cli_unit|]. cbv beta. intros r l (out' & -> & _). unfold tell.
  repeat walk1; repeat split; repeat constructor; by (left + right).
Qed.

Lemma all_built_does dir bins : does (all_built dir bins) (fun _ l => unwritten l).
Proof.
  induction bins as [|bin bins IH]; cbn [all_built]; [by apply does_ret; constructor|]. unfold look. apply does_perform. intros [].
  - eapply does_conseq; [exact IH|]. intros r l H. by constructor.
  - apply does_ret. by repeat constructor.
Qed.

Definition image_of (root : string) : string := win_join (win_join root "target/distro") "willie-rootfs.tar.gz".

(** The builder was provisioned by the script of this repository, with its
    binaries, and stopped after it, both with success. *)
Definition provisioned (root : string) (l : list Act) : Prop := exists l1 conf bins version st x y out l2,
  to_wsl_path components (win_join root "distro") = Some conf
  /\ to_wsl_path components (win_join root "target/x86_64-unknown-linux-musl/release") = Some bins
  /\ l = l1 ++ Ran "wsl.exe" (PROVISION conf bins version) (Ended true st x y) :: Cli (Wsl.Ran TERMINATE out) :: l2
  /\ is_ok (output_of TERMINATE out) = true.

(** The end of a successful build: the digest of the image is written. *)
Definition summed (root : string) (l : list Act) : Prop := exists body,
  ReadFile (image_of root) (Ok body) ∈ l
  /\ Wrote (win_join (win_join root "target/distro") "willie-rootfs.tar.gz.sha256") (ends_line (hex_digest body +:+ "  " +:+ "willie-rootfs.tar.gz")) None ∈ l.

(** What is exported is the builder, after it was provisioned, into the image;
    and a build that succeeds exported it and wrote the digest of what the image
    then held. *)
Definition exported (root : string) (r : result unit string) (l : list Act) : Prop :=
  (forall pre a post, l = pre ++ a :: post -> commands "--export" a = true ->
     (exists out, a = Cli (Wsl.Ran (EXPORT (image_of root)) out)) /\ provisioned root pre)
  /\ (r = Ok tt -> exists pre out post, l = pre ++ Cli (Wsl.Ran (EXPORT (image_of root)) out) :: post
        /\ is_ok (output_of (EXPORT (image_of root)) out) = true /\ summed root post).

Lemma exported_nothing root e l : without "--export" l -> exported root (Err e) l.
Proof.
  intros H. split; [|done]. intros pre a post -> Hc. apply Forall_app in H as [_ H]. inversion H as [|? ? Ha _]; subst.
  by rewrite Ha in Hc.
Qed.

(** The one command of its name in a trace. *)
Lemma the_only_one name l1 : forall x l2 pre a post, without name l1 -> without name l2 -> commands name a = true ->
  l1 ++ x :: l2 = pre ++ a :: post -> pre = l1 /\ a = x.
Proof.
  induction l1 as [|y l1 IH]; intros x l2 pre a post H1 H2 Hc; (destruct pre as [|z pre]; cbn [app]; intros [= -> E]).
  - done.
  - subst. apply Forall_app in H2 as [_ H2]. inversion H2 as [|? ? Ha _]; subst. by rewrite Ha in Hc.
  - inversion H1 as [|? ? Ha _]; subst. by rewrite Ha in Hc.
  - inversion H1; subst. by destruct (IH x l2 pre a post) as [-> ->].
Qed.

Lemma finish_does root version : let image := image_of root in
  does (bind_result (cli (Wsl.export others wsl BUILDER_NAME image "tar.gz")) (fun _ =>
        bind_result (sha256_file image) (fun sha =>
        bind_result (write_sidecar (out_dir root) "sha256" (ends_line (sha +:+ "  " +:+ IMAGE_NAME))) (fun _ =>
        bind_result (write_sidecar (out_dir root) "version" (ends_line version)) (fun _ =>
        bind (tell ("image " +:+ version +:+ ": " +:+ image)) (fun _ => ret (Ok tt)))))))
    (fun r l => exists out post, l = Cli (Wsl.Ran (EXPORT image) out) :: post /\ unwritten_by_wsl post
       /\ (r = Ok tt -> is_ok (output_of (EXPORT image) out) = true /\ summed root post)).
Proof.
  intros image. unfold bind_result at 1. eapply does_bind; [apply cli_unit|]. cbv beta. intros r l (out & -> & Ho).
  change ["--export"; BUILDER_NAME; image; "--format"; "tar.gz"] with (EXPORT image) in *.
  unfold sha256_file, read_file, write_sidecar, write_file, tell, bind_result. repeat walk1.
  all: eexists out, _; split; [reflexivity|]; split; [by repeat constructor|]; intros Hr; try discriminate Hr.
  all: repeat match goal with H : match ?x with _ => _ end = Ok _ |- _ => destruct x; try discriminate H end; simplify_eq.
  all: split; [by rewrite <- Ho|]; eexists; split; in_list.
Qed.

Lemma provision_does root : let bin := win_join root ("target/" +:+ TARGET +:+ "/release") in
  does (provision_and_export root bin) (fun r l => without "--import" l /\ Forall on_builder l /\ exported root r l).
Proof.
  intros bin.
  assert (Hnone : forall e l, without "--import" l -> without "--export" l -> Forall on_builder l ->
    without "--import" l /\ Forall on_builder l /\ exported root (Err e) l).
  { intros e l H1 H2 H3. split; [done|]. split; [done|]. by apply exported_nothing. }
  unfold provision_and_export, image_version, run_program. walk1. walk1. walk1.
  destruct (to_wsl_path components (win_join root "distro")) as [conf|] eqn:Econf; [|repeat walk1; apply Hnone; by repeat constructor].
  destruct (to_wsl_path components bin) as [bins|] eqn:Ebins; [|repeat walk1; apply Hnone; by repeat constructor].
  unfold tell at 1. walk1. unfold wsl_exec_as_root, run_program. apply does_assoc, does_perform. intros ran. walk1.
  eapply does_bind; [apply cli_unit|]. cbv beta. intros r l (out & -> & Hout).
  unfold bind_result at 1. walk1. destruct ran as [e|[] st x y].
  1, 3: repeat walk1; apply Hnone; by repeat constructor.
  unfold bind_result at 1. walk1. destruct r as [[]|e]; cbv beta iota; [|repeat walk1; apply Hnone; by repeat constructor].
  unfold remove_path. walk1. unfold tell at 1. walk1.
  eapply does_conseq; [apply finish_does|]. cbv beta. intros r l (out' & post & -> & Hp & Hr).
  destruct Hp as (Hp1 & Hp2 & Hp3). split; [|split].
  - repeat (constructor; [done|]). done.
  - repeat (constructor; [by try right|]). done.
  - cbn [app]. match goal with |- exported _ _ (?a :: ?b :: ?c :: ?d :: ?e :: ?f :: ?g :: post) =>
      change (a :: b :: c :: d :: e :: f :: g :: post) with ([a; b; c; d; e; f] ++ g :: post) end.
    split.
    + intros pre act rest E Hc. apply (the_only_one "--export") in E as [-> ->]; [|by repeat constructor|done|done]. split; [by eexists|].
      eexists [_; _], conf, bins, _, st, x, y, out, _. split; [done|]. split; [exact Ebins|]. split; [reflexivity|]. symmetry. exact Hout.
    + intros H. destruct (Hr H) as [Ho Hs]. by eexists _, out', post.
Qed.

(** What building does: it imports no base, or one it has verified; the
    builder an import made is unregistered at the end, whatever became of it. *)
Definition built (root : string) (r : result unit string) (l : list Act) : Prop :=
  Forall on_builder l /\
  ((without "--import" l /\ without "--export" l /\ r <> Ok tt)
  \/ exists l1 dir base out rest, l = l1 ++ Cli (Wsl.Ran (IMPORT dir base) out) :: rest /\ without "--import" (l1 ++ rest)
      /\ without "--export" l1 /\ verified root base l1
      /\ if is_ok (output_of (IMPORT dir base) out)
         then exists mid out' told, rest = mid ++ Cli (Wsl.Ran UNREGISTER out') :: map Told told /\ exported root r mid
         else rest = [] /\ r <> Ok tt).

Lemma verified_app root base l l' : verified root base l -> verified root base (l ++ l').
Proof.
  intros (Hb & bytes & text & lock & body & H1 & H2 & H3 & H4 & H5). split; [done|]. exists bytes, text, lock, body.
  rewrite !elem_of_app. tauto.
Qed.

Lemma built_nothing root e l : unwritten_by_wsl l -> built root (Err e) l.
Proof. intros (H1 & H2 & H3). split; [done|]. by left. Qed.

(** From the import on. *)
Lemma built_import root r pre dir base out rest : unwritten_by_wsl pre -> verified root base pre ->
  (if is_ok (output_of (IMPORT dir base) out)
   then exists mid out' told, rest = mid ++ Cli (Wsl.Ran UNREGISTER out') :: map Told told /\ without "--import" mid /\ Forall on_builder mid /\ exported root r mid
   else rest = [] /\ r <> Ok tt) ->
  built root r (pre ++ Cli (Wsl.Ran (IMPORT dir base) out) :: rest).
Proof.
  intros (H1 & H2 & H3) Hv Hr.
  assert (Forall on_builder rest /\ without "--import" rest) as [Ho Hw].
  { destruct (is_ok _); [|destruct Hr as [-> _]; split; constructor]. destruct Hr as (mid & out' & told & -> & Hm & Hb & _).
    split; (apply Forall_app; split; [done|]); (apply Forall_cons; split; [by try right|]); apply Forall_map, Forall_true; done. }
  split; [apply Forall_app; split; [done|]; constructor; [by right|done]|]. right. exists pre, dir, base, out, rest.
  split; [done|]. split; [by apply without_app|]. split; [done|]. split; [done|].
  destruct (is_ok _); [|done]. destruct Hr as (mid & out' & told & -> & _ & _ & He). by exists mid, out', told.
Qed.

Lemma build_does root : does (build root) (built root).
Proof.
  unfold build. unfold bind_result at 1. eapply does_bind; [apply fetch_does|]. cbv beta. intros [base|e] l1 [U1%unwritten_quiet Hf].
  2: { apply does_ret. rewrite app_nil_r. by apply built_nothing. }
  unfold bind_result at 1. eapply does_bind; [apply all_built_does|]. cbv beta.
  intros r2 l2 U2%unwritten_quiet. destruct r2 as [[]|e].
  2: { apply does_ret. rewrite app_nil_r. by apply built_nothing, quietly_app. }
  unfold bind_result at 1. eapply does_bind; [apply clean_does|]. cbv beta. intros r3 l3 U3. destruct r3 as [[]|e].
  2: { apply does_ret. rewrite app_nil_r. by apply built_nothing; repeat apply quietly_app. }
  unfold clear, make_dir. do 2 walk1. destruct a0 as [e|].
  { apply does_ret. apply built_nothing. repeat apply quietly_app; try done; by repeat constructor. }
  unfold tell at 1. walk1. unfold bind_result at 1. eapply does_bind; [apply cli_unit|]. cbv beta. intros r l (out & -> & Hr).
  change ["--import"; BUILDER_NAME; ?d; base; "--version"; "2"] with (IMPORT d base) in *.
  set (steps := l1 ++ l2 ++ l3 ++ [ClearedDir (win_join root "target/distro/build") a] ++ [MadeDir (win_join root "target/distro/build") None] ++
    [Told ("importing base as " +:+ BUILDER_NAME +:+ "…")]).
  assert (Hq : unwritten_by_wsl steps) by (repeat apply quietly_app; try done; by repeat constructor).
  assert (Hv : verified root base steps) by by apply verified_app.
  assert (Hgo : forall x rest, built root x (steps ++ Cli (Wsl.Ran (IMPORT (win_join root "target/distro/build") base) out) :: rest) ->
    built root x (l1 ++ l2 ++ l3 ++ [ClearedDir (win_join root "target/distro/build") a] ++ [MadeDir (win_join root "target/distro/build") None] ++
      [Told ("importing base as " +:+ BUILDER_NAME +:+ "…")] ++ [Cli (Wsl.Ran (IMPORT (win_join root "target/distro/build") base) out)] ++ rest)).
  { intros x rest. unfold steps. by rewrite <- !app_assoc. }
  destruct r as [[]|e].
  - eapply does_bind; [apply provision_does|]. cbv beta. intros outcome mid (Um & Om & Hm).
    eapply does_bind; [apply cli_unit|]. cbv beta. intros r' l (out' & -> & _).
    assert (Hfin : forall told, built root outcome (l1 ++ l2 ++ l3 ++ [ClearedDir (win_join root "target/distro/build") a] ++
      [MadeDir (win_join root "target/distro/build") None] ++ [Told ("importing base as " +:+ BUILDER_NAME +:+ "…")] ++
      [Cli (Wsl.Ran (IMPORT (win_join root "target/distro/build") base) out)] ++ mid ++ [Cli (Wsl.Ran UNREGISTER out')] ++ map Told told)).
    { intros told. apply Hgo, built_import; [done..|]. rewrite <- Hr. by exists mid, out', told. }
    unfold tell. repeat walk1; [apply (Hfin [])|eapply (Hfin [_])].
  - apply does_ret. apply Hgo, built_import; [done..|]. by rewrite <- Hr.
Qed.

(** C40. Only a verified base becomes an image.  Pinning writes nothing but the
    lock, and only of a layer that was read with the digest its manifest
    names, a manifest that was read with the digest its commit's index names.
    Fetching answers a base that was read with the lock's digest, and asks the
    system to remove a download that is another.  Building runs [wsl.exe] on no
    distribution but the builder, [willie-build]; it imports only a base it
    fetched; it exports only the builder, into the image, and only after the
    repository's [provision.sh] was run in it by a root shell, and it was
    stopped, both with success; a build that succeeds wrote the digest of what
    it exported; and the builder it imported is unregistered at the end,
    whatever fails in between. *)
Theorem only_verified_bases_are_built root :
  does (pin root) (pinned root) /\ does (fetch root) (fun r l => unwritten l /\ fetched root r l) /\ does (build root) (built root).
Proof. split; [apply pin_does|]. split; [apply fetch_does|apply build_does]. Qed.

End image.

(** ** Examples *)

Definition sample_lock : BaseLock := mk_lock "https://host/rootfs.tar.gz?a=b" "0123abc" "ffee" "2026-01-02".

Example the_lock_reads_back : parse (fun s => s) (render sample_lock) = Ok sample_lock
  /\ parse (fun s => s) (ends_line "url = x" +:+ ends_line "# commit = y") = Err "lock missing `commit`"
  /\ parse (fun s => s) "url" = Err "bad lock line `url`".
Proof. repeat split; vm_compute; reflexivity. Qed.

Example an_index_names_one_image :
  let entry os digest := JObject [("platform", JObject [("os", JString os); ("architecture", JString "amd64")]); ("digest", JString digest)] in
  select_manifest_digest (JObject [("manifests", JArray [entry "windows" "sha256:aa"; entry "linux" "sha256:bb"])]) = Ok "bb"
  /\ select_manifest_digest (JObject [("manifests", JArray [entry "linux" "sha256:aa"; entry "linux" "sha256:bb"])])
     = Err "2 linux/amd64 manifests in index, expected 1"
  /\ select_layer (JObject [("layers", JArray [JObject [("mediaType", JString "application/vnd.oci.image.layer.v1.tar+gzip"); ("digest", JString "sha256:cc")]])])
     = Ok ("cc", "application/vnd.oci.image.layer.v1.tar+gzip").
Proof. repeat split; vm_compute; reflexivity. Qed.

(** The binaries are renamed one after the other: a script that stops between
    two leaves a mixture of two builds. *)
Example a_push_can_stop_halfway :
  take 5 (push_lines [("willied", "/a"); ("willie", "/b")] "1") =
  ["set -e"; "install -m 0755 /a /opt/willie/bin/.willied.new"; "install -m 0755 /b /opt/willie/bin/.willie.new";
   "mv -f /opt/willie/bin/.willied.new /opt/willie/bin/willied"; "mv -f /opt/willie/bin/.willie.new /opt/willie/bin/willie"]
  /\ compose_image_version "1.2.0" "0123456789" = "1.2.0+0123456" /\ compose_image_version "1.2.0" EmptyString = "1.2.0+unknown".
Proof. repeat split; reflexivity. Qed.

Example a_path_in_the_distribution :
  to_wsl_path (fun _ => [Disk "D"; RootDir; Normal "work"; Normal "x"]) EmptyString = Some "/mnt/d/work/x"
  /\ to_wsl_path (fun _ => [Disk "D"; RootDir]) EmptyString = Some "/mnt/d"
  /\ to_wsl_path (fun _ => [OtherPrefix; RootDir]) EmptyString = None.
Proof. repeat split; reflexivity. Qed.
