(* ===== verification/Tasks.v ===== *)
(** * The development tasks

    Models xtask/src/main.rs, doctor.rs, refs.rs, linux.rs and test_linux.rs:
    the check of a machine's tools, the search of versioned files for
    denylisted terms, the cross-compilation, and the run of the Linux tests
    inside a distribution.  The programs that are run, the files and the
    environment are parameters; every effect is recorded with its answer.  The
    image's tasks are in [Image]. *)

From S2P Require Import Prelude Text Utf8 Json Project Wsl Console Config Effects Image.

Local Open Scope string_scope.
Local Open Scope list_scope.
Local Open Scope willie_scope.

(** ** Effects *)

Inductive Deed : Type :=
| Spawned (dir : option string) (env : list (string * string)) (argv : list string) (out : ProgramOut)
| Got (variable : string) (value : option string)
| Took (path : string) (bytes : result string string)
| Saw (path : string) (there : bool)
| Printed (line : string)
| Warned (line : string).

(** ** The toolchain's checks *)

Record Probe : Type := mk_probe { argv : list string; must_contain : option string; ignore_exit_status : bool }.

Record Check_ : Type := mk_tool { c_name : string; c_required : bool; probes : list Probe; c_hint : string }.

Record FileCheck : Type := mk_file { f_name : string; f_path : string; f_hint : string }.

Definition probe (argv : list string) : Probe := mk_probe argv None false.

Definition VSWHERE : string := "C:\Program Files (x86)\Microsoft Visual Studio\Installer\vswhere.exe".

Definition quote : string := String (ascii_of_nat 34) EmptyString.

(** [on_windows] is [cfg!(windows)]. *)
Definition CHECKS (on_windows : bool) : list Check_ :=
  [mk_tool "rustup" true [probe ["rustup"; "--version"]] "install from https://rustup.rs (per-user, no elevation)";
   mk_tool "cargo (pinned toolchain)" true [probe ["cargo"; "--version"]]
     "rustup installs the toolchain from rust-toolchain.toml on first use";
   mk_tool "MSVC linker (link.exe)" on_windows
     [mk_probe [VSWHERE; "-latest"; "-products"; "*"; "-requires"; "Microsoft.VisualStudio.Component.VC.Tools.x86.x64"; "-property"; "displayName"]
        (Some "Visual Studio") false;
      mk_probe ["link.exe"] (Some "Microsoft (R) Incremental Linker") true]
     ("install the " +:+ quote +:+ "Desktop development with C++" +:+ quote
        +:+ " workload (MSVC x64/x86 build tools + Windows SDK) with the Visual Studio installer");
   mk_tool "just" true [probe ["just"; "--version"]] "download the release zip to %LOCALAPPDATA%\Programs\just and add it to PATH";
   mk_tool "node" true [probe ["node"; "--version"]] "install Node.js 22 (needed by the frontend and the repo hooks)";
   mk_tool "pnpm" true [probe ["pnpm"; "--version"]; probe ["pnpm.cmd"; "--version"]] "corepack enable pnpm, or the standalone installer";
   mk_tool "cargo-zigbuild" true [probe ["cargo-zigbuild"; "--version"]] "python -m pip install --user cargo-zigbuild ziglang";
   mk_tool "zig" true [probe ["zig"; "version"]; probe ["python"; "-m"; "ziglang"; "version"]]
     "python -m pip install --user ziglang (cargo-zigbuild finds it)";
   mk_tool "wsl.exe" on_windows [probe ["wsl.exe"; "--version"]] "WSL 2.4.4+ must be enabled by an administrator before Willie can run";
   mk_tool "Windows Terminal (wt.exe)" false [probe ["wt.exe"; "--version"]]
     "recommended for session tabs; install from the Microsoft Store"].

Definition DEFAULT_LIST : string := "docs/blueprint/refs-denylist.txt".

Definition FILES : list FileCheck :=
  [mk_file "frontend dependencies" "node_modules" "run `just setup` (installs from the lockfile at the root)";
   mk_file "reference denylist" DEFAULT_LIST
     "`just check-refs` cannot run without it; place it there or point WILLIE_REFS_DENYLIST at it"].

(** The first run of digits, if it is a [u32]. *)
Definition first_number (text : string) : option Z :=
  parse_unsigned u32_max
    (string_of_list_ascii (take_while is_ascii_digit (drop_while (fun a => negb (is_ascii_digit a)) (list_ascii_of_string text)))).

Definition meets_node_floor (detected : string) (floor : Z) : bool :=
  match first_number detected with Some major => (floor <=? major)%Z | None => false end.

Definition quoted (s : string) : string := quote +:+ s +:+ quote.

(** The [engines] object of the text of package.json, to its closing brace. *)
Definition engines_block (text : string) : option string :=
  engines_at ← find (quoted "engines") text;
  let text := str_drop engines_at text in
  block_start ← find "{" text;
  let text := str_drop block_start text in
  block_end ← find "}" text;
  Some (str_take (S block_end) text).

Definition node_floor_of (text : string) : option Z :=
  block ← engines_block text;
  line ← List.find (contains (quoted "node")) (lines block);
  first_number line.

(** What a probe's output counts for: its headline. *)
Definition accept (p : Probe) (success : bool) (text : string) : option string :=
  if negb (success || ignore_exit_status p) then None
  else if match must_contain p with Some needle => negb (contains needle text) | None => false end then None
  else List.find (fun l => negb (is_empty l)) (map trim (lines text)).

(** [{:<28}]. *)
Definition padded (s : string) : string := s +:+ string_of_list_ascii (repeat " "%char (28 - length (chars s))).

Definition file_line (c : FileCheck) (present : bool) : string :=
  if present then "[ok ] " +:+ padded (f_name c) +:+ " " +:+ f_path c
  else "[FAIL] " +:+ padded (f_name c) +:+ " missing " +:+ f_path c +:+ ": " +:+ f_hint c.

Definition NODE_FLOOR : string := "Node floor (engines.node)".

(** ** The denylist *)

Section terms.
  (** Unicode lower-casing. *)
  Context (to_lowercase : string -> string).

Definition parse_terms (text : string) : list string :=
  map to_lowercase (List.filter (fun l => negb (is_empty l) && negb (starts_with "#" l)) (map trim (lines text))).

(** Every matching line, once for each term it matches. *)
Definition scan (rel text : string) (terms : list string) : list string :=
  concat (imap (fun index line =>
    map (fun term => rel +:+ ":" +:+ pretty (Z.of_nat (index + 1)) +:+ ": matches `" +:+ term +:+ "`")
      (List.filter (fun term => contains term (to_lowercase line)) terms)) (lines text)).
End terms.

(** ** Cross-compilation *)

Definition PACKAGES : list string := ["willied"; "willie-sess"; "willie-cli"].
Definition PYTHON_CANDIDATES : list string := ["python3"; "python"].
Definition CRATES : list string := ["willied"; "willie-linux"; "willie-cli"; "willie-sess"; "willie-plugin-profiles"; "willie-plugin-usage"].
Definition STAGE : string := "/tmp/willie-test-bins".

(** [-p] before each. *)
Definition packages (l : list string) : list string := concat (map (fun p => ["-p"; p]) l).

Definition ended_well (o : ProgramOut) : bool := match o with Ended b _ _ _ => b | NotRun _ => false end.

(** ** The tests inside the distribution *)

Definition ends (s : string) : string := s +:+ String newline EmptyString.

Definition stage_script (stage : string) (sources : list string) : string :=
  ends "set -e" +:+ ends ("rm -rf '" +:+ stage +:+ "'") +:+ ends ("mkdir -p '" +:+ stage +:+ "'")
  +:+ concat_str (map (fun source => ends ("cp '" +:+ source +:+ "' '" +:+ stage +:+ "/'")) sources)
  +:+ ends ("chmod +x '" +:+ stage +:+ "'/*").

Definition run_script (stage binary : string) : string :=
  let name := rsplit_first "/" binary in
  "WILLIE_TEST_BIN_DIR='" +:+ stage +:+ "' exec '" +:+ stage +:+ "/" +:+ name +:+ "' --test-threads=1".

Definition in_distro (distro script : string) : list string := ["wsl.exe"; "-d"; distro; "--exec"; "sh"; "-c"; script].

(** The executable of a test, of a message of cargo's. *)
Definition test_executable (msg : Json) : option string :=
  if is_text "compiler-artifact" (at_key "reason" msg)
     && match at_key "test" (at_key "profile" msg) with JBool b => b | _ => false end
  then as_str (at_key "executable" msg) else None.

Definition USAGE : string :=
  ends "usage: cargo xtask <command>" +:+ ends EmptyString
  +:+ ends "  doctor-tools                  verify the local toolchain, print hints"
  +:+ ends "  check-refs [--list F]         fail if content matches the denylist"
  +:+ ends "  build-linux [--debug]         cross-compile willied, willie-sess and"
  +:+ ends "                                willie for x86_64-unknown-linux-musl"
  +:+ ends "  test-linux                    build the Linux crates' test binaries"
  +:+ ends "                                and run them inside WILLIE_TEST_DISTRO"
  +:+ ends "  distro pin|fetch|build|clean|install|push|uninstall"
  +:+ ends "                                manage the distribution image".

(** ** The tasks *)

Section tasks.
  Context {S : Type} (others : nat -> S -> S).
  (** A program in a directory with variables added to its environment, the
      environment, and the files. *)
  Context (program : option string -> list (string * string) -> list string -> S -> ProgramOut * S)
    (environment : string -> S -> option string) (read : string -> S -> result string string) (exists_ is_file : string -> S -> bool).
  (** What of a path is below another, as Windows reads both. *)
  Context (relative_to : string -> string -> option string).
  Context (to_lowercase : string -> string) (from_str : string -> option Json) (on_windows : bool).
  (** [Image.run], with its effects as this file's. *)
  Context (distro : string -> list string -> M S Deed (result unit string)).

Definition T (A : Type) : Type := M S Deed A.

Definition spawn (dir : option string) (env : list (string * string)) (argv : list string) : T ProgramOut :=
  perform others (fun o => [Spawned dir env argv o]) (program dir env argv).
Definition var (name : string) : T (option string) := perform others (fun v => [Got name v]) (fun s => (environment name s, s)).
Definition take_file (path : string) : T (result string string) := perform others (fun b => [Took path b]) (fun s => (read path s, s)).
Definition see (test : string -> S -> bool) (path : string) : T bool := perform others (fun b => [Saw path b]) (fun s => (test path s, s)).
Definition print (line : string) : T unit := perform others (fun _ => [Printed line]) (fun s => (tt, s)).
Definition warn (line : string) : T unit := perform others (fun _ => [Warned line]) (fun s => (tt, s)).

(** *** doctor-tools *)

Fixpoint detect (ps : list Probe) : T (option string) :=
  match ps with
  | [] => ret None
  | p :: ps =>
      match argv p with
      | [] => detect ps
      | argv =>
          let* o := spawn None [] argv in
          match o with
          | NotRun _ => detect ps
          | Ended success _ stdout stderr =>
              match accept p success (decode_wsl_output stdout +:+ decode_wsl_output stderr) with
              | Some line => ret (Some line)
              | None => detect ps
              end
          end
      end
  end.

Definition node_floor (root : string) : T (option Z) :=
  let* bytes := take_file (win_join root "package.json") in
  ret (match bytes with Ok b => to_str b ≫= node_floor_of | Err _ => None end).

(** One tool: its line, and its name when it is missing. *)
Definition check_tool (floor : option Z) (c : Check_) : T (list string) :=
  let* found := detect (probes c) in
  let head mark := mark +:+ " " +:+ padded (c_name c) +:+ " " in
  match found with
  | Some version =>
      match (if bool_decide (c_name c = "node") then floor else None) with
      | Some floor =>
          if negb (meets_node_floor version floor) then
            let* _ := print (head "[FAIL]" +:+ version +:+ " is below the required Node " +:+ pretty floor +:+ " (engines.node)") in
            ret [c_name c]
          else let* _ := print (head "[ok ]" +:+ version) in ret []
      | None => let* _ := print (head "[ok ]" +:+ version) in ret []
      end
  | None =>
      if c_required c then let* _ := print (head "[FAIL]" +:+ c_hint c) in ret [c_name c]
      else let* _ := print (head "[skip]" +:+ c_hint c) in ret []
  end.

Definition check_file (root : string) (c : FileCheck) : T (list string) :=
  let* present := see exists_ (win_join root (f_path c)) in
  let* _ := print (file_line c present) in
  ret (if present : bool then [] else [f_name c]).

(** What each of a list finds, one after the other. *)
Fixpoint all_of {A B} (f : A -> T (list B)) (l : list A) : T (list B) :=
  match l with
  | [] => ret []
  | a :: l => let* x := f a in let* y := all_of f l in ret (x ++ y)
  end.

Definition doctor_tools (root : string) : T (result unit string) :=
  let* floor := node_floor root in
  let* unread := (if bool_decide (is_Some floor) then ret []
                  else let* _ := print ("[FAIL] " +:+ padded NODE_FLOOR +:+ " could not read `engines.node` from the root package.json") in
                       ret [NODE_FLOOR]) in
  let* tools := all_of (check_tool floor) (CHECKS on_windows) in
  let* files := all_of (check_file root) FILES in
  ret (match unread ++ tools ++ files with
       | [] => Ok tt
       | missing => Err ("missing prerequisites: " +:+ join ", " missing)
       end).

(** *** check-refs *)

Definition list_path (root : string) (args : list string) : T (result string string) :=
  match position (fun a => bool_decide (a = "--list")) args with
  | Some i => ret (ok_or "--list needs a path" (args !! (i + 1)%nat))
  | None =>
      let* named := var "WILLIE_REFS_DENYLIST" in
      ret (Ok (match named ≫= to_str with Some path => path | None => win_join root DEFAULT_LIST end))
  end.

Definition load_terms (path : string) : T (result (list string) string) :=
  let* bytes := take_file path in
  let unreadable e :=
    Err (ends ("cannot read denylist " +:+ path +:+ ": " +:+ e)
         +:+ "create it (one term per line, `#` comments) or point WILLIE_REFS_DENYLIST / --list at it") in
  ret (match bytes with
       | Err e => unreadable e
       | Ok b => match to_str b with None => unreadable NOT_UTF8 | Some text => Ok (parse_terms to_lowercase text) end
       end).

Definition LS_FILES : list string := ["git"; "ls-files"; "-z"; "--cached"; "--others"; "--exclude-standard"].

Definition names_of (stdout : string) : list string := List.filter (fun s => negb (is_empty s)) (split zero (from_utf8_lossy stdout)).

Definition versioned_files (root : string) : T (result (list string) string) :=
  let* o := spawn (Some root) [] LS_FILES in
  ret (match o with
       | NotRun e => Err ("cannot run git: " +:+ e)
       | Ended false _ _ stderr => Err ("git ls-files failed: " +:+ trim (from_utf8_lossy stderr))
       | Ended true _ stdout _ => Ok (names_of stdout)
       end).

(** A file that cannot be read, or is not text, is passed over. *)
Definition scan_file (root : string) (terms : list string) (rel : string) : T (list string) :=
  let* bytes := take_file (win_join root rel) in
  ret (match bytes with
       | Ok b => match to_str b with Some text => scan to_lowercase rel text terms | None => [] end
       | Err _ => []
       end).

Definition report_hits (hits : list string) : T unit := let* _ := all_of (fun h => let* _ := warn h in ret (@nil unit)) hits in ret tt.

Definition check_refs (root : string) (args : list string) : T (result unit string) :=
  let! path := list_path root args in
  let! terms := load_terms path in
  match terms with
  | [] => ret (Err (path +:+ " contains no terms"))
  | _ =>
      let! files := versioned_files root in
      let* hits := all_of (scan_file root terms) files in
      match hits with
      | [] =>
          let* _ := print ("check-refs: " +:+ pretty (Z.of_nat (length files)) +:+ " files clean (" +:+ pretty (Z.of_nat (length terms)) +:+ " terms)") in
          ret (Ok tt)
      | _ =>
          let* _ := report_hits hits in
          ret (Err (pretty (Z.of_nat (length hits)) +:+ " reference(s) to denylisted terms in versioned content"))
      end
  end.

(** *** build-linux *)

Definition runs (argv : list string) : T bool :=
  match argv with [] => ret false | _ => let* o := spawn None [] argv in ret (ended_well o) end.

(** The candidates are tried one after the other, up to the one picked. *)
Fixpoint pick_python (candidates : list string) : T (option string) :=
  match candidates with
  | [] => ret None
  | python :: candidates =>
      let* ok := runs [python; "-m"; "ziglang"; "version"] in
      if ok : bool then ret (Some python) else pick_python candidates
  end.

Definition python_with_ziglang : T (option string) :=
  let* python := var "CARGO_ZIGBUILD_PYTHON_PATH" in
  if bool_decide (is_Some python) then ret None
  else
    let* zig := var "CARGO_ZIGBUILD_ZIG_PATH" in
    if bool_decide (is_Some zig) then ret None
    else
      let* ok := runs ["zig"; "version"] in
      if ok : bool then ret None else pick_python PYTHON_CANDIDATES.

Definition python_env (python : option string) : list (string * string) :=
  match python with Some p => [("CARGO_ZIGBUILD_PYTHON_PATH", p)] | None => [] end.

Definition build_linux (root : string) (args : list string) : T (result unit string) :=
  let release := negb (existsb (fun a => bool_decide (a = "--debug")) args) in
  let* python := python_with_ziglang in
  let* o := spawn (Some root) (python_env python)
              (["cargo"; "zigbuild"; "--locked"; "--target"; TARGET] ++ (if release then ["--release"] else []) ++ packages PACKAGES) in
  match o with
  | NotRun e => ret (Err ("cannot run `cargo zigbuild`: " +:+ e +:+ " (python -m pip install --user cargo-zigbuild ziglang)"))
  | Ended false status _ _ => ret (Err ("cargo zigbuild exited with " +:+ status))
  | Ended true _ _ _ =>
      let profile := if release then "release" else "debug" in
      let* _ := all_of (fun b => let* _ := print ("target/" +:+ TARGET +:+ "/" +:+ profile +:+ "/" +:+ b) in ret (@nil unit)) BINARIES in
      ret (Ok tt)
  end.

(** *** test-linux *)

Definition build_test_binaries (root : string) : T (result (list string) string) :=
  let* python := python_with_ziglang in
  let* o := spawn (Some root) (python_env python)
              (["cargo-zigbuild"; "test"; "--locked"; "--no-run"; "--target"; TARGET; "--message-format=json"] ++ packages CRATES) in
  ret (match o with
       | NotRun e => Err ("cannot run `cargo-zigbuild test`: " +:+ e +:+ " (python -m pip install --user cargo-zigbuild ziglang)")
       | Ended false _ _ stderr => Err ("cargo zigbuild test --no-run failed: " +:+ from_utf8_lossy stderr)
       | Ended true _ stdout _ => Ok (omap (fun line => from_str line ≫= test_executable) (lines (from_utf8_lossy stdout)))
       end).

Definition to_drvfs (root binary : string) : result string string :=
  let? rel := ok_or (binary +:+ " is not under " +:+ root) (relative_to root binary) in
  let? root_wsl := ok_or ("cannot map " +:+ root +:+ " to DrvFs") (windows_to_drvfs root) in
  Ok (root_wsl +:+ "/" +:+ replace_char (ascii_of_nat 92) "/" rel).

Fixpoint map_ok {A B} (f : A -> result B string) (l : list A) : result (list B) string :=
  match l with
  | [] => Ok []
  | a :: l => let? b := f a in let? bs := map_ok f l in Ok (b :: bs)
  end.

(** The workspace's own binaries, where they are built. *)
Fixpoint built_sources (root : string) (binaries : list string) : T (result (list string) string) :=
  match binaries with
  | [] => ret (Ok [])
  | name :: binaries =>
      let path := win_join (win_join (win_join (win_join root "target") TARGET) "debug") name in
      let* there := see is_file path in
      if there : bool then
        let! source := ret (to_drvfs root path) in
        let! sources := built_sources root binaries in
        ret (Ok (source :: sources))
      else built_sources root binaries
  end.

(** The ones that fail, in order. *)
Fixpoint run_tests (root name : string) (binaries : list string) : T (result (list string) string) :=
  match binaries with
  | [] => ret (Ok [])
  | binary :: binaries =>
      let! wsl_path := ret (to_drvfs root binary) in
      let* _ := warn ("running " +:+ wsl_path +:+ " in " +:+ name) in
      let* o := spawn None [] (in_distro name (run_script STAGE wsl_path)) in
      match o with
      | NotRun e => ret (Err ("cannot run wsl.exe: " +:+ e))
      | Ended success _ _ _ =>
          let! failures := run_tests root name binaries in
          ret (Ok (if success then failures else wsl_path :: failures))
      end
  end.

Definition stage_and_run (root name : string) (binaries : list string) : T (result unit string) :=
  let! tests := ret (map_ok (to_drvfs root) binaries) in
  let! built := built_sources root BINARIES in
  let sources := tests ++ built in
  let* _ := warn ("staging " +:+ pretty (Z.of_nat (length sources)) +:+ " binaries in " +:+ name +:+ ":" +:+ STAGE) in
  let* staged := spawn None [] (in_distro name (stage_script STAGE sources)) in
  match staged with
  | NotRun e => ret (Err ("cannot run wsl.exe: " +:+ e))
  | Ended false status _ _ => ret (Err ("cannot stage the test binaries in " +:+ name +:+ " (" +:+ status +:+ ")"))
  | Ended true _ _ _ =>
      let! failures := run_tests root name binaries in
      ret (match failures with [] => Ok tt | _ => Err ("failing test binaries: " +:+ join ", " failures) end)
  end.

Definition test_linux (root : string) : T (result unit string) :=
  let* named := var "WILLIE_TEST_DISTRO" in
  match named with
  | None =>
      let* _ := warn "skip: set WILLIE_TEST_DISTRO to a registered distribution to run the Linux tests" in
      ret (Ok tt)
  | Some bytes =>
      let name := from_utf8_lossy bytes in
      let! binaries := build_test_binaries root in
      match binaries with
      | [] => ret (Err "no test binaries were produced")
      | _ => stage_and_run root name binaries
      end
  end.

(** *** The program *)

Definition run_command (root : string) (args : list string) : T (result unit string) :=
  match args with
  | [] => let* _ := print USAGE in ret (Ok tt)
  | command :: args =>
      if bool_decide (command = "doctor-tools") then doctor_tools root
      else if bool_decide (command = "check-refs") then check_refs root args
      else if bool_decide (command = "build-linux") then build_linux root args
      else if bool_decide (command = "test-linux") then test_linux root
      else if bool_decide (command = "distro") then distro root args
      else if bool_decide (command = "help") || bool_decide (command = "--help") then let* _ := print USAGE in ret (Ok tt)
      else ret (Err ("unknown command `" +:+ command +:+ "`" +:+ String newline USAGE))
  end.

(** The root is the parent of the manifest's directory: of the variable that
    cargo sets, or of where the binary was built. *)
Definition workspace_root (parent : string -> option string) (compiled : string) : T string :=
  let* named := var "CARGO_MANIFEST_DIR" in
  ret (default "." (parent (default compiled named))).

Definition main (parent : string -> option string) (compiled : string) (args : list string) : T Z :=
  let* root := workspace_root parent compiled in
  let* outcome := run_command root args in
  match outcome with
  | Ok _ => ret 0%Z
  | Err message => let* _ := warn ("xtask: " +:+ message) in ret 1%Z
  end.

(** ** What a list of them does *)

(** A round that satisfies [D], among the effects and the findings of all. *)
Definition round_of {B} (D : list B -> list Deed -> Prop) (y : list B) (l : list Deed) : Prop :=
  exists x tr, D x tr /\ x ⊆ y /\ tr ⊆ l.

Lemma all_of_does {A B} (f : A -> T (list B)) (D : A -> list B -> list Deed -> Prop) l :
  (forall a, does (f a) (D a)) -> does (all_of f l) (fun y tr => forall a, a ∈ l -> round_of (D a) y tr).
Proof.
  intros Hf. induction l as [|a l IH]; cbn [all_of]; [apply does_ret; by intros a ?%elem_of_nil|].
  apply (does_bind _ _ _ _ (Hf a)). intros x tr Hx. apply (does_bind _ _ _ _ IH). intros y tr' Hy. apply does_ret. rewrite app_nil_r.
  intros b [->|Hb]%elem_of_cons.
  - exists x, tr. split; [done|]. split; set_solver.
  - destruct (Hy b Hb) as (x' & t' & Hd & Hs & Ht). exists x', t'. split; [done|]. split; set_solver.
Qed.

Lemma round_of_none {B} (D : list B -> list Deed -> Prop) l : round_of D [] l -> exists tr, D [] tr /\ tr ⊆ l.
Proof. intros (x & tr & Hd & Hx & Ht). exists tr. by destruct x as [|b x]; [|assert (b ∈ @nil B) by set_solver; set_solver]. Qed.

(** ** The tools *)

(** A probe of the tool was run and its output counts, with its headline. *)
Definition probed (ps : list Probe) (line : string) (l : list Deed) : Prop :=
  exists p success status out err, p ∈ ps /\ Spawned None [] (argv p) (Ended success status out err) ∈ l
  /\ accept p success (decode_wsl_output out +:+ decode_wsl_output err) = Some line.

Lemma detect_does ps : does (detect ps) (fun r l => forall line, r = Some line -> probed ps line l).
Proof.
  induction ps as [|p ps IH]; cbn [detect]; [by apply does_ret|].
  assert (forall more, does (detect ps) (fun r l => forall line, r = Some line -> probed (p :: ps) line (more ++ l))) as Hnext.
  { intros more. apply (does_conseq _ _ _ IH). intros r l Hl line ->. destruct (Hl line eq_refl) as (q & b & st & o & e & Hq & Hs & Ha).
    exists q, b, st, o, e. split; [by right|]. split; [set_solver|done]. }
  destruct (argv p) as [|name args] eqn:Ep; [exact (Hnext [])|]. apply does_perform. intros [e|success status out err]; [apply Hnext|].
  destruct (accept p success _) as [line|] eqn:Ea; [|apply Hnext]. apply does_ret. intros line' [= <-].
  exists p, success, status, out, err. rewrite Ep. split; [by left|]. split; [by left|done].
Qed.

(** A tool that is not reported missing: one of its probes counts, and node's
    version is not below the floor. *)
Definition tool_there (floor : option Z) (c : Check_) (x : list string) (l : list Deed) : Prop :=
  x = [] -> c_required c = true -> exists line, probed (probes c) line l
  /\ (c_name c = "node" -> match floor with Some f => meets_node_floor line f = true | None => True end).

Lemma check_tool_does floor c : does (check_tool floor c) (tool_there floor c).
Proof.
  unfold check_tool. apply (does_bind _ _ _ _ (detect_does (probes c))). intros found tr Hf. cbv zeta.
  destruct found as [version|].
  - specialize (Hf version eq_refl). assert (forall more, probed (probes c) version (tr ++ more)) as Hp.
    { intros more. destruct Hf as (p & b & st & o & e & Hp & Hs & Ha). exists p, b, st, o, e. split; [done|]. split; [set_solver|done]. }
    case_bool_decide as Hn; [destruct floor as [f|]|].
    + destruct (meets_node_floor version f) eqn:Em; cbn [negb]; apply does_perform; intros []; apply does_ret; [|by intros [=]].
      intros _ _. exists version. by split.
    + apply does_perform. intros []. apply does_ret. intros _ _. exists version. by split.
    + apply does_perform. intros []. apply does_ret. intros _ _. exists version. by split.
  - destruct (c_required c) eqn:Er; apply does_perform; intros []; apply does_ret; [by intros [=]|]. intros _ Hr. congruence.
Qed.

Lemma check_file_does root c : does (check_file root c) (fun x l => x = [] -> Saw (win_join root (f_path c)) true ∈ l).
Proof.
  unfold check_file. apply does_perform. intros b. apply does_perform. intros []. apply does_ret. destruct b; [intros _; by left|by intros [=]].
Qed.

(** When the toolchain is said to be complete, it is: the node floor was read
    from package.json, a probe of every required tool was run and its output
    counts, node is not below the floor, and every file was there. *)
Theorem a_complete_toolchain_was_seen root : does (doctor_tools root) (fun r l => r = Ok tt ->
  exists bytes text floor, Took (win_join root "package.json") (Ok bytes) ∈ l /\ to_str bytes = Some text /\ node_floor_of text = Some floor
  /\ (forall c, c ∈ CHECKS on_windows -> c_required c = true ->
       exists line, probed (probes c) line l /\ (c_name c = "node" -> meets_node_floor line floor = true))
  /\ forall c, c ∈ FILES -> Saw (win_join root (f_path c)) true ∈ l).
Proof.
  unfold doctor_tools, node_floor. apply does_assoc, does_perform. intros b. apply does_ret_bind.
  destruct (match b with Ok b => to_str b ≫= node_floor_of | Err _ => None end) as [floor|] eqn:Ef.
  2: { rewrite bool_decide_false by (by intros []). apply does_assoc, does_perform. intros []. apply does_ret_bind.
       apply (does_bind _ _ _ _ (all_of_does (check_tool None) _ (CHECKS on_windows) (check_tool_does None))). intros tools l1 _. apply (does_bind _ _ _ _ (all_of_does (check_file root) _ FILES (check_file_does root))). intros files l2 _.
       apply does_ret. by intros [=]. }
  rewrite bool_decide_true by eauto. apply does_ret_bind.
  apply (does_bind _ _ _ _ (all_of_does (check_tool (Some floor)) (tool_there (Some floor)) (CHECKS on_windows) (check_tool_does (Some floor)))).
  intros tools l1 Ht. apply (does_bind _ _ _ _ (all_of_does (check_file root) _ FILES (check_file_does root))). intros files l2 Hfs.
  apply does_ret. rewrite app_nil_r. cbn [app]. intros Hok. assert (tools = [] /\ files = []) as [-> ->].
  { destruct tools, files; try done. }
  destruct b as [bytes|]; [|done]. destruct (to_str bytes) as [text|] eqn:Et; [|done]. exists bytes, text, floor.
  split; [by left|]. split; [done|]. split; [done|]. split.
  - intros c Hc Hr. destruct (round_of_none _ _ (Ht c Hc)) as (tr & Hd & Hs). destruct (Hd eq_refl Hr) as (line & (p & q & st & o & e & Hp & Hq & Ha) & Hn).
    exists line. split; [|done]. exists p, q, st, o, e. split; [done|]. split; [set_solver|done].
  - intros c Hc. destruct (round_of_none _ _ (Hfs c Hc)) as (tr & Hd & Hs). specialize (Hd eq_refl). set_solver.
Qed.

(** ** The denylist *)

(** No line of the text has any of the terms, whatever the case. *)
Definition clean (terms : list string) (text : string) : Prop :=
  forall line term, line ∈ lines text -> term ∈ terms -> contains term (to_lowercase line) = false.

Lemma filter_none {A} (p : A -> bool) l : List.filter p l = [] -> forall a, a ∈ l -> p a = false.
Proof.
  intros Hl a Ha. destruct (p a) eqn:E; [|done]. assert (In a (List.filter p l)) as Hi by (apply filter_In; split; [by apply list_elem_of_In|done]).
  by rewrite Hl in Hi.
Qed.

Lemma scan_clean rel text terms : scan to_lowercase rel text terms = [] -> clean terms text.
Proof.
  intros Hs line term Hl Ht. apply list_elem_of_lookup in Hl as [i Hi]. unfold scan in Hs.
  set (f := fun index line => _) in Hs. assert (f i line = []) as He.
  { destruct (f i line) as [|h t] eqn:E; [done|]. assert (h ∈ concat (imap f (lines text))) as Hh; [|by rewrite Hs in Hh; apply elem_of_nil in Hh].
    apply list_elem_of_In, in_concat. exists (f i line). split; [|by rewrite E; left].
    apply list_elem_of_In, elem_of_lookup_imap. by exists i, line. }
  unfold f in He. apply map_eq_nil in He. by apply (filter_none _ _ He).
Qed.

Lemma scan_file_does root terms rel : does (scan_file root terms rel) (fun x l =>
  exists b, Took (win_join root rel) b ∈ l /\ (x = [] -> forall bytes text, b = Ok bytes -> to_str bytes = Some text -> clean terms text)).
Proof.
  unfold scan_file. apply does_perform. intros b. apply does_ret. exists b. split; [by left|]. intros Hx bytes text -> Ht. rewrite Ht in Hx.
  by eapply scan_clean.
Qed.

Lemma list_path_does root args : does (list_path root args) (fun _ l => True).
Proof. unfold list_path. destruct (position _ args); [by apply does_ret|]. apply does_perform. intros v. by apply does_ret. Qed.

Lemma load_terms_does path : does (load_terms path) (fun r l => forall terms, r = Ok terms ->
  exists bytes text, Took path (Ok bytes) ∈ l /\ to_str bytes = Some text /\ terms = parse_terms to_lowercase text).
Proof.
  unfold load_terms. apply does_perform. intros b. apply does_ret. intros terms Hr. destruct b as [bytes|e]; [|done].
  destruct (to_str bytes) as [text|] eqn:Et; [|done]. injection Hr as <-. exists bytes, text. split; [by left|done].
Qed.

Lemma versioned_files_does root : does (versioned_files root) (fun r l => forall files, r = Ok files ->
  exists status out err, Spawned (Some root) [] LS_FILES (Ended true status out err) ∈ l /\ files = names_of out).
Proof.
  unfold versioned_files. apply does_perform. intros o. apply does_ret. intros files Hr. destruct o as [|[] status out err]; [done| |done].
  injection Hr as <-. exists status, out, err. split; [by left|done].
Qed.

Lemma report_hits_does hits : does (report_hits hits) (fun _ _ => True).
Proof.
  unfold report_hits. eapply does_bind; [apply (all_of_does _ (fun _ _ _ => True)); intros a; apply does_perform; intros []; by apply does_ret|].
  intros y l _. by apply does_ret.
Qed.

(** The search fails closed.  It passes only with a list that was read and has
    a term, with git's whole answer on what would be committed, and when every
    one of those files that could be read as text has no line with any of the
    terms in it, whatever the case. *)
Theorem the_search_fails_closed root args : does (check_refs root args) (fun r l => r = Ok tt ->
  exists path bytes list status out err,
    Took path (Ok bytes) ∈ l /\ to_str bytes = Some list /\ parse_terms to_lowercase list <> []
    /\ Spawned (Some root) [] LS_FILES (Ended true status out err) ∈ l
    /\ forall rel, rel ∈ names_of out -> exists b, Took (win_join root rel) b ∈ l
       /\ forall bytes text, b = Ok bytes -> to_str bytes = Some text -> clean (parse_terms to_lowercase list) text).
Proof.
  unfold check_refs, bind_result. apply (does_bind _ _ _ _ (list_path_does root args)). intros [path|e] l0 _; [|by apply does_ret].
  apply (does_bind _ _ _ _ (load_terms_does path)). intros [terms|e] l1 H1; [|by apply does_ret]. specialize (H1 terms eq_refl).
  destruct terms as [|t ts] eqn:Et; [by apply does_ret|]. rewrite <- Et in *. assert (terms <> []) as Hne by (by rewrite Et). clear Et.
  apply (does_bind _ _ _ _ (versioned_files_does root)). intros [files|e] l2 H2; [|by apply does_ret]. specialize (H2 files eq_refl).
  apply (does_bind _ _ _ _ (all_of_does (scan_file root terms) _ files (scan_file_does root terms))). intros hits l3 H3.
  destruct hits as [|h hits].
  2: { apply (does_bind _ _ _ _ (report_hits_does (h :: hits))). intros [] l _. by apply does_ret. }
  apply does_perform. intros []. apply does_ret. intros _. destruct H1 as (bytes & text & Hb & Ht & ->). destruct H2 as (status & out & err & Hg & ->).
  exists path, bytes, text, status, out, err. split; [set_solver|]. split; [done|]. split; [done|]. split; [set_solver|].
  intros rel Hrel. destruct (round_of_none _ _ (H3 rel Hrel)) as (tr & (b & Hk & Hc) & Hs). exists b. split; [set_solver|]. by apply Hc.
Qed.

(** ** The tests inside the distribution *)

(** What was run inside the distribution. *)
Definition ran_inside (name script : string) (out : ProgramOut) : Deed := Spawned None [] (in_distro name script) out.

Definition not_inside (name : string) (d : Deed) : Prop := forall script out, d <> ran_inside name script out.

Lemma map_ok_each {A B} (f : A -> result B string) l bs : map_ok f l = Ok bs -> Forall2 (fun a b => f a = Ok b) l bs.
Proof.
  revert bs. induction l as [|a l IH]; intros bs; cbn; [by intros [= <-]|]. destruct (f a) as [b|] eqn:E; [|done]. cbn.
  destruct (map_ok f l) as [bs'|]; [|done]. intros [= <-]. constructor; [done|by apply IH].
Qed.

Lemma built_sources_does root name bs : does (built_sources root bs) (fun _ l => Forall (not_inside name) l).
Proof.
  induction bs as [|b bs IH]; cbn [built_sources]; [by apply does_ret|]. apply does_perform. intros [|].
  - unfold bind_result at 1. apply does_ret_bind. destruct (to_drvfs root _) as [source|e]; [|apply does_ret; by repeat constructor].
    unfold bind_result. apply (does_bind _ _ _ _ IH). intros [ss|e] l Hl; apply does_ret; rewrite app_nil_r; (constructor; [done|done]).
  - apply (does_conseq _ _ _ IH). intros r l Hl. by constructor.
Qed.

(** Every binary's run, under the path it has inside. *)
Lemma run_tests_does root name bs : does (run_tests root name bs) (fun r l => r = Ok [] ->
  forall binary, binary ∈ bs -> exists path status out err, to_drvfs root binary = Ok path
    /\ ran_inside name (run_script STAGE path) (Ended true status out err) ∈ l).
Proof.
  induction bs as [|b bs IH]; cbn [run_tests]; [apply does_ret; by intros _ binary ?%elem_of_nil|].
  unfold bind_result at 1. apply does_ret_bind. destruct (to_drvfs root b) as [path|e] eqn:Ep; [|by apply does_ret].
  apply does_perform. intros []. apply does_perform. intros [e|success status out err]; [by apply does_ret|].
  unfold bind_result. apply (does_bind _ _ _ _ IH). intros [failures|e] l Hl; [|by apply does_ret]. apply does_ret. rewrite app_nil_r.
  destruct success; [|by intros [=]]. intros [= ->]. intros binary [->|Hb]%elem_of_cons.
  - exists path, status, out, err. split; [done|]. right. by left.
  - destruct (Hl eq_refl binary Hb) as (p & st & o & e & Hp & Hs). exists p, st, o, e. split; [done|]. set_solver.
Qed.

(** Nothing runs inside the distribution before the binaries are staged there,
    the stage emptied first, and the task passes only when each test binary was
    run from the stage and passed. *)
Theorem tests_run_as_staged root name binaries : does (stage_and_run root name binaries) (fun r l =>
  (Forall (not_inside name) l
   \/ exists before sources built out after, l = before ++ ran_inside name (stage_script STAGE (sources ++ built)) out :: after
      /\ Forall (not_inside name) before /\ Forall2 (fun b p => to_drvfs root b = Ok p) binaries sources
      /\ (ended_well out = false -> after = []))
  /\ (r = Ok tt -> forall binary, binary ∈ binaries -> exists path status out err, to_drvfs root binary = Ok path
       /\ ran_inside name (run_script STAGE path) (Ended true status out err) ∈ l)).
Proof.
  unfold stage_and_run. unfold bind_result at 1. apply does_ret_bind. destruct (map_ok (to_drvfs root) binaries) as [tests|e] eqn:Em.
  2: { apply does_ret. split; [by left|done]. }
  apply map_ok_each in Em. unfold bind_result at 1. apply (does_bind _ _ _ _ (built_sources_does root name BINARIES)). intros [built|e] l0 H0.
  2: { apply does_ret. rewrite app_nil_r. split; [by left|done]. }
  cbv zeta. apply does_perform. intros []. apply does_perform. intros out.
  set (warned := Warned _). set (staged := Spawned _ _ _ out).
  assert (forall after, (ended_well out = false -> after = []) -> exists before sources built' out' after', l0 ++ [warned] ++ [staged] ++ after
    = before ++ ran_inside name (stage_script STAGE (sources ++ built')) out' :: after' /\ Forall (not_inside name) before
      /\ Forall2 (fun b p => to_drvfs root b = Ok p) binaries sources /\ (ended_well out' = false -> after' = [])) as Hshape.
  { intros after Ha. exists (l0 ++ [warned]), tests, built, out, after. split; [by rewrite <- app_assoc|]. split; [|by split].
    apply Forall_app. split; [done|]. by repeat constructor. }
  destruct out as [e|[] status o e]; [apply does_ret; split; [by right; apply Hshape|done]| |apply does_ret; split; [by right; apply Hshape|done]].
  unfold bind_result. apply (does_bind _ _ _ _ (run_tests_does root name binaries)). intros [failures|e'] l2 H2; apply does_ret; rewrite app_nil_r.
  2: { split; [right; by apply Hshape|done]. }
  split; [right; by apply Hshape|]. destruct failures; [|done]. intros _ binary Hb. destruct (H2 eq_refl binary Hb) as (p & st & o' & e' & Hp & Hs).
  exists p, st, o', e'. split; [done|]. set_solver.
Qed.
End tasks.

(** ** At concrete inputs *)

(** GNU's link does not pass for the MSVC linker. *)
Example gnu_link_is_refused :
  let link := mk_probe ["link.exe"] (Some "Microsoft (R) Incremental Linker") true in
  accept link false "link: missing operand after '/?'" = None
  /\ accept link false ("Microsoft (R) Incremental Linker Version 14.50.1" +:+ String newline (String newline "usage: LINK"))
     = Some "Microsoft (R) Incremental Linker Version 14.50.1".
Proof. split; vm_compute; reflexivity. Qed.

(** The floor is read from [engines], whatever else pins node above it. *)
Example the_floor_is_the_engines :
  node_floor_of ("{" +:+ quoted "volta" +:+ ": {" +:+ ends EmptyString +:+ quoted "node" +:+ ": " +:+ ends (quoted "18.20.4") +:+ "}, "
    +:+ quoted "engines" +:+ ": {" +:+ ends EmptyString +:+ quoted "node" +:+ ": " +:+ ends (quoted ">=22.0.0") +:+ "} }") = Some 22%Z
  /\ meets_node_floor "v24.18.0" 22 = true /\ meets_node_floor "v20.19.0" 22 = false /\ meets_node_floor "not a version" 22 = false.
Proof. repeat split; vm_compute; reflexivity. Qed.

(** The staging's script quotes what it is given but not a quote in it. *)
Example a_quote_ends_the_argument : stage_script "/s" ["/mnt/c/it's"] =
  ends "set -e" +:+ ends "rm -rf '/s'" +:+ ends "mkdir -p '/s'" +:+ ends "cp '/mnt/c/it's' '/s/'" +:+ ends "chmod +x '/s'/*".
Proof. vm_compute. reflexivity. Qed.
