(* ===== verification/App.v ===== *)
(** * The desktop application's commands

    Models apps/willie-app/src-tauri/src/lib.rs and state.rs, with
    [Engine::status] of willie-engine's engine.rs: what every command of the
    webview does with the engine, the status it tells and the event pump.  The
    engine behind its lock is an option, [None] once a panic has poisoned it. *)

From S2P Require Import Prelude Text Json Rpc Effects EngineRpc Sandbox Project Session Harness Wsl Config Engine Cli.

Local Open Scope string_scope.
Local Open Scope list_scope.
Local Open Scope willie_scope.

(** ** Data *)

Record EngineStatus : Type := mk_engine_status {
  engine_version : string;
  wsl_of : WslStatus;
  distro_of : option DistroStatus;
  distro_error : option Problem;
  daemon_of : DaemonState;
  doctor_of : option Json;
  image_available : bool
}.

(** What a command does beside the engine's own effects. *)
Inductive Act : Type :=
| Did (a : Engine.Act)
| StatusEmitted (s : EngineStatus)
| PumpEnsured.

Definition engine_poisoned : Problem :=
  mk_problem "engine_poisoned" "the engine lock was poisoned by a previous panic" "restart Willie".

Section app.
  Context {S : Type} (others : nat -> S -> S).
  Context (spawn_daemon : S -> result N WslError * S) (watch_stderr wire : N -> S -> result unit WslError * S)
    (rpc_call : N -> string -> Json -> S -> result Json EngineError * S) (try_wait : N -> S -> result (option Z) WslError * S)
    (stderr_text stray : N -> S -> string) (kill_process reap : N -> S -> S).
  Context (wsl : list string -> S -> CliOutput * S) (file_len : string -> S -> option Z) (read_to_string read_bytes : string -> S -> option string)
    (create_dir : string -> S -> option string * S) (remove_file : string -> S -> RemoveAnswer * S)
    (hex_sha256 : string -> string) (install_dir : option string) (is_file is_dir : string -> S -> bool).
  Context (git_exe : list string -> S -> option (bool * string) * S) (present : string -> S -> bool)
    (spawn_program : string -> list string -> S -> option string * S) (local_app_data : option string) (path_dirs : option (list string)).
  Context (settle_polls grace_polls : nat) (VERSION : string).
  Context (hello_reply : Json -> result (string * option string) string) (report_of : Json -> result Json string).
  Context (ulid_to_string : N -> string) (created_of : Json -> result (N * Json) string) (projects_of : Json -> result (list (N * string)) string).

Definition A (T : Type) : Type := M S Act T.

(** [Engine::status]. *)
Definition status (e : Engine) : E (S := S) (EngineStatus * Engine) :=
  let* distro := lift Distro (distro_status others wsl install_dir) in
  let* machine := lift Distro (wsl_status others wsl) in
  let* d := watch others try_wait stderr_text kill_process reap (daemon e) in
  let* image := locate_image others is_file (image_candidates e) in
  ret (mk_engine_status VERSION machine (match distro with Ok s => Some s | Err _ => None end)
         (match distro with Ok _ => None | Err x => Some (problem_of (EWsl x)) end)
         (state d) (last_doctor e) (bool_decide (is_Some image)),
       with_daemon d e).

Definition with_engine {R} (f : Engine -> E (S := S) (R * Engine)) (st : option Engine) : A (result R Problem * option Engine) :=
  match st with
  | None => ret (Err engine_poisoned, None)
  | Some e => let* r := lift Did (f e) in ret (Ok (fst r), Some (snd r))
  end.

Definition emit_status (s : EngineStatus) : A unit := perform others (fun _ => [StatusEmitted s]) (fun w => (tt, w)).

Definition ensure_pump : A unit := perform others (fun _ => [PumpEnsured]) (fun w => (tt, w)).

(** An operation, and the status right after it. *)
Definition then_status {R} (op : Engine -> E (S := S) (result R EngineError * Engine)) (e : Engine) :
    E (S := S) ((result R Problem * EngineStatus) * Engine) :=
  let* r := op e in
  let* s := status (snd r) in
  ret ((map_err problem_of (fst r), fst s), snd s).

Definition mutate (op : Engine -> E (S := S) (result unit EngineError * Engine)) (st : option Engine) :
    A (result EngineStatus Problem * option Engine) :=
  let* outcome := with_engine (then_status op) st in
  match fst outcome with
  | Err p => ret (Err p, snd outcome)
  | Ok (r, s) =>
      let* _ := emit_status s in
      ret (match r with Ok _ => Ok s | Err p => Err p end, snd outcome)
  end.

(** A call that is not the daemon's. *)
Definition query {R} (op : Engine -> E (S := S) (result R EngineError * Engine)) (st : option Engine) :
    A (result R Problem * option Engine) :=
  let* outcome := with_engine op st in
  ret (match fst outcome with Err p => Err p | Ok r => map_err problem_of r end, snd outcome).

Definition daemon_command {R} (op : Engine -> E (S := S) (result R EngineError * Engine)) (st : option Engine) :
    A (result R Problem * option Engine) :=
  let* outcome := with_engine (then_status op) st in
  match fst outcome with
  | Err p => ret (Err p, snd outcome)
  | Ok (r, s) =>
      let* _ := emit_status s in
      let* _ := ensure_pump in
      ret (r, snd outcome)
  end.

(** ** The commands *)

Definition engine_status : option Engine -> A (result EngineStatus Problem * option Engine) := with_engine status.

Definition engine_install_distro : option Engine -> A (result EngineStatus Problem * option Engine) :=
  mutate (install_distro others rpc_call try_wait kill_process reap wsl file_len read_to_string read_bytes create_dir remove_file
            hex_sha256 install_dir is_file grace_polls).

Definition engine_start_daemon : option Engine -> A (result EngineStatus Problem * option Engine) :=
  mutate (start_daemon others spawn_daemon watch_stderr wire rpc_call try_wait stderr_text stray kill_process reap wsl install_dir
            settle_polls grace_polls VERSION hello_reply).

Definition engine_stop_daemon : option Engine -> A (result EngineStatus Problem * option Engine) :=
  mutate (stop_daemon others rpc_call try_wait kill_process reap grace_polls).

(** The report's status is told; no pump is made sure of. *)
Definition engine_doctor (st : option Engine) : A (result Json Problem * option Engine) :=
  let* outcome := with_engine (then_status (run_doctor others spawn_daemon watch_stderr wire rpc_call try_wait stderr_text stray kill_process reap wsl
    install_dir settle_polls grace_polls VERSION hello_reply report_of)) st in
  match fst outcome with
  | Err p => ret (Err p, snd outcome)
  | Ok (r, s) => let* _ := emit_status s in ret (r, snd outcome)
  end.

Local Notation "'calling' f" :=
  (f S others spawn_daemon watch_stderr wire rpc_call try_wait stderr_text stray kill_process reap wsl install_dir settle_polls grace_polls VERSION hello_reply)
  (at level 9, f at level 0).

Section commands.
  Context {R : Type} (decode : Json -> result R string) (sandbox_json : Json).

Definition Answer : Type := option Engine -> A (result R Problem * option Engine).

Definition project_list : Answer := daemon_command (calling (@Engine.project_list) decode).

Definition project_add (windows_path : string) (name : option string) : Answer :=
  daemon_command (Engine.project_add others spawn_daemon watch_stderr wire rpc_call try_wait stderr_text stray kill_process reap wsl install_dir is_dir
    settle_polls grace_polls VERSION hello_reply decode windows_path name).

Definition project_remove (id : N) (delete_workspace force : bool) : Answer :=
  daemon_command (calling (@Engine.project_remove) ulid_to_string decode id delete_workspace force).

Definition project_sync_to_windows (id : N) : Answer :=
  daemon_command (calling (@Engine.project_sync_to_windows) ulid_to_string decode id).

Definition project_update_from_windows (id : N) : Answer :=
  daemon_command (calling (@Engine.project_update_from_windows) ulid_to_string decode id).

Definition project_relocate (id : N) (windows_path : string) : Answer :=
  daemon_command (calling (@Engine.project_relocate) ulid_to_string decode id windows_path).

Definition project_rename (id : N) (name : string) : Answer :=
  daemon_command (calling (@Engine.project_rename) ulid_to_string decode id name).

Definition project_set_sandbox (id : N) : Answer :=
  daemon_command (calling (@Engine.project_set_sandbox) ulid_to_string sandbox_json decode id).

Definition project_tree (id : N) (path : option string) : Answer :=
  daemon_command (calling (@Engine.project_tree) ulid_to_string decode id path).

Definition project_read_file (id : N) (path : string) : Answer :=
  daemon_command (calling (@Engine.project_read_file) ulid_to_string decode id path).

Definition job_cancel (id : N) : Answer := daemon_command (calling (@Engine.job_cancel) ulid_to_string decode id).

Definition state_snapshot : Answer := daemon_command (calling (@Engine.state_snapshot) decode).

Definition session_rename (id : N) (label : option string) : Answer :=
  daemon_command (calling (@Engine.session_rename) ulid_to_string decode id label).

Definition session_stop (id : N) : Answer := daemon_command (calling (@Engine.session_stop) ulid_to_string decode id).

Definition tool_install (harness : string) : Answer := daemon_command (calling (@Engine.tool_install) decode harness).

Definition tool_list : Answer := daemon_command (calling (@Engine.tool_list) decode).

Definition tool_update (tool : string) : Answer := daemon_command (calling (@Engine.tool_update) decode tool).

Definition plugin_list : Answer := daemon_command (calling (@Engine.plugin_list) decode).

Definition usage_snapshot : Answer := daemon_command (calling (@Engine.usage_snapshot) decode).

Definition plugin_enable (id : string) (project_id : option N) : Answer :=
  daemon_command (calling (@Engine.plugin_enable) ulid_to_string decode id project_id).

Definition plugin_disable (id : string) (project_id : option N) : Answer :=
  daemon_command (calling (@Engine.plugin_disable) ulid_to_string decode id project_id).

Definition plugin_call (method : string) (params : Json) : Answer :=
  daemon_command (calling (@Engine.plugin_call) decode method params).
End commands.

Definition session_open (project_id : N) (kind : option SessionKind) : option Engine -> A (result SessionOpened Problem * option Engine) :=
  daemon_command (Engine.session_open others spawn_daemon watch_stderr wire rpc_call try_wait stderr_text stray kill_process reap wsl install_dir
    git_exe present spawn_program local_app_data path_dirs settle_polls grace_polls VERSION hello_reply ulid_to_string created_of projects_of
    project_id (default Agent kind)).

Definition session_resume (project_id : N) (resume_from : option N) : option Engine -> A (result SessionOpened Problem * option Engine) :=
  daemon_command (Engine.session_resume others spawn_daemon watch_stderr wire rpc_call try_wait stderr_text stray kill_process reap wsl install_dir
    git_exe present spawn_program local_app_data path_dirs settle_polls grace_polls VERSION hello_reply ulid_to_string created_of projects_of
    project_id resume_from).

Definition session_attach (id : N) (title : string) : option Engine -> A (result unit Problem * option Engine) :=
  daemon_command (fun e =>
    let* r := Engine.session_attach others present spawn_program local_app_data path_dirs ulid_to_string id title in ret (r, e)).

(** ** What a command tells *)

(** The engine's effects, then the status as it leaves the supervisor, and the
    pump for the daemon's commands; nobody is left behind. *)
Definition told (pump : bool) (e : Engine) {R} (r : result R Problem * option Engine) (l : list Act) : Prop :=
  exists e' l1 s, snd r = Some e' /\ l = map Did l1 ++ StatusEmitted s :: (if pump then [PumpEnsured] else [])
    /\ minded e e' l1 /\ daemon_of s = state (daemon e').

Definition minds {R} (op : Engine -> E (S := S) (result R EngineError * Engine)) : Prop :=
  forall e, truthful (daemon e) -> does (op e) (fun r l => minded e (snd r) l).

Lemma status_tells e : truthful (daemon e) ->
  does (status e) (fun r l => minded e (snd r) l /\ daemon_of (fst r) = state (daemon (snd r))).
Proof.
  intros Ht. unfold status.
  assert (does (distro_status others wsl install_dir) (fun _ _ => True)) as H1
    by (unfold distro_status, running_distros, list_distros, names, run, bind_result; repeat walk1; done).
  assert (does (wsl_status others wsl) (fun _ _ => True)) as H2 by (unfold wsl_status, wsl_version, run; repeat walk1; done).
  eapply does_bind; [apply lift_does, H1|]. intros d1 l1 (x1 & -> & _). eapply does_bind; [apply lift_does, H2|]. intros d2 l2 (x2 & -> & _).
  eapply does_bind; [apply watch_does|]. intros d l3 [H3 Hd]. eapply does_bind; [apply quiet_search|]. intros image l4 ->.
  apply does_ret. cbn [fst snd daemon with_daemon daemon_of]. rewrite !app_nil_r, app_assoc, <- map_app. split; [|done].
  split; [|by eapply watched_truthful]. eapply kept_trans; [apply (tended_kept own), tended_distro|by eapply tended_kept].
Qed.

Lemma then_status_tells {R} (op : Engine -> E (S := S) (result R EngineError * Engine)) e : minds op -> truthful (daemon e) ->
  does (then_status op e) (fun r l => minded e (snd r) l /\ daemon_of (snd (fst r)) = state (daemon (snd r))).
Proof.
  intros Ho Ht. unfold then_status. apply (does_bind _ _ _ _ (Ho e Ht)). intros r l1 H1. cbv beta in H1.
  eapply does_bind; [apply status_tells, H1|]. intros s l2 [H2 Hd]. apply does_ret. rewrite app_nil_r. cbn [fst snd].
  split; [by eapply minded_trans|done].
Qed.

Lemma with_engine_tells {R} (op : Engine -> E (S := S) (result R EngineError * Engine)) e : minds op -> truthful (daemon e) ->
  does (with_engine (then_status op) (Some e)) (fun r l => exists x s e' l1, r = (Ok (x, s), Some e') /\ l = map Did l1
    /\ minded e e' l1 /\ daemon_of s = state (daemon e')).
Proof.
  intros Ho Ht. unfold with_engine. eapply does_bind; [by apply lift_does, then_status_tells|].
  intros [[x s] e'] l (l1 & -> & H & Hd). apply does_ret. rewrite app_nil_r. by exists x, s, e', l1.
Qed.

Lemma daemon_command_tells {R} (op : Engine -> E (S := S) (result R EngineError * Engine)) e : minds op -> truthful (daemon e) ->
  does (daemon_command op (Some e)) (told true e).
Proof.
  intros Ho Ht. unfold daemon_command. eapply does_bind; [by apply with_engine_tells|].
  intros r l (x & s & e' & l1 & -> & -> & H & Hd). cbn [fst]. unfold emit_status, ensure_pump. repeat walk1. by exists e', l1, s.
Qed.

Lemma mutate_tells (op : Engine -> E (S := S) (result unit EngineError * Engine)) e : minds op -> truthful (daemon e) ->
  does (mutate op (Some e)) (told false e).
Proof.
  intros Ho Ht. unfold mutate. eapply does_bind; [by apply with_engine_tells|].
  intros r l (x & s & e' & l1 & -> & -> & H & Hd). cbn [fst]. unfold emit_status. repeat walk1; by exists e', l1, s.
Qed.

Lemma doctor_minds :
  minds (run_doctor others spawn_daemon watch_stderr wire rpc_call try_wait stderr_text stray kill_process reap wsl install_dir
    settle_polls grace_polls VERSION hello_reply report_of).
Proof.
  intros e Ht. eapply does_conseq; [by apply run_doctor_does|]. intros r l (H1 & H2 & _). split; [by eapply tended_kept|done].
Qed.

(** Whatever it did, nothing was told and no pump made sure of. *)
Definition silent {R} (r : R) (l : list Act) : Prop := exists l1, l = map Did l1.

Lemma with_engine_silent {R} (f : Engine -> E (S := S) (R * Engine)) st : does (with_engine f st) silent.
Proof.
  destruct st as [e|]; cbn [with_engine]; [|by apply does_ret; exists []].
  eapply does_bind; [apply lift_any|]. intros r l [l1 ->]. apply does_ret. rewrite app_nil_r. by exists l1.
Qed.

Lemma query_silent {R} (op : Engine -> E (S := S) (result R EngineError * Engine)) st : does (query op st) silent.
Proof.
  unfold query. eapply does_bind; [apply with_engine_silent|]. intros r l [l1 ->]. apply does_ret. rewrite app_nil_r. by exists l1.
Qed.

(** C37. Every command that may change what the daemon is tells the webview one
    status after all it did, which is the supervisor's as the command leaves it:
    it says running exactly when a daemon is held, and no other may still run
    but one that never came to be held.  A command of the daemon's, opening,
    resuming and attaching to a session among them, then makes sure of the
    event pump, and starting, stopping, installing and the doctor do not.
    Asking for the status answers the supervisor's and tells nobody, and so do
    the commands that are not the daemon's, whatever they do.  Once a panic has
    poisoned the engine every command is refused with nothing done. *)
Theorem commands_tell_the_state e (He : truthful (daemon e)) :
  (forall R m params (decode : Json -> result R string),
     does (daemon_command (daemon_call others spawn_daemon watch_stderr wire rpc_call try_wait stderr_text stray kill_process reap wsl install_dir
       settle_polls grace_polls VERSION hello_reply m params decode) (Some e)) (told true e))
  /\ (forall R (decode : Json -> result R string) path name, does (project_add decode path name (Some e)) (told true e))
  /\ (forall R (decode : Json -> result R string) m params, does (plugin_call decode m params (Some e)) (told true e))
  /\ (forall project kind, does (session_open project kind (Some e)) (told true e))
  /\ (forall project from, does (session_resume project from (Some e)) (told true e))
  /\ (forall id title, does (session_attach id title (Some e)) (told true e))
  /\ does (engine_install_distro (Some e)) (told false e) /\ does (engine_start_daemon (Some e)) (told false e)
  /\ does (engine_stop_daemon (Some e)) (told false e) /\ does (engine_doctor (Some e)) (told false e)
  /\ does (engine_status (Some e)) (fun r l => exists s e' l1, r = (Ok s, Some e') /\ l = map Did l1 /\ minded e e' l1
       /\ daemon_of s = state (daemon e'))
  /\ (forall R (op : Engine -> E (S := S) (result R EngineError * Engine)) st, does (query op st) silent)
  /\ (forall R (op : Engine -> E (S := S) (result R EngineError * Engine)),
       daemon_command op None = ret (Err engine_poisoned, None) /\ query op None = ret (Err engine_poisoned, None))
  /\ (forall op, mutate op None = ret (Err engine_poisoned, None))
  /\ engine_doctor None = ret (Err engine_poisoned, None) /\ engine_status None = ret (Err engine_poisoned, None).
Proof using All.
  repeat match goal with
  | |- _ /\ _ => split
  | |- forall _, _ => intro
  | |- does (daemon_command _ (Some e)) _ => apply daemon_command_tells; [|done]; intros e0 H0
  | |- does (mutate _ (Some e)) _ => apply mutate_tells; [|done]; intros e0 H0
  end; try done.
  - by apply call_minded.
  - apply daemon_command_tells; [|done]. intros e0 H0. unfold Engine.project_add, on_disk. walk1.
    destruct a; [by apply call_minded|]. by apply does_ret, minded_refl.
  - apply daemon_command_tells; [|done]. intros e0 H0. unfold Engine.plugin_call.
    destruct (starts_with _ _); [by apply call_minded|]. by apply does_ret, minded_refl.
  - apply daemon_command_tells; [|done]. intros e0 H0. by apply session_open_minded.
  - apply daemon_command_tells; [|done]. intros e0 H0. by apply session_open_minded.
  - apply daemon_command_tells; [|done]. intros e0 H0. by apply session_attach_minded.
  - apply mutate_tells; [|done]. intros e0 H0. by apply install_minded.
  - apply mutate_tells; [|done]. intros e0 H0. by apply start_minded.
  - apply mutate_tells; [|done]. intros e0 H0. eapply does_conseq; [apply stop_minded|]. by intros r l [H _].
  - unfold engine_doctor. eapply does_bind; [apply with_engine_tells; [apply doctor_minds|done]|].
    intros r l (x & s & e' & l1 & -> & -> & H & Hd). cbn [fst]. unfold emit_status. repeat walk1. by exists e', l1, s.
  - unfold engine_status, with_engine. eapply does_bind; [by apply lift_does, status_tells|].
    intros [s e'] l (l1 & -> & H & Hd). apply does_ret. rewrite app_nil_r. by exists s, e', l1.
  - apply query_silent.
Qed.

End app.

(** ** What is known without the engine *)

Record CapabilityInfo : Type := mk_capability_info {
  i_capability : Capability;
  i_display_name : string;
  i_consequence : string;
  i_implemented : bool;
  i_default_enabled : bool
}.

Definition sandbox_catalogue : list CapabilityInfo :=
  let defaults := Harness.default_capabilities ClaudeCode in
  map (fun c => mk_capability_info c (display_name c) (consequence c) (is_implemented c) (enabled defaults c)) ALL.

Definition editor_argv (workspace : string) (file : option string) : list string :=
  ["--remote"; "wsl+" +:+ DISTRO_NAME; workspace]
  ++ match file with
     | Some f => [if starts_with "/" f then f else trim_end_matches "/" workspace +:+ "/" +:+ f]
     | None => []
     end.

Definition vs_code (base : string) (parts : list string) : string := foldl win_join base (parts ++ ["Microsoft VS Code"; "bin"; "code.cmd"]).

(** [path] as the system splits it. *)
Definition code_in (present : string -> bool) (path : option (list string)) (local pf : option string) : option string :=
  match List.find present (map (fun d => win_join d "code.cmd") (default [] path)) with
  | Some p => Some p
  | None =>
      List.find present
        (match local with Some l => [vs_code l ["Programs"]] | None => [] end ++ match pf with Some p => [vs_code p []] | None => [] end)
  end.

Definition IMAGE_FILE : string := "willie-rootfs.tar.gz".

(** Where the image may be, the most specific first. *)
Definition image_candidates_of (env_override resource_dir : option string) (workspace_root : string) : list string :=
  option_list env_override ++ option_list ((fun d => win_join d IMAGE_FILE) <$> resource_dir)
  ++ [win_join (win_join (win_join workspace_root "target") "distro") IMAGE_FILE].

(** ** Examples *)

Definition sample_command : A (S := unit) (result Json Problem * option Engine) :=
  in_sample (fun o a w b c d f g h i j k => daemon_command o d f h i j k (fun _ _ => false) "1.0"
    (Engine.daemon_call o a w b c d f g h i j k 1 1 "1.0" sample_hello "project.list" no_params as_json) (Some sample_engine)).

Lemma commands_tell_the_state_witness :
  does sample_command (told true sample_engine)
  /\ fst (fst (sample_command (mk_world tt 0 []))) = Ok JNull.
Proof.
  split; [|vm_compute; reflexivity].
  refine (proj1 (commands_tell_the_state _ _ _ _ _ _ _ _ _ _ _ _ _ _ _ _ _ _ _ _ _ _ _ _ _ _ _ _ _ _ _ _ _ sample_engine eq_refl) Json "project.list" no_params as_json); fill.
Defined.

Example editor_joins_once :
  map (fun w => last (editor_argv w (Some "src/main.rs"))) ["/home/willie/projects/x"; "/home/willie/projects/x/"]
  = [Some "/home/willie/projects/x/src/main.rs"; Some "/home/willie/projects/x/src/main.rs"].
Proof. reflexivity. Qed.

Example the_image_places : image_candidates_of (Some "D:\rootfs.tar.gz") (Some "C:\app\resources") "C:\src\willie" =
  ["D:\rootfs.tar.gz"; "C:\app\resources\willie-rootfs.tar.gz"; "C:\src\willie\target\distro\willie-rootfs.tar.gz"].
Proof. reflexivity. Qed.

Example code_on_the_path :
  code_in (fun p => bool_decide (p = "C:\tools\code.cmd")) (Some ["C:\Windows"; "C:\tools"]) (Some "C:\l") None = Some "C:\tools\code.cmd"
  /\ code_in (fun p => bool_decide (p = "C:\pf\Microsoft VS Code\bin\code.cmd")) None (Some "C:\l") (Some "C:\pf")
     = Some "C:\pf\Microsoft VS Code\bin\code.cmd".
Proof. by vm_compute. Qed.
