(* ===== verification/Terminals.v ===== *)
(** * The tabs of the window, and the host's own programs

    Models the commands session_terminal_* of apps/willie-app/src-tauri/src/lib.rs
    over the bridges of crates/willie-engine/src/embed.rs, with the thread that
    reads a bridge's output; the commands over the engine's settings; and the
    commands that start the explorer and the editor.  What is typed in a tab is
    what the harness of that tab's session is given. *)

From S2P Require Import Prelude Text Rpc Effects Wsl Config Engine App Wire Session Supervisor Attach Client.

Local Open Scope string_scope.
Local Open Scope list_scope.
Local Open Scope willie_scope.

(** ** Tabs *)

(** What starting the child of a bridge came to: [Embedded::open]. *)
Inductive Opened : Type :=
| SpawnFailed (e : string)
| ReaderFailed (e : string)
| Reading.

(** The bridges with the number of the next child; [None] once the lock of the
    engine is poisoned. *)
Definition Tabs : Type := option (nat * Bridges (Id := N)).

Definition no_tabs : Tabs := Some (0%nat, no_bridges).

Definition as_bytes (s : string) : list Z := map byte (list_ascii_of_string s).

Section tabs.
  Context (ulid_to_string : N -> string).

(** A child whose reader does not start is let go: its input ends at once. *)
Definition session_terminal_open (id : N) (o : Opened) (st : Tabs) : result unit Problem * Tabs :=
  match st with
  | None => (Err engine_poisoned, None)
  | Some (next, s) =>
      match o with
      | SpawnFailed e | ReaderFailed e => (Err (problem_of (EEmbeddedTerminal e)), st)
      | Reading => (Ok tt, Some (S next, insert_bridge id next s))
      end
  end.

Definition on_bridge (id : N) (frame : list Z) (st : Tabs) : result unit Problem * Tabs :=
  match st with
  | None => (Err engine_poisoned, None)
  | Some (next, s) =>
      let '(s, found) := write id frame s in
      ((if found : bool then Ok tt else Err (problem_of (EEmbeddedTerminalNotOpen (ulid_to_string id)))), Some (next, s))
  end.

Definition session_terminal_input (id : N) (data : string) : Tabs -> result unit Problem * Tabs := on_bridge id (encode_input (as_bytes data)).

Definition session_terminal_resize (id : N) (rows cols : Z) : Tabs -> result unit Problem * Tabs := on_bridge id (encode_resize rows cols).

Definition session_terminal_close (id : N) (st : Tabs) : result unit Problem * Tabs :=
  match st with
  | None => (Err engine_poisoned, None)
  | Some (next, s) => (Ok tt, Some (next, remove id s))
  end.

(** What the webview calls, and a panic of another command. *)
Inductive Tab : Type :=
| TabOpen (id : N) (o : Opened)
| TabInput (id : N) (data : string)
| TabResize (id : N) (rows cols : Z)
| TabClose (id : N)
| Panicked.

Definition tab (c : Tab) (st : Tabs) : result unit Problem * Tabs :=
  match c with
  | TabOpen id o => session_terminal_open id o st
  | TabInput id data => session_terminal_input id data st
  | TabResize id rows cols => session_terminal_resize id rows cols st
  | TabClose id => session_terminal_close id st
  | Panicked => (Err engine_poisoned, None)
  end.

Definition tabs_after (cs : list Tab) (st : Tabs) : Tabs := foldl (fun st c => snd (tab c st)) st cs.

(** The thread [embed-out]: every read that gave bytes is one event of the
    session's; the end of the output or an error ends it. *)
Fixpoint reader (id : N) (reads : list Read) : list (string * list Z) :=
  match reads with
  | [] => []
  | Bytes chunk :: reads => (ulid_to_string id, chunk) :: reader id reads
  | _ :: _ => []
  end.

(** ** Specification *)

Definition tab_of (c : Tab) : N := match c with TabOpen id _ | TabInput id _ | TabResize id _ _ | TabClose id => id | Panicked => 0%N end.

(** What a session was typed since its tab was opened, when it is open. *)
Definition typing_step (id : N) (st : option string) (c : Tab) : option string :=
  match c with
  | TabOpen i Reading => if decide (i = id) then Some "" else st
  | TabOpen _ _ => st
  | TabInput i data => if decide (i = id) then (fun t => t +:+ data) <$> st else st
  | TabResize _ _ _ => st
  | TabClose i => if decide (i = id) then None else st
  | Panicked => st
  end.

Definition typed_in (id : N) (cs : list Tab) : option string := foldl (typing_step id) None cs.

(** Keys are told apart in pieces the dialect can measure; sizes are [u16]. *)
Definition wf_tab (c : Tab) : Prop :=
  match c with
  | TabInput _ data => (Z.of_nat (String.length data) <= u32_max)%Z
  | TabResize _ rows cols => (0 <= rows <= u16_max /\ 0 <= cols <= u16_max)%Z
  | _ => True
  end.

(** ** The bridges behind the commands *)

Definition bridge_op (c : Tab) : list (@BridgeOp N) :=
  match c with
  | TabOpen id Reading => [OpOpen id true]
  | TabOpen id _ => [OpOpen id false]
  | TabInput id data => [OpInput id (as_bytes data)]
  | TabResize id rows cols => [OpResize id rows cols]
  | TabClose id => [OpClose id]
  | Panicked => []
  end.

Lemma tabs_poisoned cs : tabs_after cs None = None.
Proof. induction cs as [|c cs IH]; [done|]. unfold tabs_after in *. cbn [foldl]. by destruct c. Qed.

Lemma tab_steps c n s n' s' : snd (tab c (Some (n, s))) = Some (n', s') -> bridge_run (bridge_op c) n s = (n', s').
Proof.
  destruct c as [id [e|e|]|id data|id rows cols|id|]; cbn; try by intros [= <- <-].
  all: unfold on_bridge; destruct (write _ _ _) as [s1 found]; by intros [= <- <-].
Qed.

Lemma bridge_run_app (a : list (@BridgeOp N)) : forall b n s, bridge_run (a ++ b) n s = let '(n, s) := bridge_run a n s in bridge_run b n s.
Proof. induction a as [|op a IH]; intros b n s; [done|]. cbn [app bridge_run]. destruct (bridge_step op n s). apply IH. Qed.

Lemma tabs_run cs : forall n s n' s', tabs_after cs (Some (n, s)) = Some (n', s') ->
  (Panicked ∉ cs) /\ bridge_run (concat (map bridge_op cs)) n s = (n', s').
Proof.
  induction cs as [|c cs IH]; intros n s n' s' H; [injection H as <- <-; split; [apply not_elem_of_nil|done]|]. unfold tabs_after in *. cbn [foldl map concat] in *.
  destruct (snd (tab c (Some (n, s)))) as [[n1 s1]|] eqn:E; [|by change (tabs_after cs None = Some (n', s')) in H; rewrite tabs_poisoned in H].
  destruct (IH _ _ _ _ H) as [Hp Hr]. rewrite bridge_run_app, (tab_steps _ _ _ _ _ E). split; [|done].
  by intros [<-|H1]%elem_of_cons.
Qed.

Lemma as_bytes_app a b : as_bytes (a +:+ b) = as_bytes a ++ as_bytes b.
Proof. unfold as_bytes. by rewrite list_ascii_app, map_app. Qed.

Lemma as_bytes_length s : length (as_bytes s) = String.length s.
Proof. unfold as_bytes. rewrite length_map. induction s as [|c s IH]; [done|]. cbn. by rewrite IH. Qed.

#[local] Arguments as_bytes _ : simpl never.

(** What a bridge is given, against what its tab was typed. *)
Lemma stream_typed id cs : (Panicked ∉ cs) -> Forall wf_tab cs -> forall st t,
  ((fun l => concat (map host_typed l)) <$> st) = as_bytes <$> t -> default True (Forall wf_host <$> st) ->
  let st' := foldl (stream_step id) st (concat (map bridge_op cs)) in
  ((fun l => concat (map host_typed l)) <$> st') = as_bytes <$> foldl (typing_step id) t cs /\ default True (Forall wf_host <$> st').
Proof.
  intros Hp Hw. induction cs as [|c cs IH]; intros st t He Hf; [done|]. apply not_elem_of_cons in Hp as [Hc Hp].
  inversion Hw as [|? ? Hc' Hw']; subst. cbn [map concat foldl]. cbv zeta. rewrite foldl_app. apply (IH Hp Hw').
  - destruct c as [i [e|e|]|i data|i rows cols|i|]; cbn; try done; destruct (decide (i = id)); try done; destruct st as [l|], t as [x|]; try done; cbn in *.
    + injection He as He. rewrite map_app, concat_app, as_bytes_app, He. cbn. by rewrite app_nil_r.
    + injection He as He. rewrite map_app, concat_app, He. cbn. by rewrite app_nil_r.
  - destruct c as [i [e|e|]|i data|i rows cols|i|]; cbn; try done; destruct (decide (i = id)); try done; [by constructor|..];
      destruct st as [l|]; try done; cbn in *; (apply Forall_app; split; [done|]); apply Forall_singleton; cbn; rewrite ?as_bytes_length; done.
Qed.

End tabs.

(** ** The settings *)

Section settings.
  Context {S : Type} (others : nat -> S -> S).
  Context (read_to_string : string -> S -> option string) (create_dir_all : string -> S -> option string * S)
    (write_file : string -> string -> S -> option string * S).
  Context (from_toml : string -> option EngineConfig) (to_toml : EngineConfig -> result string string) (local_app_data : option string).
  Context (exists_ : string -> S -> bool) (read_dir : string -> S -> option (list (string * bool)))
    (file_name : string -> option string) (lossy : string -> string).

Definition K (A : Type) : Type := M S Config.Act A.

(** Under the lock of the engine, which [poisoned] says is refused. *)
Definition locked {R} (poisoned : bool) (op : K R) : K (result R Problem) :=
  if poisoned then ret (Err engine_poisoned) else let* r := op in ret (Ok r).

Definition asked {R} (poisoned : bool) (op : K (result R EngineError)) : K (result R Problem) :=
  let* r := locked poisoned op in ret (match r with Ok r => map_err problem_of r | Err p => Err p end).

Definition projects_roots (poisoned : bool) : K (result (list string) Problem) :=
  locked poisoned (Config.projects_roots others read_to_string from_toml local_app_data).

Definition set_projects_roots (poisoned : bool) (roots : list string) : K (result unit Problem) :=
  asked poisoned (Config.set_projects_roots others read_to_string create_dir_all write_file from_toml to_toml local_app_data roots).

(** The folders are walked as they stand. *)
Definition discover_projects (poisoned : bool) : K (result (list Candidate) Problem) :=
  asked poisoned (
    let* roots := Config.projects_roots others read_to_string from_toml local_app_data in
    let* found := perform others (fun _ => [])
      (fun s => (discover (fun p => exists_ p s) (fun p => read_dir p s) file_name lossy roots DISCOVER_MAX_DEPTH, s)) in
    ret (Ok found)).

Definition ui_prefs (poisoned : bool) : K (result Ui Problem) :=
  locked poisoned (Config.ui_prefs others read_to_string from_toml local_app_data).

Definition set_ui_prefs (poisoned : bool) (prefs : Ui) : K (result unit Problem) :=
  asked poisoned (Config.set_ui_prefs others read_to_string create_dir_all write_file from_toml to_toml local_app_data prefs).
End settings.

(** ** The host's programs *)

Section programs.
  Context (spawn : string -> list string -> option string) (present : string -> bool).
  Context (path : option (list string)) (local pf : option string).

Definition open_in_explorer (target : string) : result unit Problem :=
  match spawn "explorer.exe" [target] with
  | None => Ok tt
  | Some e => Err (mk_problem "explorer_failed" e "open the path manually")
  end.

Definition locate_code : option string := code_in present path local pf.

Definition open_in_editor (workspace : string) (file : option string) : result unit Problem :=
  match locate_code with
  | None => Err (mk_problem "editor_not_found" "VS Code was not found on this machine"
      "install VS Code and its `code` command, or reopen Willie so it detects a new install")
  | Some code =>
      match spawn code (editor_argv workspace file) with
      | None => Ok tt
      | Some e => Err (mk_problem "editor_launch_failed" e "try opening the workspace from VS Code directly")
      end
  end.

Definition editor_available : bool := bool_decide (is_Some locate_code).

(** The button is there exactly when the command does not answer that there
    is no editor. *)
Lemma the_button_tells workspace file :
  editor_available = false <-> exists p, open_in_editor workspace file = Err p /\ p_code p = "editor_not_found".
Proof.
  unfold editor_available, open_in_editor. destruct locate_code as [code|]; cbn.
  - split; [done|]. intros (p & H & Hc). destruct (spawn _ _); [|done]. by injection H as <-.
  - split; [|done]. intros _. by eexists.
Qed.
End programs.

(** ** From a tab to its harness *)

Section reach.
  Context {JErr CErr : Type}.
  Context (event_json : SessionEvent -> result (list Z) JErr) (closed_json : Closed -> result (list Z) JErr)
    (status_json : Status -> result (list Z) JErr) (hello_json : list Z -> result Hello JErr) (clock : nat -> string).
  Context (hello_text : Hello -> result (list Z) CErr) (ulid_to_string : N -> string).
  (** serde_json reads back a hello it printed, which fits a frame. *)
  Hypothesis hello_back : forall h bytes, hello_text h = Ok bytes -> hello_json bytes = Ok h /\ (length bytes <= MAX_PAYLOAD)%nat.

Lemma wire_frames_stay fs : detached (concat (map wire_frames fs)) = false.
Proof.
  unfold detached. induction fs as [|f fs IH]; [done|]. cbn [map concat]. rewrite existsb_app, IH, orb_false_r.
  destruct f as [bytes|rows cols]; [|done]. cbn [wire_frames]. by induction (parts_of bytes).
Qed.

(** The command line in its host mode, to the end of its input. *)
Lemma host_run_leaves resized stem size raw m fs reads lines o : Forall wf_host fs -> Forall is_input reads ->
  concat (map read_bytes reads) = concat (map encode_host fs) ->
  run hello_text all_ok resized stem size raw true m (reads ++ [Eof]) = (lines, (Left 0, o)) ->
  exists rows cols hello frames, hello_text (mk_hello Terminal rows cols) = Ok hello
    /\ concat (sent o) = concat (map encode_frame (mk_frame HELLO hello :: frames)) /\ Forall wf_frame frames
    /\ ends_detached frames /\ typed frames = concat (map host_typed fs).
Proof.
  intros Hw Hr Hb. unfold run. destruct (connected m); [|done]. cbn [negb andb]. destruct (split_ m); [done|].
  destruct (default _ _) as [rows cols]. unfold encode_json. destruct (hello_text _) as [hello|] eqn:Eh; [|done].
  destruct (hello_written m); [|done]. cbn [negb]. destruct (output_thread m); [done|].
  rewrite (host_loop_ok reads fs) by done. intros [= <- <-]. destruct (forwarded_all fs) as [Hf Hwf].
  exists rows, cols, hello, (concat (map wire_frames fs) ++ [mk_frame DETACH []]). split; [done|]. split; [|split; [|split]].
  - cbn [sent out_new app map concat]. rewrite concat_app, Hf, map_app, concat_app. done.
  - apply Forall_app. split; [done|]. apply Forall_singleton. by apply short_frame.
  - exists (concat (map wire_frames fs)). split; [done|apply wire_frames_stay].
  - rewrite typed_app. destruct (frames_mean fs) as [-> _]. cbn. by rewrite app_nil_r.
Qed.

(** C26. From the window to the harness: after any use of the tabs, what the
    child behind a session's tab was written since the tab was opened, read by
    [willie attach --host] to its end and sent to the supervisor, no write
    failing, has that session's supervisor write to its harness's terminal exactly the keys typed in that
    tab, in order and none of another's, among what the session's other clients
    type, however the pipe and the socket cut them and whatever else the
    supervisor's other threads do, or nothing when it turns the client away;
    and keys typed where no tab is open are refused. *)
Theorem a_tab_reaches_its_harness commands n s id reads resized stem raw m lines o others theirs ok1 ok2 cuts r more :
  tabs_after ulid_to_string commands no_tabs = Some (n, s) -> Forall wf_tab commands ->
  (forall n s, input (others n s) = input s ++ theirs n) ->
  (forall b frames, open_ s !! id = Some b -> written s !! b = Some frames -> Forall is_input reads ->
    concat (map read_bytes reads) = concat frames ->
    run hello_text all_ok resized stem None raw true m (reads ++ [Eof]) = (lines, (Left 0, o)) ->
    concat cuts = concat (sent o) -> stops r ->
    exists keys, typed_in id commands = Some keys
      /\ gives theirs (client_thread event_json closed_json status_json hello_json clock others (fun _ => true) ok1 ok2 (map Bytes cuts ++ r :: more))
        (reaches (as_bytes keys)))
  /\ (forall data, fst (session_terminal_input ulid_to_string id data (Some (n, s)))
        = match typed_in id commands with Some _ => Ok tt | None => Err (problem_of (EEmbeddedTerminalNotOpen (ulid_to_string id))) end).
Proof.
  intros Ht Hw Ho. destruct (tabs_run _ _ _ _ _ _ Ht) as [Hp Hb].
  pose proof (bridge_run_tracks (concat (map bridge_op commands)) (fun _ => None) 0 no_bridges) as Htr.
  rewrite Hb in Htr. destruct (Htr no_bridges_tracks) as (_ & Hs & Hsome).
  destruct (stream_typed id commands Hp Hw None None eq_refl I) as [Hk Hh]. specialize (Hs id). cbn beta in Hs.
  set (st := foldl (stream_step id) None _) in *. fold (typed_in id commands) in Hk. split.
  - intros b frames Eb Ef Hr Hc Hrun Hcut Hstop. rewrite Eb in Hs. cbn in Hs. rewrite Ef in Hs.
    destruct st as [fs|]; [|done]. cbn in Hs, Hk, Hh. injection Hs as ->. destruct (typed_in id commands) as [keys|]; [|done].
    injection Hk as Hk. exists keys. split; [done|]. rewrite <- Hk.
    destruct (host_run_leaves _ _ _ _ _ fs reads _ _ Hh Hr Hc Hrun) as (rows & cols & hello & fr & Eh & Hsent & Hwf & Hd & <-).
    eapply frames_reach; [done|done|done|done|done|by rewrite Hcut, Hsent|done].
  - intros data. unfold session_terminal_input, on_bridge, write. destruct (open_ s !! id) as [b|] eqn:Eb; cbn in Hs |- *.
    + destruct (Hsome id b Eb) as [frames Ef]. rewrite Ef in Hs. destruct st; [|done]. cbn in Hk. by destruct (typed_in id commands).
    + destruct st; [done|]. cbn in Hk. by destruct (typed_in id commands).
Qed.

End reach.

(** ** Examples *)

(** Two sessions; the second one's tab is closed and opened again. *)
Definition sample_commands : list Tab :=
  [TabOpen 1 Reading; TabInput 2 "lost"; TabOpen 2 Reading; TabInput 1 "l"; TabInput 2 "x"; TabResize 1 30 90; TabInput 1 "s";
   TabClose 2; TabOpen 2 (SpawnFailed "no wsl"); TabOpen 2 Reading; TabInput 2 "y"].

Definition sample_pipe : list Read := [Bytes [105; 0; 0; 0; 1; 108; 114; 0; 30]%Z; Bytes [0; 90; 105; 0; 0; 0; 1; 115]%Z].

Definition sample_host : Setup := mk_setup true false None None None true None.

Definition sample_wire : list Z := concat (map encode_frame
  [mk_frame HELLO [0; 24; 80]; mk_frame INPUT [108]; mk_frame RESIZE [0; 30; 0; 90]; mk_frame INPUT [115]; mk_frame DETACH []]%Z).

Lemma a_tab_reaches_its_harness_witness :
  exists n s, tabs_after (fun n => pretty n) sample_commands no_tabs = Some (n, s)
    /\ exists keys, typed_in 1 sample_commands = Some keys
      /\ gives sample_typed (sample_thread_among sample_typists [take 9 sample_wire; drop 9 sample_wire]) (reaches (as_bytes keys)).
Proof.
  eexists _, _. split; [vm_compute; reflexivity|].
  refine (proj1 (a_tab_reaches_its_harness (tag_json 0) (tag_json 1) (tag_json 2) hello_of (fun n => pretty n) sample_hello (fun n => pretty n) _
    sample_commands _ _ 1%N sample_pipe (fun _ => None) "1" false sample_host _ _ sample_typists sample_typed true true
    [take 9 sample_wire; drop 9 sample_wire] Eof [] eq_refl _ (fun _ _ => eq_refl)) 0%nat _ eq_refl eq_refl _ _ (eq_refl : _ = (_, (_, _))) _ _).
  - intros [[] rows cols] bytes; [|done]. intros [= <-]. split; [done|]. cbn. unfold MAX_PAYLOAD, u16_max. lia.
  - repeat (apply Forall_cons; split; [cbn; unfold u32_max, u16_max; lia|]). apply Forall_nil_2.
  - by repeat constructor.
  - vm_compute. reflexivity.
  - vm_compute. reflexivity.
  - by left.
Defined.

Example the_second_tab : typed_in 2 sample_commands = Some "y" /\ typed_in 3 sample_commands = None
  /\ fst (session_terminal_input (fun n => pretty n) 2 "lost" (tabs_after (fun n => pretty n) [TabOpen 1 Reading] no_tabs))
     = Err (mk_problem "embedded_terminal_not_open" "no embedded terminal is open for session 2"
         "the tab lost its terminal: close it and open the session again").
Proof. by vm_compute. Qed.
