(* ===== verification/Control.v ===== *)
(** * The daemon's connection to a supervisor

    Models crates/willied/src/control.rs and what sessions.rs does with it:
    asking for the status, stopping, following the events until the connection
    ends and finalising then; with the launch of a supervisor.  A connection is
    the reads its socket gives, in turn, and the decoder's buffer. *)

From S2P Require Import Prelude Text Wire BTree Session DaemonState Sessions.

Local Open Scope string_scope.
Local Open Scope list_scope.
Local Open Scope willie_scope.

(** ** The connection *)

(** A read of the socket: some bytes, the end, or an error (a timeout is one). *)
Inductive Recv : Type :=
| Data (bytes : list Z)
| AtEnd
| Failed.

Section control.
  (** serde_json's reading of a status (its pid and clients) and of an event. *)
  Context (status_of : list Z -> option (Z * Z)) (event_of : list Z -> option SessionEvent).

(** Pop until a status: its payload, and what is left. *)
Fixpoint seek (fuel : nat) (buf : list Z) : option (list Z) * list Z :=
  match fuel with
  | O => (None, buf)
  | S fuel =>
      match pop buf with
      | (Some f, buf) => if (Wire.kind f =? STATUS)%Z then (Some (payload f), buf) else seek fuel buf
      | (None, buf) => (None, buf)
      end
  end.

(** The reply, with the reads and the buffer it leaves to [watch]. *)
Fixpoint read_status_reply (reads : list Recv) (buf : list Z) : option (Z * Z) * (list Recv * list Z) :=
  match seek (length buf) buf with
  | (Some p, buf) => (status_of p, (reads, buf))
  | (None, buf) =>
      match reads with
      | Data bytes :: reads => read_status_reply reads (push buf bytes)
      | _ :: reads => (None, (reads, buf))
      | [] => (None, ([], buf))
      end
  end.

(** [status]: the request is [sent] or not. *)
Definition status (sent : bool) (reads : list Recv) (buf : list Z) : option (Z * Z) * (list Recv * list Z) :=
  if sent then read_status_reply reads buf else (None, (reads, buf)).

(** The frames of a drain: the events up to a closing frame. *)
Fixpoint events_in (fs : list Frame) : list SessionEvent * bool :=
  match fs with
  | [] => ([], false)
  | f :: fs =>
      let ev := if (Wire.kind f =? EVENT)%Z then option_list (event_of (payload f)) else [] in
      if (Wire.kind f =? CLOSED)%Z then (ev, true)
      else let '(es, closed) := events_in fs in (ev ++ es, closed)
  end.

(** The reader's thread: what it delivers, and whether it has ended. *)
Fixpoint watch (reads : list Recv) (buf : list Z) : list SessionEvent * bool :=
  let '(fs, buf) := pop_all buf in
  let '(es, closed) := events_in fs in
  if closed then (es, true)
  else
    match reads with
    | [] => (es, false)
    | Data bytes :: reads => let '(es', ended) := watch reads (push buf bytes) in (es ++ es', ended)
    | _ :: _ => (es, true)
    end.

(** ** No event after the status is lost *)

Definition is_status (f : Frame) : bool := (Wire.kind f =? STATUS)%Z.

(** The events among frames, up to a closing one. *)
Definition is_closed (f : Frame) : bool := (Wire.kind f =? CLOSED)%Z.

Definition event_in (f : Frame) : option SessionEvent := if (Wire.kind f =? EVENT)%Z then event_of (payload f) else None.

Definition delivered (fs : list Frame) : list SessionEvent := omap event_in (take_while (fun f => negb (is_closed f)) fs).

Lemma events_in_delivered fs : fst (events_in fs) = delivered fs.
Proof.
  unfold delivered, is_closed. induction fs as [|f fs IH]; [done|]. cbn [events_in take_while]. destruct (Wire.kind f =? CLOSED)%Z eqn:Ec.
  - apply Z.eqb_eq in Ec. by rewrite Ec.
  - destruct (events_in fs) as [es closed]. cbn [negb fst omap list_omap] in *. unfold event_in at 1.
    rewrite IH. by destruct (Wire.kind f =? EVENT)%Z; [destruct (event_of (payload f))|].
Qed.

Lemma events_in_app fs gs : events_in (fs ++ gs) =
  let '(es, closed) := events_in fs in if closed then (es, true) else let '(es', c) := events_in gs in (es ++ es', c).
Proof.
  induction fs as [|f fs IH]; cbn [app events_in]; [by destruct (events_in gs)|]. rewrite IH.
  destruct (Wire.kind f =? CLOSED)%Z; [done|]. destruct (events_in fs) as [es []]; [done|].
  destruct (events_in gs) as [es' c]. by rewrite app_assoc.
Qed.

(** An ended stream: what is delivered depends on its bytes alone. *)
Lemma watch_stream cs : forall buf tail, tail <> [] -> Forall (fun r => match r with Data _ => False | _ => True end) tail ->
  watch (map Data cs ++ tail) buf = (delivered (fst (pop_all (buf ++ concat cs))), true).
Proof.
  induction cs as [|c cs IH]; intros buf tail Hne Ht; cbn [map app concat].
  - rewrite app_nil_r, <- events_in_delivered. destruct tail as [|r tail]; [done|]. inversion Ht as [|? ? Hr _]; subst.
    cbn [watch]. destruct (pop_all buf) as [fs b]. cbn [fst]. destruct (events_in fs) as [es closed]. by destruct closed, r.
  - cbn [watch]. rewrite (pop_all_app _ buf (c ++ concat cs) (le_n _)). destruct (pop_all buf) as [fs b]. unfold push. rewrite IH by done.
    rewrite <- app_assoc. destruct (pop_all (b ++ c ++ concat cs)) as [gs r]. cbn [fst]. rewrite <- !events_in_delivered, events_in_app.
    destruct (events_in fs) as [es []]; [done|]. by destruct (events_in gs).
Qed.

(** What a drain for the status leaves. *)
Definition sought (buf : list Z) (r : option (list Z) * list Z) : Prop :=
  match r with
  | (Some p, b) => exists before, Forall (fun f => is_status f = false) before
      /\ pop_all buf = (before ++ mk_frame STATUS p :: fst (pop_all b), snd (pop_all b))
  | (None, b) => Forall (fun f => is_status f = false) (fst (pop_all buf)) /\ snd (pop_all buf) = b
  end.

Lemma seek_sought n : forall buf, (length buf <= n)%nat -> sought buf (seek n buf).
Proof.
  induction n as [|n IH]; intros buf Hn.
  - destruct buf; [|cbn in Hn; lia]. by split.
  - cbn [seek]. unfold sought. rewrite pop_all_unfold. destruct (pop buf) as [[f|] b] eqn:E.
    + pose proof (pop_shorter _ _ _ E) as Hs. destruct (Wire.kind f =? STATUS)%Z eqn:Ek.
      * exists []. split; [done|]. destruct (pop_all b). cbn. apply Z.eqb_eq in Ek. rewrite <- Ek. by destruct f.
      * specialize (IH b ltac:(lia)). unfold sought in IH. destruct (seek n b) as [[p|] b'].
        -- destruct IH as (before & Hb & ->). exists (f :: before). split; [by constructor|done].
        -- destruct (pop_all b) as [fs r]. destruct IH as [Hf Hr]. by split; [constructor|].
    + apply pop_none in E as ->. by split.
Qed.

Lemma first_status before : forall before' p p' after after',
  Forall (fun f => is_status f = false) before -> Forall (fun f => is_status f = false) before' ->
  before ++ mk_frame STATUS p :: after = before' ++ mk_frame STATUS p' :: after' -> p = p' /\ after = after'.
Proof.
  induction before as [|f before IH]; intros [|f' before'] p p' after after' H H' E; cbn in E.
  - by injection E.
  - injection E as <- _. inversion H'; subst. done.
  - injection E as -> _. inversion H; subst. done.
  - injection E as _ E. inversion H; subst. inversion H'; subst. by eapply IH.
Qed.

Lemma status_stream cs : forall buf before p after rest tail, Forall (fun f => is_status f = false) before ->
  pop_all (buf ++ concat cs) = (before ++ mk_frame STATUS p :: after, rest) ->
  exists cs' buf', read_status_reply (map Data cs ++ tail) buf = (status_of p, (map Data cs' ++ tail, buf'))
    /\ pop_all (buf' ++ concat cs') = (after, rest).
Proof.
  induction cs as [|c cs IH]; intros buf before p after rest tail Hb Hp; cbn [map app concat] in *;
    pose proof (seek_sought (length buf) buf (le_n _)) as Hs; unfold sought in Hs.
  - rewrite app_nil_r in Hp. destruct (seek (length buf) buf) as [[q|] b] eqn:E.
    + destruct Hs as (before' & Hb' & Hs). rewrite Hs in Hp. injection Hp as Hp Hr.
      destruct (first_status _ _ _ _ _ _ Hb' Hb Hp) as [-> Ha]. exists [], b. split.
      * destruct tail as [|[] tail]; cbn [read_status_reply]; by rewrite E.
      * cbn. rewrite app_nil_r. destruct (pop_all b). by subst.
    + destruct Hs as [Hf _]. rewrite Hp in Hf. cbn in Hf. apply Forall_app in Hf as [_ Hf]. by inversion Hf.
  - cbn [read_status_reply]. rewrite (pop_all_app _ buf (c ++ concat cs) (le_n _)) in Hp.
    destruct (seek (length buf) buf) as [[q|] b] eqn:E.
    + destruct Hs as (before' & Hb' & Hs). rewrite Hs in Hp. exists (c :: cs), b. cbn [map app concat].
      rewrite (pop_all_app _ b (c ++ concat cs) (le_n _)). destruct (pop_all b) as [fs r]. cbn [fst snd] in *.
      destruct (pop_all (r ++ c ++ concat cs)) as [gs r']. injection Hp as Hp ->. rewrite <- app_assoc in Hp. cbn [app] in Hp.
      by destruct (first_status _ _ _ _ _ _ Hb' Hb Hp) as [-> ->].
    + destruct Hs as [Hf Hr]. destruct (pop_all buf) as [fs r]. cbn [fst snd] in *. subst b. unfold push.
      destruct (pop_all (r ++ c ++ concat cs)) as [gs r'] eqn:Eg. injection Hp as Hp ->.
      assert (exists before', Forall (fun f => is_status f = false) before' /\ gs = before' ++ mk_frame STATUS p :: after) as (before' & Hb' & ->).
      { clear - Hf Hb Hp. revert before Hb Hp. induction fs as [|f fs IHf]; intros before Hb Hp; [by exists before|].
        inversion Hf; subst. destruct before as [|f' before]; injection Hp as -> Hp; [done|]. inversion Hb; subst. by eapply IHf. }
      eapply IH; [exact Hb'|]. by rewrite <- app_assoc.
Qed.

(** C29. On one connection the status asked for is the first one the
    supervisor sends, and after it every frame of an event that reads as one, up
    to the first closing frame, is delivered exactly once and in order, and
    nothing else is, however the stream is cut and wherever the reads of the
    status end; the reader then ends. *)
Theorem events_follow_the_status before p after rest cs tail :
  Forall wf_frame (before ++ mk_frame STATUS p :: after) -> Forall (fun f => is_status f = false) before -> pop rest = (None, rest) ->
  concat cs = concat (map encode_frame (before ++ mk_frame STATUS p :: after)) ++ rest ->
  tail <> [] -> Forall (fun r => match r with Data _ => False | _ => True end) tail ->
  let '(s, (reads, buf)) := status true (map Data cs ++ tail) [] in
  s = status_of p /\ watch reads buf = (delivered after, true).
Proof.
  intros Hw Hb Hr Hc Hne Ht. unfold status.
  destruct (status_stream cs [] before p after rest tail Hb) as (cs' & buf' & -> & Hp).
  { cbn [app]. rewrite Hc. by apply pop_all_frames. }
  split; [done|]. rewrite watch_stream by done. by rewrite Hp.
Qed.

End control.

(** ** Sessions over their connections *)

Definition not_running (message : string) : OpError := coded "session_not_running" message.

(** [SessionOps::stop]: what is written, and the answer. *)
Definition stop (connected written : bool) : list (list Z) * result unit OpError :=
  if connected then ([encode STOP []], if written : bool then Ok tt else Err (not_running "the session is gone"))
  else ([], Err (not_running "the session is not running")).

(** The launcher: it did not start, has no output, or its one line, if it came
    in time. *)
Inductive Launched : Type :=
| NotSpawned (text : string)
| NoStdout
| Said (line : option string).

Definition SUPERVISOR_BIN : string := "/opt/willie/bin/willie-sess".

Definition supervisor_argv (bin : option string) (dir : string) : list string :=
  [default SUPERVISOR_BIN bin; "run"; "--spec"; path_join dir "spec.json"].

(** The answer, and whether the launcher is killed before it is reaped. *)
Definition spawn_supervisor (l : Launched) : result Ready OpError * option bool :=
  match l with
  | NotSpawned text => (Err (coded "supervisor_spawn_failed" text), None)
  | NoStdout => (Err (coded "supervisor_spawn_failed" "no supervisor stdout"), Some true)
  | Said None => (Err (coded "supervisor_timeout" "no readiness reply"), Some true)
  | Said (Some line) => (Ok (parse_ready (trim line)), Some false)
  end.

Section follow.
  Context (event_of : list Z -> option SessionEvent).

Definition follow (id : N) (es : list SessionEvent) (w : World) : World := foldl (fun w e => fold_event id e w) w es.

Definition with_store (logs : list (SessionSpec * list SessionEvent)) (w : World) : World :=
  mk_world (shared w) logs (untitled w) (notified w).

(** [SessionOps::watch] to the end of its threads: [logs] is the session
    directory once the reader has ended, [answers] the probe of the socket. *)
Definition watch_session (now : string) (id : N) (connected : bool) (reads : list Recv) (logs : list (SessionSpec * list SessionEvent))
    (answers : bool) (w : World) : World :=
  if connected then
    let '(es, ended) := watch event_of reads [] in
    let w := follow id es w in
    if ended : bool then reader_ended now answers id (with_store logs w) else w
  else w.

(** [scan] for a session that is not over: the status on a connection of its
    own, then the watch on another. *)
Definition adopt (status_of : list Z -> option (Z * Z)) (now : string) (x : SessionSpec * list SessionEvent)
    (asked : option (list Recv)) (connected : bool) (reads : list Recv) (logs : list (SessionSpec * list SessionEvent)) (answers : bool)
    (w : World) : World :=
  let probe (_ : string) := asked ≫= (fun rs => fst (status status_of true rs [])) in
  let w := scan_one probe now x w in
  match probe (socket (fst x)) with
  | Some _ => watch_session now (s_id (fst x)) connected reads logs answers w
  | None => w
  end.

Lemma follow_notified id es : forall w, notified (follow id es w) = notified w.
Proof.
  induction es as [|e es IH]; intros w; [done|]. change (follow id (e :: es) w) with (follow id es (fold_event id e w)). by rewrite IH.
Qed.

Lemma fold_event_index id e w : index (fold_event id e w) = put (Session.id (current id w)) (apply_event (current id w) e) (index w).
Proof. unfold fold_event. by rewrite index_emit, fold_id. Qed.

(** An indexed session under its own name. *)
Definition named (id : N) (w : World) : Prop := forall s, get id (index w) = Some s -> Session.id s = id.

Lemma current_named id w : named id w -> Session.id (current id w) = id.
Proof. intros H. unfold current. destruct (get id (index w)) as [s|] eqn:E; cbn; [by apply H|done]. Qed.

Lemma follow_folds id es : forall w, named id w ->
  current id (follow id es w) = foldl apply_event (current id w) es /\ named id (follow id es w)
  /\ (is_Some (get id (index w)) -> is_Some (get id (index (follow id es w)))).
Proof.
  induction es as [|e es IH]; intros w Hn; [done|]. cbn [follow foldl].
  assert (Hi : get id (index (fold_event id e w)) = Some (apply_event (current id w) e)).
  { rewrite fold_event_index, current_named by done. apply get_put. }
  destruct (IH (fold_event id e w)) as (H1 & H2 & H3).
  { intros s. rewrite Hi. intros [= <-]. by rewrite fold_id, current_named. }
  change (foldl (fun w0 e0 => fold_event id e0 w0) (fold_event id e w) es) with (follow id es (fold_event id e w)).
  rewrite H1. split; [unfold current at 1; by rewrite Hi|]. split; [done|]. intros _. apply H3. by rewrite Hi.
Qed.

(** C13. A watched session is what its supervisor's events make of it, in
    order.  When the connection ends and it is not over, the socket is probed
    once: unless it answers the session is ended by its log, or else as lost,
    and in both ends the plugins are told of one exit. *)
Theorem a_watched_session_ends now id reads logs answers spec evs w :
  NoDup (map (fun x : SessionSpec * list SessionEvent => s_id (fst x)) logs) -> (spec, evs) ∈ logs -> s_id spec = id -> named id w -> is_Some (get id (index w)) ->
  let '(es, ended) := watch event_of reads [] in
  let s := foldl apply_event (current id w) es in
  let w' := watch_session now id true reads logs answers w in
  let over := is_terminal (Session.state s) in
  (ended && negb over && negb answers = false ->
     current id w' = s /\ notified w' = notified w ++ (if ended && over then [SessionExited id] else []))
  /\ (ended && negb over && negb answers = true ->
       is_terminal (Session.state (current id w')) = true /\ notified w' = notified w ++ [SessionExited id]
       /\ current id w' = (let logged := from_log spec evs in
            if is_terminal (Session.state logged) then logged
            else apply_event logged (failed_event now "supervisor_lost" "the supervisor stopped answering"))).
Proof.
  intros Hd Hin Hid Hn Hs. unfold watch_session. destruct (watch event_of reads []) as [es ended]. cbn zeta.
  destruct (follow_folds id es w Hn) as (Hf & Hn' & Hi). destruct (Hi Hs) as [x Hx]. rewrite <- Hf.
  assert (Hc : current id (follow id es w) = x) by (unfold current; by rewrite Hx).
  destruct ended; cbn [andb]; [|split; [|done]; intros _; rewrite follow_notified, app_nil_r; done].
  unfold reader_ended. change (index (with_store logs (follow id es w))) with (index (follow id es w)). rewrite Hx, Hc. destruct (is_terminal (Session.state x)) eqn:Et; cbn [andb negb].
  - split; [|done]. intros _. split; [exact Hc|]. cbn [notified notify with_store]. by rewrite follow_notified.
  - destruct answers; cbn [negb]; [split; [|done]; intros _; cbn [notified with_store]; rewrite follow_notified, app_nil_r; done|]. split; [done|]. intros _.
    assert (Hl : current id (notify (SessionExited id) (finalise_lost now id (with_store logs (follow id es w)))) =
      (let logged := from_log spec evs in if is_terminal (Session.state logged) then logged
       else apply_event logged (failed_event now "supervisor_lost" "the supervisor stopped answering"))).
    { unfold finalise_lost. cbn [store with_store]. subst id. rewrite (find_spec spec evs) by done. unfold current. rewrite index_notify, index_emit.
      destruct (is_terminal (Session.state (from_log spec evs))); [|rewrite fold_id]; rewrite log_id, get_put; done. }
    split; [|split; [|exact Hl]].
    + rewrite Hl. cbn zeta. destruct (is_terminal (Session.state (from_log spec evs))) eqn:El; [done|].
      rewrite apply_event_terminal. apply orb_true_r.
    + unfold finalise_lost. cbn [store with_store]. subst id. rewrite (find_spec spec evs) by done. cbn [notified notify with_store emit_session]. by rewrite follow_notified.
Qed.

End follow.

(** ** Examples *)

(** A serde that reads one event, as one byte, and a status of two. *)
Definition sample_event (p : list Z) : option SessionEvent :=
  match p with [0%Z] => Some (mk_event "8" (EvExited (Some 0%Z) None)) | [1%Z] => Some (mk_event "7" (Renamed (Some "a"))) | _ => None end.

Definition sample_status (p : list Z) : option (Z * Z) := match p with [pid; n] => Some (pid, n) | _ => None end.

Definition sample_after : list Frame := [mk_frame EVENT [1]; mk_frame OUTPUT [9]; mk_frame EVENT [0]; mk_frame CLOSED []; mk_frame EVENT [1]]%Z.

Definition sample_bytes : list Z := concat (map encode_frame ([mk_frame EVENT [1]] ++ mk_frame STATUS [42; 2] :: sample_after))%Z.

(** The status arrives in one read with an event before it and half of the
    next one. *)
Lemma events_follow_the_status_witness :
  let '(s, (reads, buf)) := status sample_status true (map Data [take 11 sample_bytes; drop 11 sample_bytes] ++ [AtEnd]) [] in
  s = Some (42, 2)%Z /\ watch sample_event reads buf = ([mk_event "7" (Renamed (Some "a")); mk_event "8" (EvExited (Some 0%Z) None)], true).
Proof.
  refine (events_follow_the_status sample_status sample_event [mk_frame EVENT [1%Z]] [42%Z; 2%Z] sample_after []
    [take 11 sample_bytes; drop 11 sample_bytes] [AtEnd] _ _ eq_refl _ _ _).
  - cbn [app]. unfold sample_after. repeat (apply Forall_cons_2; [by apply short_frame|]). apply Forall_nil_2.
  - repeat constructor.
  - vm_compute. reflexivity.
  - discriminate.
  - repeat constructor.
Defined.

(** A supervisor that dies without a word. *)
Lemma a_watched_session_ends_witness :
  Session.state (current 5 (watch_session sample_event "9" 5 true [Data (encode EVENT [1%Z]); AtEnd] (store sample_world) false sample_world))
  = Session.Failed "supervisor_lost" "the supervisor stopped answering" (remediation_for "supervisor_lost").
Proof.
  pose proof (a_watched_session_ends sample_event "9" 5 [Data (encode EVENT [1%Z]); AtEnd] (store sample_world) false (sample_spec 5)
    [mk_event "1" (Started 41)] sample_world) as H.
  destruct H as [_ H].
  - apply (bool_decide_eq_true_1 (NoDup (store_ids sample_world))). vm_compute. reflexivity.
  - apply list_elem_of_further, list_elem_of_here.
  - reflexivity.
  - intros s E. vm_compute in E. injection E as <-. reflexivity.
  - eexists. vm_compute. reflexivity.
  - destruct (H eq_refl) as (_ & _ & E). etransitivity; [exact (f_equal Session.state E)|]. vm_compute. reflexivity.
Defined.

(** A watch that could not connect leaves the session running, though nothing
    answers for it any more. *)
Example a_failed_watch_lingers :
  Session.state (current 5 (watch_session sample_event "9" 5 false [] (store sample_world) false sample_world)) = Running.
Proof. reflexivity. Qed.

(** And so is a session that ends between the two connections of the scan. *)
Example an_adopted_session_can_linger :
  Session.state (current 5 (adopt sample_event sample_status "9" (sample_spec 5, [mk_event "1" (Started 41)])
    (Some [Data (encode STATUS [41%Z; 0%Z])]) false [] (store sample_world) false sample_world)) = Running.
Proof. vm_compute. reflexivity. Qed.
