(* ===== verification/Daemon.v ===== *)
(** * The daemon's process

    Models crates/willied/src/main.rs and outbound.rs: the start of the daemon
    and its end around the request loop, the socket that keeps it alone, a
    socket client's connection, and the one writer of its output.  The writer's
    channel is kept with the threads that hold a sender of it, since the process
    only ends after its writer: the main thread, every running job's
    (jobs.rs:205) and every one that follows a session. *)

From S2P Require Import Prelude Text BTree Json Rpc Session Project DaemonState Projects Dispatch Doctor Cli Effects.

Local Open Scope string_scope.
Local Open Scope list_scope.
Local Open Scope willie_scope.

(** ** The one writer *)

Inductive Out : Type :=
| ToResponse (r : Response)
| ToNotification (n : Notification).

Section outbound.
  Context (print_response : Response -> result string string) (print_notification : Notification -> result string string).

Definition line_of (m : Out) : option string :=
  match (match m with ToResponse r => print_response r | ToNotification n => print_notification n end) with
  | Ok line => Some (line +:+ String newline EmptyString)
  | Err _ => None
  end.

(** The thread's loop over what was sent; [writes] is whether the n-th write
    succeeds.  A message that cannot be encoded is skipped, the first write
    that fails ends it. *)
Fixpoint write_out (writes : nat -> bool) (n : nat) (sent : list Out) : list string :=
  match sent with
  | [] => []
  | m :: sent =>
      match line_of m with
      | None => write_out writes n sent
      | Some line => if writes n then line :: write_out writes (S n) sent else []
      end
  end.

(** [send_event]; an event that cannot be encoded is sent as null. *)
Definition event_out (event_json : Event -> option Json) (e : Event) : Out :=
  ToNotification (mk_notification "state.event" (default JNull (event_json e))).

(** *** The writer's thread and those who can send to it *)

Inductive Holder : Type :=
| Main
| JobThread (id : N)
| Follower (session : N).

#[export] Instance Holder_dec : EqDecision Holder.
Proof. solve_decision. Defined.

(** The threads that hold a sender, what was sent and not yet taken, what was
    written, and whether a write has failed. *)
Record Writer : Type := mk_writer { holders : list Holder; pending : list Out; written : list string; failed : bool }.

Definition new_writer : Writer := mk_writer [Main] [] [] false.

(** The thread ends on a write that fails, or when nothing is left to take and
    nobody can send any more. *)
Definition is_over (w : Writer) : bool := failed w || (bool_decide (holders w = []) && bool_decide (pending w = [])).

Inductive Move : Type :=
| Clone (h : Holder)
| Send (m : Out)
| Drop (h : Holder)
| Write (ok : bool).

(** A sender comes from one there is; what is sent to a thread that has ended is
    lost. *)
Definition move (w : Writer) (m : Move) : Writer :=
  match m with
  | Clone h => if bool_decide (holders w = []) then w else mk_writer (holders w ++ [h]) (pending w) (written w) (failed w)
  | Send o =>
      if failed w || bool_decide (holders w = []) then w else mk_writer (holders w) (pending w ++ [o]) (written w) (failed w)
  | Drop h => mk_writer (List.filter (fun h' => negb (bool_decide (h' = h))) (holders w)) (pending w) (written w) (failed w)
  | Write ok =>
      match pending w with
      | [] => w
      | o :: rest =>
          match line_of o with
          | None => mk_writer (holders w) rest (written w) (failed w)
          | Some line => if ok then mk_writer (holders w) rest (written w ++ [line]) (failed w) else mk_writer (holders w) [] (written w) true
          end
      end
  end.

Lemma over_stays w m : is_over w = true -> is_over (move w m) = true.
Proof.
  unfold is_over. rewrite orb_true_iff, andb_true_iff, !bool_decide_eq_true. intros H.
  destruct m as [h|o|h|ok]; cbn [move].
  - by case_bool_decide; cbn; rewrite orb_true_iff, andb_true_iff, !bool_decide_eq_true; [|left; destruct H as [|[]]].
  - by case_match eqn:E; cbn; rewrite orb_true_iff, andb_true_iff, !bool_decide_eq_true; [|exfalso; apply orb_false_iff in E as [E1 E2]; apply bool_decide_eq_false_1 in E2; destruct H as [|[]]; congruence].
  - cbn. rewrite orb_true_iff, andb_true_iff, !bool_decide_eq_true. destruct H as [|[-> ->]]; [by left|by right].
  - destruct (pending w) as [|o rest] eqn:E; [by rewrite orb_true_iff, andb_true_iff, !bool_decide_eq_true, E|].
    destruct H as [->|[_ H]]; [|done]. by destruct (line_of o), ok.
Qed.

(** A thread that keeps its sender keeps the writer, as long as what is written
    is taken. *)
Lemma a_holder_keeps_it h ms : forall w, h ∈ holders w -> failed w = false -> Drop h ∉ ms -> Write false ∉ ms ->
  h ∈ holders (foldl move w ms) /\ failed (foldl move w ms) = false.
Proof.
  induction ms as [|m ms IH]; intros w Hh Hf Hd Hw; [done|]. rewrite elem_of_cons in Hd, Hw. cbn [foldl].
  apply IH; [| |tauto|tauto].
  - destruct m as [h'|o|h'|ok]; cbn [move]; repeat case_match; cbn; try done; [apply elem_of_app; by left|].
    apply list_elem_of_In, List.filter_In. split; [by apply list_elem_of_In|]. rewrite bool_decide_false; [done|]. intros ->. tauto.
  - destruct m as [h'|o|h'|ok]; cbn [move]; repeat case_match; cbn; try done. subst. exfalso. apply Hw. by left.
Qed.

(** Once nobody can send, what is left is written and the thread ends. *)
Lemma nobody_left_drains n : forall w, holders w = [] -> failed w = false -> length (pending w) <= n ->
  let w' := foldl move w (repeat (Write true) n) in is_over w' = true /\ written w' = written w ++ omap line_of (pending w).
Proof.
  induction n as [|n IH]; intros [hs ps ws f]; cbn; intros -> -> Hn.
  - destruct ps; [|cbn in Hn; lia]. by rewrite app_nil_r.
  - destruct ps as [|o ps]; cbn [omap list_omap].
    + destruct (IH (mk_writer [] [] ws false)) as [H1 H2]; [done|done|cbn; lia|]. by split.
    + cbn in Hn. destruct (line_of o) as [line|].
      * destruct (IH (mk_writer [] ps (ws ++ [line]) false)) as [H1 H2]; [done|done|cbn; lia|]. split; [exact H1|]. rewrite H2. cbn. by rewrite <- app_assoc.
      * destruct (IH (mk_writer [] ps ws false)) as [H1 H2]; [done|done|cbn; lia|]. by split.
Qed.

(** What is written is whole lines, one per message and in their order, of all
    of them until a write fails. *)
Lemma write_out_lines writes sent : forall n, exists k, write_out writes n sent = take k (omap line_of sent)
  /\ ((forall i, (n <= i < n + length (omap line_of sent))%nat -> writes i = true) -> k = length (omap line_of sent)).
Proof.
  induction sent as [|m sent IH]; intros n; cbn [write_out omap list_omap]; [by exists 0|].
  destruct (line_of m) as [line|]; [|apply IH]. destruct (writes n) eqn:En.
  - destruct (IH (S n)) as (k & -> & Hk). exists (S k). split; [done|]. intros H. cbn [length]. f_equal. apply Hk. intros i Hi. apply H. cbn [length]. lia.
  - exists 0. split; [done|]. intros H. rewrite (H n) in En; [done|]. cbn [length]. lia.
Qed.
End outbound.

(** ** A socket client's connection *)

Inductive ConnEnd : Type :=
| ClientGone
| NoDispatcher
| Unencodable (e : string)
| Broken (e : string).

Section connection.
  (** The dispatcher's answer to a line; none once it is gone, or for a blank
      line, whose reply channel is dropped. *)
  Context {W : Type} (answer : string -> W -> option Response * W) (print_response : Response -> result string string)
    (write_error : nat -> option string).

(** One request at a time: [reads] are the lines of the client. *)
Fixpoint serve_connection (reads : list (result string string)) (n : nat) (w : W) : ConnEnd * list string * W :=
  match reads with
  | [] => (ClientGone, [], w)
  | Err e :: _ => (Broken e, [], w)
  | Ok line :: reads =>
      if is_empty line then (ClientGone, [], w)
      else
        match answer line w with
        | (None, w) => (NoDispatcher, [], w)
        | (Some response, w) =>
            match print_response response with
            | Err e => (Unencodable e, [], w)
            | Ok text =>
                match write_error n with
                | Some e => (Broken e, [], w)
                | None => let '(ended, out, w) := serve_connection reads (S n) w in (ended, (text +:+ String newline EmptyString) :: out, w)
                end
            end
        end
  end.

(** The answers to the first [k] lines. *)
Fixpoint answers (lines : list string) (w : W) : list (option Response) * W :=
  match lines with
  | [] => ([], w)
  | l :: lines => let '(r, w) := answer l w in let '(rs, w) := answers lines w in (r :: rs, w)
  end.

(** A client reads the replies to its first requests, each on a line of its
    own and in their order; what the dispatcher did is what those requests, and
    at most the one after them, do. *)
Lemma replies_in_order reads : forall n w, let '(_, out, w') := serve_connection reads n w in
  exists lines rest, reads = map Ok lines ++ rest
    /\ w' = snd (answers lines w)
    /\ Forall2 (fun r text => exists response line, r = Some response /\ print_response response = Ok line /\ text = line +:+ String newline EmptyString)
         (take (length out) (fst (answers lines w))) out
    /\ (length lines <= S (length out))%nat.
Proof.
  induction reads as [|[line|e] reads IH]; intros n w; cbn [serve_connection].
  - exists [], []. repeat split; [constructor|cbn; lia].
  - destruct (is_empty line); [exists [], (Ok line :: reads); repeat split; [constructor|cbn; lia]|].
    assert (Hone : forall r w1, answer line w = (r, w1) -> exists lines rest, Ok line :: reads = map Ok lines ++ rest
      /\ w1 = snd (answers lines w) /\ Forall2 (fun r text => exists response line, r = Some response /\ print_response response = Ok line /\ text = line +:+ String newline EmptyString)
         (take 0 (fst (answers lines w))) [] /\ (length lines <= 1)%nat).
    { intros r w1 E. exists [line], reads. cbn. rewrite E. repeat split; [constructor|lia]. }
    destruct (answer line w) as [[response|] w1] eqn:E; [|by eapply Hone].
    destruct (print_response response) as [text|e] eqn:Ep; [|by eapply Hone].
    destruct (write_error n) as [e|]; [by eapply Hone|]. specialize (IH (S n) w1).
    destruct (serve_connection reads (S n) w1) as [[ended out] w2]. destruct IH as (lines & rest & -> & Hw & Hf & Hl).
    exists (line :: lines), rest. cbn. rewrite E. destruct (answers lines w1) as [rs w3]. cbn in *.
    repeat split; [done| |lia]. constructor; [|done]. by exists response, text.
  - exists [], (Err e :: reads). repeat split; [constructor|cbn; lia].
Qed.
End connection.

(** ** The process *)

Definition DEFAULT_PROJECTS_DIR : string := "/home/willie/projects".

(** [real_clock]: zero for a clock before the epoch. *)
Definition real_clock (since_epoch : option Z) : string := pretty (default 0%Z since_epoch).

Inductive Act : Type :=
| Interrupted (p : Project)
| Scanned
| MadeDir (dir : string) (error : option string)
| Existed (path : string) (there : bool)
| Connected (path : string) (live : bool)
| Removed (path : string) (error : option string)
| Listened (path : string) (error : option string)
| Restricted (path : string) (error : option string)
| Complained (text : string)
| Served (path : string) (r : ExitReason)
| JobsTripped
| SendersDropped
| Waited (w : Writer).

(** A process exits, or still waits in the join of its writer. *)
Inductive End : Type :=
| Exited (code : Z)
| Waiting.

Section process.
  Context {S : Type} (others : nat -> S -> S).
  Context (print_response : Response -> result string string) (print_notification : Notification -> result string string).
  (** The writer's channel, on which the other threads make their moves; how
      often the join is looked at. *)
  Context (writer : S -> Writer) (set_writer : Writer -> S -> S) (patience : nat).
  (** The records at start, the save of one, the adoption of the sessions, and
      the file system around the socket. *)
  Context (load_projects : S -> btree N Project) (save_record : Project -> S -> S) (scan : S -> S)
    (create_dir_all : string -> S -> option string * S) (exists_path connect : string -> S -> bool)
    (remove_file listen restrict : string -> S -> option string * S) (serve_requests : S -> ExitReason * S) (trip_jobs : S -> S).

Definition D (A : Type) : Type := M S Act A.

Definition attempt (rec : option string -> Act) (f : S -> option string * S) : D (option string) :=
  perform others (fun e => [rec e]) f.

Definition doing (a : Act) (f : S -> S) : D unit := perform others (fun _ => [a]) (fun s => (tt, f s)).

Definition asking {A} (rec : A -> list Act) (f : S -> A) : D A := perform others rec (fun s => (f s, s)).

(** The projects a daemon that died left preparing, saved as failed. *)
Definition stuck (ps : btree N Project) : list Project :=
  map interrupt_one (List.filter (fun p => bool_decide (Project.state p = Preparing)) (values ps)).

Fixpoint save_all (ps : list Project) : D unit :=
  match ps with
  | [] => ret tt
  | p :: ps => let* _ := doing (Interrupted p) (save_record p) in save_all ps
  end.

Definition bind_daemon (path : string) : D (option string) :=
  let clear : D (option string) :=
    let* there := asking (fun b => [Existed path b]) (exists_path path) in
    if (there : bool) then
      let* live := asking (fun b => [Connected path b]) (connect path) in
      if (live : bool) then ret (Some ("another daemon is listening on " +:+ path))
      else attempt (Removed path) (remove_file path)
    else ret None in
  let* e := clear in
  match e with
  | Some e => ret (Some e)
  | None =>
      let* e := attempt (Listened path) (listen path) in
      match e with
      | Some e => ret (Some e)
      | None => attempt (Restricted path) (restrict path)
      end
  end.

(** Wait until the writer's thread has ended. *)
Fixpoint await_writer (looks : nat) : D bool :=
  match looks with
  | O => ret false
  | Datatypes.S looks =>
      let* w := asking (fun w => [Waited w]) writer in
      if is_over w then ret true else await_writer looks
  end.

(** The senders of the main thread's own are dropped, and the writer joined. *)
Definition join_writer (code : Z) : D End :=
  let* _ := doing SendersDropped (fun s => set_writer (move print_response print_notification (writer s) (Drop Main)) s) in
  let* ended := await_writer patience in ret (if (ended : bool) then Exited code else Waiting).

Definition abandon (text : string) : D End :=
  let* _ := doing (Complained text) (fun s => s) in join_writer 1.

(** Serving, and the end: the socket file goes last. *)
Definition serve (path : string) : D End :=
  let* _ := perform others (fun r => [Served path r]) serve_requests in
  let* _ := doing JobsTripped trip_jobs in
  let* e := join_writer 0 in
  match e with
  | Exited code => let* _ := attempt (Removed path) (remove_file path) in ret (Exited code)
  | Waiting => ret Waiting
  end.

Definition run_stdio (run_dir_var : option string) : D End :=
  let run_dir := default RUN_DIR run_dir_var in
  let* ps := asking (fun _ => []) load_projects in
  let* _ := save_all (stuck ps) in
  let* _ := doing Scanned scan in
  let* e := attempt (MadeDir run_dir) (create_dir_all run_dir) in
  match e with
  | Some e => abandon ("willied: cannot create the run dir " +:+ run_dir +:+ ": " +:+ e)
  | None =>
      let path := daemon_socket run_dir in
      let* e := bind_daemon path in
      match e with
      | Some e => abandon ("willied: cannot bind " +:+ path +:+ ": " +:+ e)
      | None => serve path
      end
  end.

(** ** One daemon at a time *)

(** What a bind that succeeds found: nothing, or a socket nobody answered. *)
Definition bound (path : string) (l : list Act) : Prop :=
  l = [Existed path false; Listened path None; Restricted path None]
  \/ l = [Existed path true; Connected path false; Removed path None; Listened path None; Restricted path None].

Definition is_served (a : Act) : bool := match a with Served _ _ => true | _ => false end.

(** What it does to a socket somebody answers on: nothing. *)
Definition refused (path : string) (l : list Act) : Prop :=
  Forall (fun a => is_served a = false) l /\ (Connected path true ∈ l -> l = [Existed path true; Connected path true]).

Lemma bind_binds path : does (bind_daemon path) (fun e l => match e with None => bound path l | Some _ => refused path l end).
Proof.
  unfold bind_daemon, bound, refused, asking, attempt. repeat walk1; subst; try (lazymatch goal with |- match ?x with _ => _ end => destruct x end); auto.
  all: split; [cbn; by repeat constructor|]; intros H; cbn in H; rewrite ?elem_of_cons, elem_of_nil in H; naive_solver.
Qed.

Lemma save_all_saves ps : does (save_all ps) (fun _ l => l = map Interrupted ps).
Proof.
  induction ps as [|p ps IH]; cbn [save_all]; [by apply does_ret|]. unfold doing. walk1.
  eapply does_conseq; [exact IH|]. by intros u l ->.
Qed.

(** How the join went: it ends at the first look that finds the writer's thread
    ended, and waits as long as none does. *)
Definition joined (code : Z) (e : End) (l : list Act) : Prop :=
  exists ws, l = SendersDropped :: map Waited ws /\
    match e with
    | Exited c => c = code /\ exists before w, ws = before ++ [w] /\ Forall (fun w => is_over w = false) before /\ is_over w = true
    | Waiting => length ws = patience /\ Forall (fun w => is_over w = false) ws
    end.

Lemma await_writer_waits n : does (await_writer n) (fun b l => exists ws, l = map Waited ws /\
  if (b : bool) then exists before w, ws = before ++ [w] /\ Forall (fun w => is_over w = false) before /\ is_over w = true
  else length ws = n /\ Forall (fun w => is_over w = false) ws).
Proof.
  induction n as [|n IH]; cbn [await_writer]; [apply does_ret; by exists []|]. unfold asking. walk1.
  destruct (is_over a) eqn:E; [walk1; exists [a]; split; [done|]; by exists [], a|].
  eapply does_conseq; [exact IH|]. intros b l (ws & -> & H). exists (a :: ws). split; [done|]. destruct b.
  - destruct H as (before & w & -> & Hf & Hw). exists (a :: before), w. repeat split; [by constructor|done].
  - destruct H as [<- H]. split; [done|by constructor].
Qed.

Lemma join_joins code : does (join_writer code) (joined code).
Proof.
  unfold join_writer, doing. walk1. eapply does_bind; [apply await_writer_waits|]. intros b l (ws & -> & H). apply does_ret.
  rewrite app_nil_r. exists ws. split; [done|]. by destruct b.
Qed.

(** C17. A daemon serves only on a socket that it bound itself, where there was
    none or one nobody answered on; one that finds the socket answered binds
    and serves nothing, and leaves it.  But before it looks at the socket it has
    failed every project it found preparing, on the disk too, and adopted the
    sessions.  It drops its own senders and exits, 0 after serving and 1
    otherwise, at the first look that finds the writer's thread ended, and until
    then it waits, its socket in place.  That thread ends on a write that fails;
    else it goes on while a running job or a thread that follows a session has
    a sender, and once none has it writes what is left, a line per message, and
    ends, for good. *)
Theorem a_daemon_serves_alone run_dir_var :
  let dir := default RUN_DIR run_dir_var in
  let path := daemon_socket dir in
  let moves := foldl (move print_response print_notification) in
  does (run_stdio run_dir_var) (fun e l => exists ps l1, l = map Interrupted (stuck ps) ++ Scanned :: l1 /\
    ((exists x text j, l1 = MadeDir dir (Some x) :: Complained text :: j /\ joined 1 e j)
     \/ (exists b text j, l1 = MadeDir dir None :: b ++ Complained text :: j /\ refused path b /\ joined 1 e j)
     \/ (exists b r j l2, bound path b /\ l1 = MadeDir dir None :: b ++ Served path r :: JobsTripped :: j ++ l2 /\ joined 0 e j
           /\ match e with Exited _ => exists x, l2 = [Removed path x] | Waiting => l2 = [] end)))
  /\ (forall h w ms, h ∈ holders w -> failed w = false -> Drop h ∉ ms -> Write false ∉ ms -> is_over (moves w ms) = false)
  /\ (forall w n, holders w = [] -> failed w = false -> length (pending w) <= n ->
       let w' := moves w (repeat (Write true) n) in
       is_over w' = true /\ written w' = written w ++ omap (line_of print_response print_notification) (pending w))
  /\ (forall w ms, is_over w = true -> is_over (moves w ms) = true).
Proof.
  cbv zeta. split; [|split; [|split; [intros; by apply nobody_left_drains|]]].
  2: { intros h w ms Hh Hf Hd Hw. unfold is_over. destruct (a_holder_keeps_it print_response print_notification h ms w Hh Hf Hd Hw) as [H ->].
       rewrite bool_decide_false; [done|]. intros E. rewrite E in H. by apply elem_of_nil in H. }
  2: { intros w ms. revert w. induction ms as [|m ms IH]; intros w H; [done|]. cbn [foldl]. by apply IH, over_stays. }
  unfold run_stdio, asking. cbv zeta. walk1. eapply does_bind; [apply save_all_saves|]. intros u l0 ->. unfold doing, attempt. do 2 walk1.
  destruct a1 as [x|].
  - unfold abandon, doing. walk1. eapply does_conseq; [apply join_joins|]. intros e j Hj. eexists a, _. split; [reflexivity|]. left.
    eexists x, _, _. by split.
  - eapply does_bind; [apply bind_binds|]. intros [x|] b Hb.
    + unfold abandon, doing. walk1. eapply does_conseq; [apply join_joins|]. intros e j Hj. eexists a, _. split; [reflexivity|]. right. left.
      eexists b, _, _. by split.
    + unfold serve, doing, attempt. do 2 walk1. eapply does_bind; [apply join_joins|]. intros e j Hj.
      destruct e as [c|]; repeat walk1; (eexists a, _; split; [reflexivity|]); right; right; (eexists b, _, j, _; split; [exact Hb|]);
        (split; [reflexivity|]); (split; [exact Hj|]); cbn; eauto.
Qed.

End process.

(** ** At concrete inputs *)

Definition plain (r : Response) : result string string := Ok "{}".

Definition plain_notice (n : Notification) : result string string := Ok "{}".

Definition notice : Out := ToNotification (mk_notification "state.event" JNull).

(** A daemon whose state is its writer: while it serves, the others do
    [meanwhile], and [later] from the join on, a move at each of its looks. *)
Definition sample_daemon (meanwhile later : list Move) : D (S := Writer) End :=
  let moves := fun ms w => foldl (move plain plain_notice) w ms in
  run_stdio (fun n => if (n <=? 7)%nat then fun w => w else moves (firstn 1 (skipn (n - 8) later))) plain plain_notice (fun w => w) (fun w _ => w) 4
    (fun _ => []) (fun _ w => w) (fun w => w) (fun _ w => (None, w)) (fun _ _ => false) (fun _ _ => false)
    (fun _ w => (None, w)) (fun _ w => (None, w)) (fun _ w => (None, w)) (fun w => (Eof, moves meanwhile w)) (fun w => w) (Some "/run/willie").

Definition ends (d : D (S := Writer) End) : End := fst (d (mk_world new_writer 0 [])).

(** A job that runs on, though it is told to stop, or a session that is
    followed, holds the daemon, which has served; a write that fails lets it go
    whoever follows. *)
Example what_holds_the_daemon :
  ends (sample_daemon [] []) = Exited 0
  /\ ends (sample_daemon [Clone (JobThread 1)] []) = Waiting
  /\ ends (sample_daemon [Clone (JobThread 1)] [Send notice; Drop (JobThread 1); Write true]) = Exited 0
  /\ ends (sample_daemon [Clone (Follower 2)] [Send notice; Write true]) = Waiting
  /\ ends (sample_daemon [Clone (Follower 2)] [Send notice; Write false]) = Exited 0.
Proof. by vm_compute. Qed.

Lemma a_daemon_serves_alone_witness :
  let w := mk_writer [JobThread 1] [notice] [] false in
  is_over (foldl (move plain plain_notice) w [Write true; Send notice]) = false
  /\ is_over (foldl (move plain plain_notice) (move plain plain_notice w (Drop (JobThread 1))) [Write true]) = true.
Proof.
  pose proof (a_daemon_serves_alone (S := unit) (fun _ s => s) plain plain_notice (fun _ => new_writer) (fun _ s => s) 4
    (fun _ => []) (fun _ s => s) (fun s => s) (fun _ s => (None, s)) (fun _ _ => false) (fun _ _ => false)
    (fun _ s => (None, s)) (fun _ s => (None, s)) (fun _ s => (None, s)) (fun s => (Eof, s)) (fun s => s) None) as (_ & H1 & H2 & _).
  split.
  - apply (H1 (JobThread 1)); [by left|done| |]; rewrite !elem_of_cons, elem_of_nil; naive_solver.
  - by apply (H2 _ 1); [..|cbn; lia].
Defined.
