(* ===== verification/Shapes.v ===== *)
(** * The shapes of what is written and sent

    The records of willie-core (session.rs, project.rs, sandbox.rs, id.rs) that
    the daemon and the supervisor write to disk and to each other, and those of
    willie-proto that the engine, the daemon, the supervisor and the command
    line exchange, as serde's attributes on them say.  What one side writes the
    other reads, whatever a later version adds. *)

From S2P Require Import Prelude Text BTree Json Serde Sandbox Project Session DaemonState.

Local Open Scope string_scope.
Local Open Scope list_scope.

Local Open Scope serde_scope.

Ltac lawful L := unfold L; apply _.
Ltac reads L := first [apply struct_reads | apply flat_reads | apply strict_reads]; apply _.
Ltac variants := apply tagged_lawful; intros []; (split; [reflexivity|split; [reflexivity|split; [cbn; apply _|reflexivity]]]).

(** ** Integers and ids *)

Definition u8 : Shape Z := int_shape 0 255.
Definition u16 : Shape Z := int_shape 0 u16_max.
Definition u32 : Shape Z := int_shape 0 u32_max.
Definition u64 : Shape Z := int_shape 0 u64_max.
Definition i32 : Shape Z := int_shape (-2147483648) 2147483647.

#[export] Instance u8_reads : Reads (H := u8) Z := int_reads _ _.
#[export] Instance u16_reads : Reads (H := u16) Z := int_reads _ _.
#[export] Instance u32_reads : Reads (H := u32) Z := int_reads _ _.
#[export] Instance u64_reads : Reads (H := u64) Z := int_reads _ _.
#[export] Instance i32_reads : Reads (H := i32) Z := int_reads _ _.

(** The text form of a ULID, of the ulid crate. *)
Class Ulid : Type := { ulid_to_string : N -> string; ulid_from_string : string -> option N }.

Class UlidReads `{Ulid} : Prop := ulid_back : forall u, (u < 2 ^ 128)%N -> ulid_from_string (ulid_to_string u) = Some u.

Definition ok_of {A E} (r : result A E) : option A := match r with Ok a => Some a | Err _ => None end.

Definition id_shape `{Ulid} (k : Project.Kind) : Shape N :=
  {| to_value u := JString (id_display ulid_to_string k u);
     from_value v := match v with JString s => ok_of (id_from_str ulid_from_string k s) | _ => None end;
     fits u := (u <? 2 ^ 128)%N |}.

#[export] Instance id_reads `{Ulid} `{!UlidReads} k : Reads (H := id_shape k) N.
Proof.
  intros u Hu. cbn in *. apply N.ltb_lt in Hu. unfold id_from_str, id_display. by rewrite !strip_prefix_app, ulid_back.
Qed.

Definition project_id `{Ulid} : Shape N := id_shape KProject.
Definition session_id `{Ulid} : Shape N := id_shape KSession.
Definition job_id `{Ulid} : Shape N := id_shape KJob.

#[export] Instance project_id_reads `{Ulid} `{!UlidReads} : Reads (H := project_id) N := id_reads KProject.
#[export] Instance session_id_reads `{Ulid} `{!UlidReads} : Reads (H := session_id) N := id_reads KSession.
#[export] Instance job_id_reads `{Ulid} `{!UlidReads} : Reads (H := job_id) N := id_reads KJob.

(** [BTreeMap<String, String>]: an object, read entry by entry. *)
Definition in_order (m : btree string string) : bool :=
  (fix go m := match m with [] => true | e :: m => forallb (fun e' : string * string => ltb (fst e) (fst e')) m && go m end) m.

#[export] Instance string_map_shape : Shape (btree string string) :=
  {| to_value m := JObject (map (fun e => (fst e, JString (snd e))) m);
     from_value v :=
       match v with
       | JObject m =>
           (fun l => foldl (fun m e => BTree.put (fst e) (snd e) m) [] (zip (keys m) l)) <$> mapM (fun e => as_str (snd e)) m
       | _ => None
       end;
     fits := in_order |}.

Lemma put_above k v (m : btree string string) : Forall (fun e => ltb (fst e) k = true) m -> BTree.put k v m = m ++ [(k, v)].
Proof.
  induction 1 as [|[k' v'] m Hk _ IH]; [done|]. cbn [fst BTree.put app] in *.
  rewrite decide_False by (intros ->; by rewrite ltb_irrefl in Hk).
  destruct (ltb k k') eqn:E; [|by rewrite IH]. pose proof (ltb_trans k k' k E Hk) as Hc. by rewrite ltb_irrefl in Hc.
Qed.

Lemma put_in_order l : forall m, in_order l = true -> (forall e e', e ∈ m -> e' ∈ l -> ltb (fst e) (fst e') = true) ->
  foldl (fun m e => BTree.put (fst e) (snd e) m) m l = m ++ l.
Proof.
  induction l as [|[k v] l IH]; intros m Ho Hm; [by rewrite app_nil_r|]. cbn [foldl fst snd]. cbn in Ho. apply andb_true_iff in Ho as [Hk Ho].
  rewrite forallb_forall in Hk. rewrite put_above by (apply Forall_forall; intros e He; apply (Hm e (k, v) He); by left).
  rewrite IH; [by rewrite <- app_assoc|done|]. intros e e' [He|He%list_elem_of_singleton]%elem_of_app He'.
  - apply Hm; [done|by right].
  - subst e. by apply (Hk e'), list_elem_of_In.
Qed.

#[export] Instance string_map_reads : Reads (btree string string).
Proof.
  intros m Hm. cbn [to_value from_value string_map_shape].
  assert (mapM (fun e : string * Json => as_str (snd e)) (map (fun e => (fst e, JString (snd e))) m) = Some (map snd m)) as ->.
  { clear. induction m as [|[k v] m IH]; [done|]. cbn. by rewrite IH. }
  cbn. f_equal. unfold keys. rewrite map_map. cbn.
  assert (zip (map (fun e : string * string => fst e) m) (map snd m) = m) as -> by (clear; induction m as [|[k v] m IH]; [done|]; cbn; by rewrite IH).
  apply put_in_order; [done|]. by intros e e' He%elem_of_nil.
Qed.

(** ** The sandbox's policy *)

Definition capability_name (c : Capability) : string :=
  match c with
  | ProjectRw => "project_rw" | AgentState => "agent_state" | ToolsRo => "tools_ro" | CachesRw => "caches_rw"
  | GitIdentity => "git_identity" | ExtraPaths => "extra_paths" | HomePersistent => "home_persistent" | Ssh => "ssh"
  | MntAll => "mnt_all" | WindowsInterop => "windows_interop"
  end.

#[export] Instance capability_shape : Shape Capability := enum_shape capability_name Sandbox.ALL.
#[export] Instance capability_reads : Reads Capability.
Proof. apply enum_reads. by intros []. Qed.

#[export] Instance path_mode_shape : Shape PathMode := enum_shape (fun m => match m with Ro => "ro" | Rw => "rw" end) [Ro; Rw].
#[export] Instance path_mode_reads : Reads PathMode.
Proof. apply enum_reads. by intros []. Qed.

Definition extra_path : Layout ExtraPath :=
  as_type (required "path" &&& required "mode") (fun '(p, m) => mk_extra p m) (fun e => (path e, mode e)).
#[export] Instance extra_path_lawful : Lawful extra_path.
Proof. lawful extra_path. Qed.
#[export] Instance extra_path_shape : Shape ExtraPath := struct_shape extra_path.
#[export] Instance extra_path_reads : Reads ExtraPath.
Proof. reads extra_path. Qed.

Definition capability_set : Layout CapabilitySet :=
  as_type (required "project_rw" &&& required "agent_state" &&& required "tools_ro" &&& required "caches_rw"
      &&& required "git_identity" &&& defaulted "extra_paths" [])
    (fun '(p, a, t, c, g, x) => mk_caps p a t c g x)
    (fun s => (project_rw s, agent_state s, tools_ro s, caches_rw s, git_identity s, extra_paths s)).
#[export] Instance capability_set_lawful : Lawful capability_set.
Proof. lawful capability_set. Qed.
#[export] Instance capability_set_shape : Shape CapabilitySet := struct_shape capability_set.
#[export] Instance capability_set_reads : Reads CapabilitySet.
Proof. reads capability_set. Qed.

#[export] Instance skipped_nil_lawful {A} `{Shape A} `{!Reads A} key : Lawful (skipped (A := list A) key [] is_nil).
Proof. apply skipped_lawful. by intros []. Qed.

Definition sandbox_profile : Layout SandboxProfile :=
  as_type (optional "project_rw" &&& optional "agent_state" &&& optional "tools_ro" &&& optional "caches_rw" &&& optional "git_identity"
      &&& skipped "extra_paths" [] is_nil &&& optional "home_persistent" &&& optional "ssh" &&& optional "mnt_all"
      &&& optional "windows_interop")
    (fun '(p, a, t, c, g, x, h, s, m, w) => mk_profile p a t c g x h s m w)
    (fun p => (p_project_rw p, p_agent_state p, p_tools_ro p, p_caches_rw p, p_git_identity p, p_extra_paths p, p_home_persistent p,
      p_ssh p, p_mnt_all p, p_windows_interop p)).
#[export] Instance sandbox_profile_lawful : Lawful sandbox_profile.
Proof. lawful sandbox_profile. Qed.
#[export] Instance sandbox_profile_shape : Shape SandboxProfile := strict_shape sandbox_profile.
#[export] Instance sandbox_profile_reads : Reads SandboxProfile.
Proof. reads sandbox_profile. Qed.

#[export] Instance source_shape : Shape Source :=
  enum_shape (fun s => match s with Sandbox.Default => "default" | Sandbox.Profile => "profile" | Sandbox.Unavailable => "unavailable" end)
    [Sandbox.Default; Sandbox.Profile; Sandbox.Unavailable].
#[export] Instance source_reads : Reads Source.
Proof. apply enum_reads. by intros []. Qed.

Definition explained : Layout Explained :=
  as_type (required "capability" &&& required "enabled" &&& required "source")
    (fun '(c, e, s) => mk_explained c e s) (fun x => (capability x, e_enabled x, Sandbox.source x)).
#[export] Instance explained_lawful : Lawful explained.
Proof. lawful explained. Qed.
#[export] Instance explained_shape : Shape Explained := struct_shape explained.
#[export] Instance explained_reads : Reads Explained.
Proof. reads explained. Qed.

(** ** Sessions *)

#[export] Instance session_kind_shape : Shape SessionKind := enum_shape (fun k => match k with Agent => "agent" | Shell => "shell" end) [Agent; Shell].
#[export] Instance session_kind_reads : Reads SessionKind.
Proof. apply enum_reads. by intros []. Qed.

Definition exited : Layout (option Z * option Z) := nullable (H := i32) "code" &&& nullable (H := i32) "signal".
Definition failed : Layout (string * string * string) := required "code" &&& required "message" &&& required "remediation".

#[export] Instance exited_lawful : Lawful exited.
Proof. lawful exited. Qed.
#[export] Instance failed_lawful : Lawful failed.
Proof. lawful failed. Qed.

Definition v_exited : Variant SessionState := mk_variant "exited" exited (fun '(c, s) => Session.Exited c s).
Definition v_failed : Variant SessionState := mk_variant "failed" failed (fun '(c, m, r) => Session.Failed c m r).

Definition session_state : Layout SessionState :=
  tagged "state" [unit_variant "creating" Creating; unit_variant "running" Running; unit_variant "stopping" Stopping; v_exited; v_failed]
    (fun s => match s with
              | Creating => existT (unit_variant "creating" Creating) tt
              | Running => existT (unit_variant "running" Running) tt
              | Stopping => existT (unit_variant "stopping" Stopping) tt
              | Session.Exited c s => existT v_exited (c, s)
              | Session.Failed c m r => existT v_failed (c, m, r)
              end).
#[export] Instance session_state_lawful : Lawful session_state.
Proof. variants. Qed.
#[export] Instance session_state_shape : Shape SessionState := struct_shape session_state.
#[export] Instance session_state_reads : Reads SessionState.
Proof. reads session_state. Qed.

Definition denied_layout : Layout Denied :=
  as_type (required "class" &&& required "name" &&& required (H := u64) "count" &&& required "first_at" &&& required "last_at")
    (fun '(c, n, k, f, l) => mk_denied c n k f l) (fun d => (d_class d, d_name d, d_count d, first_at d, last_at d)).
#[export] Instance denied_lawful : Lawful denied_layout.
Proof. lawful denied_layout. Qed.
#[export] Instance denied_shape : Shape Denied := struct_shape denied_layout.
#[export] Instance denied_reads : Reads Denied.
Proof. reads denied_layout. Qed.

Definition sandbox_state : Layout SandboxState :=
  as_type (defaulted "applied" [] &&& defaulted "unavailable" [] &&& defaulted "denied" [] &&& defaulted "degraded" [])
    (fun '(a, u, d, g) => mk_sandbox a u d g) (fun s => (applied s, unavailable s, denied s, degraded s)).
#[export] Instance sandbox_state_lawful : Lawful sandbox_state.
Proof. lawful sandbox_state. Qed.
#[export] Instance sandbox_state_shape : Shape SandboxState := struct_shape sandbox_state.
#[export] Instance sandbox_state_reads : Reads SandboxState.
Proof. reads sandbox_state. Qed.

Section records.
  Context `{Ulid}.

Definition session : Layout Session :=
  as_type (required (H := session_id) "id" &&& required (H := project_id) "project_id" &&& required "harness" &&& required "workspace"
      &&& defaulted "kind" Agent &&& required "state" &&& required "created_at" &&& optional "started_at" &&& optional "finished_at"
      &&& optional (H := u32) "pid" &&& defaulted (H := u32) "clients" 0%Z &&& optional (H := session_id) "resumed_from"
      &&& optional "label" &&& optional "title" &&& defaulted "sandbox" sandbox_default)
    (fun '(i, p, h, w, k, st, c, sa, fa, pd, n, r, l, t, b) => mk_session i p h w k st c sa fa pd n r l t b)
    (fun s => (Session.id s, Session.project_id s, Session.harness s, Session.workspace s, Session.kind s, Session.state s, Session.created_at s,
      started_at s, finished_at s, pid s, clients s, resumed_from s, label s, title s, Session.sandbox s)).

Definition session_spec : Layout SessionSpec :=
  as_type (required (H := session_id) "id" &&& required (H := project_id) "project_id" &&& required "harness" &&& required "workspace"
      &&& required "socket" &&& required "argv" &&& required "env" &&& required "created_at" &&& required "willie_version"
      &&& optional (H := session_id) "resumed_from" &&& defaulted "kind" Agent &&& defaulted "capabilities" default_set)
    (fun '(i, p, h, w, so, a, e, c, v, r, k, x) => mk_spec i p h w so a e c v r k x)
    (fun s => (s_id s, s_project_id s, s_harness s, s_workspace s, socket s, argv s, env s, s_created_at s, willie_version s,
      s_resumed_from s, s_kind s, capabilities s)).

#[export] Instance session_lawful `{!UlidReads} : Lawful session.
Proof. lawful session. Qed.
#[export] Instance session_shape : Shape Session := struct_shape session.
#[export] Instance session_reads `{!UlidReads} : Reads Session.
Proof. reads session. Qed.
#[export] Instance session_spec_lawful `{!UlidReads} : Lawful session_spec.
Proof. lawful session_spec. Qed.
#[export] Instance session_spec_shape : Shape SessionSpec := struct_shape session_spec.
#[export] Instance session_spec_reads `{!UlidReads} : Reads SessionSpec.
Proof. reads session_spec. Qed.
End records.

(** *** The event log *)

Definition v_started : Variant SessionEventKind := mk_variant "started" (required (H := u32) "pid") Started.
Definition v_applied : Variant SessionEventKind :=
  mk_variant "sandbox_applied" (required "mechanisms" &&& defaulted "unavailable" []) (fun '(m, u) => SandboxApplied m u).
Definition v_denied : Variant SessionEventKind :=
  mk_variant "sandbox_denied" (required "class" &&& required "name" &&& required (H := u64) "count") (fun '(c, n, k) => SandboxDenied c n k).
Definition v_degraded : Variant SessionEventKind :=
  mk_variant "sandbox_degraded" (required "mechanism" &&& required "message") (fun '(m, t) => SandboxDegraded m t).
Definition v_renamed : Variant SessionEventKind := mk_variant "renamed" (nullable "label") Renamed.
Definition v_attached : Variant SessionEventKind := mk_variant "attached" (required (H := u64) "client") Attached.
Definition v_detached : Variant SessionEventKind := mk_variant "detached" (required (H := u64) "client") Detached.
Definition v_resized : Variant SessionEventKind :=
  mk_variant "resized" (required (H := u16) "rows" &&& required (H := u16) "cols") (fun '(r, c) => Resized r c).
Definition v_stop : Variant SessionEventKind := mk_variant "stop_requested" (required "by") StopRequested.
Definition v_ev_exited : Variant SessionEventKind := mk_variant "exited" exited (fun '(c, s) => EvExited c s).
Definition v_ev_failed : Variant SessionEventKind :=
  mk_variant "failed" (required "code" &&& required "message") (fun '(c, m) => EvFailed c m).

Definition session_event_kind : Layout SessionEventKind :=
  tagged "kind" [unit_variant "created" Created; v_started; v_applied; v_denied; v_degraded; v_renamed; v_attached; v_detached; v_resized;
      v_stop; v_ev_exited; v_ev_failed]
    (fun k => match k with
              | Created => existT (unit_variant "created" Created) tt
              | Started p => existT v_started p
              | SandboxApplied m u => existT v_applied (m, u)
              | SandboxDenied c n k => existT v_denied (c, n, k)
              | SandboxDegraded m t => existT v_degraded (m, t)
              | Renamed l => existT v_renamed l
              | Attached c => existT v_attached c
              | Detached c => existT v_detached c
              | Resized r c => existT v_resized (r, c)
              | StopRequested b => existT v_stop b
              | EvExited c s => existT v_ev_exited (c, s)
              | EvFailed c m => existT v_ev_failed (c, m)
              end).
#[export] Instance session_event_kind_lawful : Lawful session_event_kind.
Proof. variants. Qed.

Definition session_event : Layout SessionEvent :=
  as_type (required "at" &&& session_event_kind) (fun '(a, k) => mk_event a k) (fun e => (at_ e, ekind e)).
#[export] Instance session_event_lawful : Lawful session_event.
Proof. lawful session_event. Qed.
#[export] Instance session_event_shape : Shape SessionEvent := flat_shape session_event.
#[export] Instance session_event_reads : Reads SessionEvent.
Proof. reads session_event. Qed.

(** ** Projects and jobs *)

Definition v_proj_failed : Variant ProjectState := mk_variant "failed" failed (fun '(c, m, r) => ProjFailed c m r).

Definition project_state : Layout ProjectState :=
  tagged "state" [unit_variant "preparing" Preparing; unit_variant "ready" Ready; v_proj_failed]
    (fun s => match s with
              | Preparing => existT (unit_variant "preparing" Preparing) tt
              | Ready => existT (unit_variant "ready" Ready) tt
              | ProjFailed c m r => existT v_proj_failed (c, m, r)
              end).
#[export] Instance project_state_lawful : Lawful project_state.
Proof. variants. Qed.
#[export] Instance project_state_shape : Shape ProjectState := struct_shape project_state.
#[export] Instance project_state_reads : Reads ProjectState.
Proof. reads project_state. Qed.

Definition sandbox_problem : Layout SandboxProblem :=
  as_type failed (fun '(c, m, r) => Project.mk_problem c m r) (fun p => (sp_code p, sp_message p, sp_remediation p)).
#[export] Instance sandbox_problem_lawful : Lawful sandbox_problem.
Proof. lawful sandbox_problem. Qed.
#[export] Instance sandbox_problem_shape : Shape SandboxProblem := struct_shape sandbox_problem.
#[export] Instance sandbox_problem_reads : Reads SandboxProblem.
Proof. reads sandbox_problem. Qed.

Definition job_kind_name (k : JobKind) : string :=
  match k with
  | Add => "add" | DaemonState.Remove => "remove" | SyncToWindows => "sync_to_windows" | UpdateFromWindows => "update_from_windows"
  | Relocate => "relocate" | InstallHarness => "install_harness" | UpdateHarness => "update_harness"
  end.

#[export] Instance job_kind_shape : Shape JobKind :=
  enum_shape job_kind_name [Add; DaemonState.Remove; SyncToWindows; UpdateFromWindows; Relocate; InstallHarness; UpdateHarness].
#[export] Instance job_kind_reads : Reads JobKind.
Proof. apply enum_reads. by intros []. Qed.

Definition v_job_failed : Variant JobState := mk_variant "failed" failed (fun '(c, m, r) => JFailed c m r).

Definition job_state : Layout JobState :=
  tagged "state" [unit_variant "running" JRunning; unit_variant "done" JDone; v_job_failed]
    (fun s => match s with
              | JRunning => existT (unit_variant "running" JRunning) tt
              | JDone => existT (unit_variant "done" JDone) tt
              | JFailed c m r => existT v_job_failed (c, m, r)
              end).
#[export] Instance job_state_lawful : Lawful job_state.
Proof. variants. Qed.
#[export] Instance job_state_shape : Shape JobState := struct_shape job_state.
#[export] Instance job_state_reads : Reads JobState.
Proof. reads job_state. Qed.

Section records.
  Context `{Ulid}.

Definition project : Layout Project :=
  as_type (required (H := project_id) "id" &&& required "name" &&& required "slug" &&& required "source" &&& required "workspace"
      &&& required "branch" &&& required "state" &&& defaulted "source_present" true &&& required "created_at"
      &&& defaulted "sandbox" default_profile &&& optional "sandbox_problem")
    (fun '(i, n, sl, so, w, b, st, pr, c, x, e) => mk_project i n sl so w b st pr c x e)
    (fun p => (Project.id p, name p, slug p, Project.source p, Project.workspace p, branch p, Project.state p, source_present p,
      Project.created_at p, Project.sandbox p, Project.sandbox_problem p)).

Definition job : Layout Job :=
  as_type (required (H := job_id) "id" &&& required "kind" &&& optional (H := project_id) "project_id" &&& required "state"
      &&& required "started_at" &&& optional "finished_at" &&& defaulted "log_tail" "")
    (fun '(i, k, p, st, sa, fa, l) => mk_job i k p st sa fa l)
    (fun j => (j_id j, j_kind j, j_project j, j_state j, j_started_at j, j_finished_at j, j_log_tail j)).

#[export] Instance project_lawful `{!UlidReads} : Lawful project.
Proof. lawful project. Qed.
#[export] Instance project_shape : Shape Project := struct_shape project.
#[export] Instance project_reads `{!UlidReads} : Reads Project.
Proof. reads project. Qed.
#[export] Instance job_lawful `{!UlidReads} : Lawful job.
Proof. lawful job. Qed.
#[export] Instance job_shape : Shape Job := struct_shape job.
#[export] Instance job_reads `{!UlidReads} : Reads Job.
Proof. reads job. Qed.
End records.
