(* ===== verification/Messages.v ===== *)
(** * The messages between the parts

    The envelopes of willie-proto/src/rpc.rs, the frames of supervisor.rs, the
    events and the snapshot of state.rs, and the parameters and results of the
    methods (daemon.rs, project.rs, session.rs, job.rs, tool.rs, plugin.rs,
    usage.rs, sandbox.rs), with their shapes. *)

From S2P Require Import Prelude Text App BTree Json Sandbox Project Session DaemonState Rpc Supervisor Doctor Workspace Tools PluginApi Plugins Usage Dispatch Serde Shapes.

Local Open Scope string_scope.
Local Open Scope list_scope.
Local Open Scope serde_scope.

(** ** Envelopes *)

(** [#[serde(default = "version")]], a field that is not looked at. *)
Definition jsonrpc : Layout string := defaulted "jsonrpc" "2.0".

Definition request : Layout RpcRequest :=
  as_type (jsonrpc &&& required (H := u64) "id" &&& required "method" &&& defaulted "params" JNull)
    (fun '(_, i, m, p) => mk_rpc_request i m p) (fun q => ("2.0", q_id q, q_method q, q_params q)).
#[export] Instance request_lawful : Lawful request.
Proof. unfold request, jsonrpc. apply _. Qed.
#[export] Instance request_shape : Shape RpcRequest := struct_shape request.
#[export] Instance request_reads : Reads RpcRequest.
Proof. reads request. Qed.

Definition rpc_error : Layout RpcError :=
  as_type (required "code" &&& required "message" &&& optional "remediation") (fun '(c, m, r) => mk_rpc c m r)
    (fun e => (x_code e, x_message e, x_remediation e)).
#[export] Instance rpc_error_lawful : Lawful rpc_error.
Proof. lawful rpc_error. Qed.
#[export] Instance rpc_error_shape : Shape RpcError := struct_shape rpc_error.
#[export] Instance rpc_error_reads : Reads RpcError.
Proof. reads rpc_error. Qed.

Definition response : Layout Response :=
  as_type (jsonrpc &&& required (H := u64) "id" &&& optional "result" &&& optional "error")
    (fun '(_, i, r, e) => mk_response i r e) (fun a => ("2.0", Rpc.a_id a, a_result a, Rpc.a_error a)).
#[export] Instance response_lawful : Lawful response.
Proof. unfold response, jsonrpc. apply _. Qed.
#[export] Instance response_shape : Shape Response := struct_shape response.
#[export] Instance response_reads : Reads Response.
Proof. reads response. Qed.

Definition notification : Layout Notification :=
  as_type (jsonrpc &&& required "method" &&& defaulted "params" JNull)
    (fun '(_, m, p) => mk_notification m p) (fun n => ("2.0", n_method n, n_params n)).
#[export] Instance notification_lawful : Lawful notification.
Proof. unfold notification, jsonrpc. apply _. Qed.
#[export] Instance notification_shape : Shape Notification := struct_shape notification.
#[export] Instance notification_reads : Reads Notification.
Proof. reads notification. Qed.

(** ** The supervisor's frames *)

#[export] Instance role_shape : Shape Role := enum_shape (fun r => match r with Terminal => "terminal" | Control => "control" end) [Terminal; Control].
#[export] Instance role_reads : Reads Role.
Proof. apply enum_reads. by intros []. Qed.

Definition supervisor_hello : Layout Supervisor.Hello :=
  as_type (required "role" &&& required (H := u16) "rows" &&& required (H := u16) "cols")
    (fun '(r, h, w) => Supervisor.mk_hello r h w) (fun h => (h_role h, h_rows h, h_cols h)).
#[export] Instance supervisor_hello_lawful : Lawful supervisor_hello.
Proof. lawful supervisor_hello. Qed.
#[export] Instance supervisor_hello_shape : Shape Supervisor.Hello := struct_shape supervisor_hello.
#[export] Instance supervisor_hello_reads : Reads Supervisor.Hello.
Proof. reads supervisor_hello. Qed.

Definition supervisor_status : Layout Supervisor.Status :=
  as_type (required (H := u32) "pid" &&& required "state" &&& required (H := u32) "clients" &&& required "started_at")
    (fun '(p, s, c, t) => Supervisor.mk_status p s c t) (fun s => (st_pid s, st_state s, st_clients s, st_started_at s)).
#[export] Instance supervisor_status_lawful : Lawful supervisor_status.
Proof. lawful supervisor_status. Qed.
#[export] Instance supervisor_status_shape : Shape Supervisor.Status := struct_shape supervisor_status.
#[export] Instance supervisor_status_reads : Reads Supervisor.Status.
Proof. reads supervisor_status. Qed.

#[export] Instance close_reason_shape : Shape CloseReason :=
  enum_shape (fun r => match r with CExited => "exited" | CStopped => "stopped" | CShutdown => "shutdown" | CTooSlow => "too_slow" | CProtocol => "protocol" end)
    [CExited; CStopped; CShutdown; CTooSlow; CProtocol].
#[export] Instance close_reason_reads : Reads CloseReason.
Proof. apply enum_reads. by intros []. Qed.

Definition closed : Layout Closed :=
  as_type (required "reason" &&& optional (H := i32) "code" &&& optional (H := i32) "signal")
    (fun '(r, c, s) => mk_closed r c s) (fun c => (reason c, closed_code c, closed_signal c)).
#[export] Instance closed_lawful : Lawful closed.
Proof. lawful closed. Qed.
#[export] Instance closed_shape : Shape Closed := struct_shape closed.
#[export] Instance closed_reads : Reads Closed.
Proof. reads closed. Qed.

(** ** Plugins *)

#[export] Instance scope_shape : Shape Scope := enum_shape (fun s => match s with Global => "global" | PerProject => "per_project" end) [Global; PerProject].
#[export] Instance scope_reads : Reads Scope.
Proof. apply enum_reads. by intros []. Qed.

Section records.
  Context `{Ulid}.

(** A variant with one value: an object of one entry. *)
#[export] Instance enablement_shape : Shape Enablement :=
  {| to_value e :=
       match e with
       | EnabledGlobally b => JObject [("global", to_value b)]
       | EnabledIn ps => JObject [("per_project", Serde.to_value (Shape := list_shape (H := project_id)) ps)]
       end;
     from_value v :=
       match v with
       | JObject [(k, v)] =>
           if bool_decide (k = "global") then EnabledGlobally <$> Serde.from_value v
           else if bool_decide (k = "per_project") then EnabledIn <$> Serde.from_value (Shape := list_shape (H := project_id)) v
           else None
       | _ => None
       end;
     fits e := match e with EnabledGlobally _ => true | EnabledIn ps => fits (Shape := list_shape (H := project_id)) ps end |}.
#[export] Instance enablement_reads `{!UlidReads} : Reads Enablement.
Proof.
  intros [b|ps] He; [done|]. cbn [Serde.to_value Serde.from_value enablement_shape].
  by rewrite (from_to (H := list_shape (H := project_id)) ps He).
Qed.

Definition plugin_status : Layout PluginStatus :=
  as_type (required "id" &&& required "name" &&& required "scope" &&& required "enabled" &&& required "degraded")
    (fun '(i, n, s, e, d) => Plugins.mk_status i n s e d) (fun s => (st_id s, st_name s, st_scope s, st_enabled s, st_degraded s)).
#[export] Instance plugin_status_lawful `{!UlidReads} : Lawful plugin_status.
Proof. lawful plugin_status. Qed.
#[export] Instance plugin_status_shape : Shape PluginStatus := struct_shape plugin_status.
#[export] Instance plugin_status_reads `{!UlidReads} : Reads PluginStatus.
Proof. reads plugin_status. Qed.

Definition enable_params : Layout EnableParams :=
  as_type (required "id" &&& optional (H := project_id) "project_id") (fun '(i, p) => mk_enable i p) (fun p => (e_id p, e_project p)).
#[export] Instance enable_params_lawful `{!UlidReads} : Lawful enable_params.
Proof. lawful enable_params. Qed.
#[export] Instance enable_params_shape : Shape EnableParams := struct_shape enable_params.
#[export] Instance enable_params_reads `{!UlidReads} : Reads EnableParams.
Proof. reads enable_params. Qed.

(** ** The state and its events *)

(** The daemon's own events, and the one nothing sends. *)
Inductive WireEvent : Type := Core (k : DaemonState.EventKind) | PluginChanged (p : PluginStatus).

Definition v_project_changed : Variant WireEvent := mk_variant "project_changed" (required "project") (fun p => Core (ProjectChanged p)).
Definition v_project_removed : Variant WireEvent := mk_variant "project_removed" (required (H := project_id) "id") (fun i => Core (ProjectRemoved i)).
Definition v_job_changed : Variant WireEvent := mk_variant "job_changed" (required "job") (fun j => Core (JobChanged j)).
Definition v_session_changed : Variant WireEvent := mk_variant "session_changed" (required "session") (fun s => Core (SessionChanged s)).
Definition v_plugin_changed : Variant WireEvent := mk_variant "plugin_changed" (required "plugin") PluginChanged.

Definition event_kind : Layout WireEvent :=
  tagged "kind" [v_project_changed; v_project_removed; v_job_changed; v_session_changed; v_plugin_changed]
    (fun k => match k with
              | Core (ProjectChanged p) => existT v_project_changed p
              | Core (ProjectRemoved i) => existT v_project_removed i
              | Core (JobChanged j) => existT v_job_changed j
              | Core (SessionChanged s) => existT v_session_changed s
              | PluginChanged p => existT v_plugin_changed p
              end).
#[export] Instance event_kind_lawful `{!UlidReads} : Lawful event_kind.
Proof.
  apply tagged_lawful. intros [[]|]; (split; [reflexivity|split; [reflexivity|split; [cbn; apply _|reflexivity]]]).
Qed.

Definition wire_event : Layout (Z * WireEvent) := required (H := u64) "seq" &&& event_kind.
#[export] Instance wire_event_lawful `{!UlidReads} : Lawful wire_event.
Proof. lawful wire_event. Qed.

Definition event : Layout Event :=
  mk_layout (names wire_event) (fun e => put wire_event (e_seq e, Core (e_kind e)))
    (fun m => p ← named wire_event m; match snd p with Core k => Some (mk_ev (fst p) k) | PluginChanged _ => None end)
    (fun _ => None) (fun e => holds wire_event (e_seq e, Core (e_kind e))).
#[export] Instance event_lawful `{!UlidReads} : Lawful event.
Proof.
  split; [intros e k; apply (put_names (L := wire_event))|]. intros [s k] m Hh Hm. cbn [named event].
  by rewrite (named_put (L := wire_event) (s, Core k) m Hh Hm).
Qed.
#[export] Instance event_shape : Shape Event := flat_shape event.
#[export] Instance event_reads `{!UlidReads} : Reads Event.
Proof. reads event. Qed.

Definition snapshot : Layout (Snapshot * list PluginStatus) :=
  as_type (required (H := u64) "seq" &&& required "projects" &&& required "jobs" &&& defaulted "sessions" [] &&& defaulted "plugins" [])
    (fun '(q, p, j, s, g) => (mk_snapshot q p j s, g)) (fun '(s, g) => (n_seq s, n_projects s, n_jobs s, n_sessions s, g)).
#[export] Instance snapshot_lawful `{!UlidReads} : Lawful snapshot.
Proof. unfold snapshot. apply as_type_lawful; [apply _|]. by intros [[] ?]. Qed.
#[export] Instance snapshot_shape : Shape (Snapshot * list PluginStatus) := struct_shape snapshot.
#[export] Instance snapshot_reads `{!UlidReads} : Reads (Snapshot * list PluginStatus).
Proof. reads snapshot. Qed.
End records.

(** ** Parameters and results of the methods *)

Definition daemon_hello : Layout Dispatch.Hello :=
  as_type (required "client" &&& required "willie_version" &&& required (H := u32) "protocol_version")
    (fun '(c, w, p) => Dispatch.mk_hello c w p) (fun h => (client h, Dispatch.willie_version h, protocol_version h)).
#[export] Instance daemon_hello_lawful : Lawful daemon_hello.
Proof. lawful daemon_hello. Qed.

(** Version of Willie, of the protocol, and of the image. *)
Definition hello_reply : Layout (string * Z * option string) :=
  required "willie_version" &&& required (H := u32) "protocol_version" &&& optional "distro_image_version".
#[export] Instance hello_reply_lawful : Lawful hello_reply.
Proof. lawful hello_reply. Qed.

Definition health : Layout (Z * Z * string) := required (H := u32) "pid" &&& required (H := u64) "uptime_secs" &&& required "willie_version".
#[export] Instance health_lawful : Lawful health.
Proof. lawful health. Qed.

#[export] Instance check_status_shape : Shape CheckStatus :=
  enum_shape (fun s => match s with CheckOk => "ok" | CheckFail => "fail" | CheckSkip => "skip" end) [CheckOk; CheckFail; CheckSkip].
#[export] Instance check_status_reads : Reads CheckStatus.
Proof. apply enum_reads. by intros []. Qed.

Definition doctor_check : Layout DoctorCheck :=
  as_type (required "name" &&& required "status" &&& defaulted "detail" "" &&& optional "remediation" &&& defaulted "required" false)
    (fun '(n, s, d, r, q) => mk_check n s d r q) (fun c => (Doctor.d_name c, d_status c, d_detail c, d_remediation c, d_required c)).
#[export] Instance doctor_check_lawful : Lawful doctor_check.
Proof. lawful doctor_check. Qed.
#[export] Instance doctor_check_shape : Shape DoctorCheck := struct_shape doctor_check.
#[export] Instance doctor_check_reads : Reads DoctorCheck.
Proof. reads doctor_check. Qed.

Definition doctor_report : Layout DoctorReport := required (A := list DoctorCheck) "checks".
#[export] Instance doctor_report_lawful : Lawful doctor_report.
Proof. lawful doctor_report. Qed.

#[export] Instance entry_kind_shape : Shape EntryKind := enum_shape (fun k => match k with Dir => "dir" | File => "file" end) [Dir; File].
#[export] Instance entry_kind_reads : Reads EntryKind.
Proof. apply enum_reads. by intros []. Qed.

Definition tree_entry : Layout TreeEntry :=
  as_type (required "name" &&& required "kind" &&& optional "git") (fun '(n, k, g) => Workspace.mk_entry n k g)
    (fun e => (Workspace.name e, Workspace.kind e, git e)).
#[export] Instance tree_entry_lawful : Lawful tree_entry.
Proof. lawful tree_entry. Qed.
#[export] Instance tree_entry_shape : Shape TreeEntry := struct_shape tree_entry.
#[export] Instance tree_entry_reads : Reads TreeEntry.
Proof. reads tree_entry. Qed.

Definition tree_result : Layout (list TreeEntry * option string) := required "entries" &&& optional "branch".
#[export] Instance tree_result_lawful : Lawful tree_result.
Proof. lawful tree_result. Qed.

Definition read_file_result : Layout (string * bool) := required "content" &&& required "truncated".
#[export] Instance read_file_result_lawful : Lawful read_file_result.
Proof. lawful read_file_result. Qed.

Definition tool_status : Layout ToolStatus :=
  as_type (required "id" &&& required "name" &&& required "installed" &&& optional "version" &&& optional "recorded_version")
    (fun '(i, n, b, v, r) => Tools.mk_status i n b v r) (fun t => (t_id t, t_name t, t_installed t, t_version t, t_recorded t)).
#[export] Instance tool_status_lawful : Lawful tool_status.
Proof. lawful tool_status. Qed.
#[export] Instance tool_status_shape : Shape ToolStatus := struct_shape tool_status.
#[export] Instance tool_status_reads : Reads ToolStatus.
Proof. reads tool_status. Qed.

Definition tool_list : Layout (list ToolStatus) := required "tools".
Definition install_params : Layout string := required "harness".
Definition update_params : Layout string := required "tool".
#[export] Instance tool_list_lawful : Lawful tool_list.
Proof. lawful tool_list. Qed.
#[export] Instance install_params_lawful : Lawful install_params.
Proof. lawful install_params. Qed.
#[export] Instance update_params_lawful : Lawful update_params.
Proof. lawful update_params. Qed.

Definition explain_result : Layout (list Explained * CapabilitySet) := required "entries" &&& required "capabilities".
#[export] Instance explain_result_lawful : Lawful explain_result.
Proof. lawful explain_result. Qed.

Definition capability_info : Layout CapabilityInfo :=
  as_type (required "capability" &&& required "display_name" &&& required "consequence" &&& required "implemented" &&& required "default_enabled")
    (fun '(c, n, q, i, d) => mk_capability_info c n q i d)
    (fun x => (i_capability x, i_display_name x, i_consequence x, i_implemented x, i_default_enabled x)).
#[export] Instance capability_info_lawful : Lawful capability_info.
Proof. lawful capability_info. Qed.

(** The name and the address of the Windows git. *)
Definition git_identity_layout : Layout (string * string) := required "name" &&& required "email".
#[export] Instance git_identity_lawful : Lawful git_identity_layout.
Proof. lawful git_identity_layout. Qed.
Definition git_identity_shape : Shape (string * string) := struct_shape git_identity_layout.
#[export] Instance git_identity_reads : Reads (H := git_identity_shape) (string * string).
Proof. reads git_identity_layout. Qed.

Section methods.
  Context `{Ulid}.

(** *** Usage *)

Definition provider_usage : Layout (string * list string) := required "id" &&& defaulted "windows" [].
#[export] Instance provider_usage_lawful : Lawful provider_usage.
Proof. lawful provider_usage. Qed.
Definition provider_usage_shape : Shape (string * list string) := struct_shape provider_usage.
#[export] Instance provider_usage_reads : Reads (H := provider_usage_shape) (string * list string).
Proof. reads provider_usage. Qed.

Definition session_usage : Layout SessionUsage :=
  as_type (required (H := session_id) "id" &&& required (H := u64) "tokens" &&& optional (H := u8) "context_pct")
    (fun '(i, t, c) => mk_session_usage i t c) (fun u => (su_id u, su_tokens u, su_pct u)).
#[export] Instance session_usage_lawful `{!UlidReads} : Lawful session_usage.
Proof. lawful session_usage. Qed.
#[export] Instance session_usage_shape : Shape SessionUsage := struct_shape session_usage.
#[export] Instance session_usage_reads `{!UlidReads} : Reads SessionUsage.
Proof. reads session_usage. Qed.

Definition project_usage : Layout (N * Z) := required (H := project_id) "id" &&& required (H := u64) "tokens".
#[export] Instance project_usage_lawful `{!UlidReads} : Lawful project_usage.
Proof. lawful project_usage. Qed.
Definition project_usage_shape : Shape (N * Z) := struct_shape project_usage.
#[export] Instance project_usage_reads `{!UlidReads} : Reads (H := project_usage_shape) (N * Z).
Proof. reads project_usage. Qed.

(** The snapshot, with the providers that nothing fills yet. *)
Definition usage_snapshot : Layout (list (string * list string) * UsageSnapshot) :=
  as_type (required (H := list_shape (H := provider_usage_shape)) "providers" &&& required "sessions"
      &&& required (H := list_shape (H := project_usage_shape)) "projects" &&& required "fetched_at")
    (fun '(p, s, j, t) => (p, mk_usage s j t)) (fun '(p, u) => (p, us_sessions u, us_projects u, Usage.fetched_at u)).
#[export] Instance usage_snapshot_lawful `{!UlidReads} : Lawful usage_snapshot.
Proof. unfold usage_snapshot. apply as_type_lawful; [apply _|]. by intros [? []]. Qed.

(** *** Parameters *)

Definition project_list : Layout (list Project) := required "projects".
Definition job_list : Layout (list Job) := required "jobs".
Definition session_list : Layout (list Session) := required "sessions".
Definition add_params : Layout (string * option string) := required "windows_path" &&& optional "name".
Definition add_result : Layout (N * N) := required (H := project_id) "project_id" &&& required (H := job_id) "job_id".
Definition remove_params : Layout (N * bool * bool) :=
  required (H := project_id) "id" &&& defaulted "delete_workspace" false &&& defaulted "force" false.
Definition project_id_params : Layout N := required (H := project_id) "id".
Definition relocate_params : Layout (N * string) := required (H := project_id) "id" &&& required "windows_path".
Definition project_rename_params : Layout (N * string) := required (H := project_id) "id" &&& required "name".
Definition set_sandbox_params : Layout (N * SandboxProfile) := required (H := project_id) "project_id" &&& required "profile".
Definition job_ref : Layout N := required (H := job_id) "job_id".
Definition tree_params : Layout (N * option string) := required (H := project_id) "id" &&& defaulted "path" None.
Definition read_file_params : Layout (N * string) := required (H := project_id) "id" &&& required "path".
Definition explain_params : Layout N := required (H := project_id) "project_id".
Definition create_params : Layout (N * option (string * string) * bool * option N * SessionKind) :=
  required (H := project_id) "project_id" &&& optional (H := git_identity_shape) "git_identity" &&& defaulted "resume" false
  &&& optional (H := session_id) "resume_from" &&& defaulted "kind" Agent.
Definition create_result : Layout Session := required "session".
Definition session_id_params : Layout N := required (H := session_id) "id".
Definition session_rename_params : Layout (N * option string) := required (H := session_id) "id" &&& defaulted "label" None.

#[export] Instance project_list_lawful `{!UlidReads} : Lawful project_list.
Proof. lawful project_list. Qed.
#[export] Instance job_list_lawful `{!UlidReads} : Lawful job_list.
Proof. lawful job_list. Qed.
#[export] Instance session_list_lawful `{!UlidReads} : Lawful session_list.
Proof. lawful session_list. Qed.
#[export] Instance add_result_lawful `{!UlidReads} : Lawful add_result.
Proof. lawful add_result. Qed.
#[export] Instance project_id_params_lawful `{!UlidReads} : Lawful project_id_params.
Proof. lawful project_id_params. Qed.
#[export] Instance job_ref_lawful `{!UlidReads} : Lawful job_ref.
Proof. lawful job_ref. Qed.
#[export] Instance explain_params_lawful `{!UlidReads} : Lawful explain_params.
Proof. lawful explain_params. Qed.
#[export] Instance create_result_lawful `{!UlidReads} : Lawful create_result.
Proof. lawful create_result. Qed.
#[export] Instance session_id_params_lawful `{!UlidReads} : Lawful session_id_params.
Proof. lawful session_id_params. Qed.
#[export] Instance add_params_lawful : Lawful add_params.
Proof. lawful add_params. Qed.
#[export] Instance remove_params_lawful `{!UlidReads} : Lawful remove_params.
Proof. lawful remove_params. Qed.
#[export] Instance relocate_params_lawful `{!UlidReads} : Lawful relocate_params.
Proof. lawful relocate_params. Qed.
#[export] Instance project_rename_params_lawful `{!UlidReads} : Lawful project_rename_params.
Proof. lawful project_rename_params. Qed.
#[export] Instance set_sandbox_params_lawful `{!UlidReads} : Lawful set_sandbox_params.
Proof. lawful set_sandbox_params. Qed.
#[export] Instance tree_params_lawful `{!UlidReads} : Lawful tree_params.
Proof. lawful tree_params. Qed.
#[export] Instance read_file_params_lawful `{!UlidReads} : Lawful read_file_params.
Proof. lawful read_file_params. Qed.
#[export] Instance create_params_lawful `{!UlidReads} : Lawful create_params.
Proof. lawful create_params. Qed.
#[export] Instance session_rename_params_lawful `{!UlidReads} : Lawful session_rename_params.
Proof. lawful session_rename_params. Qed.
End methods.
