(* ===== verification/Interop.v ===== *)
(** * What one side asks and the other reads

    The calls of the engine (crates/willie-engine/src/engine.rs) against the
    handlers of the daemon (crates/willied/src/handlers.rs) over the JSON of
    both, with the daemon's codec and its operations as the wire has them; the
    stream of the daemon's state as a client reads it; and the sandbox with a
    permission that is not known. *)

From S2P Require Import Prelude Text Utf8 BTree Json Sandbox Project Session Effects Git Jobs Sessions EngineRpc Wsl Engine DaemonState View Rpc Dispatch Workspace Plugins Serde Shapes Messages.

Local Open Scope string_scope.
Local Open Scope list_scope.
Local Open Scope willie_scope.

Definition to_json {A} (L : Layout A) (a : A) : Json := JObject (put L a).

Definition of_json {A} (L : Layout A) (v : Json) : option A := Serde.from_value (Shape := struct_shape L) v.

Lemma of_to_json {A} (L : Layout A) `{!Lawful L} a : holds L a = true -> of_json L (to_json L a) = Some a.
Proof. apply (struct_reads L). Qed.

(** ** The daemon's codec *)

Section codec.
  Context `{Ulid} (refusal : Json -> string).

Definition decode {A} (L : Layout A) (v : Json) : result A string :=
  match of_json L v with Some a => Ok a | None => Err (refusal v) end.

Definition read {B} (sh : Shape B) (v : Json) : result B string :=
  match Serde.from_value v with Some b => Ok b | None => Err (refusal v) end.

Definition codec : Codec :=
  mk_codec (decode daemon_hello)
    (read job_id)
    (fun s => match id_from_str ulid_from_string KProject s with Ok i => Ok i | Err _ => Err (refusal (JString s)) end)
    (decode explain_params) (decode tree_params) (decode read_file_params) (decode enable_params)
    (fun l => Ok (to_json project_list l)) (fun l => Ok (to_json job_list l)) (fun j => Ok (Serde.to_value j))
    (fun l c => Ok (to_json explain_result (l, c))) (fun l b => Ok (to_json tree_result (l, b)))
    (fun s b => Ok (to_json read_file_result (s, b))) Serde.to_value (fun s p => Ok (Serde.to_value (s, p)))
    (fun w p i => Ok (to_json hello_reply (w, p, i))).

Lemma decode_back {A} (L : Layout A) `{!Lawful L} a : holds L a = true -> decode L (to_json L a) = Ok a.
Proof. intros Ha. unfold decode. by rewrite of_to_json. Qed.
End codec.

(** ** Operations end to end *)

(** An operation as the wire has it: its method, what it takes, what it gives,
    and what it does to the daemon's world. *)
Record Offer (W : Type) : Type := mk_offer {
  o_method : string;
  o_in : Type;
  o_out : Type;
  o_takes : Layout o_in;
  o_gives : Shape o_out;
  o_does : o_in -> W -> result o_out OpError * W
}.
#[global] Arguments mk_offer {W} o_method {o_in o_out}. #[global] Arguments o_method {W}. #[global] Arguments o_in {W}.
#[global] Arguments o_out {W}. #[global] Arguments o_takes {W}. #[global] Arguments o_gives {W}. #[global] Arguments o_does {W}.

(** What the operations of projects.rs and sessions.rs do. *)
Record Operations (W : Type) : Type := mk_operations {
  add : string * option string -> W -> result (N * N) OpError * W;
  remove : N * bool * bool -> W -> result N OpError * W;
  sync_to_windows : N -> W -> result N OpError * W;
  update_from_windows : N -> W -> result N OpError * W;
  relocate : N * string -> W -> result N OpError * W;
  rename_project : N * string -> W -> result Project OpError * W;
  set_sandbox : N * SandboxProfile -> W -> result Project OpError * W;
  install_tool : string -> W -> result N OpError * W;
  update_tool : string -> W -> result N OpError * W;
  create : N * option (string * string) * bool * option N * SessionKind -> W -> result Session OpError * W;
  stop : N -> W -> result unit OpError * W;
  rename_session : N * option string -> W -> result Session OpError * W
}.
#[global] Arguments add {W}. #[global] Arguments remove {W}. #[global] Arguments sync_to_windows {W}.
#[global] Arguments update_from_windows {W}. #[global] Arguments relocate {W}. #[global] Arguments rename_project {W}.
#[global] Arguments set_sandbox {W}. #[global] Arguments install_tool {W}. #[global] Arguments update_tool {W}.
#[global] Arguments create {W}. #[global] Arguments stop {W}. #[global] Arguments rename_session {W}.

Section offers.
  Context `{Ulid} {W : Type} (f : Operations W).

Definition offer_add : Offer W := mk_offer "project.add" add_params (struct_shape add_result) (add f).
Definition offer_remove : Offer W := mk_offer "project.remove" remove_params (struct_shape job_ref) (remove f).
Definition offer_sync : Offer W := mk_offer "project.sync_to_windows" project_id_params (struct_shape job_ref) (sync_to_windows f).
Definition offer_update : Offer W := mk_offer "project.update_from_windows" project_id_params (struct_shape job_ref) (update_from_windows f).
Definition offer_relocate : Offer W := mk_offer "project.relocate" relocate_params (struct_shape job_ref) (relocate f).
Definition offer_rename : Offer W := mk_offer "project.rename" project_rename_params project_shape (rename_project f).
Definition offer_set_sandbox : Offer W := mk_offer "project.set_sandbox" set_sandbox_params project_shape (set_sandbox f).
Definition offer_install : Offer W := mk_offer "tool.install" install_params (struct_shape job_ref) (install_tool f).
Definition offer_tool_update : Offer W := mk_offer "tool.update" update_params (struct_shape job_ref) (update_tool f).
Definition offer_create : Offer W := mk_offer "session.create" create_params (struct_shape create_result) (create f).
Definition offer_stop : Offer W := mk_offer "session.stop" session_id_params unit_shape (stop f).
Definition offer_session_rename : Offer W := mk_offer "session.rename" session_rename_params session_shape (rename_session f).

Context (refusal : Json -> string).

(** The handler of an operation: handlers.rs. *)
Definition endpoint (o : Offer W) : Endpoint W :=
  mk_endpoint W (o_in o) (o_out o) (decode refusal (o_takes o)) (o_does o) (fun b => Ok (Serde.to_value (Shape := o_gives o) b)).

(** The rest of what the dispatcher is given. *)
Context (state_of : W -> State) (list_tools : W -> result Json string) (list_sessions : W -> result Json string * W) (cancel_job : N -> W -> W)
  (refresh_source_present title_untitled : W -> W) (health_reply : W -> result Json string) (doctor_report : W -> result Json string * W)
  (image_version : W -> option string).

Definition services : Services W :=
  mk_services W state_of (endpoint offer_add) (endpoint offer_remove) (endpoint offer_sync) (endpoint offer_update) (endpoint offer_relocate)
    (endpoint offer_rename) (endpoint offer_set_sandbox) (endpoint offer_install) (endpoint offer_tool_update) (endpoint offer_create)
    (endpoint offer_stop) (endpoint offer_session_rename) list_tools list_sessions cancel_job refresh_source_present title_untitled
    health_reply doctor_report image_version.
End offers.

(** ** The state's stream *)

Section stream.
  Context `{Ulid}.

(** An event as it is sent, and what else is in its object. *)
Definition event_json (more : Event -> Entries) (e : Event) : Json := JObject (put event e ++ more e).

Definition snapshot_json (more : Entries) (n : Snapshot) (plugins : list PluginStatus) : Json :=
  JObject (put snapshot (n, plugins) ++ more).

(** None of the entries is one the layout knows. *)
Definition unknown {A} (L : Layout A) (more : Entries) : bool := disjoint_names (keys more) (names L).

(** What the page reads of them. *)
Definition heard (more : Event -> Entries) (e : Event) : option Event := Serde.from_value (event_json more e).

Definition seen (more : Entries) (plugins : list PluginStatus) (n : Snapshot) : option Snapshot :=
  fst <$> Serde.from_value (A := Snapshot * list PluginStatus) (snapshot_json more n plugins).

(** The largest integer of JavaScript's that is one number only. *)
Definition MAX_SAFE_INTEGER : Z := 9007199254740991.

(** C8. The webview, over the JSON of both sides, sees the daemon's state,
    however the daemon's mutations, the events on their way, the fetches and
    the holders of the store interleave, and whatever fields are added at the
    top of the events' objects and of the snapshots'.  Events are numbered one
    after the other.  What is shown is always, by id and with no id twice, the
    state the daemon had after its first [n_seq] mutations.  Where nothing is
    lost since, the delivery of what is on its way makes it the daemon's state
    of now; an event that does not follow, lost ones before it or stale, is
    not applied and a fetch is begun; and a fetch that is answered shows the
    daemon's state then. *)
Theorem a_view_crosses_the_wire `{!UlidReads} (records : list Project) (moves : list View.Move) plugins new more :
  let ms := committed moves in
  (Z.of_nat (length ms) <= MAX_SAFE_INTEGER)%Z ->
  unknown snapshot new = true -> (forall e, unknown event (more e) = true) ->
  forallb (holds event) (events records ms) = true ->
  (forall k, (k <= length ms)%nat -> holds snapshot (DaemonState.snapshot (history records ms k), plugins) = true) ->
  map e_seq (events records ms) = seqZ 1 (Z.of_nat (length ms)) /\
  true_view (heard more) (seen new plugins) records ms (View.run (heard more) (seen new plugins) (at_start records) moves).
Proof.
  intros ms Hl Hn Hm He Hs. assert (Hc : (Z.of_nat (length ms) <= u64_max)%Z) by (etrans; [exact Hl|by apply Z.leb_le]).
  split; [by apply events_numbered|]. apply run_true; [| |done].
  - rewrite forallb_forall in He. apply Forall_forall. intros e Hin. apply list_elem_of_In, He in Hin.
    exact (named_among event e (more e) Hin (Hm e)).
  - intros k Hk. unfold seen. replace (Serde.from_value (snapshot_json new (DaemonState.snapshot (history records ms k)) plugins))
      with (Some (DaemonState.snapshot (history records ms k), plugins)); [done|]. symmetry.
    exact (named_among snapshot (DaemonState.snapshot (history records ms k), plugins) new (Hs k Hk) Hn).
Qed.
End stream.

(** ** Between the engine and the daemon *)

Section between.
  Context {S : Type} (others : nat -> S -> S).
  Context (spawn_daemon : S -> result N WslError * S) (watch_stderr wire : N -> S -> result unit WslError * S)
    (rpc_call : N -> string -> Json -> S -> result Json EngineError * S) (try_wait : N -> S -> result (option Z) WslError * S)
    (stderr_text stray : N -> S -> string) (kill_process reap : N -> S -> S).
  Context (wsl : list string -> S -> CliOutput * S) (install_dir : option string) (settle_polls grace_polls : nat) (version : string).
  Context (hello_of : Json -> result (string * option string) string).
  Context `{Ulid} (refusal : Json -> string).
  Context {W : Type} (f : Operations W) (home : string).
  Context (state_of : W -> State) (list_tools : W -> result Json string) (list_sessions : W -> result Json string * W) (cancel : N -> W -> W)
    (refresh_source_present title_untitled : W -> W) (health_reply : W -> result Json string) (report : W -> result Json string * W)
    (image_version : W -> option string).
  Context (create_dirs : string -> W -> bool * W) (write_file : string -> string -> W -> bool * W)
    (print_enabled : gmap string EnabledEntry -> result string string).
  Context (canonicalize : string -> W -> result string string) (read_dir : string -> W -> option (list (string * option bool)))
    (metadata : string -> W -> Metadata) (open : string -> W -> result string string)
    (to_lowercase : string -> string) (git_run : string -> list string -> W -> Git.Output).

Local Notation "'calling' g" :=
  (g S others spawn_daemon watch_stderr wire rpc_call try_wait stderr_text stray kill_process reap wsl install_dir settle_polls grace_polls version hello_of)
  (at level 9, g at level 0).

Local Abbreviation v := (services f refusal state_of list_tools list_sessions cancel refresh_source_present title_untitled health_reply report
  image_version).

Local Abbreviation answer_of := (dispatch v (codec refusal) ulid_to_string home version create_dirs write_file print_enabled
  canonicalize read_dir metadata open to_lowercase git_run).

(** A request over the wire and its response back, both as JSON. *)
Definition exchange (i : Z) (method : string) (params : Json) (s : Server) : option (result Json RpcError * Server) :=
  q ← Serde.from_value (Serde.to_value (mk_rpc_request i method params));
  let '(r, s) := answer_of q s in
  r ← Serde.from_value (Serde.to_value r);
  Some (a_outcome r, s).

(** What the engine makes of an outcome. *)
Definition answered (o : Offer W) (r : result Json RpcError) : result (o_out o) EngineError :=
  decoded (o_method o) (read refusal (o_gives o)) (map_err ERpc r).

Definition given (o : Offer W) (r : result (o_out o) OpError) : bool := match r with Ok b => fits (Shape := o_gives o) b | Err _ => true end.

(** The engine calls the operation, and is told what it did. *)
Definition kept (o : Offer W) (a : o_in o) (op : Engine -> E (S := S) (result (o_out o) EngineError * Engine)) : Prop :=
  op = calling (@daemon_call) (o_method o) (to_json (o_takes o) a) (read refusal (o_gives o))
  /\ forall i s, in_range 0 u64_max i = true -> holds (o_takes o) a = true ->
     let '(r, w) := o_does o a (world s) in
     given o r = true ->
     (fun x => (answered o (fst x), snd x)) <$> exchange i (o_method o) (to_json (o_takes o) a) s
       = Some (map_err (fun e => ERpc (op_error e)) r, mk_server (host s) w (shutting_down s)).

Lemma request_back i method params : in_range 0 u64_max i = true ->
  Serde.from_value (Serde.to_value (mk_rpc_request i method params)) = Some (mk_rpc_request i method params).
Proof. intros Hi. apply from_to. cbn -[in_range]. by rewrite Hi. Qed.

(** A response comes back with its outcome, though a null result comes back as
    none. *)
Lemma respond_back i r : in_range 0 u64_max i = true ->
  exists r', Serde.from_value (Serde.to_value (respond i r)) = Some r' /\ a_outcome r' = r.
Proof.
  intros Hi. destruct r as [[]|[c m h]].
  1: { exists (mk_response i None None). split; [|done]. cbv -[in_range u64_max]. by rewrite Hi. }
  all: eexists; (split; [apply from_to|apply respond_outcome]); cbn -[in_range]; rewrite Hi; try reflexivity.
  by destruct h.
Qed.

Lemma exchange_is i method params s : in_range 0 u64_max i = true ->
  exchange i method params s =
    let '(r, s) := match route v (codec refusal) ulid_to_string home version create_dirs write_file print_enabled canonicalize read_dir metadata
                           open to_lowercase git_run method with
                   | Some h => h params s
                   | None => (Err (method_not_found method), s)
                   end in Some (r, s).
Proof.
  intros Hi. unfold exchange. rewrite (request_back i method params Hi). cbn [mbind option_bind]. unfold dispatch. cbn [q_method q_params q_id].
  destruct (match route _ _ _ _ _ _ _ _ _ _ _ _ _ _ _ with Some h => h params s | None => _ end) as [r s'].
  destruct (respond_back i r Hi) as (r' & -> & <-). reflexivity.
Qed.

Lemma offer_kept (o : Offer W) `{!Lawful (o_takes o)} `{!Reads (H := o_gives o) (o_out o)} a op :
  op = calling (@daemon_call) (o_method o) (to_json (o_takes o) a) (read refusal (o_gives o)) ->
  route v (codec refusal) ulid_to_string home version create_dirs write_file print_enabled canonicalize read_dir metadata
    open to_lowercase git_run (o_method o) = Some (fun p s => on_world (serve_endpoint (endpoint refusal o) p (world s)) s) ->
  kept o a op.
Proof.
  intros Hop Hr. split; [done|]. intros i s Hi Ha. destruct (o_does o a (world s)) as [r w] eqn:E. intros Hg.
  rewrite exchange_is by done. rewrite Hr. unfold serve_endpoint, endpoint. cbn [Dispatch.from_value Dispatch.operate Dispatch.to_value].
  rewrite decode_back by done. rewrite E. destruct r as [b|e]; [|reflexivity]. cbn. unfold answered, read. cbn.
  by rewrite (from_to (H := o_gives o) b Hg).
Qed.

(** A request that carries arguments is read as it was meant. *)
Definition understood {A R} (method : string) (L : Layout A) (a : A) (answer : Json -> result R string)
    (op : Engine -> E (S := S) (result R EngineError * Engine)) : Prop :=
  op = calling (@daemon_call) method (to_json L a) answer
  /\ (holds L a = true -> forall i, in_range 0 u64_max i = true ->
      (q ← Serde.from_value (Serde.to_value (mk_rpc_request i method (to_json L a))); of_json L (q_params q)) = Some a).

Lemma understand {A R} method (L : Layout A) `{!Lawful L} a (answer : Json -> result R string) op :
  op = calling (@daemon_call) method (to_json L a) answer -> understood method L a answer op.
Proof. intros Ha. split; [done|]. intros Hh i Hi. rewrite request_back by done. by apply of_to_json. Qed.

(** C9. What the engine calls is what the daemon does, for every operation of
    the application that changes the daemon's world.  The request the engine
    makes of its arguments, as JSON over the wire, is decoded by the daemon's
    handler to the same arguments; the operation runs on them once; and the
    engine is told its result, or its error with its code, message and
    remediation, whether or not the result is a null.  The calls that only
    read, cancel or enable are read as they were meant. *)
Theorem the_daemon_does_what_is_asked `{!UlidReads} is_dir session job project project' session' b1 b2 text text' kind identity profile :
  let asked := calling (@daemon_call) "project.add" (to_json add_params (text, text')) (read refusal (struct_shape add_result)) in
  kept (offer_add f) (text, text') asked
  /\ (forall e, Engine.project_add others spawn_daemon watch_stderr wire rpc_call try_wait stderr_text stray kill_process reap wsl install_dir is_dir
        settle_polls grace_polls version hello_of (read refusal (struct_shape add_result)) text text' e
      = let* dir := on_disk others is_dir text in if (dir : bool) then asked e else ret (Err (EPathNotFound text), e))
  /\ kept (offer_remove f) (project, b1, b2) (calling (@Engine.project_remove) ulid_to_string (read refusal (struct_shape job_ref)) project b1 b2)
  /\ kept (offer_sync f) project (calling (@Engine.project_sync_to_windows) ulid_to_string (read refusal (struct_shape job_ref)) project)
  /\ kept (offer_update f) project (calling (@Engine.project_update_from_windows) ulid_to_string (read refusal (struct_shape job_ref)) project)
  /\ kept (offer_relocate f) (project, text) (calling (@Engine.project_relocate) ulid_to_string (read refusal (struct_shape job_ref)) project text)
  /\ kept (offer_rename f) (project, text) (calling (@Engine.project_rename) ulid_to_string (read refusal project_shape) project text)
  /\ kept (offer_set_sandbox f) (project, profile)
       (calling (@Engine.project_set_sandbox) ulid_to_string (Serde.to_value profile) (read refusal project_shape) project)
  /\ kept (offer_install f) text (calling (@Engine.tool_install) (read refusal (struct_shape job_ref)) text)
  /\ kept (offer_tool_update f) text (calling (@Engine.tool_update) (read refusal (struct_shape job_ref)) text)
  /\ kept (offer_create f) (project, identity, b1, session', kind)
       (calling (@Engine.session_create) ulid_to_string (read refusal (struct_shape create_result)) project identity b1 session' kind)
  /\ kept (offer_stop f) session (calling (@Engine.session_stop) ulid_to_string (read refusal unit_shape) session)
  /\ kept (offer_session_rename f) (session, text')
       (calling (@Engine.session_rename) ulid_to_string (read refusal session_shape) session text')
  /\ understood "project.tree" tree_params (project, text') (read refusal (struct_shape tree_result))
       (calling (@Engine.project_tree) ulid_to_string (read refusal (struct_shape tree_result)) project text')
  /\ understood "project.read_file" read_file_params (project, text) (read refusal (struct_shape read_file_result))
       (calling (@Engine.project_read_file) ulid_to_string (read refusal (struct_shape read_file_result)) project text)
  /\ understood "plugin.enable" enable_params (mk_enable text project') (read refusal plugin_status_shape)
       (calling (@Engine.plugin_enable) ulid_to_string (read refusal plugin_status_shape) text project')
  /\ understood "plugin.disable" enable_params (mk_enable text project') (read refusal plugin_status_shape)
       (calling (@Engine.plugin_disable) ulid_to_string (read refusal plugin_status_shape) text project')
  /\ understood "job.cancel" (required (H := job_id) "id") job (read refusal unit_shape)
       (calling (@Engine.job_cancel) ulid_to_string (read refusal unit_shape) job).
Proof.
  intros asked. subst asked.
  repeat match goal with
  | |- kept _ _ _ /\ _ => split; [apply offer_kept; first [apply _|apply struct_reads; apply _|reflexivity|by destruct identity as [[]|], session', kind|by destruct text']|]
  | |- understood _ _ _ _ _ /\ _ => split; [apply understand; first [apply _|reflexivity|by destruct text'|by destruct project']|]
  | |- (forall e, _) /\ _ => split; [by destruct text'|]
  end.
  by apply understand; [apply _|].
Qed.

(** A sandbox with a permission the daemon does not know is refused whole: the
    request is an error and nothing changes. *)
Theorem an_unknown_permission_is_refused i m p key s : in_range 0 u64_max i = true ->
  get "profile" m = Some (JObject p) -> key ∈ keys p -> key ∉ names sandbox_profile ->
  exchange i "project.set_sandbox" (JObject m) s = Some (Err (invalid_params (refusal (JObject m))), s).
Proof.
  intros Hi Hm Hk Hn. rewrite exchange_is by done. change (route v _ _ _ _ _ _ _ _ _ _ _ _ _ "project.set_sandbox")
    with (Some (fun p (s : Server) => on_world (serve_endpoint (endpoint refusal (offer_set_sandbox f)) p (world s)) s)).
  unfold serve_endpoint, endpoint. cbn [Dispatch.from_value].
  replace (decode refusal _ (JObject m)) with (Err (A := N * SandboxProfile) (refusal (JObject m))); [by destruct s|].
  symmetry. unfold decode, of_json. cbn [o_takes offer_set_sandbox Serde.from_value struct_shape]. unfold set_sandbox_params, both, required.
  cbn [named]. rewrite Hm. cbn [mbind option_bind]. unfold sandbox_profile_shape.
  rewrite (strict_refuses sandbox_profile p key Hk Hn). by destruct (get "project_id" m ≫= _).
Qed.
End between.

(** ** At concrete inputs *)

#[local] Instance unary_ulid : Ulid := {| ulid_to_string := unary; ulid_from_string s := Some (N.of_nat (String.length s)) |}.

#[local] Instance unary_reads : UlidReads.
Proof. intros u _. cbn. unfold unary. f_equal. induction u as [|u IH] using N.peano_ind; [done|]. rewrite N.iter_succ. cbn. lia. Qed.

Definition no_refusal (_ : Json) : string := "it does not read".

Definition one_session : Session :=
  mk_session 3 2 "claude-code" "/w" Agent Session.Running "100" (Some "101") None (Some 4242%Z) 1 None (Some "fix") None sandbox_default.

(** A world of one session, which stops, or is renamed. *)
Definition sample_operations : Operations (option Session) :=
  let refuse {A} w : result A OpError * option Session := (Err (mk_op "unused" "unused" "unused"), w) in
  mk_operations _ (fun _ => refuse) (fun _ => refuse) (fun _ => refuse) (fun _ => refuse) (fun _ => refuse) (fun _ => refuse) (fun _ => refuse)
    (fun _ => refuse) (fun _ => refuse) (fun _ => refuse) (fun _ _ => (Ok tt, None))
    (fun _ w => (match w with Some s => Ok s | None => Err (mk_op "session_not_found" "gone" "list them") end, w)).

Definition sample_server : Server (W := option Session) := mk_server (mk_host [] ∅ ∅ "/s") (Some one_session) false.

Definition nothing {A} {B} (b : B) (_ : A) : B := b.

Definition sample_exchange : string -> Json -> option (result Json RpcError * Server) :=
  let ok : option Session -> result Json string := nothing (Ok JNull) in
  fun method params => exchange "1.0" no_refusal sample_operations "/home/willie" (nothing state_new) ok (fun w => (ok w, w)) (fun _ w => w)
    (fun w => w) (fun w => w) ok (fun w => (ok w, w)) (nothing None) (fun _ w => (true, w)) (fun _ _ w => (true, w)) (nothing (Ok EmptyString))
    (fun f _ => Ok f) (fun _ _ => None) (fun _ _ => NoMetadata EmptyString) (fun _ _ => Err EmptyString) (fun s => s)
    (fun _ _ _ => NoSpawn EmptyString) 7 method params sample_server.

Lemma the_daemon_does_what_is_asked_witness :
  (fun x => (answered no_refusal (offer_session_rename sample_operations) (fst x), snd x))
      <$> sample_exchange "session.rename" (to_json session_rename_params (3%N, Some "fix")) = Some (Ok one_session, sample_server)
  /\ (fun x => (answered no_refusal (offer_stop sample_operations) (fst x), snd x))
      <$> sample_exchange "session.stop" (to_json session_id_params 3%N) = Some (Ok tt, mk_server (host sample_server) None false)
  /\ (fun x => (answered no_refusal (offer_rename sample_operations) (fst x), snd x))
      <$> sample_exchange "project.rename" (to_json project_rename_params (2%N, "x"))
     = Some (Err (ERpc (mk_rpc "unused" "unused" (Some "unused"))), sample_server).
Proof.
  pose proof (the_daemon_does_what_is_asked (S := unit) (fun _ s => s) (fun s => (Ok 1%N, s)) (fun _ s => (Ok tt, s)) (fun _ s => (Ok tt, s))
    (fun _ _ _ s => (Ok JNull, s)) (fun _ s => (Ok None, s)) (fun _ _ => EmptyString) (fun _ _ => EmptyString) (fun _ s => s) (fun _ s => s)
    (fun _ s => (CliMissing, s)) None 1 1 "1.0" (fun _ => Err EmptyString) no_refusal sample_operations "/home/willie"
    (nothing state_new) (nothing (Ok JNull)) (fun w => (Ok JNull, w)) (fun _ w => w) (fun w => w) (fun w => w) (nothing (Ok JNull))
    (fun w => (Ok JNull, w)) (nothing None) (fun _ w => (true, w)) (fun _ _ w => (true, w)) (nothing (Ok EmptyString))
    (fun f _ => Ok f) (fun _ _ => None) (fun _ _ => NoMetadata EmptyString) (fun _ _ => Err EmptyString) (fun s => s)
    (fun _ _ _ => NoSpawn EmptyString) (fun _ _ => true) 3%N 5%N 2%N None None false false "x" (Some "fix") Agent None default_profile)
    as (_ & _ & _ & _ & _ & _ & [_ H1] & _ & _ & _ & _ & [_ H2] & [_ H3] & _).
  split; [exact (H3 7%Z sample_server eq_refl eq_refl eq_refl)|].
  split; [exact (H2 7%Z sample_server eq_refl eq_refl eq_refl)|exact (H1 7%Z sample_server eq_refl eq_refl eq_refl)].
Defined.

(** The daemon a version later writes what this one does not know. *)
Definition later_fields (e : Event) : Entries := [("origin", JString "daemon"); ("at", JNumber (Int (e_seq e)))].

(** The store fetches while a session is created; a later event is lost, the
    one after it does not follow, and the fetch it begins is answered. *)
Definition sample_moves : list View.Move :=
  let job := mk_job 5 Add (Some 4%N) JDone "100" None EmptyString in
  [View.Acquire; View.Mutate (MUpsertSession one_session); View.Answer 0; View.Resolve 0; View.Mutate (MUpsertJob job); View.Deliver 1; View.Deliver 1;
   View.Mutate (MRemoveProject 4); View.Mutate (MUpsertJob job); View.Lose; View.Deliver 1; View.Answer 1; View.Resolve 0].

Lemma a_view_crosses_the_wire_witness :
  let s := View.run (heard later_fields) (seen [("hint", JNull)] []) (at_start []) sample_moves in
  true_view (heard later_fields) (seen [("hint", JNull)] []) [] (committed sample_moves) s
  /\ (n_seq <$> shown (View.store s)) = Some 4%Z /\ length (View.asked s) = 1%nat.
Proof.
  cbv zeta. split; [|vm_compute; by split].
  apply (a_view_crosses_the_wire [] sample_moves [] [("hint", JNull)] later_fields).
  - unfold MAX_SAFE_INTEGER. cbn. lia.
  - vm_compute. reflexivity.
  - intros e. vm_compute. reflexivity.
  - vm_compute. reflexivity.
  - intros k Hk. cbn in Hk. do 5 (destruct k as [|k]; [vm_compute; reflexivity|]). lia.
Defined.

Lemma an_unknown_permission_is_refused_witness :
  sample_exchange "project.set_sandbox" (JObject [("project_id", JString "proj_xx"); ("profile", JObject [("root", JBool true)])])
  = Some (Err (invalid_params "it does not read"), sample_server).
Proof.
  unfold sample_exchange. cbv beta zeta. apply an_unknown_permission_is_refused with (p := [("root", JBool true)]) (key := "root"); [reflexivity|reflexivity|by left|].
  apply (disjoint_names_out ["root"]); [reflexivity|by left].
Defined.
